(** * The radix store (store.c) and the event engine (event.c)

    A shallow embedding of the two cores of the library and the
    properties established about them.  The C heap is modelled as a finite
    map from addresses to records, one record type per C struct; NULL is
    [None].  A call either returns ([Done]), runs into undefined behaviour
    such as a NULL dereference or an out-of-bounds read ([Crash]), or
    exhausts the iteration bound of one of its loops ([Timeout]).

    The embedding is sequential: every call runs to completion before the
    next one starts, so the reader/writer lock and the per-node spin locks,
    which are taken and released inside a single call, are left out. *)

From stdpp Require Import gmap list.

Local Open Scope Z_scope.

Abbreviation addr := nat (only parsing).

(** ** Outcome of a call *)

Inductive outcome (A : Type) : Type :=
| Done (a : A)
| Crash
| Timeout.
Arguments Done {A} a.
Arguments Crash {A}.
Arguments Timeout {A}.

#[global] Instance outcome_ret : MRet outcome := fun A a => Done a.
#[global] Instance outcome_bind : MBind outcome := fun A B f m =>
  match m with
  | Done a => f a
  | Crash => Crash
  | Timeout => Timeout
  end.

(** A dereference of [None] (NULL) or of a failed read is undefined. *)
Definition must {A} (o : option A) : outcome A :=
  match o with
  | Some a => Done a
  | None => Crash
  end.

Definition u8 (z : Z) : Z := z mod 256.
Definition u32 (z : Z) : Z := z mod 2 ^ 32.

(** ** bitwise.c *)

Module Bitwise.

Definition ABS (x : Z) : Z :=
  x * ((if 0 <? x then 1 else 0) - (if x <? 0 then 1 else 0)).

Definition bitmasks : list Z := [0; 1; 3; 7; 15; 31; 63; 127; 255].

(** [get_bits key bit_index bit_len]: the recursion of the C function is on
    a strictly smaller [bit_len], which bounds its depth.  [None] stands
    for a read outside [key] or outside [bitmasks]. *)
Fixpoint get_bits_rec (depth : nat) (key : list Z) (bit_index bit_len : Z)
  : option Z :=
  match depth with
  | O => None
  | S depth =>
    let pos := bit_index / 8 in
    let idx := u8 (bit_index - 8 * pos) in
    data ← key !! Z.to_nat pos;
    let shift := (8 - bit_len) - idx in
    data ← (if shift <? 0 then
              let part1 := bit_len - ABS shift in
              let part2 := ABS shift in
              hi ← get_bits_rec depth key bit_index (u8 part1);
              lo ← get_bits_rec depth key (u32 (bit_index + part1)) (u8 part2);
              Some (u8 (u8 (Z.shiftl hi part2) + lo))
            else Some (Z.shiftr data shift));
    m ← bitmasks !! Z.to_nat bit_len;
    Some (Z.land data m)
  end.

Definition get_bits (key : list Z) (bit_index bit_len : Z) : option Z :=
  get_bits_rec (S (Z.to_nat bit_len)) key bit_index bit_len.

(** Bit [n] of the buffer, counted from the most significant bit of
    byte 0. *)
Definition keybit (k : list Z) (n : Z) : bool :=
  Z.testbit (default 0 (k !! Z.to_nat (n / 8))) (7 - n mod 8).

Definition bytes (k : list Z) : Prop := Forall (λ b, 0 ≤ b < 256) k.

End Bitwise.

(** ** store.c *)

Module Store.

Import Bitwise.

Definition MASK_TIME_LIST : Z := 1.
Definition MASK_DELETE_LIST : Z := 2.
Definition MASK_DEAD : Z := 4.

(** [store_elem_t].  The key buffer a node owns is held by value in
    [n_key]; sharing of a key goes through the [n_key_ref] pointer, as in
    the source.  [n_data] and [n_cb] are opaque pointers. *)
Record store_elem : Type := mk_elem {
  n_parent : option addr;
  n_next : option addr;
  n_childrens : option addr;
  n_olist : option addr;
  n_dlist : option addr;
  n_id : Z;
  n_level : Z;
  n_mask : Z;
  n_data : Z;
  n_key : option (list Z);
  n_key_ref : option addr;
  n_ts : Z;
  n_cb : option Z
}.

Definition NODEP_dlist (x : store_elem) : bool :=
  negb (Z.land (n_mask x) MASK_DELETE_LIST =? 0).
Definition NODEP_olist (x : store_elem) : bool :=
  negb (Z.land (n_mask x) MASK_TIME_LIST =? 0).
Definition NODEP_dead (x : store_elem) : bool :=
  negb (Z.land (n_mask x) MASK_DEAD =? 0).

(** The result of [memset(p, 0, sizeof( *p))]. *)
Definition zero_elem : store_elem :=
  mk_elem None None None None None 0 0 0 0 None None 0 None.

Definition set_next (v : option addr) (e : store_elem) : store_elem :=
  mk_elem (n_parent e) v (n_childrens e) (n_olist e) (n_dlist e) (n_id e)
    (n_level e) (n_mask e) (n_data e) (n_key e) (n_key_ref e) (n_ts e) (n_cb e).
Definition set_childrens (v : option addr) (e : store_elem) : store_elem :=
  mk_elem (n_parent e) (n_next e) v (n_olist e) (n_dlist e) (n_id e)
    (n_level e) (n_mask e) (n_data e) (n_key e) (n_key_ref e) (n_ts e) (n_cb e).
Definition set_olist (v : option addr) (e : store_elem) : store_elem :=
  mk_elem (n_parent e) (n_next e) (n_childrens e) v (n_dlist e) (n_id e)
    (n_level e) (n_mask e) (n_data e) (n_key e) (n_key_ref e) (n_ts e) (n_cb e).
Definition set_dlist (v : option addr) (e : store_elem) : store_elem :=
  mk_elem (n_parent e) (n_next e) (n_childrens e) (n_olist e) v (n_id e)
    (n_level e) (n_mask e) (n_data e) (n_key e) (n_key_ref e) (n_ts e) (n_cb e).
Definition set_mask (v : Z) (e : store_elem) : store_elem :=
  mk_elem (n_parent e) (n_next e) (n_childrens e) (n_olist e) (n_dlist e)
    (n_id e) (n_level e) v (n_data e) (n_key e) (n_key_ref e) (n_ts e) (n_cb e).
Definition set_key (v : option (list Z)) (e : store_elem) : store_elem :=
  mk_elem (n_parent e) (n_next e) (n_childrens e) (n_olist e) (n_dlist e)
    (n_id e) (n_level e) (n_mask e) (n_data e) v (n_key_ref e) (n_ts e) (n_cb e).
Definition set_cb (v : option Z) (e : store_elem) : store_elem :=
  mk_elem (n_parent e) (n_next e) (n_childrens e) (n_olist e) (n_dlist e)
    (n_id e) (n_level e) (n_mask e) (n_data e) (n_key e) (n_key_ref e) (n_ts e) v.
(** [el->parent= node; el->level= ...; el->id= ...] *)
Definition set_place (p : option addr) (lv i : Z) (e : store_elem) : store_elem :=
  mk_elem p (n_next e) (n_childrens e) (n_olist e) (n_dlist e)
    i lv (n_mask e) (n_data e) (n_key e) (n_key_ref e) (n_ts e) (n_cb e).

(** Calls made by the store into user code. *)
Inductive call : Type :=
| FindCb (cb : Z) (key : list Z) (data user : Z)
| DeleteCb (cb : Z) (key : list Z) (data : Z).

(** [struct store_s] together with the environment of the process: the
    heap of elements, the next address [ALLOC] hands out, the answers
    [ALLOC] will give ([false]: the request is refused; an empty list:
    every further request is granted), the number of requests refused so
    far, the clock and the calls made into user code. *)
Record store_t : Type := mk_store {
  heap : gmap nat store_elem;
  brk : addr;
  oracle : list bool;
  refused : nat;
  now : Z;
  calls : list call;
  ctx_data : option addr;
  ctx_expired : option addr;
  ctx_key_size : Z;
  ctx_bits : Z;
  ctx_life : Z
}.

Definition with_heap (h : gmap nat store_elem) (s : store_t) : store_t :=
  mk_store h (brk s) (oracle s) (refused s) (now s) (calls s) (ctx_data s)
    (ctx_expired s) (ctx_key_size s) (ctx_bits s) (ctx_life s).
Definition with_calls (c : list call) (s : store_t) : store_t :=
  mk_store (heap s) (brk s) (oracle s) (refused s) (now s) c (ctx_data s)
    (ctx_expired s) (ctx_key_size s) (ctx_bits s) (ctx_life s).
Definition with_expired (x : option addr) (s : store_t) : store_t :=
  mk_store (heap s) (brk s) (oracle s) (refused s) (now s) (calls s)
    (ctx_data s) x (ctx_key_size s) (ctx_bits s) (ctx_life s).
Definition with_data (x : option addr) (s : store_t) : store_t :=
  mk_store (heap s) (brk s) (oracle s) (refused s) (now s) (calls s)
    x (ctx_expired s) (ctx_key_size s) (ctx_bits s) (ctx_life s).

(** One request to the allocator: the next answer of the oracle is
    consumed; a granted request takes the address [brk]. *)
Definition ALLOC (s : store_t) : option addr * store_t :=
  let grant o :=
    (Some (brk s),
     mk_store (heap s) (S (brk s)) o (refused s) (now s) (calls s)
       (ctx_data s) (ctx_expired s) (ctx_key_size s) (ctx_bits s) (ctx_life s)) in
  match oracle s with
  | [] => grant []
  | true :: o => grant o
  | false :: o =>
    (None,
     mk_store (heap s) (brk s) o (S (refused s)) (now s) (calls s)
       (ctx_data s) (ctx_expired s) (ctx_key_size s) (ctx_bits s) (ctx_life s))
  end.

(** A request for a byte buffer; the buffer itself is held by value. *)
Definition ALLOC_buf (s : store_t) : bool * store_t :=
  match oracle s with
  | false :: o =>
    (false,
     mk_store (heap s) (brk s) o (S (refused s)) (now s) (calls s)
       (ctx_data s) (ctx_expired s) (ctx_key_size s) (ctx_bits s) (ctx_life s))
  | _ :: o =>
    (true,
     mk_store (heap s) (brk s) o (refused s) (now s) (calls s)
       (ctx_data s) (ctx_expired s) (ctx_key_size s) (ctx_bits s) (ctx_life s))
  | [] => (true, s)
  end.

Definition deref (s : store_t) (a : addr) : outcome store_elem :=
  must (heap s !! a).

Definition write (a : addr) (e : store_elem) (s : store_t) : store_t :=
  with_heap (<[a := e]> (heap s)) s.

(** [p->field = v] for the element at [a]. *)
Definition modify (a : addr) (f : store_elem → store_elem) (s : store_t)
  : outcome store_t :=
  e ← deref s a; mret (write a (f e) s).

Definition FREE (a : addr) (s : store_t) : store_t :=
  with_heap (delete a (heap s)) s.

(** [memcmp(a, b, n) == 0]; reading past the end of a buffer is undefined. *)
Definition memcmp_eq (a b : list Z) (n : Z) : outcome bool :=
  if (Z.of_nat (length a) <? n) || (Z.of_nat (length b) <? n) then Crash
  else Done (bool_decide (take (Z.to_nat n) a = take (Z.to_nat n) b)).

(** [get_bits] on a pointer that may be NULL. *)
Definition get_bits_at (key : option (list Z)) (bit_index bit_len : Z)
  : outcome Z :=
  k ← must key; must (get_bits k bit_index bit_len).

(** [store_init]: [o] are the answers of the allocator; the two requests
    are for the context and for the root. *)
Definition store_init (o : list bool) (clock : Z) (keysize keybits lifespan : Z)
  : option store_t :=
  let '(ctx_ok, o) := match o with
                      | [] => (true, [])
                      | b :: o => (b, o)
                      end in
  if negb ctx_ok then None
  else
    let s := mk_store ∅ 0%nat o 0%nat clock [] None None 0 0 0 in
    match ALLOC s with
    | (None, _) => None
    | (Some root, s) =>
      let r := set_place None (u32 (-1)) (u32 (-1)) zero_elem in
      Some (mk_store (<[root := r]> (heap s)) (brk s) (oracle s) (refused s)
              (now s) (calls s) (Some root) None keysize (u8 keybits) lifespan)
    end.

(** The sibling scan
    [while (node!=NULL && (node->id!=id || NODEP_dlist(node))) node= node->next;]
    of [find_node], which is also the scan over [tmp] in [store_add].  A
    chain of [next] pointers longer than the number of addresses handed
    out so far cannot end. *)
Fixpoint sibling_scan (fuel : nat) (s : store_t) (node : option addr) (id : Z)
  : outcome (option addr) :=
  match node with
  | None => Done None
  | Some a =>
    match fuel with
    | O => Timeout
    | S fuel =>
      e ← deref s a;
      if negb (n_id e =? id) || NODEP_dlist e
      then sibling_scan fuel s (n_next e) id
      else Done (Some a)
    end
  end.

(** The walk [while (t->parent->parent!=NULL) { index+= bits; t= t->parent; }]
    of [find_node] for a start node. *)
Fixpoint start_index (fuel : nat) (s : store_t) (t : addr) (index : Z)
  : outcome Z :=
  match fuel with
  | O => Timeout
  | S fuel =>
    e ← deref s t;
    p ← must (n_parent e);
    pe ← deref s p;
    match n_parent pe with
    | None => Done index
    | Some _ => start_index fuel s p (u32 (index + ctx_bits s))
    end
  end.

(** The main loop of [find_node].  The counter is the number of nodes on
    the path walked so far: the root and every node the loop has descended
    into. *)
Fixpoint descend (fuel : nat) (s : store_t) (key : option (list Z))
    (root : addr) (node : option addr) (ret : addr) (index : Z) (cnt : nat)
  : outcome (addr * nat) :=
  match node with
  | None => Done (root, cnt)
  | Some _ =>
    if index <? ctx_key_size s * 8 then
      match fuel with
      | O => Timeout
      | S fuel =>
        id ← get_bits_at key index (ctx_bits s);
        node ← sibling_scan (brk s) s node id;
        match node with
        | None => Done (ret, cnt)
        | Some a =>
          e ← deref s a;
          if (n_id e =? id) && bool_decide (n_childrens e = None)
          then Done (a, S cnt)
          else descend fuel s key root (n_childrens e) a
                 (u32 (index + ctx_bits s)) (S cnt)
        end
      end
    else Done (root, cnt)
  end.

(** [find_node(ctx, start, key)]: the node found and the number of nodes
    on the path from the root to it. *)
Definition find_node (s : store_t) (start : option addr) (key : option (list Z))
  : outcome (addr * nat) :=
  root ← must (ctx_data s);
  r ← deref s root;
  '(node, index) ←
     match start with
     | None => Done (n_childrens r, 0)
     | Some st =>
       e ← deref s st;
       match n_parent e with
       | None => Done (n_childrens r, 0)
       | Some _ => index ← start_index (brk s) s st 0; mret (Some st, index)
       end
     end;
  descend (S (Z.to_nat (ctx_key_size s * 8))) s key root node root index 1%nat.

(** [store_find(ctx, key, cb, user)] *)
Definition store_find (s : store_t) (key : option (list Z)) (cb : option Z)
    (user : Z) : outcome (bool * store_t) :=
  '(node, _) ← find_node s None key;
  n ← deref s node;
  match n_key_ref n with
  | None => Done (false, s)
  | Some kr =>
    o ← deref s kr;
    match n_key o with
    | None => Done (false, s)
    | Some k =>
      kb ← must key;
      same ← memcmp_eq k kb (ctx_key_size s);
      if (same : bool) && bool_decide (n_childrens n = None) then
        match cb with
        | Some f => Done (true, with_calls (calls s ++ [FindCb f kb (n_data n) user]) s)
        | None => Done (true, s)
        end
      else Done (false, s)
    end
  end.

(** [ATOMIC_store(&ctx->data->dlist, &node, &node->dlist)] *)
Definition push_dlist (root node : addr) (s : store_t) : outcome store_t :=
  r ← deref s root;
  s ← modify root (set_dlist (Some node)) s;
  modify node (set_dlist (n_dlist r)) s.

(** [ATOMIC_store(&ctx->data->olist, &el, &el->olist)] *)
Definition push_olist (root el : addr) (s : store_t) : outcome store_t :=
  r ← deref s root;
  s ← modify root (set_olist (Some el)) s;
  modify el (set_olist (n_olist r)) s.

(** [store_delete(ctx, key)] *)
Definition store_delete (s : store_t) (key : option (list Z))
  : outcome (bool * store_t) :=
  match key with
  | None => Done (false, s)
  | Some kb =>
    '(node, _) ← find_node s None key;
    n ← deref s node;
    if bool_decide (n_parent n ≠ None) && bool_decide (n_childrens n = None) then
      kr ← must (n_key_ref n);
      o ← deref s kr;
      match n_key o with
      | None => Done (false, s)
      | Some k =>
        same ← memcmp_eq kb k (ctx_key_size s);
        if (same : bool) then
          if negb (NODEP_dlist n) then
            s ← modify node (set_mask (Z.lor (n_mask n) MASK_DELETE_LIST)) s;
            root ← must (ctx_data s);
            s ← push_dlist root node s;
            mret (true, s)
          else Done (true, s)
        else Done (false, s)
      end
    else Done (false, s)
  end.

(** The loop [while (!ret)] of [store_add]. *)
Fixpoint add_loop (fuel : nat) (el : addr) (key : list Z) (s : store_t)
  : outcome (bool * store_t) :=
  match fuel with
  | O => Timeout
  | S fuel =>
    '(node, _) ← find_node s None (Some key);
    n ← deref s node;
    if bool_decide (n_childrens n = None) && bool_decide (Some node ≠ ctx_data s)
    then
      kr ← must (n_key_ref n);
      o ← deref s kr;
      dup ← match n_key o with
            | None => Done false
            | Some k => memcmp_eq k key (ctx_key_size s)
            end;
      if (dup : bool) then Done (false, s)
      else
        match ALLOC s with
        | (None, s) => Done (false, s)
        | (Some inject, s) =>
          let lv := u32 (n_level n + 1) in
          i ← get_bits_at (n_key o) (u32 (lv * ctx_bits s)) (ctx_bits s);
          let s := write inject
                     (mk_elem (Some node) None None None None i lv 0 (n_data n)
                        None (n_key_ref n) (n_ts n) (n_cb n)) s in
          n ← deref s node;
          s ← (if bool_decide (n_childrens n = None)
               then modify node (set_childrens (Some inject)) s
               else Done s);
          add_loop fuel el key s
        end
    else
      e ← deref s el;
      let lv := u32 (n_level n + 1) in
      kr ← must (n_key_ref e);
      o ← deref s kr;
      i ← get_bits_at (n_key o) (u32 (lv * ctx_bits s)) (ctx_bits s);
      s ← modify el (set_place (Some node) lv i) s;
      n ← deref s node;
      tmp ← sibling_scan (brk s) s (n_childrens n) i;
      match tmp with
      | Some _ => add_loop fuel el key s
      | None =>
        s ← modify el (set_next (n_childrens n)) s;
        s ← modify node (set_childrens (Some el)) s;
        root ← must (ctx_data s);
        s ← push_olist root el s;
        mret (true, s)
      end
  end.

(** [store_add(ctx, key, data, del)] *)
Definition store_add (s : store_t) (key : option (list Z)) (data : Z)
    (del : option Z) : outcome (bool * store_t) :=
  match ALLOC s with
  | (None, s) => Done (false, s)
  | (Some el, s) =>
    let s := write el zero_elem s in
    match ALLOC_buf s with
    | (false, s) => Done (false, FREE el s)
    | (true, s) =>
      kb ← must key;
      if Z.of_nat (length kb) <? ctx_key_size s then Crash
      else
        let k := take (Z.to_nat (ctx_key_size s)) kb in
        let s := write el
                   (mk_elem None None None None None 0 0 MASK_TIME_LIST data
                      (Some k) (Some el) (now s) del) s in
        add_loop (S (Z.to_nat (ctx_key_size s * 8))) el kb s
    end
  end.

(** *** Well-formed stores *)

(** [chain s hd l]: following [next] from [hd] visits exactly [l] and ends
    in NULL. *)
Inductive chain (s : store_t) : option addr → list addr → Prop :=
| chain_nil : chain s None []
| chain_cons a e l :
    heap s !! a = Some e → chain s (n_next e) l → chain s (Some a) (a :: l).

(** [anc s a b]: [b] is [a] or one of its ancestors. *)
Inductive anc (s : store_t) : addr → addr → Prop :=
| anc_refl a : anc s a a
| anc_step a e p b :
    heap s !! a = Some e → n_parent e = Some p → anc s p b → anc s a b.

(** A key the caller may pass: at least [key_size] bytes. *)
Definition valid_key (s : store_t) (kb : list Z) : Prop :=
  ctx_key_size s ≤ Z.of_nat (length kb) ∧ bytes kb.

Record store_inv (s : store_t) : Prop := {
  inv_bits : 1 ≤ ctx_bits s ≤ 8;
  inv_size : 0 < ctx_key_size s ∧ ctx_key_size s * 8 + 8 < 2 ^ 32;
  inv_div : (ctx_bits s | ctx_key_size s * 8);
  inv_brk : ∀ a e, heap s !! a = Some e → (a < brk s)%nat;
  inv_root : ∃ r e, ctx_data s = Some r ∧ heap s !! r = Some e ∧
      n_parent e = None ∧ n_level e = u32 (-1) ∧ n_key_ref e = None ∧
      NODEP_dlist e = false ∧ NODEP_dead e = false ∧ n_next e = None;
  (** the child list of [p] holds exactly the nodes placed under [p] *)
  inv_children : ∀ p ep, heap s !! p = Some ep →
      ∃ l, chain s (n_childrens ep) l ∧
           ∀ c, c ∈ l ↔ ∃ ec, heap s !! c = Some ec ∧ n_parent ec = Some p ∧
                               NODEP_dead ec = false;
  inv_parent : ∀ a e p, heap s !! a = Some e → n_parent e = Some p →
      NODEP_dead e = false →
      ∃ ep, heap s !! p = Some ep ∧ NODEP_dead ep = false ∧
            NODEP_dlist ep = false ∧ n_level e = u32 (n_level ep + 1) ∧
            0 ≤ n_level e ∧ n_level e * ctx_bits s < ctx_key_size s * 8 ∧
            (ctx_data s = Some p ∨ n_parent ep ≠ None);
  (** among the children of a node, the ones not on the delete list have
      distinct ids *)
  inv_uniq : ∀ a b ea eb, heap s !! a = Some ea → heap s !! b = Some eb →
      n_parent ea ≠ None → n_parent ea = n_parent eb → n_id ea = n_id eb →
      NODEP_dead ea = false → NODEP_dead eb = false →
      NODEP_dlist ea = false → NODEP_dlist eb = false → a = b;
  (** the key of a node is held by the node or by one of its ancestors,
      and the ids on the path to the node are the slices of that key *)
  inv_key : ∀ a e, heap s !! a = Some e → n_parent e ≠ None →
      NODEP_dead e = false →
      ∃ o eo, n_key_ref e = Some o ∧ heap s !! o = Some eo ∧ anc s a o ∧
        ∀ k, n_key eo = Some k →
          Z.of_nat (length k) = ctx_key_size s ∧ bytes k ∧
          ∀ b eb, anc s a b → heap s !! b = Some eb → n_parent eb ≠ None →
            get_bits k (n_level eb * ctx_bits s) (ctx_bits s) = Some (n_id eb)
}.

(** The nodes of the trie: what is reachable from the root through
    [childrens] and [next]. *)
Inductive in_trie (s : store_t) : addr → Prop :=
| in_trie_root r : ctx_data s = Some r → in_trie s r
| in_trie_child p ep c :
    in_trie s p → heap s !! p = Some ep → n_childrens ep = Some c →
    in_trie s c
| in_trie_next a e m :
    in_trie s a → heap s !! a = Some e → n_next e = Some m → in_trie s m.

(** [a] is a leaf of the trie whose full key is [k]. *)
Definition leaf_of (s : store_t) (a : addr) (k : list Z) : Prop :=
  in_trie s a ∧
  ∃ e o eo, heap s !! a = Some e ∧ n_childrens e = None ∧
            n_key_ref e = Some o ∧ heap s !! o = Some eo ∧ n_key eo = Some k.

(** A live leaf is one that is not on the delete list. *)
Definition live_leaf_of (s : store_t) (a : addr) (k : list Z) : Prop :=
  leaf_of s a k ∧ ∃ e, heap s !! a = Some e ∧ NODEP_dlist e = false.

Definition with_now (t : Z) (s : store_t) : store_t :=
  mk_store (heap s) (brk s) (oracle s) (refused s) t (calls s)
    (ctx_data s) (ctx_expired s) (ctx_key_size s) (ctx_bits s) (ctx_life s).

(** The parameters [store_init] is meant for: slices of 1 to 8 bits that
    tile a key of at least one byte, with bit indices that fit 32 bits. *)
Definition valid_params (keysize keybits : Z) : Prop :=
  1 ≤ keybits ≤ 8 ∧ 0 < keysize ∧ keysize * 8 + 8 < 2 ^ 32 ∧
  (keybits | keysize * 8).

(** The states of a store between two calls: a store is created, and
    then keys are added, found and deleted while time passes. *)
Inductive reachable : store_t → Prop :=
| reach_init o clock keysize keybits lifespan s :
    valid_params keysize keybits →
    store_init o clock keysize keybits lifespan = Some s → reachable s
| reach_tick s t : reachable s → reachable (with_now t s)
| reach_add s key data del r s' :
    reachable s → bytes key →
    store_add s (Some key) data del = Done (r, s') → reachable s'
| reach_find s key cb user r s' :
    reachable s → store_find s key cb user = Done (r, s') → reachable s'
| reach_delete s key r s' :
    reachable s → store_delete s key = Done (r, s') → reachable s'.

(** The state a call leaves behind, for chaining calls in examples; a
    call that does not return leaves the state as it was. *)
Definition after (s : store_t) (call : store_t → outcome (bool * store_t))
  : store_t :=
  match call s with
  | Done (_, s') => s'
  | _ => s
  end.

(** Scenarios on a store with 4-byte keys cut into 4-bit slices. *)
Definition key_a : list Z := [17; 34; 51; 68].
Definition key_b : list Z := [17; 34; 85; 102].

Definition store_empty (o : list bool) : store_t :=
  default (mk_store ∅ 0%nat [] 0%nat 0 [] None None 0 0 0)
    (store_init o 100 4 4 60).

(** One key added. *)
Definition store_one : store_t :=
  after (store_empty []) (λ s, store_add s (Some key_a) 1 None).

(** The key deleted and, before any prune, added again. *)
Definition store_readded : store_t :=
  after (after store_one (λ s, store_delete s (Some key_a)))
    (λ s, store_add s (Some key_a) 7 None).


(** The first node of [l] that the sibling scan stops at. *)
Fixpoint scan_list (s : store_t) (l : list addr) (id : Z) : option addr :=
  match l with
  | [] => None
  | a :: l =>
    match heap s !! a with
    | Some e =>
      if negb (n_id e =? id) || NODEP_dlist e then scan_list s l id else Some a
    | None => None
    end
  end.

End Store.

(** ** Relations on stores

    What the statements about the store are written with. *)

Module StoreRel.
Import Bitwise Store.

(** The ids on the path to [a] are the slices of [key]. *)
Definition path_ok (s : store_t) (key : option (list Z)) (a : addr) : Prop :=
  ∀ b eb, anc s a b → heap s !! b = Some eb → n_parent eb ≠ None →
    get_bits_at key (n_level eb * ctx_bits s) (ctx_bits s) = Done (n_id eb).

(** What [find_node] returns for [key]: a node of the trie that is not on
    the delete list, reached along the slices of [key], and that is either
    childless or has no live child for the next slice. *)
Definition found (s : store_t) (key : option (list Z)) (node : addr) : Prop :=
  ∃ e, heap s !! node = Some e ∧ NODEP_dead e = false ∧
    NODEP_dlist e = false ∧
    (ctx_data s = Some node ∨ n_parent e ≠ None) ∧
    path_ok s key node ∧
    (n_childrens e = None ∨
     ∃ l i, chain s (n_childrens e) l ∧
       get_bits_at key (u32 (n_level e + 1) * ctx_bits s) (ctx_bits s) = Done i ∧
       scan_list s l i = None ∧
       u32 (n_level e + 1) * ctx_bits s < ctx_key_size s * 8).

(** The fields of an element that the shape of the trie depends on; the
    maintenance links, the payload and the callback are left out. *)
Definition shape (e : store_elem) :=
  (n_parent e, n_next e, n_childrens e, n_id e, n_level e, n_mask e, n_key e,
   n_key_ref e).

(** [s'] has the parameters of [s] and, outside [D], the elements of [s]
    up to their shape. *)
Definition agree_except (D : list addr) (s s' : store_t) : Prop :=
  ctx_bits s' = ctx_bits s ∧ ctx_key_size s' = ctx_key_size s ∧
  ctx_data s' = ctx_data s ∧ (brk s ≤ brk s')%nat ∧
  ∀ a, a ∉ D → shape <$> heap s' !! a = shape <$> heap s !! a.

(** The element [store_add] is about to place. *)
Definition el_ready (s : store_t) (el : addr) (key : list Z) : Prop :=
  ctx_data s ≠ Some el ∧
  ∃ e, heap s !! el = Some e ∧ n_parent e = None ∧ n_childrens e = None ∧
       NODEP_dead e = false ∧ n_key_ref e = Some el ∧
       n_key e = Some (take (Z.to_nat (ctx_key_size s)) key).

(** A live leaf, described by its fields. *)
Definition live_leaf_at (s : store_t) (a : addr) (k : list Z) : Prop :=
  ∃ e o eo, heap s !! a = Some e ∧ n_parent e ≠ None ∧
    NODEP_dead e = false ∧ NODEP_dlist e = false ∧ n_childrens e = None ∧
    n_key_ref e = Some o ∧ heap s !! o = Some eo ∧ n_key eo = Some k.

(** [keeps e e']: [e'] is [e], or [e] with a first child. *)
Definition keeps (e e' : store_elem) : Prop :=
  n_parent e' = n_parent e ∧ n_next e' = n_next e ∧ n_olist e' = n_olist e ∧
  n_dlist e' = n_dlist e ∧ n_id e' = n_id e ∧ n_level e' = n_level e ∧
  n_mask e' = n_mask e ∧ n_data e' = n_data e ∧ n_key e' = n_key e ∧
  n_key_ref e' = n_key_ref e ∧ n_ts e' = n_ts e ∧ n_cb e' = n_cb e ∧
  (n_childrens e' = n_childrens e ∨ n_childrens e = None).

End StoreRel.

(** ** event.c *)

Module Evm.

(** *** Objects *)

Record evm_listener_s := mk_listener {
  l_def : option addr;
  l_cb : option Z;
  l_destroycb : option Z;
  l_user : Z;
  l_next : option addr
}.

Record evm_def_s := mk_def {
  d_eid : Z;
  d_formatter : option Z;
  d_ctx : option addr;
  d_listeners : option addr;
  d_next : option addr
}.

Record evm_event_s := mk_event {
  e_def : option addr;
  e_data : Z;
  e_dispatched : bool;
  e_grp : option addr;
  e_destroycb : option Z;
  e_user : Z;
  e_strep : option addr;
  e_next : option addr
}.

Record evm_event_grp_s := mk_grp {
  g_session : option addr;
  g_depth : Z;
  g_head : option addr;
  g_tail : option addr;
  g_next : option addr
}.

Record evm_session_s := mk_session {
  s_ctx : option addr;
  s_head : option addr;
  s_tail : option addr;
  s_cb : option Z;
  s_user : Z;
  s_next : option addr
}.

Record evm_ctx_s := mk_ctx {
  c_wcnt : Z;
  c_workers : option addr;
  c_maintenance : option addr;
  c_mfreq : Z;
  c_defs : option addr;
  c_head : option addr;
  c_tail : option addr
}.

(** What an allocated address holds.  [Workers] is the array of worker
    thread handles, [Thread] a handle of the thread pool, [Strep] the
    buffer of an event's string representation. *)
Inductive object :=
| Listener (l : evm_listener_s)
| Def (d : evm_def_s)
| Event (e : evm_event_s)
| Grp (g : evm_event_grp_s)
| Session (s : evm_session_s)
| Ctx (c : evm_ctx_s)
| Workers (ws : list (option addr))
| Thread
| Strep.

(** [evm_session_callback_t]: the reason with its member of the union. *)
Inductive evm_session_callback_t :=
| eEvmListenerResult (event : addr) (val : bool)
| eEvmEventComplete (event : addr) (depth : Z)
| eEvmSessionDestroy.

(** *** What can be observed of a run

    Calls of user code, with their arguments, in the order they are made;
    [OHalt] is the [halt] member read back after an [eEvmEventComplete]
    call.  [ODispatch], [OAppend] and [ORefused] are not calls: they mark
    the entry of [evm_dispatch_event], a successful [evm_session_append]
    and a refused request for memory or for a thread. *)
Inductive obs :=
| OListener (l : addr) (cb : Z) (session event : addr) (user : Z)
| OSession (cb : Z) (session : addr) (data : evm_session_callback_t) (user : Z)
| OHalt (session event : addr) (halt : bool)
| OEventDestroy (cb : Z) (event : addr) (dispatched : bool) (user : Z)
| OListenerDestroy (cb : Z) (l : addr) (eid : Z) (user : Z)
| ODispatch (event : addr) (depth : Z)
| OAppend (session : addr) (event : addr) (destroycb : option Z) (user : Z)
| ORefused.

(** *** User code

    A listener callback and a session callback are programs over the
    public interface: they may append events, add and remove listeners,
    register types and start sessions, and end by returning a boolean (the
    listener's result; for a session callback the value it leaves in
    [halt]).  Destroy callbacks and formatters are taken not to call back
    into the engine. *)
Inductive cbprog :=
| CbReturn (r : bool)
| CbSessionAppend (session : option addr) (eid data : Z)
    (destroycb : option Z) (user : Z) (k : bool → cbprog)
| CbAddListener (ctx : option addr) (eid : Z) (cb destroycb : option Z)
    (user : Z) (k : option addr → cbprog)
| CbRemoveListener (ctx listener : option addr) (k : cbprog)
| CbRegisterType (ctx : option addr) (eid : Z) (formatter : option Z)
    (k : bool → cbprog)
| CbStartSession (ctx : option addr) (eid data : Z) (eventcb cb : option Z)
    (user : Z) (k : option addr → cbprog).

(** The code behind each function pointer; it may depend on what has been
    observed so far. *)
Class callbacks := {
  listener_cb : Z → addr → addr → Z → list obs → cbprog;
  session_cb : Z → addr → evm_session_callback_t → Z → list obs → cbprog
}.

(** *** Machine state *)

Record evm_t := mk_evm {
  heap : gmap addr object;
  brk : nat;
  oracle : list bool;
  trace : list obs;
  evm_gctx : option addr
}.

(** A computation on the machine; the state is kept on every outcome. *)
Definition M (A : Type) : Type := evm_t → outcome A * evm_t.

#[global] Instance M_ret : MRet M := λ A a st, (Done a, st).
#[global] Instance M_bind : MBind M := λ A B f m st,
  match m st with
  | (Done a, st) => f a st
  | (Crash, st) => (Crash, st)
  | (Timeout, st) => (Timeout, st)
  end.

Definition crash {A} : M A := λ st, (Crash, st).
Definition timeout {A} : M A := λ st, (Timeout, st).

Definition deref {A} (o : option A) : M A :=
  match o with
  | Some a => mret a
  | None => crash
  end.

Definition emit (o : obs) (st : evm_t) : evm_t :=
  mk_evm (heap st) (brk st) (oracle st) (trace st ++ [o]) (evm_gctx st).

Definition log (o : obs) : M unit := λ st, (Done tt, emit o st).

Definition history : M (list obs) := λ st, (Done (trace st), st).

(** The number of addresses handed out so far bounds the length of every
    list without a cycle; it is the fuel of the list walks. *)
Definition bound : M nat := λ st, (Done (brk st), st).

(** A request that the environment may refuse: memory, a thread, the
    initialisation of a lock.  An empty [oracle] grants everything. *)
Definition with_oracle (o : list bool) (st : evm_t) : evm_t :=
  mk_evm (heap st) (brk st) o (trace st) (evm_gctx st).

Definition request : M bool := λ st,
  match oracle st with
  | false :: o => (Done false, emit ORefused (with_oracle o st))
  | _ :: o => (Done true, with_oracle o st)
  | [] => (Done true, st)
  end.

Definition with_gctx (v : option addr) (st : evm_t) : evm_t :=
  mk_evm (heap st) (brk st) (oracle st) (trace st) v.

Definition put (a : addr) (o : object) (st : evm_t) : evm_t :=
  mk_evm (<[a := o]> (heap st)) (brk st) (oracle st) (trace st) (evm_gctx st).

Definition del (a : addr) (st : evm_t) : evm_t :=
  mk_evm (delete a (heap st)) (brk st) (oracle st) (trace st) (evm_gctx st).

Definition alloc (o : object) (st : evm_t) : evm_t :=
  mk_evm (<[brk st := o]> (heap st)) (S (brk st)) (oracle st) (trace st)
    (evm_gctx st).

Definition place (o : object) : M (option addr) := λ st,
  (Done (Some (brk st)), alloc o st).

(** [ALLOC] followed by the initialisation of the new object. *)
Definition ALLOC (o : object) : M (option addr) :=
  ok ← request;
  if (ok : bool) then place o else mret None.

(** [FREE]: a NULL argument is ignored; freeing what is not allocated is
    undefined. *)
Definition release (a : addr) : M unit := λ st,
  match heap st !! a with
  | Some _ => (Done tt, del a st)
  | None => (Crash, st)
  end.

Definition FREE (a : option addr) : M unit :=
  match a with
  | None => mret tt
  | Some a => release a
  end.

Definition load (a : addr) : M object := λ st,
  match heap st !! a with
  | Some o => (Done o, st)
  | None => (Crash, st)
  end.

Definition store (a : addr) (o : object) : M unit := λ st,
  (Done tt, put a o st).

Definition get_listener (a : addr) : M evm_listener_s :=
  o ← load a; match o with Listener x => mret x | _ => crash end.
Definition get_def (a : addr) : M evm_def_s :=
  o ← load a; match o with Def x => mret x | _ => crash end.
Definition get_event (a : addr) : M evm_event_s :=
  o ← load a; match o with Event x => mret x | _ => crash end.
Definition get_grp (a : addr) : M evm_event_grp_s :=
  o ← load a; match o with Grp x => mret x | _ => crash end.
Definition get_session (a : addr) : M evm_session_s :=
  o ← load a; match o with Session x => mret x | _ => crash end.
Definition get_ctx (a : addr) : M evm_ctx_s :=
  o ← load a; match o with Ctx x => mret x | _ => crash end.

Definition upd_listener (a : addr) (f : evm_listener_s → evm_listener_s)
  : M unit := x ← get_listener a; store a (Listener (f x)).
Definition upd_def (a : addr) (f : evm_def_s → evm_def_s) : M unit :=
  x ← get_def a; store a (Def (f x)).
Definition upd_event (a : addr) (f : evm_event_s → evm_event_s) : M unit :=
  x ← get_event a; store a (Event (f x)).
Definition upd_grp (a : addr) (f : evm_event_grp_s → evm_event_grp_s)
  : M unit := x ← get_grp a; store a (Grp (f x)).
Definition upd_session (a : addr) (f : evm_session_s → evm_session_s)
  : M unit := x ← get_session a; store a (Session (f x)).
Definition upd_ctx (a : addr) (f : evm_ctx_s → evm_ctx_s) : M unit :=
  x ← get_ctx a; store a (Ctx (f x)).

(** Field assignments. *)
Definition set_l_cb v (l : evm_listener_s) :=
  mk_listener (l_def l) v (l_destroycb l) (l_user l) (l_next l).
Definition set_l_next v (l : evm_listener_s) :=
  mk_listener (l_def l) (l_cb l) (l_destroycb l) (l_user l) v.
Definition set_d_listeners v (d : evm_def_s) :=
  mk_def (d_eid d) (d_formatter d) (d_ctx d) v (d_next d).
Definition set_d_next v (d : evm_def_s) :=
  mk_def (d_eid d) (d_formatter d) (d_ctx d) (d_listeners d) v.
Definition set_e_dispatched v (e : evm_event_s) :=
  mk_event (e_def e) (e_data e) v (e_grp e) (e_destroycb e) (e_user e)
    (e_strep e) (e_next e).
Definition set_e_next v (e : evm_event_s) :=
  mk_event (e_def e) (e_data e) (e_dispatched e) (e_grp e) (e_destroycb e)
    (e_user e) (e_strep e) v.
Definition set_g_head v (g : evm_event_grp_s) :=
  mk_grp (g_session g) (g_depth g) v (g_tail g) (g_next g).
Definition set_g_tail v (g : evm_event_grp_s) :=
  mk_grp (g_session g) (g_depth g) (g_head g) v (g_next g).
Definition set_g_next v (g : evm_event_grp_s) :=
  mk_grp (g_session g) (g_depth g) (g_head g) (g_tail g) v.
Definition set_s_head v (s : evm_session_s) :=
  mk_session (s_ctx s) v (s_tail s) (s_cb s) (s_user s) (s_next s).
Definition set_s_tail v (s : evm_session_s) :=
  mk_session (s_ctx s) (s_head s) v (s_cb s) (s_user s) (s_next s).
Definition set_s_next v (s : evm_session_s) :=
  mk_session (s_ctx s) (s_head s) (s_tail s) (s_cb s) (s_user s) v.
Definition set_c_wcnt v (c : evm_ctx_s) :=
  mk_ctx v (c_workers c) (c_maintenance c) (c_mfreq c) (c_defs c) (c_head c)
    (c_tail c).
Definition set_c_workers v (c : evm_ctx_s) :=
  mk_ctx (c_wcnt c) v (c_maintenance c) (c_mfreq c) (c_defs c) (c_head c)
    (c_tail c).
Definition set_c_maintenance v (c : evm_ctx_s) :=
  mk_ctx (c_wcnt c) (c_workers c) v (c_mfreq c) (c_defs c) (c_head c)
    (c_tail c).
Definition set_c_mfreq v (c : evm_ctx_s) :=
  mk_ctx (c_wcnt c) (c_workers c) (c_maintenance c) v (c_defs c) (c_head c)
    (c_tail c).
Definition set_c_defs v (c : evm_ctx_s) :=
  mk_ctx (c_wcnt c) (c_workers c) (c_maintenance c) (c_mfreq c) v (c_head c)
    (c_tail c).
Definition set_c_head v (c : evm_ctx_s) :=
  mk_ctx (c_wcnt c) (c_workers c) (c_maintenance c) (c_mfreq c) (c_defs c) v
    (c_tail c).
Definition set_c_tail v (c : evm_ctx_s) :=
  mk_ctx (c_wcnt c) (c_workers c) (c_maintenance c) (c_mfreq c) (c_defs c)
    (c_head c) v.

(** *** Construction *)

Definition evm_create_def (ctx : addr) (eid : Z) (formatter : option Z)
  : M (option addr) :=
  ALLOC (Def (mk_def eid formatter (Some ctx) None None)).

Definition evm_create_listener (def : addr) (cb destroycb : option Z)
    (user : Z) : M (option addr) :=
  ALLOC (Listener (mk_listener (Some def) cb destroycb user None)).

Definition evm_create_session (ctx : option addr) (cb : option Z) (user : Z)
  : M (option addr) :=
  ALLOC (Session (mk_session ctx None None cb user None)).

Definition evm_create_grp (session : addr) (depth : Z) : M (option addr) :=
  ALLOC (Grp (mk_grp (Some session) depth None None None)).

Definition evm_create_event (def : addr) (grp : addr) (data : Z)
    (cb : option Z) (user : Z) : M (option addr) :=
  ALLOC (Event (mk_event (Some def) data false (Some grp) cb user None None)).

(** *** The three queues *)

Definition evm_ctx_push_session (ctx session : option addr)
  : M (option addr) :=
  match ctx, session with
  | Some c, Some s =>
    cx ← get_ctx c;
    match c_tail cx with
    | Some t =>
      upd_session t (set_s_next (Some s));;
      upd_ctx c (set_c_tail (Some s))
    | None =>
      upd_ctx c (set_c_head (Some s));;
      upd_ctx c (set_c_tail (Some s))
    end;;
    mret (Some s)
  | _, _ => mret None
  end.

Definition evm_ctx_pop_session (ctx : option addr) : M (option addr) :=
  match ctx with
  | None => mret None
  | Some c =>
    cx ← get_ctx c;
    match c_head cx with
    | None => mret None
    | Some r =>
      rx ← get_session r;
      upd_ctx c (set_c_head (s_next rx));;
      (if bool_decide (s_next rx = None) then upd_ctx c (set_c_tail None)
       else mret tt);;
      upd_session r (set_s_next None);;
      mret (Some r)
    end
  end.

Definition evm_session_push_grp (session grp : option addr)
  : M (option addr) :=
  match session, grp with
  | Some s, Some g =>
    sx ← get_session s;
    match s_tail sx with
    | Some t =>
      upd_grp t (set_g_next (Some g));;
      upd_session s (set_s_tail (Some g))
    | None =>
      upd_session s (set_s_head (Some g));;
      upd_session s (set_s_tail (Some g))
    end;;
    mret (Some g)
  | _, _ => mret None
  end.

Definition evm_session_back_grp (session : option addr) : M (option addr) :=
  match session with
  | None => mret None
  | Some s => sx ← get_session s; mret (s_tail sx)
  end.

Definition evm_session_pop_grp (session : option addr) : M (option addr) :=
  match session with
  | None => mret None
  | Some s =>
    sx ← get_session s;
    match s_head sx with
    | None => mret None
    | Some r =>
      rx ← get_grp r;
      upd_session s (set_s_head (g_next rx));;
      upd_grp r (set_g_next None);;
      (if bool_decide (g_next rx = None) then upd_session s (set_s_tail None)
       else mret tt);;
      mret (Some r)
    end
  end.

Definition evm_grp_push_event (grp event : option addr) : M (option addr) :=
  match grp, event with
  | Some g, Some e =>
    gx ← get_grp g;
    match g_tail gx with
    | Some t =>
      upd_event t (set_e_next (Some e));;
      upd_grp g (set_g_tail (Some e))
    | None =>
      upd_grp g (set_g_head (Some e));;
      upd_grp g (set_g_tail (Some e))
    end;;
    mret (Some e)
  | _, _ => mret None
  end.

Definition evm_grp_pop_event (grp : option addr) : M (option addr) :=
  match grp with
  | None => mret None
  | Some g =>
    gx ← get_grp g;
    match g_head gx with
    | None => mret None
    | Some r =>
      rx ← get_event r;
      upd_grp g (set_g_head (e_next rx));;
      upd_event r (set_e_next None);;
      (if bool_decide (e_next rx = None) then upd_grp g (set_g_tail None)
       else mret tt);;
      mret (Some r)
    end
  end.

(** *** Contexts *)

Definition tp_request_thread : M (option addr) := ALLOC Thread.

(** The loop that fills [workers]; [n] is [nworkers - wcnt]. *)
Fixpoint request_workers (n : nat) (c w : addr) : M unit :=
  match n with
  | O => mret tt
  | S n =>
    t ← tp_request_thread;
    o ← load w;
    match o with
    | Workers ws => store w (Workers (ws ++ [t]))
    | _ => crash
    end;;
    match t with
    | None => mret tt
    | Some _ =>
      upd_ctx c (λ cx, set_c_wcnt (c_wcnt cx + 1) cx);;
      request_workers n c w
    end
  end.

Definition evm_initialize (nworkers mfreq : Z) : M (option addr) :=
  retval ← ALLOC (Ctx (mk_ctx 0 None None 0 None None None));
  match retval with
  | None => mret None
  | Some c =>
    upd_ctx c (set_c_mfreq (if mfreq =? 0 then 60 else mfreq));;
    mutex ← request;
    condv ← (if (mutex : bool) then request else mret false);
    lock ← (if (condv : bool) then request else mret false);
    ready ← (if (lock : bool) then
               t ← tp_request_thread;
               upd_ctx c (set_c_maintenance t);;
               mret (bool_decide (t ≠ None))
             else mret false);
    if (ready : bool) then
      let nworkers := if nworkers =? 0 then 1 else nworkers in
      w ← ALLOC (Workers []);
      upd_ctx c (set_c_workers w);;
      match w with
      | Some w => request_workers (Z.to_nat nworkers) c w
      | None => mret tt
      end;;
      cx ← get_ctx c;
      if c_wcnt cx =? 0 then
        FREE (c_workers cx);; FREE (Some c);; mret None
      else mret (Some c)
    else
      FREE (Some c);; mret None
  end.

Definition get_gctx : M (option addr) := λ st, (Done (evm_gctx st), st).
Definition set_gctx (v : option addr) : M unit := λ st,
  (Done tt, with_gctx v st).

Definition evm_singleton : M (option addr) :=
  g ← get_gctx;
  match g with
  | Some _ => mret g
  | None => c ← evm_initialize 2 300; set_gctx c;; mret c
  end.

(** [if(ctx == NULL) ctx = evm_singleton();] *)
Definition or_singleton (ctx : option addr) : M (option addr) :=
  match ctx with
  | None => evm_singleton
  | Some _ => mret ctx
  end.

Fixpoint find_def_from (fuel : nat) (retval : option addr) (eid : Z)
  : M (option addr) :=
  match retval with
  | None => mret None
  | Some d =>
    match fuel with
    | O => timeout
    | S fuel =>
      dx ← get_def d;
      if d_eid dx =? eid then mret (Some d)
      else find_def_from fuel (d_next dx) eid
    end
  end.

Definition evm_find_def (ctx : option addr) (eid : Z) : M (option addr) :=
  match ctx with
  | None => mret None
  | Some c =>
    cx ← get_ctx c;
    fuel ← bound;
    find_def_from fuel (c_defs cx) eid
  end.

Definition evm_register_type (ctx : option addr) (eid : Z)
    (formatter : option Z) : M bool :=
  ctx ← or_singleton ctx;
  match ctx with
  | None => mret false
  | Some c =>
    def ← evm_find_def (Some c) eid;
    match def with
    | Some _ => mret false
    | None =>
      def ← evm_create_def c eid formatter;
      match def with
      | None => mret false
      | Some d =>
        cx ← get_ctx c;
        upd_ctx c (set_c_defs (Some d));;
        upd_def d (set_d_next (c_defs cx));;
        mret true
      end
    end
  end.

Definition evm_add_listener (ctx : option addr) (eid : Z)
    (cb destroycb : option Z) (user : Z) : M (option addr) :=
  ctx ← or_singleton ctx;
  match ctx, cb with
  | Some c, Some _ =>
    def ← evm_find_def (Some c) eid;
    match def with
    | None => mret None
    | Some d =>
      retval ← evm_create_listener d cb destroycb user;
      match retval with
      | None => mret None
      | Some l =>
        dx ← get_def d;
        upd_def d (set_d_listeners (Some l));;
        upd_listener l (set_l_next (d_listeners dx));;
        mret (Some l)
      end
    end
  | _, _ => mret None
  end.

Definition evm_remove_listener (ctx listener : option addr) : M unit :=
  ctx ← or_singleton ctx;
  match ctx, listener with
  | Some c, Some l =>
    _ ← get_ctx c;
    upd_listener l (set_l_cb None)
  | _, _ => mret tt
  end.

(** *** Destruction *)

Definition evm_destroy_listener (listener : option addr) : M unit :=
  match listener with
  | None => mret tt
  | Some l =>
    lx ← get_listener l;
    match l_destroycb lx, l_def lx with
    | Some cb, Some d =>
      dx ← get_def d;
      log (OListenerDestroy cb l (d_eid dx) (l_user lx))
    | _, _ => mret tt
    end;;
    FREE (Some l)
  end.

Definition evm_destroy_event (event : option addr) : M unit :=
  match event with
  | None => mret tt
  | Some e =>
    ex ← get_event e;
    match e_destroycb ex with
    | Some cb => log (OEventDestroy cb e (e_dispatched ex) (e_user ex))
    | None => mret tt
    end;;
    ex ← get_event e;
    FREE (e_strep ex);;
    FREE (Some e)
  end.

Fixpoint destroy_events (fuel : nat) (curr : option addr) : M unit :=
  match curr with
  | None => mret tt
  | Some e =>
    match fuel with
    | O => timeout
    | S fuel =>
      ex ← get_event e;
      evm_destroy_event (Some e);;
      destroy_events fuel (e_next ex)
    end
  end.

Definition evm_destroy_grp (grp : option addr) : M unit :=
  match grp with
  | None => mret tt
  | Some g =>
    gx ← get_grp g;
    fuel ← bound;
    destroy_events fuel (g_head gx);;
    FREE (Some g)
  end.

Fixpoint destroy_grps (fuel : nat) (curr : option addr) : M unit :=
  match curr with
  | None => mret tt
  | Some g =>
    match fuel with
    | O => timeout
    | S fuel =>
      gx ← get_grp g;
      evm_destroy_grp (Some g);;
      destroy_grps fuel (g_next gx)
    end
  end.

Fixpoint destroy_listeners (fuel : nat) (curr : option addr) : M unit :=
  match curr with
  | None => mret tt
  | Some l =>
    match fuel with
    | O => timeout
    | S fuel =>
      lx ← get_listener l;
      evm_destroy_listener (Some l);;
      destroy_listeners fuel (l_next lx)
    end
  end.

Definition evm_destroy_def (def : option addr) : M unit :=
  match def with
  | None => mret tt
  | Some d =>
    dx ← get_def d;
    fuel ← bound;
    destroy_listeners fuel (d_listeners dx);;
    FREE (Some d)
  end.

(** *** Sessions *)

Definition evm_session_append (session : option addr) (eid data : Z)
    (destroycb : option Z) (user : Z) : M bool :=
  match session with
  | None => mret false
  | Some s =>
    sx ← get_session s;
    def ← evm_find_def (s_ctx sx) eid;
    match def with
    | None => mret false
    | Some d =>
      grp ← evm_session_back_grp (Some s);
      match grp with
      | None => mret false
      | Some g =>
        event ← evm_create_event d g data destroycb user;
        pushed ← evm_grp_push_event (Some g) event;
        match pushed, event with
        | Some _, Some e => log (OAppend s e destroycb user);; mret true
        | _, _ => FREE event;; mret false
        end
      end
    end
  end.

Definition evm_start_session (ctx : option addr) (eid data : Z)
    (eventcb cb : option Z) (user : Z) : M (option addr) :=
  ctx ← or_singleton ctx;
  def ← evm_find_def ctx eid;
  match def with
  | None => mret None
  | Some d =>
    retval ← evm_create_session ctx cb user;
    match retval with
    | None => mret None
    | Some s =>
      grp ← evm_create_grp s 0;
      pushed ← evm_session_push_grp (Some s) grp;
      match pushed, grp with
      | Some _, Some g =>
        event ← evm_create_event d g data eventcb user;
        pushed ← evm_grp_push_event (Some g) event;
        match pushed with
        | Some _ =>
          queued ← evm_ctx_push_session ctx (Some s);
          match queued with
          | Some _ => mret (Some s)
          | None => FREE event;; FREE (Some g);; FREE (Some s);; mret None
          end
        | None => FREE (Some g);; FREE (Some s);; mret None
        end
      | _, _ => FREE (Some s);; mret None
      end
    end
  end.

Section Code.
Context {code : callbacks}.

(** The calls a callback makes, in order; its result. *)
Fixpoint run_prog (p : cbprog) : M bool :=
  match p with
  | CbReturn r => mret r
  | CbSessionAppend session eid data destroycb user k =>
    r ← evm_session_append session eid data destroycb user; run_prog (k r)
  | CbAddListener ctx eid cb destroycb user k =>
    r ← evm_add_listener ctx eid cb destroycb user; run_prog (k r)
  | CbRemoveListener ctx listener k =>
    evm_remove_listener ctx listener;; run_prog k
  | CbRegisterType ctx eid formatter k =>
    r ← evm_register_type ctx eid formatter; run_prog (k r)
  | CbStartSession ctx eid data eventcb cb user k =>
    r ← evm_start_session ctx eid data eventcb cb user; run_prog (k r)
  end.

(** [session->cb(session, &cbdata, session->user)]; the result is what
    the callback leaves in [cbdata.event.halt]. *)
Definition call_session_cb (cb : Z) (session : addr)
    (cbdata : evm_session_callback_t) (user : Z) : M bool :=
  h ← history;
  log (OSession cb session cbdata user);;
  run_prog (session_cb cb session cbdata user h).

Definition evm_destroy_session (session : option addr) : M unit :=
  match session with
  | None => mret tt
  | Some s =>
    sx ← get_session s;
    fuel ← bound;
    destroy_grps fuel (s_head sx);;
    sx ← get_session s;
    match s_cb sx with
    | Some cb => call_session_cb cb s eEvmSessionDestroy (s_user sx);; mret tt
    | None => mret tt
    end;;
    FREE (Some s)
  end.

(** The walk over the listeners of the event's type. *)
Fixpoint dispatch_listeners (fuel : nat) (session event : addr)
    (listener : option addr) : M unit :=
  match listener with
  | None => mret tt
  | Some l =>
    match fuel with
    | O => timeout
    | S fuel =>
      lx ← get_listener l;
      match l_cb lx with
      | Some cb =>
        h ← history;
        log (OListener l cb session event (l_user lx));;
        result ← run_prog (listener_cb cb session event (l_user lx) h);
        sx ← get_session session;
        match s_cb sx with
        | Some scb =>
          call_session_cb scb session (eEvmListenerResult event result)
            (s_user sx);;
          mret tt
        | None => mret tt
        end
      | None => mret tt
      end;;
      lx ← get_listener l;
      dispatch_listeners fuel session event (l_next lx)
    end
  end.

Definition evm_dispatch_event (event : option addr) : M bool :=
  match event with
  | None => mret true
  | Some e =>
    upd_event e (set_e_dispatched true);;
    ex ← get_event e;
    g ← deref (e_grp ex);
    gx ← get_grp g;
    session ← deref (g_session gx);
    sx ← get_session session;
    ctx ← deref (s_ctx sx);
    _ ← get_ctx ctx;
    log (ODispatch e (g_depth gx));;
    ex ← get_event e;
    d ← deref (e_def ex);
    dx ← get_def d;
    fuel ← bound;
    dispatch_listeners fuel session e (d_listeners dx);;
    _ ← get_ctx ctx;
    sx ← get_session session;
    match s_cb sx with
    | None => mret true
    | Some scb =>
      ex ← get_event e;
      g ← deref (e_grp ex);
      gx ← get_grp g;
      halt ← call_session_cb scb session (eEvmEventComplete e (g_depth gx))
                (s_user sx);
      log (OHalt session e halt);;
      mret (negb halt)
    end
  end.

(** The loop over the events of one group, entered with [run] true; its
    result is [run]. *)
Fixpoint process_events (fuel : nat) (grp : addr) : M bool :=
  match fuel with
  | O => timeout
  | S fuel =>
    event ← evm_grp_pop_event (Some grp);
    match event with
    | None => mret true
    | Some e =>
      run ← evm_dispatch_event (Some e);
      evm_destroy_event (Some e);;
      if (run : bool) then process_events fuel grp else mret false
    end
  end.

(** The loop over the groups of a session. *)
Fixpoint process_grps (fuel : nat) (session : addr) : M unit :=
  match fuel with
  | O => timeout
  | S fuel =>
    grp ← evm_session_pop_grp (Some session);
    match grp with
    | None => mret tt
    | Some g =>
      gx ← get_grp g;
      run ← match g_head gx with
            | Some _ =>
              ngrp ← evm_create_grp session (u32 (g_depth gx + 1));
              pushed ← evm_session_push_grp (Some session) ngrp;
              match pushed with
              | Some _ => process_events fuel g
              | None => mret false
              end
            | None => mret true
            end;
      evm_destroy_grp (Some g);;
      if (run : bool) then process_grps fuel session else mret tt
    end
  end.

Definition evm_session_process (fuel : nat) (session : option addr)
  : M unit :=
  match session with
  | None => mret tt
  | Some s => process_grps fuel s;; evm_destroy_session (Some s)
  end.

Fixpoint find_session (fuel : nat) (ctx session : addr)
    (curr prev : option addr) : M bool :=
  match curr with
  | None => mret false
  | Some c =>
    match fuel with
    | O => timeout
    | S fuel =>
      cx ← get_session c;
      if bool_decide (c = session) then
        match prev with
        | Some p => upd_session p (set_s_next (s_next cx))
        | None =>
          upd_ctx ctx (set_c_head (s_next cx));;
          if bool_decide (s_next cx = None)
          then upd_ctx ctx (set_c_tail None) else mret tt
        end;;
        mret true
      else find_session fuel ctx session (s_next cx) (Some c)
    end
  end.

Definition evm_cancel_session (ctx session : option addr) : M bool :=
  match session with
  | None => mret false
  | Some s =>
    ctx ← or_singleton ctx;
    c ← deref ctx;
    cx ← get_ctx c;
    fuel ← bound;
    retval ← find_session fuel c s (c_head cx) None;
    (if (retval : bool) then evm_destroy_session (Some s) else mret tt);;
    mret retval
  end.

(** One round of the worker: take a session off the queue and process
    it; with an empty queue the worker waits. *)
Definition evm_worker (fuel : nat) (ctx : option addr) : M unit :=
  match ctx with
  | None => mret tt
  | Some c =>
    session ← evm_ctx_pop_session (Some c);
    match session with
    | None => mret tt
    | Some s => evm_session_process fuel (Some s)
    end
  end.

(** One round of the maintenance thread. *)
Fixpoint sweep_listeners (fuel : nat) (def : addr)
    (curr prev dead : option addr) : M (option addr) :=
  match curr with
  | None => mret dead
  | Some c =>
    match fuel with
    | O => timeout
    | S fuel =>
      cx ← get_listener c;
      let next := l_next cx in
      match l_cb cx with
      | None =>
        match prev with
        | Some p => upd_listener p (set_l_next (l_next cx))
        | None => upd_def def (set_d_listeners (l_next cx))
        end;;
        upd_listener c (set_l_next dead);;
        sweep_listeners fuel def next prev (Some c)
      | Some _ => sweep_listeners fuel def next (Some c) dead
      end
    end
  end.

Fixpoint sweep_defs (fuel : nat) (def dead : option addr)
  : M (option addr) :=
  match def with
  | None => mret dead
  | Some d =>
    match fuel with
    | O => timeout
    | S fuel =>
      dx ← get_def d;
      n ← bound;
      dead ← sweep_listeners n d (d_listeners dx) None dead;
      dx ← get_def d;
      sweep_defs fuel (d_next dx) dead
    end
  end.

Definition evm_maintenance (ctx : option addr) : M unit :=
  match ctx with
  | None => mret tt
  | Some c =>
    cx ← get_ctx c;
    fuel ← bound;
    dead ← sweep_defs fuel (c_defs cx) None;
    fuel ← bound;
    destroy_listeners fuel dead
  end.

Fixpoint destroy_sessions (fuel : nat) (curr : option addr) : M unit :=
  match curr with
  | None => mret tt
  | Some s =>
    match fuel with
    | O => timeout
    | S fuel =>
      sx ← get_session s;
      evm_destroy_session (Some s);;
      destroy_sessions fuel (s_next sx)
    end
  end.

Fixpoint destroy_defs (fuel : nat) (curr : option addr) : M unit :=
  match curr with
  | None => mret tt
  | Some d =>
    match fuel with
    | O => timeout
    | S fuel =>
      dx ← get_def d;
      evm_destroy_def (Some d);;
      destroy_defs fuel (d_next dx)
    end
  end.

Definition evm_destroy (ctx : option addr) : M unit :=
  g ← get_gctx;
  ctx ← match ctx, g with
        | None, Some _ => set_gctx None;; mret g
        | _, _ => mret ctx
        end;
  match ctx with
  | None => mret tt
  | Some c =>
    cx ← get_ctx c;
    fuel ← bound;
    destroy_sessions fuel (c_head cx);;
    cx ← get_ctx c;
    fuel ← bound;
    destroy_defs fuel (c_defs cx);;
    cx ← get_ctx c;
    FREE (c_workers cx);;
    FREE (Some c)
  end.

(** *** Runs of the engine *)

Inductive api :=
| Initialize (nworkers mfreq : Z)
| Singleton
| Destroy (ctx : option addr)
| RegisterType (ctx : option addr) (eid : Z) (formatter : option Z)
| AddListener (ctx : option addr) (eid : Z) (cb destroycb : option Z)
    (user : Z)
| RemoveListener (ctx listener : option addr)
| StartSession (ctx : option addr) (eid data : Z) (eventcb cb : option Z)
    (user : Z)
| CancelSession (ctx session : option addr)
| SessionAppend (session : option addr) (eid data : Z)
    (destroycb : option Z) (user : Z)
| Worker (fuel : nat) (ctx : option addr)
| Maintenance (ctx : option addr).

Definition call (c : api) : M unit :=
  match c with
  | Initialize nworkers mfreq => evm_initialize nworkers mfreq;; mret tt
  | Singleton => evm_singleton;; mret tt
  | Destroy ctx => evm_destroy ctx
  | RegisterType ctx eid formatter =>
    evm_register_type ctx eid formatter;; mret tt
  | AddListener ctx eid cb destroycb user =>
    evm_add_listener ctx eid cb destroycb user;; mret tt
  | RemoveListener ctx listener => evm_remove_listener ctx listener
  | StartSession ctx eid data eventcb cb user =>
    evm_start_session ctx eid data eventcb cb user;; mret tt
  | CancelSession ctx session => evm_cancel_session ctx session;; mret tt
  | SessionAppend session eid data destroycb user =>
    evm_session_append session eid data destroycb user;; mret tt
  | Worker fuel ctx => evm_worker fuel ctx
  | Maintenance ctx => evm_maintenance ctx
  end.

Fixpoint run (cs : list api) : M unit :=
  match cs with
  | [] => mret tt
  | c :: cs => call c;; run cs
  end.

End Code.

(** The machine before the first call. *)
Definition boot (o : list bool) : evm_t := mk_evm ∅ 0 o [] None.

(** *** Queues

    [lseg next hd l]: following [next] from [hd] visits exactly [l] and
    ends in NULL. *)
Inductive lseg (next : addr → option (option addr))
  : option addr → list addr → Prop :=
| lseg_nil : lseg next None []
| lseg_cons a n l :
    next a = Some n → lseg next n l → lseg next (Some a) (a :: l).

Definition next_session (st : evm_t) (a : addr) : option (option addr) :=
  match heap st !! a with
  | Some (Session s) => Some (s_next s)
  | _ => None
  end.

Definition next_grp (st : evm_t) (a : addr) : option (option addr) :=
  match heap st !! a with
  | Some (Grp g) => Some (g_next g)
  | _ => None
  end.

Definition next_event (st : evm_t) (a : addr) : option (option addr) :=
  match heap st !! a with
  | Some (Event e) => Some (e_next e)
  | _ => None
  end.

(** The sessions of a context, the groups of a session, the events of a
    group. *)
Inductive queue_id :=
| CtxQ (ctx : addr)
| SessionQ (session : addr)
| GrpQ (grp : addr).

Definition queue_next (st : evm_t) (q : queue_id)
  : addr → option (option addr) :=
  match q with
  | CtxQ _ => next_session st
  | SessionQ _ => next_grp st
  | GrpQ _ => next_event st
  end.

(** The [head] and [tail] members of the queue's owner. *)
Definition queue_ends (st : evm_t) (q : queue_id)
  : option (option addr * option addr) :=
  match q with
  | CtxQ c =>
    match heap st !! c with
    | Some (Ctx x) => Some (c_head x, c_tail x)
    | _ => None
    end
  | SessionQ s =>
    match heap st !! s with
    | Some (Session x) => Some (s_head x, s_tail x)
    | _ => None
    end
  | GrpQ g =>
    match heap st !! g with
    | Some (Grp x) => Some (g_head x, g_tail x)
    | _ => None
    end
  end.

(** [queue st q l]: the queue holds [l], front first. *)
Definition queue (st : evm_t) (q : queue_id) (l : list addr) : Prop :=
  ∃ hd tl, queue_ends st q = Some (hd, tl) ∧
           lseg (queue_next st q) hd l ∧ tl = last l.

Definition push (q : queue_id) (x : option addr) : M (option addr) :=
  match q with
  | CtxQ c => evm_ctx_push_session (Some c) x
  | SessionQ s => evm_session_push_grp (Some s) x
  | GrpQ g => evm_grp_push_event (Some g) x
  end.

Definition pop (q : queue_id) : M (option addr) :=
  match q with
  | CtxQ c => evm_ctx_pop_session (Some c)
  | SessionQ s => evm_session_pop_grp (Some s)
  | GrpQ g => evm_grp_pop_event (Some g)
  end.

(** *** Properties kept by every call

    [hoare P m Q E]: from a state in [P] the computation [m] ends in a
    state in [Q] when it returns and in a state in [E] when it does
    not. *)
Definition hoare {A} (P : evm_t → Prop) (m : M A) (Q : A → evm_t → Prop)
    (E : evm_t → Prop) : Prop :=
  ∀ st out st', P st → m st = (out, st') →
    match out with
    | Done a => Q a st'
    | _ => E st'
    end.

Definition keeps {A} (I : evm_t → Prop) (m : M A) : Prop :=
  hoare I m (λ _, I) I.

(** An observation other than the call of a listener. *)
Definition benign (o : obs) : Prop :=
  match o with
  | OListener _ _ _ _ _ => False
  | _ => True
  end.

(** The objects that are no session, group or event. *)
Definition plain (o : object) : Prop :=
  match o with
  | Session _ | Grp _ | Event _ => False
  | _ => True
  end.

(** [similar o o']: an object and what an assignment to one of its members
    other than a listener's callback makes of it, or a listener whose
    callback has been cleared. *)
Definition similar (o o' : object) : Prop :=
  match o, o' with
  | Listener x, Listener x' => l_cb x' = l_cb x ∨ l_cb x' = None
  | Def _, Def _ | Event _, Event _ | Grp _, Grp _ | Session _, Session _
  | Ctx _, Ctx _ | Workers _, Workers _ => True
  | _, _ => False
  end.

(** *** Reachable states *)

(** The states the engine is in after a sequence of calls that returned. *)
Definition reachable `{callbacks} (st : evm_t) : Prop :=
  ∃ o cs, run cs (boot o) = (Done tt, st).

(** Every allocated address has been handed out. *)
Definition below (st : evm_t) : Prop :=
  ∀ a ob, heap st !! a = Some ob → (a < brk st)%nat.



(** *** Sessions being processed *)

(** An event with its destroy callback and its user data. *)
Definition entry : Type := addr * option Z * Z.

(** What a run has dispatched, with the depth of the group; what it has
    appended to session [s]. *)
Definition dispatches (tr : list obs) : list (addr * Z) :=
  omap (λ o, match o with ODispatch e d => Some (e, d) | _ => None end) tr.

Definition appended (s : addr) (tr : list obs) : list entry :=
  omap (λ o, match o with
             | OAppend s' e cb u =>
               if decide (s' = s) then Some (e, cb, u) else None
             | _ => None
             end) tr.

(** The observations that calls made from callbacks leave. *)
Definition quiet (o : obs) : Prop :=
  match o with
  | OAppend _ _ _ _ | ORefused => True
  | _ => False
  end.


(** What the engine relies on in the links between sessions, groups and
    events: a session's last group is a group of that session, a group's
    last event an event of that group, and no event has a string
    representation (the model never builds one). *)
Record evm_inv (st : evm_t) : Prop := {
  inv_below : below st;
  inv_session_tail : ∀ s sx g,
    heap st !! s = Some (Session sx) → s_tail sx = Some g →
    (g < brk st)%nat ∧
    ∀ gx, heap st !! g = Some (Grp gx) → g_session gx = Some s;
  inv_grp_tail : ∀ g gx e,
    heap st !! g = Some (Grp gx) → g_tail gx = Some e →
    (e < brk st)%nat ∧
    ∀ ex, heap st !! e = Some (Event ex) → e_grp ex = Some g;
  inv_strep : ∀ e ex, heap st !! e = Some (Event ex) → e_strep ex = None
}.

(** [x] is an event of group [g] that has not been dispatched. *)
Definition is_pending (st : evm_t) (g : addr) (x : entry) : Prop :=
  ∃ ex, heap st !! x.1.1 = Some (Event ex) ∧ e_grp ex = Some g ∧
        e_dispatched ex = false ∧ e_destroycb ex = x.1.2 ∧ e_user ex = x.2.

(** The queue of group [g] holds the events [E]. *)
Definition pending (st : evm_t) (g : addr) (E : list entry) : Prop :=
  queue st (GrpQ g) (E.*1.*1) ∧ Forall (is_pending st g) E.

(** [g] is a group of session [s] at depth [d]. *)
Definition grp_of (st : evm_t) (s g : addr) (d : Z) : Prop :=
  ∃ gx, heap st !! g = Some (Grp gx) ∧ g_session gx = Some s ∧
        g_depth gx = d.

(** Session [s] as a worker finds it: one group [g], at depth [d], with
    the events [E]. *)
Record ready (st : evm_t) (s g : addr) (d : Z) (E : list entry) : Prop := {
  ready_session : queue st (SessionQ s) [g];
  ready_grp : grp_of st s g d;
  ready_events : pending st g E
}.

(** Session [s] while the events of its group [g] are dispatched: [g] is
    off the session's queue and holds [R]; the queue holds the next group
    [n], with the events [L] appended so far. *)
Record busy (st : evm_t) (s g n : addr) (d : Z) (R L : list entry)
  : Prop := {
  busy_session : queue st (SessionQ s) [n];
  busy_next : grp_of st s n (u32 (d + 1));
  busy_appended : pending st n L;
  busy_grp : grp_of st s g d;
  busy_events : pending st g R;
  busy_distinct : g ≠ n
}.


(** [steady st0 st]: the sessions, groups and events of [st] are those of
    [st0], and since [st0] nothing but refusals has been observed. *)
Definition steady (st0 st : evm_t) : Prop :=
  below st ∧ (brk st0 ≤ brk st)%nat ∧
  (∀ a ob, ¬ plain ob → heap st !! a = Some ob ↔ heap st0 !! a = Some ob) ∧
  ∃ tr, trace st = trace st0 ++ tr ∧ Forall (eq ORefused) tr.

(** A new object that points to no last group or event and has no string
    representation. *)
Definition fresh_ok (ob : object) : Prop :=
  match ob with
  | Session sx => s_tail sx = None
  | Grp gx => g_tail gx = None
  | Event ex => e_strep ex = None
  | _ => True
  end.


(** [alike o o']: the same object, or the same session in another place
    of the queue of its context. *)
Definition alike (o o' : object) : Prop :=
  o' = o ∨ ∃ sx v, o = Session sx ∧ o' = Session (set_s_next v sx).

(** [kept st st']: the sessions, groups and events of [st] are in
    [st']. *)
Definition kept (st st' : evm_t) : Prop :=
  ∀ a ob, heap st !! a = Some ob → ¬ plain ob →
          ∃ ob', heap st' !! a = Some ob' ∧ alike ob ob'.

(** [grown st0 st]: [st] comes from [st0] by calls that kept its sessions,
    groups and events, and of which only refusals were observed. *)
Definition grown (st0 st : evm_t) : Prop :=
  evm_inv st ∧ kept st0 st ∧ (brk st0 ≤ brk st)%nat ∧
  ∃ tr, trace st = trace st0 ++ tr ∧ Forall (eq ORefused) tr.

(** [narrowed o o']: the object [o'] is [o] with the links of its owner
    kept and its last group or event kept or cleared. *)
Definition narrowed (o o' : object) : Prop :=
  match o, o' with
  | Session sx, Session sx' => s_tail sx' = s_tail sx ∨ s_tail sx' = None
  | Grp gx, Grp gx' =>
    g_session gx' = g_session gx ∧
    (g_tail gx' = g_tail gx ∨ g_tail gx' = None)
  | Event ex, Event ex' =>
    e_grp ex' = e_grp ex ∧ e_strep ex' = e_strep ex
  | _, _ => o' = o
  end.

(** What [evm_destroy_event] leaves of the trace. *)
Definition destroy_obs (e : addr) (ex : evm_event_s) : list obs :=
  match e_destroycb ex with
  | Some cb => [OEventDestroy cb e (e_dispatched ex) (e_user ex)]
  | None => []
  end.

(** The calls of the destroy callbacks of events that were not
    dispatched. *)
Definition destroyed (E : list entry) : list obs :=
  x ← E;
  match x.1.2 with
  | Some cb => [OEventDestroy cb x.1.1 false x.2]
  | None => []
  end.


(** The observations that can follow the halt of a session: no event is
    dispatched, no listener called and no session halted. *)
Definition winding (o : obs) : Prop :=
  match o with
  | ODispatch _ _ | OHalt _ _ _ | OListener _ _ _ _ _ => False
  | _ => True
  end.

(** *** A scenario

    One context with one event type, [5], and one listener for it.  The
    listener appends two events of that type, with the destroy callback
    [3], while the first event of a session is dispatched, and nothing
    later; the session callback leaves [halting] in [halt] at every
    [eEvmEventComplete]. *)
Definition code_demo (halting : bool) : callbacks := {|
  listener_cb cb session event user h :=
    match dispatches h with
    | [_] =>
      CbSessionAppend (Some session) 5 11 (Some 3) 21 (λ _,
        CbSessionAppend (Some session) 5 12 (Some 3) 22 (λ _,
          CbReturn true))
    | _ => CbReturn true
    end;
  session_cb cb session data user h :=
    match data with
    | eEvmEventComplete _ _ => CbReturn halting
    | _ => CbReturn false
    end
|}.

Definition evm_set_up : list api :=
  [Initialize 0 300; RegisterType (Some 0%nat) 5 None;
   AddListener (Some 0%nat) 5 (Some 1) None 0].

(** The engine with its listener, and with a session started on it. *)
Definition evm_listening : evm_t :=
  (@run (code_demo false) evm_set_up (boot [])).2.

Definition evm_started : evm_t :=
  (evm_start_session (Some 0%nat) 5 10 (Some 3) (Some 9) 20
     evm_listening).2.

(** *** Runs that return *)

(** [safe m st Q]: from [st] the computation [m] returns, with a result and
    in a state that satisfy [Q]. *)
Definition safe {A} (m : M A) (st : evm_t) (Q : A → evm_t → Prop) : Prop :=
  ∃ a st', m st = (Done a, st') ∧ Q a st'.

End Evm.

(** ** event.c: the lists of definitions and listeners *)

Module EvmList.
Import Evm.

Definition next_def (st : evm_t) (a : addr) : option (option addr) :=
  match heap st !! a with
  | Some (Def d) => Some (d_next d)
  | _ => None
  end.

Definition next_listener (st : evm_t) (a : addr) : option (option addr) :=
  match heap st !! a with
  | Some (Listener l) => Some (l_next l)
  | _ => None
  end.

(** The event type definitions of context [c], first to last. *)
Definition def_list (st : evm_t) (c : addr) (L : list addr) : Prop :=
  ∃ cx, heap st !! c = Some (Ctx cx) ∧ lseg (next_def st) (c_defs cx) L.

(** The listeners of definition [d], first to last. *)
Definition listener_list (st : evm_t) (d : addr) (L : list addr) : Prop :=
  ∃ dx, heap st !! d = Some (Def dx) ∧
        lseg (next_listener st) (d_listeners dx) L.

(** The first definition of [L] for the event type [eid]. *)
Fixpoint first_def (st : evm_t) (L : list addr) (eid : Z) : option addr :=
  match L with
  | [] => None
  | d :: L =>
    match heap st !! d with
    | Some (Def dx) => if d_eid dx =? eid then Some d else first_def st L eid
    | _ => None
    end
  end.

End EvmList.

(** ** event.c: the registry of listeners *)

Module EvmRegistry.
Import Evm EvmList.

(** The listener at [l] has a callback: it has not been removed. *)
Definition has_cb (st : evm_t) (l : addr) : bool :=
  match heap st !! l with
  | Some (Listener lx) =>
    match l_cb lx with
    | Some _ => true
    | None => false
    end
  | _ => false
  end.

(** What [evm_destroy_listener] leaves of the trace. *)
Definition listener_destroy_obs (st : evm_t) (l : addr) : list obs :=
  match heap st !! l with
  | Some (Listener lx) =>
    match l_destroycb lx, l_def lx with
    | Some cb, Some d =>
      match heap st !! d with
      | Some (Def dx) => [OListenerDestroy cb l (d_eid dx) (l_user lx)]
      | _ => []
      end
    | _, _ => []
    end
  | _ => []
  end.

(** The listener at [l] belongs to definition [d]. *)
Definition listener_of (st : evm_t) (d l : addr) : Prop :=
  ∃ lx, heap st !! l = Some (Listener lx) ∧ l_def lx = Some d.

(** The definitions of context [c], each with its listeners, first to
    last. *)
Definition registry (st : evm_t) (c : addr) (R : list (addr * list addr))
  : Prop :=
  def_list st c R.*1 ∧
  Forall (λ x, listener_list st x.1 x.2 ∧ Forall (listener_of st x.1) x.2) R ∧
  NoDup (mjoin R.*2).

(** [relinked st st']: the objects of [st'] are those of [st], with the
    links of the lists of listeners changed at most. *)
Definition relinked (st st' : evm_t) : Prop :=
  brk st' = brk st ∧ oracle st' = oracle st ∧ trace st' = trace st ∧
  evm_gctx st' = evm_gctx st ∧
  ∀ a, match heap st !! a with
       | Some (Listener lx) =>
         ∃ n, heap st' !! a = Some (Listener (set_l_next n lx))
       | Some (Def dx) =>
         ∃ n, heap st' !! a = Some (Def (set_d_listeners n dx))
       | o => heap st' !! a = o
       end.

(** A machine with two listeners for one event type, and the same with
    the newer of them removed. *)
Definition evm_pair : evm_t :=
  (@run (code_demo false)
     (evm_set_up ++ [AddListener (Some 0%nat) 5 (Some 2) (Some 7) 30])
     (boot [])).2.

Definition evm_removed : evm_t :=
  (evm_remove_listener (Some 0%nat) (Some 6%nat) evm_pair).2.

End EvmRegistry.

(** ** event.c: a queue of two sessions *)

Module EvmCancel.
Import Evm.

(** The machine of [evm_listening] with two sessions in the queue, neither
    with a session callback. *)
Definition evm_queued : evm_t :=
  (@run (code_demo false)
     [StartSession (Some 0%nat) 5 10 (Some 3) None 20;
      StartSession (Some 0%nat) 5 11 (Some 3) None 21]
     evm_listening).2.

End EvmCancel.

(** ** store.c: pruning *)

Module StorePrune.
Import Bitwise Store.

(** The walk
    [while (siblings!=NULL && siblings->next!=node) siblings= siblings->next;]
    of [store_unhook]. *)
Fixpoint unhook_scan (fuel : nat) (s : store_t) (siblings : option addr)
    (node : addr) : outcome (option addr) :=
  match siblings with
  | None => Done None
  | Some a =>
    match fuel with
    | O => Timeout
    | S fuel =>
      e ← deref s a;
      if bool_decide (n_next e = Some node) then Done (Some a)
      else unhook_scan fuel s (n_next e) node
    end
  end.

(** [store_unhook(node)] *)
Definition store_unhook (s : store_t) (node : addr) : outcome store_t :=
  n ← deref s node;
  p ← must (n_parent n);
  pe ← deref s p;
  s ← (if bool_decide (n_childrens pe = Some node) then
         modify p (set_childrens (n_next n)) s
       else
         sib ← unhook_scan (brk s) s (n_childrens pe) node;
         match sib with
         | Some a => modify a (set_next (n_next n)) s
         | None => Done s
         end);
  modify node (set_next None) s.

(** [store_release_node(node)]: the call of the delete callback is
    recorded; the key buffer, held by value, is freed by clearing it. *)
Definition store_release_node (s : store_t) (node : addr) : outcome store_t :=
  n ← deref s node;
  s ← (if bool_decide (n_childrens n = None) then
         kr ← must (n_key_ref n);
         o ← deref s kr;
         let s := match n_key o, n_cb n with
                  | Some k, Some cb =>
                    with_calls (calls s ++ [DeleteCb cb k (n_data n)]) s
                  | _, _ => s
                  end in
         match n_key o with
         | Some _ => modify kr (set_key None) s
         | None => Done s
         end
       else Done s);
  Done (FREE node s).

(** The loop [while (deleted!=NULL)] of [store_prune]. *)
Fixpoint prune_loop (fuel : nat) (deleted : option addr) (s : store_t)
  : outcome store_t :=
  match deleted with
  | None => Done s
  | Some node =>
    match fuel with
    | O => Timeout
    | S fuel =>
      n ← deref s node;
      let deleted := n_dlist n in
      s ← store_unhook s node;
      n ← deref s node;
      p ← must (n_parent n);
      pe ← deref s p;
      '(deleted, s) ←
        (if bool_decide (n_childrens pe = None) &&
            bool_decide (n_parent pe ≠ None)
         then
           s ← modify p (set_mask (Z.lor (n_mask pe) MASK_DELETE_LIST)) s;
           s ← modify p (set_cb None) s;
           s ← modify p (set_dlist deleted) s;
           Done (Some p, s)
         else Done (deleted, s));
      n ← deref s node;
      s ← (if negb (NODEP_olist n) then store_release_node s node
           else
             s ← modify node
                   (set_mask (Z.land (n_mask n)
                                (u32 (Z.lnot MASK_DELETE_LIST)))) s;
             n ← deref s node;
             modify node (set_mask (Z.lor (n_mask n) MASK_DEAD)) s);
      prune_loop fuel deleted s
    end
  end.

(** [store_prune(ctx)] *)
Definition store_prune (s : store_t) : outcome store_t :=
  root ← must (ctx_data s);
  r ← deref s root;
  s ← modify root (set_dlist None) s;
  prune_loop (brk s) (n_dlist r) s.

(** [unhooked s s' node]: [s'] is [s] with [node] taken out of the child
    list of its parent and marked dead instead of deleted; nothing is
    freed and no callback is called. *)
Record unhooked (s s' : store_t) (node : addr) : Prop := {
  unh_bits : ctx_bits s' = ctx_bits s;
  unh_size : ctx_key_size s' = ctx_key_size s;
  unh_data : ctx_data s' = ctx_data s;
  unh_brk : brk s' = brk s;
  unh_calls : calls s' = calls s;
  unh_dom : ∀ a, is_Some (heap s' !! a) ↔ is_Some (heap s !! a);
  unh_fields : ∀ a e e', heap s !! a = Some e → heap s' !! a = Some e' →
      n_parent e' = n_parent e ∧ n_id e' = n_id e ∧ n_level e' = n_level e ∧
      n_key e' = n_key e ∧ n_key_ref e' = n_key_ref e ∧
      n_data e' = n_data e ∧ n_cb e' = n_cb e ∧
      (a ≠ node → n_mask e' = n_mask e ∧
                  (n_next e' = n_next e ∨ n_next e = Some node));
  unh_node : ∃ n', heap s' !! node = Some n' ∧ NODEP_dead n' = true ∧
      NODEP_dlist n' = false ∧ n_next n' = None ∧ n_childrens n' = None;
  unh_lists : ∀ q eq eq', heap s !! q = Some eq → heap s' !! q = Some eq' →
      ∃ l, chain s (n_childrens eq) l ∧
           chain s' (n_childrens eq') (filter (λ c, c ≠ node) l)
}.

(** Two keys that share their first two bytes, added to an empty store;
    then the second of them deleted. *)
Definition store_two : store_t :=
  after store_one (λ s, store_add s (Some key_b) 2 (Some 8)).

Definition store_two_deleted : store_t :=
  after store_two (λ s, store_delete s (Some key_b)).

End StorePrune.

(** ** hash.c, [strid] of str.c and [evm_generate_eid] of event.c *)

Module Hash.

(** The loop of [hash_djb2]: [retval = (retval * 33) + *ptr] on a
    [uint32_t]. *)
Fixpoint djb2_loop (retval : Z) (data : list Z) : Z :=
  match data with
  | [] => retval
  | b :: data => djb2_loop (u32 (u32 (retval * 33) + b)) data
  end.

(** [hash_djb2(data, size)]: [data] is the buffer that the pointer refers
    to, [None] for NULL; reading past its end is undefined. *)
Definition hash_djb2 (data : option (list Z)) (size : nat) : outcome Z :=
  match data with
  | None => Done 0
  | Some buf =>
    if bool_decide (0 < size)%nat then
      if bool_decide (size ≤ length buf)%nat
      then Done (djb2_loop 5381 (take size buf))
      else Crash
    else Done 0
  end.

(** The loop of [hash_sdbm]:
    [retval = *ptr + (retval << 6) + (retval << 16) - retval]. *)
Fixpoint sdbm_loop (retval : Z) (data : list Z) : Z :=
  match data with
  | [] => retval
  | b :: data =>
    sdbm_loop
      (u32 (u32 (u32 (b + u32 (Z.shiftl retval 6)) + u32 (Z.shiftl retval 16))
            - retval)) data
  end.

Definition hash_sdbm (data : option (list Z)) (size : nat) : outcome Z :=
  match data with
  | None => Done 0
  | Some buf =>
    if bool_decide (0 < size)%nat then
      if bool_decide (size ≤ length buf)%nat
      then Done (sdbm_loop 0 (take size buf))
      else Crash
    else Done 0
  end.

(** [strlen]: the number of bytes in front of the first NUL of the buffer;
    a buffer without a NUL is read past its end. *)
Fixpoint strlen (buf : list Z) : outcome nat :=
  match buf with
  | [] => Crash
  | b :: buf => if b =? 0 then Done O else n ← strlen buf; Done (S n)
  end.

(** [strid(str)] *)
Definition strid (str : option (list Z)) : outcome Z :=
  match str with
  | None => Done 0
  | Some buf => n ← strlen buf; hash_djb2 (Some buf) n
  end.

(** [evm_generate_eid(event)] *)
Definition evm_generate_eid (event : option (list Z)) : outcome Z :=
  match event with
  | None => Done 0
  | Some _ => strid event
  end.

(** The value of the digits [l] in base [base], after the leading value
    [acc]; no wrap-around. *)
Definition horner (base acc : Z) (l : list Z) : Z :=
  fold_left (λ a b, a * base + b) l acc.

End Hash.

(** * Properties *)

(** ** bitwise.c *)

Module BitwiseFacts.
Import Bitwise.

Lemma bitmasks_ones n : 0 ≤ n ≤ 8 → bitmasks !! Z.to_nat n = Some (Z.ones n).
Proof.
  intros H. assert (n = 0 ∨ n = 1 ∨ n = 2 ∨ n = 3 ∨ n = 4 ∨ n = 5 ∨ n = 6 ∨ n = 7 ∨ n = 8) as Hn by lia.
  destruct Hn as [->|[->|[->|[->|[->|[->|[->|[->| ->]]]]]]]]; reflexivity.
Qed.

Lemma ABS_neg x : x < 0 → ABS x = - x.
Proof. intros H. unfold ABS. destruct (Z.ltb_spec 0 x), (Z.ltb_spec x 0); lia. Qed.

Lemma get_bits_rec_S d key bit_index bit_len :
  get_bits_rec (S d) key bit_index bit_len =
    let pos := bit_index / 8 in
    let idx := u8 (bit_index - 8 * pos) in
    data ← key !! Z.to_nat pos;
    let shift := (8 - bit_len) - idx in
    data ← (if shift <? 0 then
              let part1 := bit_len - ABS shift in
              let part2 := ABS shift in
              hi ← get_bits_rec d key bit_index (u8 part1);
              lo ← get_bits_rec d key (u32 (bit_index + part1)) (u8 part2);
              Some (u8 (u8 (Z.shiftl hi part2) + lo))
            else Some (Z.shiftr data shift));
    m ← bitmasks !! Z.to_nat bit_len;
    Some (Z.land data m).
Proof. reflexivity. Qed.

(* a slice that stays inside one byte *)
Lemma get_bits_rec_inside d k i n b :
  0 ≤ i → 1 ≤ n → i mod 8 + n ≤ 8 →
  k !! Z.to_nat (i / 8) = Some b →
  get_bits_rec (S d) k i n = Some (Z.land (Z.shiftr b (8 - n - i mod 8)) (Z.ones n)).
Proof.
  intros Hi Hn Hfit Hb. cbn [get_bits_rec].
  assert (u8 (i - 8 * (i / 8)) = i mod 8) as ->.
  { unfold u8. rewrite <- Z.mod_eq by lia. rewrite Z.mod_small; [done|].
    pose proof (Z.mod_pos_bound i 8). lia. }
  rewrite Hb. cbn [mbind option_bind].
  pose proof (Z.mod_pos_bound i 8 ltac:(lia)).
  destruct (Z.ltb_spec (8 - n - i mod 8) 0); [lia|].
  cbn [mbind option_bind]. rewrite bitmasks_ones by lia. done.
Qed.

Lemma u8_small z : 0 ≤ z < 256 → u8 z = z.
Proof. intros. unfold u8. by apply Z.mod_small. Qed.
Lemma u32_small z : 0 ≤ z < 2 ^ 32 → u32 z = z.
Proof. intros. unfold u32. by apply Z.mod_small. Qed.

Lemma land_ones_bound b n : 0 ≤ n → 0 ≤ Z.land b (Z.ones n) < 2 ^ n.
Proof. intros. rewrite Z.land_ones by lia. apply Z.mod_pos_bound. lia. Qed.

Lemma get_bits_spec k i n :
  0 ≤ i → 1 ≤ n ≤ 8 → i + n ≤ 8 * Z.of_nat (length k) → i + 8 < 2 ^ 32 →
  ∃ v, get_bits k i n = Some v ∧ 0 ≤ v < 2 ^ n ∧
       ∀ j, 0 ≤ j < n → Z.testbit v (n - 1 - j) = keybit k (i + j).
Proof.
  intros Hi Hn Hlen Hwrap. unfold get_bits.
  pose proof (Z.mod_pos_bound i 8 ltac:(lia)) as Hidx.
  pose proof (Z.div_mod i 8 ltac:(lia)) as Hdm.
  assert (is_Some (k !! Z.to_nat (i / 8))) as [b Hb].
  { apply lookup_lt_is_Some. lia. }
  destruct (Z.le_gt_cases (i mod 8 + n) 8) as [Hfit|Hspan].
  - destruct (Z.to_nat n) eqn:Hd; [lia|].
    rewrite (get_bits_rec_inside _ _ _ _ b) by (done || lia).
    eexists. split; [done|]. split; [apply land_ones_bound; lia|].
    intros j Hj. rewrite Z.land_spec, Z.shiftr_spec by lia.
    rewrite Z.ones_spec_low by lia. rewrite andb_true_r.
    unfold keybit.
    assert ((i + j) / 8 = i / 8) as ->.
    { symmetry. apply (Z.div_unique _ _ _ (i mod 8 + j)); lia. }
    assert ((i + j) mod 8 = i mod 8 + j) as ->.
    { symmetry. apply (Z.mod_unique _ _ (i / 8)); lia. }
    rewrite Hb. cbn. f_equal. lia.
  - assert (is_Some (k !! Z.to_nat ((i + (8 - i mod 8)) / 8))) as [b' Hb'].
    { apply lookup_lt_is_Some.
      assert ((i + (8 - i mod 8)) / 8 = i / 8 + 1) as ->.
      { symmetry. apply (Z.div_unique _ _ _ 0); lia. }
      lia. }
    assert ((i + (8 - i mod 8)) mod 8 = 0) as Hal.
    { symmetry. apply (Z.mod_unique _ _ (i / 8 + 1)); lia. }
    destruct (Z.to_nat n) as [|d] eqn:Hd; [lia|].
    destruct d as [|d]; [lia|].
    rewrite get_bits_rec_S. cbv zeta.
    assert (u8 (i - 8 * (i / 8)) = i mod 8) as ->.
    { rewrite <- Z.mod_eq by lia. apply u8_small. lia. }
    rewrite Hb. cbn [mbind option_bind].
    destruct (Z.ltb_spec (8 - n - i mod 8) 0); [|lia].
    rewrite ABS_neg by lia.
    replace (n - - (8 - n - i mod 8)) with (8 - i mod 8) by lia.
    replace (- (8 - n - i mod 8)) with (n + i mod 8 - 8) by lia.
    rewrite (u8_small (8 - i mod 8)), (u8_small (n + i mod 8 - 8)) by lia.
    rewrite (u32_small (i + (8 - i mod 8))) by lia.
    rewrite (get_bits_rec_inside _ k i (8 - i mod 8) b) by (done || lia).
    cbn [mbind option_bind].
    rewrite (get_bits_rec_inside _ k (i + (8 - i mod 8)) (n + i mod 8 - 8) b') by (done || lia).
    cbn [mbind option_bind].
    rewrite bitmasks_ones by lia. cbn [mbind option_bind].
    rewrite Hal.
    replace (8 - (8 - i mod 8) - i mod 8) with 0 by lia.
    rewrite Z.shiftr_0_r.
    set (p1 := 8 - i mod 8). set (p2 := n + i mod 8 - 8).
    replace (8 - p2 - 0) with (8 - p2) by lia.
    set (hi := Z.land b (Z.ones p1)). set (lo := Z.land (Z.shiftr b' (8 - p2)) (Z.ones p2)).
    assert (0 ≤ hi < 2 ^ p1) as Hhi by (apply land_ones_bound; lia).
    assert (0 ≤ lo < 2 ^ p2) as Hlo by (apply land_ones_bound; lia).
    assert (2 ^ n = 2 ^ p1 * 2 ^ p2) as Hpow.
    { rewrite <- Z.pow_add_r by lia. f_equal. lia. }
    assert (2 ^ n ≤ 256) as Hn256.
    { change 256 with (2 ^ 8). apply Z.pow_le_mono_r; lia. }
    assert (0 < 2 ^ p2) as Hp2 by (apply Z.pow_pos_nonneg; lia).
    assert (0 ≤ Z.shiftl hi p2 + lo < 2 ^ n) as Hsum.
    { rewrite Z.shiftl_mul_pow2 by lia. nia. }
    rewrite (u8_small (Z.shiftl hi p2)).
    2:{ rewrite Z.shiftl_mul_pow2 by lia. nia. }
    rewrite (u8_small (Z.shiftl hi p2 + lo)) by lia.
    eexists. split; [done|]. split; [apply land_ones_bound; lia|].
    intros j Hj.
    rewrite Z.land_spec, Z.ones_spec_low, andb_true_r by lia.
    assert (Z.shiftl hi p2 + lo = Z.lor (Z.shiftl hi p2) lo) as ->.
    { rewrite <- Z.lxor_lor; [apply Z.add_nocarry_lxor|];
      apply Z.bits_inj'; intros t Ht; rewrite Z.land_spec, Z.bits_0;
      destruct (Z.lt_ge_cases t p2);
      [rewrite Z.shiftl_spec_low by lia; done
      |unfold lo; rewrite Z.land_spec, Z.ones_spec_high, andb_false_r, andb_false_r by lia; done
      |rewrite Z.shiftl_spec_low by lia; done
      |unfold lo; rewrite Z.land_spec, Z.ones_spec_high, andb_false_r, andb_false_r by lia; done]. }
    rewrite Z.lor_spec. unfold keybit.
    destruct (Z.lt_ge_cases (i mod 8 + j) 8) as [Hlow|Hhigh].
    + assert ((i + j) / 8 = i / 8) as ->.
      { symmetry. apply (Z.div_unique _ _ _ (i mod 8 + j)); lia. }
      assert ((i + j) mod 8 = i mod 8 + j) as ->.
      { symmetry. apply (Z.mod_unique _ _ (i / 8)); lia. }
      rewrite Hb. cbn [default].
      rewrite Z.shiftl_spec by lia. unfold hi, lo.
      rewrite !Z.land_spec. rewrite Z.ones_spec_low by lia.
      rewrite (Z.ones_spec_high p2) by lia.
      rewrite andb_true_r, andb_false_r, orb_false_r. f_equal. lia.
    + assert ((i + j) / 8 = (i + (8 - i mod 8)) / 8) as ->.
      { assert ((i + (8 - i mod 8)) / 8 = i / 8 + 1) as ->.
        { symmetry. apply (Z.div_unique _ _ _ 0); lia. }
        symmetry. apply (Z.div_unique _ _ _ (i mod 8 + j - 8)); lia. }
      assert ((i + j) mod 8 = i mod 8 + j - 8) as ->.
      { symmetry. apply (Z.mod_unique _ _ (i / 8 + 1)); lia. }
      rewrite Hb'. cbn [default].
      rewrite Z.shiftl_spec_low by lia. unfold lo.
      rewrite Z.land_spec, Z.shiftr_spec, Z.ones_spec_low by lia.
      rewrite andb_true_r. cbn. f_equal. lia.
Qed.

Lemma bits_unique n v w :
  0 ≤ n → 0 ≤ v < 2 ^ n → 0 ≤ w < 2 ^ n →
  (∀ t, 0 ≤ t < n → Z.testbit v t = Z.testbit w t) → v = w.
Proof.
  intros Hn Hv Hw Hbits. apply Z.bits_inj'. intros t Ht.
  destruct (Z.lt_ge_cases t n) as [Hlt|Hge]; [by apply Hbits|].
  assert (∀ x, 0 ≤ x < 2 ^ n → Z.testbit x t = false) as Hhigh.
  { intros x Hx. destruct (decide (x = 0)) as [->|]; [apply Z.bits_0|].
    apply Z.bits_above_log2; [lia|].
    assert (Z.log2 x < n); [|lia]. apply Z.log2_lt_pow2; lia. }
  by rewrite !Hhigh.
Qed.

(** Two buffers with the same bits in a slice have the same slice. *)
Lemma get_bits_ext k1 k2 i n :
  0 ≤ i → 1 ≤ n ≤ 8 → i + 8 < 2 ^ 32 →
  i + n ≤ 8 * Z.of_nat (length k1) → i + n ≤ 8 * Z.of_nat (length k2) →
  (∀ j, 0 ≤ j < n → keybit k1 (i + j) = keybit k2 (i + j)) →
  get_bits k1 i n = get_bits k2 i n.
Proof.
  intros Hi Hn Hw H1 H2 Hbits.
  destruct (get_bits_spec k1 i n) as (v & -> & Hv & Hvb); [done..|].
  destruct (get_bits_spec k2 i n) as (w & -> & Hw' & Hwb); [done..|].
  f_equal. apply (bits_unique n); [lia|done|done|].
  intros t Ht. specialize (Hvb (n - 1 - t) ltac:(lia)).
  specialize (Hwb (n - 1 - t) ltac:(lia)).
  replace (n - 1 - (n - 1 - t)) with t in * by lia.
  rewrite Hvb, Hwb. apply Hbits. lia.
Qed.

Lemma keybit_take k m n :
  0 ≤ n < 8 * Z.of_nat m → keybit (take m k) n = keybit k n.
Proof.
  intros Hn. unfold keybit. rewrite lookup_take_lt; [done|].
  assert (n / 8 < Z.of_nat m); [|lia]. apply Z.div_lt_upper_bound; lia.
Qed.

(** The slices of width [n] of a buffer of [8 * length k] bits, [n]
    dividing that number, determine the buffer. *)
Lemma slices_inj k1 k2 n :
  1 ≤ n ≤ 8 → length k1 = length k2 → bytes k1 → bytes k2 →
  (n | 8 * Z.of_nat (length k1)) → 8 * Z.of_nat (length k1) + 8 < 2 ^ 32 →
  (∀ lv, 0 ≤ lv → lv * n < 8 * Z.of_nat (length k1) →
         get_bits k1 (lv * n) n = get_bits k2 (lv * n) n) →
  k1 = k2.
Proof.
  intros Hn Hlen Hb1 Hb2 [q Hq] Hw Hsl.
  assert (∀ p, 0 ≤ p < 8 * Z.of_nat (length k1) → keybit k1 p = keybit k2 p) as Hbit.
  { intros p Hp.
    pose proof (Z.div_mod p n ltac:(lia)) as Hdm.
    pose proof (Z.mod_pos_bound p n ltac:(lia)) as Hmod.
    assert (0 ≤ p / n) as Hdiv by (apply Z.div_pos; lia).
    assert (p / n < q) as Hlt by (apply Z.div_lt_upper_bound; nia).
    assert (p / n * n + n ≤ 8 * Z.of_nat (length k1)) as Hfit by nia.
    specialize (Hsl (p / n) Hdiv ltac:(lia)).
    destruct (get_bits_spec k1 (p / n * n) n) as (v & Hv & _ & Hvb); [lia..|].
    destruct (get_bits_spec k2 (p / n * n) n) as (w & Hw' & _ & Hwb); [lia..|].
    assert (v = w) as -> by congruence.
    replace p with (p / n * n + p mod n) by lia.
    rewrite <- Hvb, <- Hwb by lia. done. }
  apply list_eq. intros idx.
  destruct (decide (idx < length k1)%nat) as [Hin|Hout].
  2:{ rewrite !lookup_ge_None_2 by lia. done. }
  destruct (lookup_lt_is_Some_2 k1 idx Hin) as [b1 Hl1].
  destruct (lookup_lt_is_Some_2 k2 idx ltac:(lia)) as [b2 Hl2].
  rewrite Hl1, Hl2. f_equal.
  pose proof (Forall_lookup_1 _ _ _ _ Hb1 Hl1) as Hr1.
  pose proof (Forall_lookup_1 _ _ _ _ Hb2 Hl2) as Hr2. cbn in Hr1, Hr2.
  apply (bits_unique 8); [lia|done|done|].
  intros t Ht. specialize (Hbit (8 * Z.of_nat idx + (7 - t)) ltac:(lia)).
  unfold keybit in Hbit.
  assert ((8 * Z.of_nat idx + (7 - t)) / 8 = Z.of_nat idx) as Hd.
  { symmetry. apply (Z.div_unique _ _ _ (7 - t)); lia. }
  assert ((8 * Z.of_nat idx + (7 - t)) mod 8 = 7 - t) as Hm.
  { symmetry. apply (Z.mod_unique _ _ (Z.of_nat idx)); lia. }
  rewrite Hd, Hm, Nat2Z.id, Hl1, Hl2 in Hbit. cbn in Hbit.
  replace (7 - (7 - t)) with t in Hbit by lia. done.
Qed.

End BitwiseFacts.

(** ** Bit slices of a key *)

Module BitwiseProps.
Import Bitwise BitwiseFacts.

(** [get_bits key i n] for a slice of 1 to 8 bits that lies inside the key
    returns the value whose [n] low bits are the bits [i] to [i + n - 1]
    of the key, the first of them the most significant, whether the slice
    lies in one byte or spans two. *)
Theorem get_bits_reads_slice (k : list Z) (i n : Z) :
  0 ≤ i → 1 ≤ n ≤ 8 → i + n ≤ 8 * Z.of_nat (length k) → i + 8 < 2 ^ 32 →
  ∃ v, get_bits k i n = Some v ∧ 0 ≤ v < 2 ^ n ∧
       ∀ j, 0 ≤ j < n → Z.testbit v (n - 1 - j) = keybit k (i + j).
Proof. apply get_bits_spec. Qed.

Lemma get_bits_reads_slice_witness :
  ∃ v, get_bits [165; 60] 6 4 = Some v ∧ 0 ≤ v < 2 ^ 4 ∧
       ∀ j, 0 ≤ j < 4 → Z.testbit v (4 - 1 - j) = keybit [165; 60] (6 + j).
Proof.
  apply (get_bits_reads_slice [165; 60] 6 4).
  - lia.
  - lia.
  - cbn. lia.
  - lia.
Defined.

(** Two keys of the same length that have the same slices of [n] bits,
    [n] dividing the number of bits of a key, are the same key: the path of
    a key through the tree determines the key. *)
Theorem slices_determine_key (k1 k2 : list Z) (n : Z) :
  1 ≤ n ≤ 8 → length k1 = length k2 → bytes k1 → bytes k2 →
  (n | 8 * Z.of_nat (length k1)) → 8 * Z.of_nat (length k1) + 8 < 2 ^ 32 →
  (∀ lv, 0 ≤ lv → lv * n < 8 * Z.of_nat (length k1) →
         get_bits k1 (lv * n) n = get_bits k2 (lv * n) n) →
  k1 = k2.
Proof. apply slices_inj. Qed.

Lemma slices_determine_key_witness : [165; 60] = [165; 60].
Proof.
  apply (slices_determine_key [165; 60] [165; 60] 4).
  - lia.
  - reflexivity.
  - repeat constructor; lia.
  - repeat constructor; lia.
  - exists 4. reflexivity.
  - cbn. lia.
  - intros lv _ _. reflexivity.
Defined.

End BitwiseProps.

(** ** store.c *)

Module StoreFacts.
Import Bitwise BitwiseFacts Store StoreRel.

(** *** The outcome monad *)

Lemma bind_Done {A B} (m : outcome A) (f : A → outcome B) r :
  m ≫= f = Done r ↔ ∃ a, m = Done a ∧ f a = Done r.
Proof.
  destruct m; cbn; split; intros H; try done; try (by exists a);
    by destruct H as (? & [=] & ?); subst.
Qed.

Lemma must_Done {A} (o : option A) a : must o = Done a ↔ o = Some a.
Proof. destruct o; cbn; naive_solver. Qed.

Lemma deref_Done s a e : deref s a = Done e ↔ heap s !! a = Some e.
Proof. apply must_Done. Qed.

Lemma modify_Done a f s s' :
  modify a f s = Done s' ↔ ∃ e, heap s !! a = Some e ∧ s' = write a (f e) s.
Proof.
  unfold modify. rewrite bind_Done. setoid_rewrite deref_Done.
  split.
  - intros (e & He & Hs). exists e. split; [done|]. by injection Hs.
  - intros (e & He & ->). by exists e.
Qed.

(** Inversion of a hypothesis [m = Done r] along the binds of [m]. *)
Ltac inv_done H :=
  repeat match type of H with
  | _ ≫= _ = Done _ =>
    let a := fresh "a" in let Ha := fresh "Hrun" in
    apply bind_Done in H as (a & Ha & H)
  | mret _ = Done _ => injection H as H
  | Done _ = Done _ => injection H as H
  | Crash = Done _ => discriminate H
  | Timeout = Done _ => discriminate H
  end.

(** *** Chains *)

Lemma chain_det s hd l l' : chain s hd l → chain s hd l' → l = l'.
Proof.
  intros H. revert l'. induction H as [|a e l He _ IH]; intros l' H'.
  - by inversion H'.
  - inversion H' as [|? e' l2 He' Hl2]; subst.
    rewrite He in He'. injection He' as <-. f_equal. by apply IH.
Qed.

Lemma chain_alloc s hd l a : chain s hd l → a ∈ l → is_Some (heap s !! a).
Proof.
  induction 1 as [|b e l He _ IH]; intros Hin; [by apply elem_of_nil in Hin|].
  apply elem_of_cons in Hin as [->|Hin]; eauto.
Qed.

(** From any member of a chain the rest of the chain is a chain. *)
Lemma chain_suffix s hd l a :
  chain s hd l → a ∈ l →
  ∃ l1 l2, l = l1 ++ a :: l2 ∧ chain s (Some a) (a :: l2).
Proof.
  induction 1 as [|b e l He Hl IH]; intros Hin; [by apply elem_of_nil in Hin|].
  apply elem_of_cons in Hin as [->|Hin].
  - exists [], l. split; [done|]. by econstructor.
  - destruct (IH Hin) as (l1 & l2 & -> & Hc). by exists (b :: l1), l2.
Qed.

Lemma chain_NoDup s hd l : chain s hd l → NoDup l.
Proof.
  induction 1 as [|a e l He Hl IH]; [constructor|].
  constructor; [|done]. intros Hin.
  destruct (chain_suffix _ _ _ _ Hl Hin) as (l1 & l2 & Heq & Hc).
  assert (chain s (Some a) (a :: l)) as Hc' by (by econstructor).
  pose proof (chain_det _ _ _ _ Hc Hc') as Hl2.
  injection Hl2 as Hl2. subst l2.
  apply (f_equal length) in Heq. rewrite length_app in Heq. cbn in Heq. lia.
Qed.

Lemma chain_next_in s hd l a e m :
  chain s hd l → a ∈ l → heap s !! a = Some e → n_next e = Some m → m ∈ l.
Proof.
  intros Hl Hin He Hm.
  destruct (chain_suffix _ _ _ _ Hl Hin) as (l1 & l2 & -> & Hc).
  inversion Hc as [|? e' ? He' Hl2]; subst.
  rewrite He in He'. injection He' as <-. rewrite Hm in Hl2.
  inversion Hl2; subst. set_solver.
Qed.

(** A chain only depends on the [next] fields of its members. *)
Lemma chain_frame s s' hd l :
  (∀ a e, a ∈ l → heap s !! a = Some e →
          ∃ e', heap s' !! a = Some e' ∧ n_next e' = n_next e) →
  chain s hd l → chain s' hd l.
Proof.
  intros Hfr H. induction H as [|a e l He Hl IH]; [constructor|].
  destruct (Hfr a e) as (e' & He' & Hn); [set_solver|done|].
  econstructor; [done|]. rewrite Hn. apply IH. intros. apply Hfr; set_solver.
Qed.

Lemma NoDup_length_bound (l : list nat) (n : nat) :
  NoDup l → (∀ a, a ∈ l → (a < n)%nat) → (length l ≤ n)%nat.
Proof.
  intros Hnd Hlt.
  assert (l ⊆+ seq 0 n) as Hsub.
  { apply NoDup_submseteq; [done|]. intros a Ha. apply elem_of_seq.
    specialize (Hlt a Ha). lia. }
  apply submseteq_length in Hsub. by rewrite length_seq in Hsub.
Qed.

Lemma chain_length s hd l :
  (∀ a e, heap s !! a = Some e → (a < brk s)%nat) →
  chain s hd l → (length l ≤ brk s)%nat.
Proof.
  intros Hbrk Hl. apply NoDup_length_bound; [by eapply chain_NoDup|].
  intros a Ha. destruct (chain_alloc _ _ _ _ Hl Ha) as [e He]. eauto.
Qed.

(** *** The sibling scan *)

Lemma sibling_scan_spec fuel s hd l id :
  chain s hd l → (length l ≤ fuel)%nat →
  sibling_scan fuel s hd id = Done (scan_list s l id).
Proof.
  intros H. revert fuel. induction H as [|a e l He Hl IH]; intros fuel Hf.
  - by destruct fuel.
  - destruct fuel as [|fuel]; [cbn in Hf; lia|].
    cbn. unfold deref. rewrite He. cbn.
    destruct (negb (n_id e =? id) || NODEP_dlist e); [|done].
    apply IH. cbn in Hf. lia.
Qed.

Lemma scan_list_Some s l id a :
  scan_list s l id = Some a →
  a ∈ l ∧ ∃ e, heap s !! a = Some e ∧ n_id e = id ∧ NODEP_dlist e = false.
Proof.
  induction l as [|b l IH]; [done|]. cbn.
  destruct (heap s !! b) as [e|] eqn:He; [|done].
  destruct (negb (n_id e =? id) || NODEP_dlist e) eqn:Hc.
  - intros H. destruct (IH H) as [? ?]. split; [set_solver|done].
  - intros [= <-]. split; [set_solver|]. exists e.
    apply orb_false_iff in Hc as [Hid Hd].
    apply negb_false_iff, Z.eqb_eq in Hid. done.
Qed.

Lemma scan_list_None s l id a e :
  scan_list s l id = None → (∀ b, b ∈ l → is_Some (heap s !! b)) →
  a ∈ l → heap s !! a = Some e → n_id e ≠ id ∨ NODEP_dlist e = true.
Proof.
  induction l as [|b l IH]; intros Hs Hal Hin He; [by apply elem_of_nil in Hin|].
  cbn in Hs. destruct (Hal b) as [eb Heb]; [set_solver|]. rewrite Heb in Hs.
  destruct (negb (n_id eb =? id) || NODEP_dlist eb) eqn:Hc; [|done].
  apply elem_of_cons in Hin as [->|Hin].
  - assert (e = eb) as -> by congruence.
    apply orb_true_iff in Hc as [Hid|Hd]; [left|by right].
    by apply negb_true_iff, Z.eqb_neq in Hid.
  - apply IH; [done| |done..]. intros; apply Hal; set_solver.
Qed.

(** The scan only depends on the ids and masks of the members. *)
Lemma scan_list_frame s s' l id :
  (∀ a e, a ∈ l → heap s !! a = Some e →
     ∃ e', heap s' !! a = Some e' ∧ n_id e' = n_id e ∧
           NODEP_dlist e' = NODEP_dlist e) →
  (∀ a, a ∈ l → is_Some (heap s !! a)) →
  scan_list s' l id = scan_list s l id.
Proof.
  induction l as [|b l IH]; intros Hfr Hal; [done|].
  cbn. destruct (Hal b) as [e He]; [set_solver|].
  destruct (Hfr b e) as (e' & He' & Hid & Hd); [set_solver|done|].
  rewrite He, He', Hid, Hd. rewrite IH; [done| |].
  - intros; apply Hfr; [set_solver|done].
  - intros; apply Hal; set_solver.
Qed.

(** *** [find_node] *)

Lemma child_member s p ep l c :
  store_inv s → heap s !! p = Some ep → chain s (n_childrens ep) l → c ∈ l →
  ∃ ec, heap s !! c = Some ec ∧ n_parent ec = Some p ∧ NODEP_dead ec = false.
Proof.
  intros Hinv Hp Hl Hc. destruct (inv_children _ Hinv p ep Hp) as (l' & Hl' & Hmem).
  rewrite (chain_det _ _ _ _ Hl Hl') in Hc. by apply Hmem.
Qed.

Lemma children_chain s p ep :
  store_inv s → heap s !! p = Some ep →
  ∃ l, chain s (n_childrens ep) l ∧ (length l ≤ brk s)%nat ∧
       ∀ c, c ∈ l ↔ ∃ ec, heap s !! c = Some ec ∧ n_parent ec = Some p ∧
                           NODEP_dead ec = false.
Proof.
  intros Hinv Hp. destruct (inv_children _ Hinv p ep Hp) as (l & Hl & Hmem).
  exists l. split_and!; [done| |done].
  eapply chain_length; [apply Hinv|done].
Qed.

(** The level of a placed node and the index of its slice do not wrap. *)
Lemma level_next s a e p :
  store_inv s → heap s !! a = Some e → n_parent e = Some p →
  NODEP_dead e = false →
  u32 (n_level e + 1) = n_level e + 1 ∧
  u32 (n_level e * ctx_bits s + ctx_bits s) = (n_level e + 1) * ctx_bits s.
Proof.
  intros Hinv He Hp Hd.
  destruct (inv_parent _ Hinv a e p He Hp Hd) as (ep & _ & _ & _ & _ & Hl0 & Hlb & _).
  pose proof (inv_bits _ Hinv). pose proof (inv_size _ Hinv).
  split; rewrite u32_small; nia.
Qed.

Lemma path_ok_child s key a ea p :
  heap s !! a = Some ea → n_parent ea = Some p → path_ok s key p →
  get_bits_at key (n_level ea * ctx_bits s) (ctx_bits s) = Done (n_id ea) →
  path_ok s key a.
Proof.
  intros Ha Hp Hpath Hid b eb Hanc Hb Hpb.
  inversion Hanc as [|? e1 p1 ? He1 Hp1 Hanc']; simplify_eq; [done|].
  by apply (Hpath b eb).
Qed.

Lemma descend_sound fuel s key root ret rete node index cnt res c :
  store_inv s → ctx_data s = Some root →
  heap s !! ret = Some rete → node = n_childrens rete →
  (node = None → ret = root) →
  NODEP_dead rete = false → NODEP_dlist rete = false →
  (ret = root ∨ n_parent rete ≠ None) →
  index = u32 (n_level rete + 1) * ctx_bits s →
  path_ok s key ret →
  descend fuel s key root node ret index cnt = Done (res, c) →
  found s key res.
Proof.
  intros Hinv Hroot. revert ret rete node index cnt.
  induction fuel as [|fuel IH]; intros ret rete node index cnt Hret Hnode Hnone
    Hdead Hdl Hplaced Hidx Hpath Hrun.
  - destruct node as [c0|]; cbn in Hrun.
    + destruct (index <? _) eqn:Hlt; [done|]. exfalso.
      apply Z.ltb_ge in Hlt.
      destruct (children_chain s ret rete Hinv Hret) as (l & Hl & _ & Hmem).
      rewrite <- Hnode in Hl. inversion Hl as [|? e0 l0 He0 Hl0]; subst l.
      destruct (proj1 (Hmem c0)) as (ec & Hec & Hpar & Hdc); [set_solver|].
      destruct (inv_parent _ Hinv c0 ec ret Hec Hpar Hdc)
        as (ep & Hep & _ & _ & Hlv & _ & Hb & _).
      assert (ep = rete) as -> by congruence. rewrite Hlv in Hb. lia.
    + injection Hrun as <- <-. rewrite (Hnone eq_refl) in *.
      exists rete. split_and!; auto; by left.
  - destruct node as [c0|]; cbn in Hrun.
    2:{ injection Hrun as <- <-. rewrite (Hnone eq_refl) in *.
        exists rete. split_and!; auto; by left. }
    destruct (children_chain s ret rete Hinv Hret) as (l & Hl & Hlen & Hmem).
    rewrite <- Hnode in Hl.
    destruct (index <? _) eqn:Hlt.
    2:{ exfalso. apply Z.ltb_ge in Hlt.
        inversion Hl as [|? e0 l0 He0 Hl0]; subst l.
        destruct (proj1 (Hmem c0)) as (ec & Hec & Hpar & Hdc); [set_solver|].
        destruct (inv_parent _ Hinv c0 ec ret Hec Hpar Hdc)
          as (ep & Hep & _ & _ & Hlv & _ & Hb & _).
        assert (ep = rete) as -> by congruence. rewrite Hlv in Hb. lia. }
    apply Z.ltb_lt in Hlt.
    apply bind_Done in Hrun as (id & Hid & Hrun).
    rewrite (sibling_scan_spec _ _ _ l) in Hrun by done. cbn in Hrun.
    destruct (scan_list s l id) as [a|] eqn:Hscan.
    2:{ injection Hrun as <- <-. exists rete. split_and!; auto.
        - destruct Hplaced as [->|?]; auto.
        - right. exists l, id. rewrite Hnode in Hl. rewrite <- Hidx. done. }
    destruct (scan_list_Some _ _ _ _ Hscan) as (Hin & ea & Hea & Hida & Hdla).
    destruct (proj1 (Hmem a) Hin) as (ea' & Hea' & Hpara & Hdeada).
    assert (ea' = ea) as -> by congruence.
    apply bind_Done in Hrun as (e & He & Hrun). apply deref_Done in He.
    assert (e = ea) as -> by congruence.
    destruct (inv_parent _ Hinv a ea ret Hea Hpara Hdeada)
      as (ep & Hep & _ & _ & Hlv & Hl0 & Hb & _).
    assert (ep = rete) as -> by congruence.
    assert (path_ok s key a) as Hpa.
    { apply (path_ok_child s key a ea ret); [done..|]. rewrite Hlv. congruence. }
    destruct ((n_id ea =? id) && bool_decide (n_childrens ea = None)) eqn:Hleaf.
    + injection Hrun as <- <-. exists ea. split_and!; auto.
      * right. congruence.
      * left. apply andb_true_iff in Hleaf as [_ Hleaf].
        by apply bool_decide_eq_true in Hleaf.
    + destruct (level_next s a ea ret Hinv Hea Hpara Hdeada) as [Hn1 Hn2].
      eapply (IH a ea); [done..| | | | | | |exact Hrun]; auto.
      * intros Hnone'. rewrite Hida, Z.eqb_refl, Hnone' in Hleaf.
        by rewrite bool_decide_eq_true_2 in Hleaf.
      * right. congruence.
      * rewrite Hidx, <- Hlv, Hn1. done.
Qed.

Lemma find_node_sound s key node cnt :
  store_inv s → find_node s None key = Done (node, cnt) → found s key node.
Proof.
  intros Hinv Hrun. unfold find_node in Hrun.
  destruct (inv_root _ Hinv) as (r & er & Hr & Her & Hpar & Hlv & Hkr & Hdl & Hdead & _).
  rewrite Hr in Hrun. unfold deref in Hrun.
  cbn [must mbind outcome_bind] in Hrun. rewrite Her in Hrun.
  cbn [must mbind outcome_bind] in Hrun.
  eapply (descend_sound _ s key r r er); [done..| | | | | | |exact Hrun]; auto.
  - rewrite Hlv. change (u32 (u32 (-1) + 1)) with 0. lia.
  - intros b eb Hanc Hb Hpb. inversion Hanc; subst; congruence.
Qed.

(** *** Updates that keep the store well formed *)

Lemma shape_fields e e' :
  shape e' = shape e →
  n_parent e' = n_parent e ∧ n_next e' = n_next e ∧
  n_childrens e' = n_childrens e ∧ n_id e' = n_id e ∧ n_level e' = n_level e ∧
  n_mask e' = n_mask e ∧ n_key e' = n_key e ∧ n_key_ref e' = n_key_ref e ∧
  NODEP_dlist e' = NODEP_dlist e ∧ NODEP_dead e' = NODEP_dead e ∧
  NODEP_olist e' = NODEP_olist e.
Proof.
  unfold shape, NODEP_dlist, NODEP_dead, NODEP_olist. intros [=].
  repeat split; congruence.
Qed.

Lemma agree_fwd D s s' a e :
  agree_except D s s' → a ∉ D → heap s !! a = Some e →
  ∃ e', heap s' !! a = Some e' ∧ shape e' = shape e.
Proof.
  intros (_ & _ & _ & _ & H) Ha He. specialize (H a Ha). rewrite He in H.
  destruct (heap s' !! a) as [e'|]; [|done]. exists e'. split; [done|].
  cbn in H. congruence.
Qed.

Lemma agree_bwd D s s' a e' :
  agree_except D s s' → a ∉ D → heap s' !! a = Some e' →
  ∃ e, heap s !! a = Some e ∧ shape e' = shape e.
Proof.
  intros (_ & _ & _ & _ & H) Ha He. specialize (H a Ha). rewrite He in H.
  destruct (heap s !! a) as [e|]; [|done]. exists e. split; [done|].
  cbn in H. congruence.
Qed.

Lemma chain_agree D s s' hd l :
  agree_except D s s' → (∀ a, a ∈ l → a ∉ D) → chain s hd l → chain s' hd l.
Proof.
  intros Hag HD. apply chain_frame. intros a e Ha He.
  destruct (agree_fwd D s s' a e Hag (HD a Ha) He) as (e' & He' & Hsh).
  exists e'. split; [done|]. by apply shape_fields in Hsh as (_ & ? & _).
Qed.

Lemma chain_agree_rev D s s' hd l :
  agree_except D s s' → (∀ a, a ∈ l → a ∉ D) → chain s' hd l → chain s hd l.
Proof.
  intros Hag HD. apply chain_frame. intros a e Ha He.
  destruct (agree_bwd D s s' a e Hag (HD a Ha) He) as (e' & He' & Hsh).
  exists e'. split; [done|]. by apply shape_fields in Hsh as (_ & ? & _).
Qed.

(** Ancestors are found by following [parent], which no update changes
    once it is set. *)
Lemma anc_agree s s' a b :
  (∀ x e' p, heap s' !! x = Some e' → n_parent e' = Some p → anc s' x b →
     ∃ e, heap s !! x = Some e ∧ n_parent e = Some p) →
  anc s' a b → anc s a b.
Proof.
  intros Hpar H. induction H as [a|a e' p b He' Hp Hanc IH]; [constructor|].
  destruct (Hpar a e' p He' Hp) as (e & He & Hpe); [by econstructor|].
  econstructor; [done..|]. apply IH. done.
Qed.

(** Pull an element of the new store that lies outside the updated
    addresses back to the old store. *)
Ltac old_elem Hag a e' He' e He :=
  let Hsh := fresh "Hsh" in
  destruct (agree_bwd _ _ _ a e' Hag ltac:(set_solver) He') as (e & He & Hsh);
  apply shape_fields in Hsh
    as (?Hpar & ?Hnext & ?Hchi & ?Hid & ?Hlvl & ?Hmask & ?Hkey & ?Hkref & ?Hdl
        & ?Hdd & ?Hol).

Ltac new_elem Hag a e He e' He' :=
  let Hsh := fresh "Hsh" in
  destruct (agree_fwd _ _ _ a e Hag ltac:(set_solver) He) as (e' & He' & Hsh);
  apply shape_fields in Hsh
    as (?Hpar & ?Hnext & ?Hchi & ?Hid & ?Hlvl & ?Hmask & ?Hkey & ?Hkref & ?Hdl
        & ?Hdd & ?Hol).

(** Rewrite the fields of [e'] in the goal to those of its old version. *)
Ltac rw_fields e' :=
  repeat match goal with
  | H : n_id e' = _ |- _ => progress (rewrite H)
  | H : n_level e' = _ |- _ => progress (rewrite H)
  | H : n_parent e' = _ |- _ => progress (rewrite H)
  | H : n_childrens e' = _ |- _ => progress (rewrite H)
  | H : n_next e' = _ |- _ => progress (rewrite H)
  | H : n_key e' = _ |- _ => progress (rewrite H)
  | H : n_key_ref e' = _ |- _ => progress (rewrite H)
  | H : NODEP_dlist e' = _ |- _ => progress (rewrite H)
  | H : NODEP_dead e' = _ |- _ => progress (rewrite H)
  end.

Lemma anc_same s s' a b :
  agree_except [] s s' → anc s' a b ↔ anc s a b.
Proof.
  intros Hag. split.
  - induction 1 as [a|a e' p b He' Hp Hanc IH]; [constructor|].
    old_elem Hag a e' He' e He. econstructor; [done| |done]. congruence.
  - induction 1 as [a|a e p b He Hp Hanc IH]; [constructor|].
    new_elem Hag a e He e' He'. econstructor; [done| |done]. congruence.
Qed.

(** Updates of the maintenance links, the payload or the callback. *)
Lemma inv_same_shape s s' :
  store_inv s → agree_except [] s s' → store_inv s'.
Proof.
  intros Hinv Hag. pose proof Hag as (Hbits & Hsize & Hdata & Hbrk & Hsh).
  split.
  - rewrite Hbits. apply Hinv.
  - rewrite Hsize. apply Hinv.
  - rewrite Hbits, Hsize. apply Hinv.
  - intros a e' He'. old_elem Hag a e' He' e He.
    pose proof (inv_brk _ Hinv a e He). lia.
  - destruct (inv_root _ Hinv) as (r & e & Hr & He & H).
    new_elem Hag r e He e' He'. exists r, e'. rewrite Hdata.
    split_and!; try done; destruct H as (? & ? & ? & ? & ? & ?); congruence.
  - intros p ep' Hp'. old_elem Hag p ep' Hp' ep Hp.
    destruct (inv_children _ Hinv p ep Hp) as (l & Hl & Hmem).
    exists l. split.
    + rw_fields ep'. eapply chain_agree; [done|set_solver|done].
    + intros c. rewrite Hmem. split.
      * intros (ec & Hec & Hpc & Hdc). new_elem Hag c ec Hec ec' Hec'.
        exists ec'. split_and!; congruence.
      * intros (ec' & Hec' & Hpc & Hdc). old_elem Hag c ec' Hec' ec Hec.
        exists ec. split_and!; congruence.
  - intros a e' p He' Hp Hd. old_elem Hag a e' He' e He.
    destruct (inv_parent _ Hinv a e p He) as (ep & Hep & H); [congruence..|].
    new_elem Hag p ep Hep ep' Hep'. exists ep'. rewrite Hbits, Hsize, Hdata.
    destruct H as (? & ? & ? & ? & ? & Hor).
    split_and!; try congruence; try (destruct Hor; [by left|right; congruence]).
  - intros a b ea' eb' Ha' Hb' Hp Hpp Hi Hda Hdb Hla Hlb.
    old_elem Hag a ea' Ha' ea Ha. old_elem Hag b eb' Hb' eb Hb.
    eapply (inv_uniq _ Hinv a b ea eb); congruence.
  - intros a e' He' Hp Hd. old_elem Hag a e' He' e He.
    destruct (inv_key _ Hinv a e He) as (o & eo & Hko & Ho & Hao & H); [congruence..|].
    new_elem Hag o eo Ho eo' Ho'. exists o, eo'.
    split_and!; [congruence|done|by apply (proj2 (anc_same s s' _ _ Hag))|].
    intros k Hk. rewrite Hbits, Hsize.
    destruct (H k) as (? & ? & Hpath); [congruence|]. split_and!; [done..|].
    intros b eb' Hanc Hb' Hpb. old_elem Hag b eb' Hb' eb Hb.
    rw_fields eb'. apply (Hpath b eb); [|done|congruence].
    by apply (proj1 (anc_same s s' _ _ Hag)).
Qed.

(** A childless node has nothing placed under it. *)
Lemma childless_no_child s p ep c ec :
  store_inv s → heap s !! p = Some ep → n_childrens ep = None →
  heap s !! c = Some ec → n_parent ec = Some p → NODEP_dead ec = true.
Proof.
  intros Hinv Hp Hnone Hc Hpar. destruct (NODEP_dead ec) eqn:Hd; [done|].
  destruct (inv_children _ Hinv p ep Hp) as (l & Hl & Hmem).
  rewrite Hnone in Hl. inversion Hl; subst.
  assert (c ∈ @nil nat) as Hin by (apply Hmem; eauto).
  by apply elem_of_nil in Hin.
Qed.

(** Setting the on-delete-list flag of a childless node. *)
Lemma inv_flag s s' node n n' :
  store_inv s → agree_except [node] s s' →
  heap s !! node = Some n → n_parent n ≠ None → n_childrens n = None →
  heap s' !! node = Some n' →
  n_parent n' = n_parent n → n_next n' = n_next n →
  n_childrens n' = n_childrens n → n_id n' = n_id n → n_level n' = n_level n →
  n_key n' = n_key n → n_key_ref n' = n_key_ref n →
  NODEP_dead n' = NODEP_dead n → NODEP_dlist n' = true →
  store_inv s'.
Proof.
  intros Hinv Hag Hn Hplaced Hleaf Hn' Hfp Hfn Hfc Hfi Hfl Hfk Hfr Hfd Hfdl.
  pose proof Hag as (Hbits & Hsize & Hdata & Hbrk & _).
  assert (∀ a e', heap s' !! a = Some e' → ∃ e, heap s !! a = Some e ∧
            n_parent e' = n_parent e ∧ n_next e' = n_next e ∧
            n_childrens e' = n_childrens e ∧ n_id e' = n_id e ∧
            n_level e' = n_level e ∧ n_key e' = n_key e ∧
            n_key_ref e' = n_key_ref e ∧ NODEP_dead e' = NODEP_dead e ∧
            (NODEP_dlist e' = false → NODEP_dlist e = false)) as Hold.
  { intros a e' He'. destruct (decide (a = node)) as [->|Hne].
    - exists n. assert (e' = n') as -> by congruence.
      split_and!; try done. congruence.
    - old_elem Hag a e' He' e He. exists e. split_and!; try done. congruence. }
  assert (∀ a e, heap s !! a = Some e → ∃ e', heap s' !! a = Some e' ∧
            n_parent e' = n_parent e ∧ n_next e' = n_next e ∧
            n_childrens e' = n_childrens e ∧ n_id e' = n_id e ∧
            n_level e' = n_level e ∧ n_key e' = n_key e ∧
            n_key_ref e' = n_key_ref e ∧ NODEP_dead e' = NODEP_dead e ∧
            (a ≠ node → NODEP_dlist e' = NODEP_dlist e)) as Hnew.
  { intros a e He. destruct (decide (a = node)) as [->|Hne].
    - exists n'. assert (e = n) as -> by congruence. split_and!; done.
    - new_elem Hag a e He e' He'. exists e'. split_and!; done. }
  assert (∀ hd l, chain s hd l → chain s' hd l) as Hchain.
  { intros hd l. apply chain_frame. intros a e _ He.
    destruct (Hnew a e He) as (e' & He' & _ & ? & _). eauto. }
  assert (∀ a b, anc s' a b → anc s a b) as Hanc.
  { induction 1 as [a|a e' p b He' Hp _ IH]; [constructor|].
    destruct (Hold a e' He') as (e & He & Hpe & _).
    econstructor; [done| |done]. congruence. }
  assert (∀ a b, anc s a b → anc s' a b) as Hancf.
  { induction 1 as [a|a e p b He Hp _ IH]; [constructor|].
    destruct (Hnew a e He) as (e' & He' & Hpe & _).
    econstructor; [done| |done]. congruence. }
  split.
  - rewrite Hbits. apply Hinv.
  - rewrite Hsize. apply Hinv.
  - rewrite Hbits, Hsize. apply Hinv.
  - intros a e' He'. destruct (Hold a e' He') as (e & He & _).
    pose proof (inv_brk _ Hinv a e He). lia.
  - destruct (inv_root _ Hinv) as (r & e & Hr & He & R1 & R2 & R3 & R4 & R5 & R6).
    destruct (Hnew r e He) as (e' & He' & ? & ? & ? & ? & ? & ? & ? & ? & Hdl).
    exists r, e'. rewrite Hdata. split_and!; try congruence.
    rewrite Hdl; [done|]. intros ->. congruence.
  - intros p ep' Hp'.
    destruct (Hold p ep' Hp') as (ep & Hp & ? & ? & Hc & _).
    destruct (inv_children _ Hinv p ep Hp) as (l & Hl & Hmem).
    exists l. split; [rewrite Hc; by apply Hchain|].
    intros c. rewrite Hmem. split.
    + intros (ec & Hec & Hpc & Hdc).
      destruct (Hnew c ec Hec) as (ec' & Hec' & ? & ? & ? & ? & ? & ? & ? & ? & _).
      exists ec'. split_and!; congruence.
    + intros (ec' & Hec' & Hpc & Hdc).
      destruct (Hold c ec' Hec') as (ec & Hec & ? & ? & ? & ? & ? & ? & ? & ? & _).
      exists ec. split_and!; congruence.
  - intros a e' p He' Hp Hd.
    destruct (Hold a e' He') as (e & He & ? & ? & ? & ? & ? & ? & ? & ? & _).
    destruct (inv_parent _ Hinv a e p He)
      as (ep & Hep & P1 & P2 & P3 & P4 & P5 & Hor); [congruence..|].
    destruct (Hnew p ep Hep) as (ep' & Hep' & ? & ? & ? & ? & ? & ? & ? & ? & Hdl).
    exists ep'. rewrite Hbits, Hsize, Hdata.
    split_and!; try congruence; try (destruct Hor; [by left|right; congruence]).
    rewrite Hdl; [done|]. intros ->. assert (ep = n) as -> by congruence.
    assert (NODEP_dead e = true); [|congruence].
    eapply (childless_no_child s node n a e); [done..|congruence].
  - intros a b ea' eb' Ha' Hb' Hp Hpp Hi Hda Hdb Hla Hlb.
    destruct (Hold a ea' Ha') as (ea & Ha & ? & ? & ? & ? & ? & ? & ? & ? & Hdla).
    destruct (Hold b eb' Hb') as (eb & Hb & ? & ? & ? & ? & ? & ? & ? & ? & Hdlb).
    eapply (inv_uniq _ Hinv a b ea eb); try congruence; auto.
  - intros a e' He' Hp Hd.
    destruct (Hold a e' He') as (e & He & ? & ? & ? & ? & ? & ? & ? & ? & _).
    destruct (inv_key _ Hinv a e He) as (o & eo & Hko & Ho & Hao & Hkeys); [congruence..|].
    destruct (Hnew o eo Ho) as (eo' & Ho' & ? & ? & ? & ? & ? & ? & ? & ? & _).
    exists o, eo'. split_and!; [congruence|done|by apply Hancf|].
    intros k Hk. rewrite Hbits, Hsize.
    destruct (Hkeys k) as (? & ? & Hpath); [congruence|]. split_and!; [done..|].
    intros b eb' Hab Hb' Hpb.
    destruct (Hold b eb' Hb') as (eb & Hb & ? & ? & ? & ? & ? & ? & ? & ? & _).
    rw_fields eb'. apply (Hpath b eb); [by apply Hanc|done|congruence].
Qed.

(** *** Primitive heap updates *)

Lemma write_eq a e s : heap (write a e s) !! a = Some e.
Proof. cbn. apply lookup_insert_eq. Qed.

Lemma write_ne a b e s : a ≠ b → heap (write a e s) !! b = heap s !! b.
Proof. intros. cbn. by apply lookup_insert_ne. Qed.

Lemma agree_refl D s : agree_except D s s.
Proof. by split_and!. Qed.

Lemma agree_trans D s1 s2 s3 :
  agree_except D s1 s2 → agree_except D s2 s3 → agree_except D s1 s3.
Proof.
  intros (? & ? & ? & ? & H12) (? & ? & ? & ? & H23).
  split_and!; try congruence; try lia. intros a Ha. rewrite H23, H12; done.
Qed.

Lemma agree_write_in D a e s : a ∈ D → agree_except D s (write a e s).
Proof.
  intros Ha. split_and!; try done. intros b Hb.
  rewrite write_ne; [done|]. intros ->. done.
Qed.

Lemma agree_write_shape D a e e' s :
  heap s !! a = Some e → shape e' = shape e → agree_except D s (write a e' s).
Proof.
  intros He Hsh. split_and!; try done. intros b Hb.
  destruct (decide (a = b)) as [<-|Hne].
  - rewrite write_eq, He. cbn. by rewrite Hsh.
  - by rewrite write_ne.
Qed.

Lemma agree_with_calls D c s : agree_except D s (with_calls c s).
Proof. by split_and!. Qed.

Lemma push_dlist_agree D root node s s' :
  push_dlist root node s = Done s' →
  agree_except D s s' ∧
  ∀ a e, heap s !! a = Some e → ∃ e', heap s' !! a = Some e' ∧ shape e' = shape e.
Proof.
  unfold push_dlist. intros H. inv_done H.
  apply deref_Done in Hrun. apply modify_Done in Hrun0 as (e1 & He1 & ->).
  apply modify_Done in H as (e2 & He2 & ->).
  split.
  - eapply agree_trans; eapply agree_write_shape; try done.
  - intros b e Hb. destruct (decide (node = b)) as [<-|Hn].
    + rewrite write_eq. eexists. split; [done|].
      destruct (decide (root = node)) as [->|Hr].
      * rewrite write_eq in He2. by simplify_eq.
      * rewrite write_ne in He2 by done. by simplify_eq.
    + rewrite write_ne by done. destruct (decide (root = b)) as [<-|Hr].
      * rewrite write_eq. eexists. split; [done|]. by simplify_eq.
      * rewrite write_ne by done. eauto.
Qed.

Lemma push_olist_agree D root el s s' :
  push_olist root el s = Done s' →
  agree_except D s s' ∧
  ∀ a e, heap s !! a = Some e → ∃ e', heap s' !! a = Some e' ∧ shape e' = shape e.
Proof.
  unfold push_olist. intros H. inv_done H.
  apply deref_Done in Hrun. apply modify_Done in Hrun0 as (e1 & He1 & ->).
  apply modify_Done in H as (e2 & He2 & ->).
  split.
  - eapply agree_trans; eapply agree_write_shape; try done.
  - intros b e Hb. destruct (decide (el = b)) as [<-|Hn].
    + rewrite write_eq. eexists. split; [done|].
      destruct (decide (root = el)) as [->|Hr].
      * rewrite write_eq in He2. by simplify_eq.
      * rewrite write_ne in He2 by done. by simplify_eq.
    + rewrite write_ne by done. destruct (decide (root = b)) as [<-|Hr].
      * rewrite write_eq. eexists. split; [done|]. by simplify_eq.
      * rewrite write_ne by done. eauto.
Qed.

Lemma dlist_set m : negb (Z.land (Z.lor m MASK_DELETE_LIST) MASK_DELETE_LIST =? 0) = true.
Proof.
  apply negb_true_iff, Z.eqb_neq. intros H.
  apply (f_equal (λ z, Z.testbit z 1)) in H.
  rewrite Z.land_spec, Z.lor_spec in H. cbn in H.
  by rewrite orb_true_r in H.
Qed.

Lemma dead_lor_dlist m :
  negb (Z.land (Z.lor m MASK_DELETE_LIST) MASK_DEAD =? 0) =
  negb (Z.land m MASK_DEAD =? 0).
Proof.
  f_equal. f_equal. apply Z.bits_inj'. intros t Ht.
  rewrite !Z.land_spec, Z.lor_spec.
  destruct (decide (t = 2)) as [->|Hne].
  - cbn. by rewrite orb_false_r.
  - replace (Z.testbit MASK_DEAD t) with false; [by rewrite !andb_false_r|].
    symmetry. unfold MASK_DEAD. change 4 with (2 ^ 2).
    apply Z.pow2_bits_false. lia.
Qed.

(** *** [store_delete] keeps the store well formed *)

Lemma store_delete_inv s key r s' :
  store_inv s → store_delete s key = Done (r, s') → store_inv s'.
Proof.
  intros Hinv Hrun. unfold store_delete in Hrun.
  destruct key as [kb|]; [|by injection Hrun as _ <-].
  apply bind_Done in Hrun as ([node cnt] & Hfind & Hrun).
  apply find_node_sound in Hfind; [|done].
  destruct Hfind as (n & Hn & Hdead & Hdl & Hplace & Hpath & Hkind).
  apply bind_Done in Hrun as (n0 & Hn0 & Hrun). apply deref_Done in Hn0.
  assert (n0 = n) as -> by congruence.
  destruct (bool_decide (n_parent n ≠ None) && bool_decide (n_childrens n = None))
    eqn:Hcond; [|by injection Hrun as _ <-].
  apply andb_true_iff in Hcond as [Hp Hc].
  apply bool_decide_eq_true in Hp, Hc.
  apply bind_Done in Hrun as (kr & _ & Hrun).
  apply bind_Done in Hrun as (o & _ & Hrun).
  destruct (n_key o); [|by injection Hrun as _ <-].
  apply bind_Done in Hrun as (same & _ & Hrun).
  destruct same; [|by injection Hrun as _ <-].
  rewrite Hdl in Hrun. cbn [negb] in Hrun.
  apply bind_Done in Hrun as (s1 & Hs1 & Hrun).
  apply bind_Done in Hrun as (root & _ & Hrun).
  apply bind_Done in Hrun as (s2 & Hs2 & Hrun).
  injection Hrun as _ <-.
  apply modify_Done in Hs1 as (n1 & Hn1 & ->).
  assert (n1 = n) as -> by congruence.
  destruct (push_dlist_agree [node] _ _ _ _ Hs2) as [Hag Hlook].
  destruct (Hlook node (set_mask (Z.lor (n_mask n) MASK_DELETE_LIST) n))
    as (n' & Hn' & Hsh); [apply write_eq|].
  apply shape_fields in Hsh
    as (Fp & Fn & Fc & Fi & Fl & Fm & Fk & Fr & Fdl & Fdd & _).
  eapply (inv_flag s _ node n n'); try done.
  - eapply agree_trans; [|exact Hag]. apply agree_write_in. set_solver.
  - rewrite Fdd. apply dead_lor_dlist.
  - rewrite Fdl. apply dlist_set.
Qed.

(** Hooking a node [c] that is new to the trie at the head of the child
    list of [p]: the last step of [store_add], and the split of a leaf. *)
Lemma inv_hook s s' c p ep ep' ec' o eo' :
  store_inv s → agree_except [c; p] s s' →
  c ≠ p → ctx_data s ≠ Some c →
  (∀ e, heap s !! c = Some e →
        n_parent e = None ∧ n_key ec' = n_key e) →
  (∀ a e, heap s !! a = Some e → n_parent e = Some c → NODEP_dead e = true) →
  (c < brk s')%nat →
  heap s !! p = Some ep → NODEP_dead ep = false → NODEP_dlist ep = false →
  (ctx_data s = Some p ∨ n_parent ep ≠ None) →
  heap s' !! p = Some ep' →
  n_parent ep' = n_parent ep → n_next ep' = n_next ep →
  n_childrens ep' = Some c → n_id ep' = n_id ep → n_level ep' = n_level ep →
  n_key ep' = n_key ep → n_key_ref ep' = n_key_ref ep →
  NODEP_dead ep' = NODEP_dead ep → NODEP_dlist ep' = NODEP_dlist ep →
  heap s' !! c = Some ec' → n_parent ec' = Some p →
  n_next ec' = n_childrens ep → n_childrens ec' = None →
  NODEP_dead ec' = false →
  n_level ec' = u32 (n_level ep + 1) → 0 ≤ n_level ec' →
  n_level ec' * ctx_bits s < ctx_key_size s * 8 →
  (∀ l, chain s (n_childrens ep) l → scan_list s l (n_id ec') = None) →
  n_key_ref ec' = Some o → heap s' !! o = Some eo' → (o = c ∨ anc s p o) →
  (∀ k, n_key eo' = Some k →
     Z.of_nat (length k) = ctx_key_size s ∧ bytes k ∧
     get_bits k (n_level ec' * ctx_bits s) (ctx_bits s) = Some (n_id ec') ∧
     ∀ b eb, anc s p b → heap s !! b = Some eb → n_parent eb ≠ None →
       get_bits k (n_level eb * ctx_bits s) (ctx_bits s) = Some (n_id eb)) →
  store_inv s'.
Proof.
  intros Hinv Hag Hcp Hcroot Hcold Hnochild Hcbrk Hp Hpdead Hpdl Pplace Hp'
    Pp Pn Pc Pi Pl Pk Pr Pdd Pdl Hc' Cp Cn Cc Cdead Clv Clv0 Clvb Cscan
    Cref Ho' Canc Ckey.
  pose proof Hag as (Hbits & Hsize & Hdata & Hbrk & _).
  assert (∀ a e', a ≠ c → heap s' !! a = Some e' → ∃ e, heap s !! a = Some e ∧
            n_parent e' = n_parent e ∧ n_next e' = n_next e ∧
            n_id e' = n_id e ∧ n_level e' = n_level e ∧ n_key e' = n_key e ∧
            n_key_ref e' = n_key_ref e ∧ NODEP_dead e' = NODEP_dead e ∧
            NODEP_dlist e' = NODEP_dlist e ∧
            (a ≠ p → n_childrens e' = n_childrens e)) as Hold.
  { intros a e' Hac He'. destruct (decide (a = p)) as [->|Hne].
    - exists ep. assert (e' = ep') as -> by congruence. split_and!; done.
    - old_elem Hag a e' He' e He. exists e. split_and!; done. }
  assert (∀ a e, a ≠ c → heap s !! a = Some e → ∃ e', heap s' !! a = Some e' ∧
            n_parent e' = n_parent e ∧ n_next e' = n_next e ∧
            n_id e' = n_id e ∧ n_level e' = n_level e ∧ n_key e' = n_key e ∧
            n_key_ref e' = n_key_ref e ∧ NODEP_dead e' = NODEP_dead e ∧
            NODEP_dlist e' = NODEP_dlist e ∧
            (a ≠ p → n_childrens e' = n_childrens e)) as Hnew.
  { intros a e Hac He. destruct (decide (a = p)) as [->|Hne].
    - exists ep'. assert (e = ep) as -> by congruence. split_and!; done.
    - new_elem Hag a e He e' He'. exists e'. split_and!; done. }
  assert (∀ q eq l, heap s !! q = Some eq → chain s (n_childrens eq) l → c ∉ l)
    as Hnotin.
  { intros q eq l Hq Hl Hin.
    destruct (child_member s q eq l c Hinv Hq Hl Hin) as (e & He & Hpe & _).
    destruct (Hcold e He) as [Hnone _]. congruence. }
  assert (∀ hd l, c ∉ l → chain s hd l → chain s' hd l) as Hchain.
  { intros hd l Hcl. apply chain_frame. intros a e Ha He.
    destruct (Hnew a e) as (e' & He' & _ & ? & _); [set_solver|done|]. eauto. }
  assert (∀ a b, anc s' a b →
            (∃ e, heap s !! a = Some e ∧ NODEP_dead e = false) → a ≠ c →
            anc s a b ∧ b ≠ c) as Hanc.
  { induction 1 as [a|a e' q b He' Hq _ IH]; intros (e & He & Hd) Hac.
    - split; [constructor|done].
    - destruct (Hold a e' Hac He') as (e0 & He0 & Hpe & _).
      assert (e0 = e) as -> by congruence.
      destruct (inv_parent _ Hinv a e q He) as (eq & Heq & Hdq & _);
        [congruence|done|].
      assert (q ≠ c) as Hqc.
      { intros ->. specialize (Hnochild a e He). rewrite <- Hpe, Hq in Hnochild.
        specialize (Hnochild eq_refl). congruence. }
      destruct IH as [IH1 IH2]; [eauto|done|].
      split; [|done]. econstructor; [done| |done]. congruence. }
  assert (∀ a b, anc s a b → anc s' a b) as Hancf.
  { induction 1 as [a|a e q b He Hq _ IH]; [constructor|].
    assert (a ≠ c) as Hac by (intros ->; destruct (Hcold e He); congruence).
    destruct (Hnew a e Hac He) as (e' & He' & Hpe & _).
    econstructor; [done| |done]. congruence. }
  split.
  - rewrite Hbits. apply Hinv.
  - rewrite Hsize. apply Hinv.
  - rewrite Hbits, Hsize. apply Hinv.
  - intros a e' He'. destruct (decide (a = c)) as [->|Hac]; [done|].
    destruct (Hold a e' Hac He') as (e & He & _).
    pose proof (inv_brk _ Hinv a e He). lia.
  - destruct (inv_root _ Hinv) as (r & e & Hr & He & R1 & R2 & R3 & R4 & R5 & R6).
    assert (r ≠ c) as Hrc by congruence.
    destruct (Hnew r e Hrc He) as (e' & He' & ? & ? & ? & ? & ? & ? & ? & ? & _).
    exists r, e'. rewrite Hdata. split_and!; congruence.
  - intros q eq' Hq'. destruct (decide (q = c)) as [->|Hqc].
    + assert (eq' = ec') as -> by congruence. exists []. rewrite Cc.
      split; [constructor|]. intros x. split; [by intros ?%elem_of_nil|].
      intros (ex' & Hx' & Hpx & Hdx). exfalso.
      destruct (decide (x = c)) as [->|Hxc]; [congruence|].
      destruct (Hold x ex' Hxc Hx') as (ex & Hx & ? & ? & ? & ? & ? & ? & ? & ? & _).
      specialize (Hnochild x ex Hx). rewrite Hnochild in *; congruence.
    + destruct (Hold q eq' Hqc Hq') as (eq & Hq & _ & _ & _ & _ & _ & _ & _ & _ & Hch).
      destruct (inv_children _ Hinv q eq Hq) as (l & Hl & Hmem).
      pose proof (Hnotin q eq l Hq Hl) as Hcl.
      destruct (decide (q = p)) as [->|Hqp].
      * assert (eq = ep) as -> by congruence.
        assert (eq' = ep') as -> by congruence.
        exists (c :: l). split.
        { rewrite Pc. econstructor; [done|]. rewrite Cn. by apply Hchain. }
        intros x. rewrite elem_of_cons, Hmem. split.
        { intros [->|(ex & Hx & Hpx & Hdx)]; [eauto|].
          assert (x ≠ c) as Hxc.
          { intros ->. destruct (Hcold ex Hx). congruence. }
          destruct (Hnew x ex Hxc Hx) as (ex' & Hx' & ? & ? & ? & ? & ? & ? & ? & ? & _).
          exists ex'. split_and!; congruence. }
        { intros (ex' & Hx' & Hpx & Hdx).
          destruct (decide (x = c)) as [->|Hxc]; [by left|right].
          destruct (Hold x ex' Hxc Hx') as (ex & Hx & ? & ? & ? & ? & ? & ? & ? & ? & _).
          exists ex. split_and!; congruence. }
      * exists l. split; [rewrite (Hch Hqp); by apply Hchain|].
        intros x. rewrite Hmem. split.
        { intros (ex & Hx & Hpx & Hdx).
          assert (x ≠ c) as Hxc.
          { intros ->. destruct (Hcold ex Hx). congruence. }
          destruct (Hnew x ex Hxc Hx) as (ex' & Hx' & ? & ? & ? & ? & ? & ? & ? & ? & _).
          exists ex'. split_and!; congruence. }
        { intros (ex' & Hx' & Hpx & Hdx).
          destruct (decide (x = c)) as [->|Hxc]; [congruence|].
          destruct (Hold x ex' Hxc Hx') as (ex & Hx & ? & ? & ? & ? & ? & ? & ? & ? & _).
          exists ex. split_and!; congruence. }
  - intros a e' q He' Hq Hd. rewrite Hbits, Hsize, Hdata.
    destruct (decide (a = c)) as [->|Hac].
    + assert (e' = ec') as -> by congruence.
      assert (q = p) as -> by congruence.
      exists ep'.
      split_and!; try congruence; try (destruct Pplace; [by left|right; congruence]).
    + destruct (Hold a e' Hac He') as (e & He & ? & ? & ? & ? & ? & ? & ? & ? & _).
      destruct (inv_parent _ Hinv a e q He)
        as (eq & Heq & Q1 & Q2 & Q3 & Q4 & Q5 & Hor); [congruence..|].
      assert (q ≠ c) as Hqc.
      { intros ->. specialize (Hnochild a e He). rewrite Hnochild in *; congruence. }
      destruct (Hnew q eq Hqc Heq) as (eq' & Heq' & ? & ? & ? & ? & ? & ? & ? & ? & _).
      exists eq'.
      split_and!; try congruence; try (destruct Hor; [by left|right; congruence]).
  - assert (∀ b eb', b ≠ c → heap s' !! b = Some eb' →
              n_parent eb' = Some p → n_id eb' = n_id ec' →
              NODEP_dead eb' = false → NODEP_dlist eb' = false → False) as Hclash.
    { intros b eb' Hbc Hb' Hpb Hib Hdb Hlb.
      destruct (Hold b eb' Hbc Hb') as (eb & Hb & ? & ? & ? & ? & ? & ? & ? & ? & _).
      destruct (inv_children _ Hinv p ep Hp) as (l & Hl & Hmem).
      assert (b ∈ l) as Hin. { apply Hmem. exists eb. split_and!; congruence. }
      destruct (scan_list_None s l (n_id ec') b eb); [by apply Cscan| |done..| |];
        try congruence.
      intros x Hx. by eapply chain_alloc. }
    intros a b ea' eb' Ha' Hb' Hp0 Hpp Hi Hda Hdb Hla Hlb.
    destruct (decide (a = c)) as [->|Hac]; destruct (decide (b = c)) as [->|Hbc];
      [done|exfalso|exfalso|].
    + assert (ea' = ec') as -> by congruence.
      eapply (Hclash b eb'); congruence.
    + assert (eb' = ec') as -> by congruence.
      eapply (Hclash a ea'); congruence.
    + destruct (Hold a ea' Hac Ha') as (ea & Ha & ? & ? & ? & ? & ? & ? & ? & ? & _).
      destruct (Hold b eb' Hbc Hb') as (eb & Hb & ? & ? & ? & ? & ? & ? & ? & ? & _).
      eapply (inv_uniq _ Hinv a b ea eb); congruence.
  - intros a e' He' Hpl Hd. rewrite Hbits, Hsize.
    destruct (decide (a = c)) as [->|Hac].
    + assert (e' = ec') as -> by congruence. exists o, eo'.
      split_and!; [done..| |].
      { destruct Canc as [->|Hpo]; [constructor|].
        econstructor; [done..|]. by apply Hancf. }
      intros k Hk.
      destruct (Ckey k Hk) as (K1 & K2 & K3 & K4). split_and!; [done..|].
      intros b eb' Hab Hb' Hpb.
      inversion Hab as [|? e1 q ? He1 Hq Hab']; subst.
      * assert (eb' = ec') as -> by congruence. done.
      * assert (e1 = ec') as -> by congruence.
        assert (q = p) as -> by congruence.
        destruct (Hanc p b Hab') as [Hab0 Hbc]; [eauto|done|].
        destruct (Hold b eb' Hbc Hb') as (eb & Hb & ? & ? & ? & ? & ? & ? & ? & ? & _).
        rw_fields eb'. apply (K4 b eb); [done..|congruence].
    + destruct (Hold a e' Hac He') as (e & He & ? & ? & ? & ? & ? & ? & ? & ? & _).
      destruct (inv_key _ Hinv a e He) as (o0 & eo & Hko & Ho & Hao & Hkeys);
        [congruence..|].
      assert (∃ eo0', heap s' !! o0 = Some eo0' ∧ n_key eo0' = n_key eo)
        as (eo0' & Ho0' & Hk0).
      { destruct (decide (o0 = c)) as [->|Hoc].
        - exists ec'. split; [done|]. by destruct (Hcold eo Ho).
        - destruct (Hnew o0 eo Hoc Ho) as (x & ? & ? & ? & ? & ? & ? & _). eauto. }
      exists o0, eo0'. split_and!; [congruence|done|by apply Hancf|].
      intros k Hk. destruct (Hkeys k) as (? & ? & Hpath); [congruence|].
      split_and!; [done..|]. intros b eb' Hab Hb' Hpb.
      destruct (Hanc a b Hab) as [Hab0 Hbc]; [exists e; split; congruence|done|].
      destruct (Hold b eb' Hbc Hb') as (eb & Hb & ? & ? & ? & ? & ? & ? & ? & ? & _).
      rw_fields eb'. apply (Hpath b eb); [done..|congruence].
Qed.

(** A fresh element that is not placed in the trie. *)
Lemma inv_unplaced s s' el e' :
  store_inv s → agree_except [el] s s' →
  heap s !! el = None → (el < brk s')%nat →
  heap s' !! el = Some e' → n_parent e' = None → n_childrens e' = None →
  store_inv s'.
Proof.
  intros Hinv Hag Hfresh Hbrk' He' Ep Ec.
  pose proof Hag as (Hbits & Hsize & Hdata & Hbrk & _).
  assert (∀ a e, heap s !! a = Some e → a ≠ el) as Hne by (intros; congruence).
  assert (∀ a e1, a ≠ el → heap s' !! a = Some e1 → ∃ e, heap s !! a = Some e ∧
            n_parent e1 = n_parent e ∧ n_next e1 = n_next e ∧
            n_childrens e1 = n_childrens e ∧
            n_id e1 = n_id e ∧ n_level e1 = n_level e ∧ n_key e1 = n_key e ∧
            n_key_ref e1 = n_key_ref e ∧ NODEP_dead e1 = NODEP_dead e ∧
            NODEP_dlist e1 = NODEP_dlist e) as Hold.
  { intros a e1 Hac He1. old_elem Hag a e1 He1 e He. exists e. split_and!; done. }
  assert (∀ a e, heap s !! a = Some e → ∃ e1, heap s' !! a = Some e1 ∧
            n_parent e1 = n_parent e ∧ n_next e1 = n_next e ∧
            n_childrens e1 = n_childrens e ∧
            n_id e1 = n_id e ∧ n_level e1 = n_level e ∧ n_key e1 = n_key e ∧
            n_key_ref e1 = n_key_ref e ∧ NODEP_dead e1 = NODEP_dead e ∧
            NODEP_dlist e1 = NODEP_dlist e) as Hnew.
  { intros a e He. pose proof (Hne a e He).
    new_elem Hag a e He e1 He1. exists e1. split_and!; done. }
  assert (∀ hd l, chain s hd l → chain s' hd l) as Hchain.
  { intros hd l. apply chain_frame. intros a e Ha He.
    destruct (Hnew a e He) as (e1 & He1 & _ & ? & _). eauto. }
  assert (∀ a e1 p, heap s' !! a = Some e1 → n_parent e1 = Some p →
            NODEP_dead e1 = false → a ≠ el ∧ p ≠ el) as Hplaced.
  { intros a e1 p Ha Hp Hd.
    destruct (decide (a = el)) as [->|Hac]; [congruence|]. split; [done|].
    destruct (Hold a e1 Hac Ha) as (e & He & ? & ? & ? & ? & ? & ? & ? & ? & ?).
    destruct (inv_parent _ Hinv a e p He) as (ep & Hep & _); [congruence..|].
    by eapply Hne. }
  assert (∀ a b, anc s' a b →
            (∃ e, heap s !! a = Some e ∧ NODEP_dead e = false) → anc s a b)
    as Hanc.
  { induction 1 as [a|a e1 q b He1 Hq _ IH]; intros (e & He & Hd); [constructor|].
    destruct (Hold a e1 (Hne a e He) He1) as (e0 & He0 & Hpe & _).
    assert (e0 = e) as -> by congruence.
    destruct (inv_parent _ Hinv a e q He) as (eq & Heq & Hdq & _);
      [congruence|done|].
    econstructor; [done| |apply IH; eauto]. congruence. }
  assert (∀ a b, anc s a b → anc s' a b) as Hancf.
  { induction 1 as [a|a e q b He Hq _ IH]; [constructor|].
    destruct (Hnew a e He) as (e1 & He1 & Hpe & _).
    econstructor; [done| |done]. congruence. }
  split.
  - rewrite Hbits. apply Hinv.
  - rewrite Hsize. apply Hinv.
  - rewrite Hbits, Hsize. apply Hinv.
  - intros a e1 He1. destruct (decide (a = el)) as [->|Hac]; [done|].
    destruct (Hold a e1 Hac He1) as (e & He & _).
    pose proof (inv_brk _ Hinv a e He). lia.
  - destruct (inv_root _ Hinv) as (r & e & Hr & He & R1 & R2 & R3 & R4 & R5 & R6).
    destruct (Hnew r e He) as (e1 & He1 & ? & ? & ? & ? & ? & ? & ? & ? & ?).
    exists r, e1. rewrite Hdata. split_and!; congruence.
  - intros q eq1 Hq1. destruct (decide (q = el)) as [->|Hqc].
    + assert (eq1 = e') as -> by congruence. exists []. rewrite Ec.
      split; [constructor|]. intros x. split; [by intros ?%elem_of_nil|].
      intros (ex & Hx & Hpx & Hdx). exfalso.
      by destruct (Hplaced x ex el Hx Hpx Hdx).
    + destruct (Hold q eq1 Hqc Hq1) as (eq & Hq & ? & ? & Hch & _).
      destruct (inv_children _ Hinv q eq Hq) as (l & Hl & Hmem).
      exists l. split; [rewrite Hch; by apply Hchain|].
      intros x. rewrite Hmem. split.
      * intros (ex & Hx & Hpx & Hdx).
        destruct (Hnew x ex Hx) as (ex1 & Hx1 & ? & ? & ? & ? & ? & ? & ? & ? & ?).
        exists ex1. split_and!; congruence.
      * intros (ex1 & Hx1 & Hpx & Hdx).
        destruct (Hplaced x ex1 q Hx1 Hpx Hdx) as [Hxc _].
        destruct (Hold x ex1 Hxc Hx1) as (ex & Hx & ? & ? & ? & ? & ? & ? & ? & ? & ?).
        exists ex. split_and!; congruence.
  - intros a e1 q He1 Hq Hd. rewrite Hbits, Hsize, Hdata.
    destruct (Hplaced a e1 q He1 Hq Hd) as [Hac Hqc].
    destruct (Hold a e1 Hac He1) as (e & He & ? & ? & ? & ? & ? & ? & ? & ? & ?).
    destruct (inv_parent _ Hinv a e q He)
      as (eq & Heq & Q1 & Q2 & Q3 & Q4 & Q5 & Hor); [congruence..|].
    destruct (Hnew q eq Heq) as (eq1 & Heq1 & ? & ? & ? & ? & ? & ? & ? & ? & ?).
    exists eq1.
    split_and!; try congruence; try (destruct Hor; [by left|right; congruence]).
  - intros a b ea1 eb1 Ha1 Hb1 Hp0 Hpp Hi Hda Hdb Hla Hlb.
    assert (a ≠ el) as Hac by (intros ->; congruence).
    assert (b ≠ el) as Hbc by (intros ->; congruence).
    destruct (Hold a ea1 Hac Ha1) as (ea & Ha & ? & ? & ? & ? & ? & ? & ? & ? & ?).
    destruct (Hold b eb1 Hbc Hb1) as (eb & Hb & ? & ? & ? & ? & ? & ? & ? & ? & ?).
    eapply (inv_uniq _ Hinv a b ea eb); congruence.
  - intros a e1 He1 Hpl Hd. rewrite Hbits, Hsize.
    assert (a ≠ el) as Hac by (intros ->; congruence).
    destruct (Hold a e1 Hac He1) as (e & He & ? & ? & ? & ? & ? & ? & ? & ? & ?).
    destruct (inv_key _ Hinv a e He) as (o & eo & Hko & Ho & Hao & Hkeys);
      [congruence..|].
    destruct (Hnew o eo Ho) as (eo1 & Ho1 & ? & ? & ? & ? & ? & ? & ? & ? & ?).
    exists o, eo1. split_and!; [congruence|done|by apply Hancf|].
    intros k Hk. destruct (Hkeys k) as (? & ? & Hpath); [congruence|].
    split_and!; [done..|]. intros b eb1 Hab Hb1 Hpb.
    assert (anc s a b) as Hab0 by (apply Hanc; [done|exists e; split; congruence]).
    assert (b ≠ el) as Hbc by (intros ->; congruence).
    destruct (Hold b eb1 Hbc Hb1) as (eb & Hb & ? & ? & ? & ? & ? & ? & ? & ? & ?).
    rw_fields eb1. apply (Hpath b eb); [done..|congruence].
Qed.

(** Every level up to that of a node is the level of one of its
    ancestors. *)
Lemma anc_levels s a e lv :
  store_inv s → heap s !! a = Some e → n_parent e ≠ None →
  NODEP_dead e = false → 0 ≤ lv ≤ n_level e →
  ∃ b eb, anc s a b ∧ heap s !! b = Some eb ∧ n_parent eb ≠ None ∧
          n_level eb = lv.
Proof.
  intros Hinv. remember (Z.to_nat (n_level e - lv)) as d eqn:Hd.
  revert a e Hd. induction d as [|d IH]; intros a e Hd He Hp Hdead Hlv.
  - exists a, e. split_and!; [constructor|done..|lia].
  - destruct (n_parent e) as [p|] eqn:Hpar; [|done].
    destruct (inv_parent _ Hinv a e p He Hpar Hdead)
      as (ep & Hep & Hdp & _ & Hl & Hl0 & Hlb & Hor).
    pose proof (inv_size _ Hinv). pose proof (inv_bits _ Hinv).
    destruct (inv_root _ Hinv) as (r & er & Hr & Her & _ & Hrl & _).
    destruct Hor as [Hroot|Hpp].
    + assert (p = r) as -> by congruence. assert (ep = er) as -> by congruence.
      rewrite Hrl in Hl. change (u32 (u32 (-1) + 1)) with 0 in Hl. lia.
    + destruct (n_parent ep) as [pp|] eqn:Hppar; [|done].
      destruct (inv_parent _ Hinv p ep pp Hep Hppar Hdp)
        as (_ & _ & _ & _ & _ & Hpl0 & Hplb & _).
      rewrite u32_small in Hl by nia.
      destruct (IH p ep) as (b & eb & Hanc & Hb & Hpb & Hlb');
        [lia|done|congruence|done|lia|].
      exists b, eb. split_and!; [|done..]. by econstructor.
Qed.

(** *** Slices of the caller's key and of its copy *)

Lemma slice_fits s lv :
  store_inv s → 0 ≤ lv → lv * ctx_bits s < ctx_key_size s * 8 →
  lv * ctx_bits s + ctx_bits s ≤ ctx_key_size s * 8.
Proof.
  intros Hinv Hlv Hlt. destruct (inv_div _ Hinv) as [q Hq].
  pose proof (inv_bits _ Hinv). rewrite Hq in *.
  assert (lv < q) by nia. nia.
Qed.

Lemma get_bits_take s key lv :
  store_inv s → valid_key s key → 0 ≤ lv →
  lv * ctx_bits s < ctx_key_size s * 8 →
  get_bits (take (Z.to_nat (ctx_key_size s)) key) (lv * ctx_bits s) (ctx_bits s)
  = get_bits key (lv * ctx_bits s) (ctx_bits s).
Proof.
  intros Hinv [Hlen _] Hlv Hlt.
  pose proof (slice_fits s lv Hinv Hlv Hlt).
  pose proof (inv_bits _ Hinv). pose proof (inv_size _ Hinv).
  apply get_bits_ext; try lia.
  - rewrite length_take. lia.
  - intros j Hj. apply keybit_take. lia.
Qed.

Lemma get_bits_defined s key lv :
  store_inv s → valid_key s key → 0 ≤ lv →
  lv * ctx_bits s < ctx_key_size s * 8 →
  is_Some (get_bits key (lv * ctx_bits s) (ctx_bits s)).
Proof.
  intros Hinv [Hlen _] Hlv Hlt.
  pose proof (slice_fits s lv Hinv Hlv Hlt).
  pose proof (inv_bits _ Hinv). pose proof (inv_size _ Hinv).
  destruct (get_bits_spec key (lv * ctx_bits s) (ctx_bits s)) as (v & Hv & _);
    try lia. eauto.
Qed.

Lemma bytes_take k n : bytes k → bytes (take n k).
Proof. apply Forall_take. Qed.

(** A leaf that [find_node] returns for a different key sits above the
    last level: the next slice is still inside the key. *)
Lemma split_fits s key node n o eo ko :
  store_inv s → valid_key s key → path_ok s (Some key) node →
  heap s !! node = Some n → n_parent n ≠ None → NODEP_dead n = false →
  n_key_ref n = Some o → heap s !! o = Some eo → n_key eo = Some ko →
  take (Z.to_nat (ctx_key_size s)) ko ≠ take (Z.to_nat (ctx_key_size s)) key →
  (n_level n + 1) * ctx_bits s < ctx_key_size s * 8.
Proof.
  intros Hinv Hvalid Hpath Hn Hp Hd Hr Ho Hko Hdiff.
  destruct (Z.lt_ge_cases ((n_level n + 1) * ctx_bits s) (ctx_key_size s * 8))
    as [|Hge]; [done|exfalso].
  pose proof (inv_bits _ Hinv) as Hbits. pose proof (inv_size _ Hinv) as Hsize.
  destruct (inv_key _ Hinv node n Hn Hp Hd) as (o' & eo' & Hr' & Ho' & _ & Hkeys).
  assert (o' = o) as -> by congruence. assert (eo' = eo) as -> by congruence.
  destruct (Hkeys ko Hko) as (Hlen & Hby & Hsl).
  destruct Hvalid as [Hklen Hkby].
  apply Hdiff. rewrite take_ge by lia.
  apply (slices_inj _ _ (ctx_bits s)); try done.
  - rewrite length_take. lia.
  - by apply bytes_take.
  - rewrite Hlen. replace (8 * ctx_key_size s) with (ctx_key_size s * 8) by lia.
    apply Hinv.
  - lia.
  - intros lv Hlv Hlt. rewrite Hlen in Hlt.
    assert (lv ≤ n_level n) as Hle by nia.
    destruct (anc_levels s node n lv Hinv Hn Hp Hd) as (b & eb & Hanc & Hb & Hpb & <-);
      [lia|].
    rewrite (Hsl b eb Hanc Hb Hpb).
    rewrite (get_bits_take s key (n_level eb) Hinv) by (done || lia).
    specialize (Hpath b eb Hanc Hb Hpb). cbn in Hpath.
    by apply must_Done in Hpath.
Qed.

Lemma memcmp_eq_Done a b n r :
  memcmp_eq a b n = Done r →
  r = bool_decide (take (Z.to_nat n) a = take (Z.to_nat n) b).
Proof.
  unfold memcmp_eq. destruct (_ || _); [done|]. by intros [= <-].
Qed.

(** *** The allocator *)

Lemma ALLOC_Some s a s1 :
  ALLOC s = (Some a, s1) →
  a = brk s ∧ heap s1 = heap s ∧ brk s1 = S (brk s) ∧
  ctx_data s1 = ctx_data s ∧ ctx_key_size s1 = ctx_key_size s ∧
  ctx_bits s1 = ctx_bits s ∧ refused s1 = refused s ∧
  ctx_expired s1 = ctx_expired s ∧ now s1 = now s.
Proof.
  unfold ALLOC. destruct (oracle s) as [|[] ?]; intros [= <- <-]; by cbn.
Qed.

Lemma ALLOC_None s s1 :
  ALLOC s = (None, s1) →
  heap s1 = heap s ∧ brk s1 = brk s ∧
  ctx_data s1 = ctx_data s ∧ ctx_key_size s1 = ctx_key_size s ∧
  ctx_bits s1 = ctx_bits s ∧ refused s1 = S (refused s) ∧
  ctx_expired s1 = ctx_expired s.
Proof.
  unfold ALLOC. destruct (oracle s) as [|[] ?]; intros [= <-]; by cbn.
Qed.

Lemma ALLOC_buf_spec s b s1 :
  ALLOC_buf s = (b, s1) →
  heap s1 = heap s ∧ brk s1 = brk s ∧
  ctx_data s1 = ctx_data s ∧ ctx_key_size s1 = ctx_key_size s ∧
  ctx_bits s1 = ctx_bits s ∧ ctx_expired s1 = ctx_expired s ∧
  now s1 = now s ∧
  refused s1 = (if b then refused s else S (refused s)).
Proof.
  unfold ALLOC_buf. destruct (oracle s) as [|[] ?]; intros [= <- <-]; by cbn.
Qed.

Lemma agree_heap_eq D s s1 :
  heap s1 = heap s → (brk s ≤ brk s1)%nat → ctx_data s1 = ctx_data s →
  ctx_key_size s1 = ctx_key_size s → ctx_bits s1 = ctx_bits s →
  agree_except D s s1.
Proof. intros Hh ? ? ? ?. split_and!; try done. intros a _. by rewrite Hh. Qed.

Lemma fresh_no_child s c a e :
  store_inv s → heap s !! c = None → heap s !! a = Some e →
  n_parent e = Some c → NODEP_dead e = true.
Proof.
  intros Hinv Hc Ha Hp. destruct (NODEP_dead e) eqn:Hd; [done|].
  destruct (inv_parent _ Hinv a e c Ha Hp Hd) as (? & ? & _). congruence.
Qed.

(** One split of [store_add]: the leaf found gets a copy of itself as its
    only child. *)
Lemma split_step s key node n kr o i inject s1 :
  store_inv s → valid_key s key → found s (Some key) node →
  heap s !! node = Some n → n_childrens n = None → Some node ≠ ctx_data s →
  n_key_ref n = Some kr → heap s !! kr = Some o →
  (∀ k, n_key o = Some k →
     take (Z.to_nat (ctx_key_size s)) k ≠ take (Z.to_nat (ctx_key_size s)) key) →
  ALLOC s = (Some inject, s1) →
  get_bits_at (n_key o) (u32 (u32 (n_level n + 1) * ctx_bits s)) (ctx_bits s)
    = Done i →
  store_inv
    (write node (set_childrens (Some inject) n)
       (write inject
          (mk_elem (Some node) None None None None i (u32 (n_level n + 1)) 0
             (n_data n) None (n_key_ref n) (n_ts n) (n_cb n)) s1)).
Proof.
  intros Hinv Hvalid Hfound Hn Hleaf Hnroot Hkr Ho Hdiff Halloc Hi.
  destruct Hfound as (n0 & Hn0 & Hdead & Hdl & Hplace & Hpath & _).
  assert (n0 = n) as -> by congruence.
  destruct Hplace as [Hroot|Hplaced]; [congruence|].
  apply ALLOC_Some in Halloc as (-> & Hheap & Hbrk & Hdata & Hsize & Hbits & _).
  assert (heap s !! brk s = None) as Hfresh.
  { destruct (heap s !! brk s) as [x|] eqn:Hx; [|done].
    pose proof (inv_brk _ Hinv _ _ Hx). lia. }
  assert (brk s ≠ node) as Hne by congruence.
  destruct (n_parent n) as [p|] eqn:Hpar; [|done].
  destruct (level_next s node n p Hinv Hn Hpar Hdead) as [Hlv1 Hlv2].
  destruct (inv_parent _ Hinv node n p Hn Hpar Hdead)
    as (_ & _ & _ & _ & _ & Hl0 & Hlb & _).
  pose proof (inv_bits _ Hinv) as Hb. pose proof (inv_size _ Hinv) as Hsz.
  destruct (n_key o) as [ko|] eqn:Hko; [|done].
  assert ((n_level n + 1) * ctx_bits s < ctx_key_size s * 8) as Hfit.
  { eapply (split_fits s key node n kr o ko); try done.
    - congruence.
    - by apply Hdiff. }
  cbn in Hi. apply must_Done in Hi.
  rewrite Hlv1, (u32_small ((n_level n + 1) * ctx_bits s)) in Hi by nia.
  destruct (inv_key _ Hinv node n Hn) as (o' & eo' & Hr' & Ho' & Hao' & Hkeys);
    [congruence|done|].
  assert (o' = kr) as -> by congruence. assert (eo' = o) as -> by congruence.
  destruct (Hkeys ko Hko) as (Hlen & Hby & Hsl).
  set (inj := mk_elem (Some node) None None None None i (u32 (n_level n + 1)) 0
             (n_data n) None (n_key_ref n) (n_ts n) (n_cb n)).
  set (s2 := write (brk s) inj s1).
  set (s3 := write node (set_childrens (Some (brk s)) n) s2).
  assert (∃ eo3, heap s3 !! kr = Some eo3 ∧ n_key eo3 = Some ko) as (eo3 & Ho3 & Hk3).
  { subst s3 s2. destruct (decide (node = kr)) as [->|Hnk].
    - rewrite write_eq. eexists. split; [done|]. cbn. congruence.
    - rewrite write_ne by done. rewrite write_ne by congruence.
      rewrite Hheap. eauto. }
  eapply (inv_hook s s3 (brk s) node n (set_childrens (Some (brk s)) n) inj kr eo3);
    try done.
  - subst s3 s2. eapply agree_trans; [|apply agree_write_in; set_solver].
    eapply agree_trans; [|apply agree_write_in; set_solver].
    apply agree_heap_eq; try done. lia.
  - intros Hr. destruct (inv_root _ Hinv) as (r & er & Hrt & Her & _). congruence.
  - intros e He. congruence.
  - intros a e Ha Hp. by eapply fresh_no_child.
  - subst s3 s2. cbn. lia.
  - by right; congruence.
  - subst s3. apply write_eq.
  - subst s3 s2. rewrite write_ne by done. apply write_eq.
  - cbn. rewrite Hlv1. lia.
  - cbn. rewrite Hlv1. lia.
  - intros l Hl. cbn. rewrite Hleaf in Hl. by inversion Hl.
  - right. congruence.
  - intros k Hk. assert (k = ko) as -> by congruence. cbn.
    rewrite Hlv1. split_and!; done.
Qed.

Lemma get_bits_at_Some k i n v :
  get_bits_at (Some k) i n = Done v ↔ get_bits k i n = Some v.
Proof. unfold get_bits_at. cbn [must mbind outcome_bind]. apply must_Done. Qed.

Lemma anc_live s a b e :
  store_inv s → heap s !! a = Some e → NODEP_dead e = false → anc s a b →
  ∃ eb, heap s !! b = Some eb ∧ NODEP_dead eb = false.
Proof.
  intros Hinv He Hd Hanc. revert e He Hd.
  induction Hanc as [a|a e0 p b He0 Hp _ IH]; intros e He Hd; [eauto|].
  assert (e0 = e) as -> by congruence.
  destruct (inv_parent _ Hinv a e p He Hp Hd) as (ep & Hep & Hdp & _).
  by eapply IH.
Qed.

Lemma placed_level s b eb :
  store_inv s → heap s !! b = Some eb → n_parent eb ≠ None →
  NODEP_dead eb = false →
  0 ≤ n_level eb ∧ n_level eb * ctx_bits s < ctx_key_size s * 8.
Proof.
  intros Hinv Hb Hp Hd. destruct (n_parent eb) as [p|] eqn:Hpar; [|done].
  destruct (inv_parent _ Hinv b eb p Hb Hpar Hd) as (_ & _ & _ & _ & _ & ? & ? & _).
  done.
Qed.

(** The level under the node [find_node] returns, when that node is not a
    leaf to split. *)
Lemma place_level s key node n :
  store_inv s → found s (Some key) node → heap s !! node = Some n →
  ¬ (n_childrens n = None ∧ Some node ≠ ctx_data s) →
  0 ≤ u32 (n_level n + 1) ∧
  u32 (n_level n + 1) * ctx_bits s < ctx_key_size s * 8 ∧
  ∃ l, chain s (n_childrens n) l ∧ (length l ≤ brk s)%nat ∧
       ∀ i, get_bits key (u32 (n_level n + 1) * ctx_bits s) (ctx_bits s) = Some i →
            scan_list s l i = None.
Proof.
  intros Hinv (n0 & Hn0 & Hdead & Hdl & Hplace & Hpath & Hkind) Hn Hnot.
  assert (n0 = n) as -> by congruence.
  pose proof (inv_bits _ Hinv) as Hb. pose proof (inv_size _ Hinv) as Hsz.
  assert (0 ≤ u32 (n_level n + 1)) as H0 by (apply Z.mod_pos_bound; lia).
  split; [done|].
  destruct Hkind as [Hnone|(l & i0 & Hl & Hi0 & Hscan & Hfit)].
  - assert (ctx_data s = Some node) as Hroot.
    { destruct (decide (Some node = ctx_data s)); [done|]. by destruct Hnot. }
    destruct (inv_root _ Hinv) as (r & er & Hr & Her & _ & Hrl & _).
    assert (r = node) as -> by congruence. assert (er = n) as -> by congruence.
    rewrite Hrl. change (u32 (u32 (-1) + 1)) with 0. split; [lia|].
    exists []. rewrite Hnone. split_and!; [constructor|cbn; lia|done].
  - split; [done|]. exists l. split_and!; [done| |].
    + eapply chain_length; [apply Hinv|done].
    + intros i Hi. apply get_bits_at_Some in Hi0. congruence.
Qed.

(** The last step of [store_add]: the element is hooked at the head of the
    child list of the node found. *)
Lemma place_step s key el e node n i s4 root :
  store_inv s → valid_key s key →
  ctx_data s ≠ Some el → heap s !! el = Some e → n_parent e = None →
  n_childrens e = None → NODEP_dead e = false → n_key_ref e = Some el →
  n_key e = Some (take (Z.to_nat (ctx_key_size s)) key) →
  found s (Some key) node → heap s !! node = Some n →
  ¬ (n_childrens n = None ∧ Some node ≠ ctx_data s) →
  get_bits (take (Z.to_nat (ctx_key_size s)) key)
    (u32 (n_level n + 1) * ctx_bits s) (ctx_bits s) = Some i →
  push_olist root el
    (write node (set_childrens (Some el) n)
       (write el (set_next (n_childrens n)
                    (set_place (Some node) (u32 (n_level n + 1)) i e)) s))
    = Done s4 →
  store_inv s4.
Proof.
  intros Hinv Hvalid Helroot He Ep Ec Ed Er Ek Hfound Hn Hnot Hi Hpush.
  destruct (place_level s key node n Hinv Hfound Hn Hnot)
    as (Hlv0 & Hfit & l & Hl & Hlen & Hscan).
  destruct Hfound as (n0 & Hn0 & Hdead & Hdl & Hplace & Hpath & _).
  assert (n0 = n) as -> by congruence.
  assert (el ≠ node) as Hne.
  { intros ->. destruct Hplace as [?|?]; congruence. }
  rewrite (get_bits_take s key _ Hinv) in Hi by done.
  specialize (Hscan i Hi).
  set (e2 := set_next (n_childrens n)
               (set_place (Some node) (u32 (n_level n + 1)) i e)) in *.
  set (s2 := write el e2 s) in *.
  set (s3 := write node (set_childrens (Some el) n) s2) in *.
  destruct (push_olist_agree [el; node] _ _ _ _ Hpush) as [Hag Hlook].
  destruct (Hlook el e2) as (e4 & He4 & Hsh4).
  { subst s3 s2. rewrite write_ne by done. apply write_eq. }
  destruct (Hlook node (set_childrens (Some el) n)) as (n4 & Hn4 & Hshn).
  { subst s3. apply write_eq. }
  apply shape_fields in Hsh4 as (F1 & F2 & F3 & F4 & F5 & F6 & F7 & F8 & F9 & F10 & _).
  apply shape_fields in Hshn as (G1 & G2 & G3 & G4 & G5 & G6 & G7 & G8 & G9 & G10 & _).
  cbn in F1, F2, F3, F4, F5, F7, F8, G1, G2, G3, G4, G5, G7, G8.
  assert (NODEP_dead e4 = false) as Hd4 by (rewrite F10; exact Ed).
  pose proof Hvalid as [Hklen Hkby]. pose proof (inv_size _ Hinv) as Hsz.
  eapply (inv_hook s s4 el node n n4 e4 el e4); try done.
  - eapply agree_trans; [|exact Hag]. subst s3 s2.
    eapply agree_trans; apply agree_write_in; set_solver.
  - intros e0 He0. assert (e0 = e) as -> by congruence. split; congruence.
  - intros a ea Ha Hp. by eapply (childless_no_child s el e a ea).
  - destruct Hag as (_ & _ & _ & Hbrk & _). pose proof (inv_brk _ Hinv el e He).
    cbn in Hbrk. lia.
  - congruence.
  - rewrite F5. lia.
  - rewrite F5. lia.
  - intros l' Hl'. rewrite (chain_det _ _ _ _ Hl' Hl), F4. done.
  - congruence.
  - by left.
  - intros k Hk. rewrite F7, Ek in Hk. injection Hk as <-.
    rewrite F5, F4, length_take.
    split_and!; [lia|by apply bytes_take| |].
    + by rewrite (get_bits_take s key _ Hinv).
    + intros b eb Hanc Hb Hpb.
      destruct (anc_live s node b n Hinv Hn Hdead Hanc) as (eb' & Hb' & Hdb).
      assert (eb' = eb) as -> by congruence.
      destruct (placed_level s b eb Hinv Hb Hpb Hdb) as [Hl0 Hlb].
      rewrite (get_bits_take s key _ Hinv) by done.
      specialize (Hpath b eb Hanc Hb Hpb). cbn in Hpath.
      by apply must_Done in Hpath.
Qed.

Lemma write_write a x y s : write a x (write a y s) = write a x s.
Proof. unfold write, with_heap. cbn. f_equal. apply insert_insert_eq. Qed.

(** *** [store_add] keeps the store well formed *)

Lemma add_loop_inv fuel el key s r s' :
  store_inv s → valid_key s key → el_ready s el key →
  add_loop fuel el key s = Done (r, s') → store_inv s'.
Proof.
  revert s. induction fuel as [|fuel IH]; intros s Hinv Hvalid Hready Hrun;
    [done|].
  cbn [add_loop] in Hrun.
  apply bind_Done in Hrun as ([node cnt] & Hfind & Hrun).
  apply find_node_sound in Hfind; [|done].
  apply bind_Done in Hrun as (n & Hn & Hrun). apply deref_Done in Hn.
  destruct Hready as (Helroot & e & He & Ep & Ec & Ed & Er & Ek).
  destruct (bool_decide (n_childrens n = None) &&
            bool_decide (Some node ≠ ctx_data s)) eqn:Hcond.
  - apply andb_true_iff in Hcond as [Hleaf Hnroot].
    apply bool_decide_eq_true in Hleaf, Hnroot.
    apply bind_Done in Hrun as (kr & Hkr & Hrun). apply must_Done in Hkr.
    apply bind_Done in Hrun as (o & Ho & Hrun). apply deref_Done in Ho.
    apply bind_Done in Hrun as (dup & Hdup & Hrun).
    destruct dup; [by injection Hrun as _ <-|].
    destruct (ALLOC s) as [[inject|] s1] eqn:Halloc.
    2:{ injection Hrun as _ <-.
        apply ALLOC_None in Halloc as (? & ? & ? & ? & ? & _).
        eapply inv_same_shape; [done|]. apply agree_heap_eq; try done. lia. }
    pose proof (ALLOC_Some _ _ _ Halloc)
      as (-> & Hheap & Hbrk & Hdata & Hsize & Hbits & _).
    apply bind_Done in Hrun as (i & Hi & Hrun).
    apply bind_Done in Hrun as (n' & Hn' & Hrun). apply deref_Done in Hn'.
    assert (heap s !! brk s = None) as Hfresh.
    { destruct (heap s !! brk s) as [x|] eqn:Hx; [|done].
      pose proof (inv_brk _ Hinv _ _ Hx). lia. }
    assert (brk s ≠ node) as Hne by congruence.
    rewrite write_ne in Hn' by done. rewrite Hheap in Hn'.
    assert (n' = n) as -> by congruence.
    rewrite bool_decide_eq_true_2 in Hrun by done.
    apply bind_Done in Hrun as (s3 & Hs3 & Hrun).
    apply modify_Done in Hs3 as (n'' & Hn'' & ->).
    rewrite write_ne in Hn'' by done. rewrite Hheap in Hn''.
    assert (n'' = n) as -> by congruence.
    rewrite Hbits in Hi.
    assert (el ≠ node) as Helnode.
    { intros ->. destruct Hfind as (n0 & Hn0 & _ & _ & [?|?] & _); congruence. }
    eapply IH; [| | |exact Hrun].
    + eapply (split_step s key node n kr o i); try done.
      intros k Hk. rewrite Hk in Hdup. apply memcmp_eq_Done in Hdup.
      symmetry in Hdup. by apply bool_decide_eq_false in Hdup.
    + destruct Hvalid. split; [|done]. cbn. by rewrite Hsize.
    + split; [cbn; by rewrite Hdata|]. exists e. cbn.
      rewrite lookup_insert_ne by done.
      rewrite lookup_insert_ne by congruence. rewrite Hheap, Hsize. done.
  - apply andb_false_iff in Hcond.
    assert (¬ (n_childrens n = None ∧ Some node ≠ ctx_data s)) as Hnot.
    { intros [H1 H2]. destruct Hcond as [Hc|Hc];
        apply bool_decide_eq_false in Hc; done. }
    destruct (place_level s key node n Hinv Hfind Hn Hnot)
      as (Hlv0 & Hfit & l & Hl & Hlen & Hscan).
    pose proof (inv_bits _ Hinv) as Hb. pose proof (inv_size _ Hinv) as Hsz.
    assert (el ≠ node) as Helnode.
    { intros ->. destruct Hfind as (n0 & Hn0 & _ & _ & [?|?] & _); congruence. }
    apply bind_Done in Hrun as (e0 & He0 & Hrun). apply deref_Done in He0.
    assert (e0 = e) as -> by congruence.
    apply bind_Done in Hrun as (kr & Hkr & Hrun). apply must_Done in Hkr.
    assert (kr = el) as -> by congruence.
    apply bind_Done in Hrun as (o & Ho & Hrun). apply deref_Done in Ho.
    assert (o = e) as -> by congruence.
    apply bind_Done in Hrun as (i & Hi & Hrun).
    rewrite Ek in Hi. apply get_bits_at_Some in Hi.
    rewrite u32_small in Hi by lia.
    apply bind_Done in Hrun as (s1 & Hs1 & Hrun).
    apply modify_Done in Hs1 as (e1 & He1 & ->).
    assert (e1 = e) as -> by congruence.
    apply bind_Done in Hrun as (n' & Hn' & Hrun). apply deref_Done in Hn'.
    rewrite write_ne in Hn' by done. assert (n' = n) as -> by congruence.
    set (e1 := set_place (Some node) (u32 (n_level n + 1)) i e) in *.
    assert (el ∉ l) as Hel.
    { intros Hin. destruct (child_member s node n l el Hinv Hn Hl Hin)
        as (x & Hx & Hpx & _). congruence. }
    assert (sibling_scan (brk (write el e1 s)) (write el e1 s) (n_childrens n) i
            = Done None) as Hsib.
    { rewrite (sibling_scan_spec _ _ _ l); [| |done].
      - f_equal. rewrite <- (Hscan i); [|by rewrite <- (get_bits_take s key _ Hinv)].
        apply scan_list_frame.
        + intros a ea Ha Hea. exists ea. split; [|done].
          rewrite write_ne; [done|]. intros ->. done.
        + intros a Ha. by eapply chain_alloc.
      - eapply chain_frame; [|exact Hl]. intros a ea Ha Hea. exists ea.
        split; [|done]. rewrite write_ne; [done|]. intros ->. done. }
    rewrite Hsib in Hrun. cbn [mbind outcome_bind] in Hrun.
    apply bind_Done in Hrun as (s2 & Hs2 & Hrun).
    apply modify_Done in Hs2 as (e1' & He1' & ->).
    rewrite write_eq in He1'. injection He1' as <-.
    rewrite write_write in Hrun.
    apply bind_Done in Hrun as (s3 & Hs3 & Hrun).
    apply modify_Done in Hs3 as (n'' & Hn'' & ->).
    rewrite write_ne in Hn'' by done. assert (n'' = n) as -> by congruence.
    apply bind_Done in Hrun as (root & Hroot & Hrun).
    apply bind_Done in Hrun as (s4 & Hs4 & Hrun).
    injection Hrun as _ <-.
    eapply (place_step s key el e node n i s4 root); done.
Qed.

Lemma fresh_brk s : store_inv s → heap s !! brk s = None.
Proof.
  intros Hinv. destruct (heap s !! brk s) as [x|] eqn:Hx; [|done].
  pose proof (inv_brk _ Hinv _ _ Hx). lia.
Qed.

Theorem store_add_inv s key data del r s' :
  store_inv s → (∀ kb, key = Some kb → bytes kb) →
  store_add s key data del = Done (r, s') → store_inv s'.
Proof.
  intros Hinv Hbytes Hrun. unfold store_add in Hrun.
  pose proof (fresh_brk s Hinv) as Hfresh.
  destruct (ALLOC s) as [[el|] s1] eqn:Halloc.
  2:{ injection Hrun as _ <-.
      apply ALLOC_None in Halloc as (? & ? & ? & ? & ? & _).
      eapply inv_same_shape; [done|]. apply agree_heap_eq; try done. lia. }
  apply ALLOC_Some in Halloc as (-> & Hheap & Hbrk & Hdata & Hsize & Hbits & _).
  destruct (ALLOC_buf (write (brk s) zero_elem s1)) as [ok s3] eqn:Hbuf.
  apply ALLOC_buf_spec in Hbuf as (Hheap3 & Hbrk3 & Hdata3 & Hsize3 & Hbits3 & _).
  cbn in Hheap3, Hbrk3, Hdata3, Hsize3, Hbits3.
  destruct ok.
  - apply bind_Done in Hrun as (kb & Hkb & Hrun). apply must_Done in Hkb.
    destruct (Z.of_nat (length kb) <? ctx_key_size s3) eqn:Hlen; [done|].
    apply Z.ltb_ge in Hlen.
    set (init := mk_elem None None None None None 0 0 MASK_TIME_LIST data
                   (Some (take (Z.to_nat (ctx_key_size s3)) kb))
                   (Some (brk s)) (now s3) del) in *.
    assert (store_inv (write (brk s) init s3)) as Hinv4.
    { eapply (inv_unplaced s _ (brk s) init); try done.
      - split_and!; cbn; try congruence; try lia.
        intros a Ha. rewrite lookup_insert_ne by set_solver.
        rewrite Hheap3. rewrite lookup_insert_ne by set_solver. by rewrite Hheap.
      - cbn. lia.
      - apply write_eq. }
    eapply add_loop_inv; [exact Hinv4| | |exact Hrun].
    + split; [cbn; lia|]. by apply Hbytes.
    + split.
      * cbn. rewrite Hdata3, Hdata.
        destruct (inv_root _ Hinv) as (r0 & er & Hr & Her & _). congruence.
      * exists init. rewrite write_eq. split_and!; done.
  - injection Hrun as _ <-.
    eapply inv_same_shape; [done|].
    split_and!; cbn; try congruence; try lia.
    intros a _. rewrite Hheap3.
    destruct (decide (a = brk s)) as [->|Hne].
    + by rewrite lookup_delete_eq, Hfresh.
    + rewrite lookup_delete_ne by done. rewrite lookup_insert_ne by done.
      by rewrite Hheap.
Qed.

Theorem store_find_inv s key cb user r s' :
  store_inv s → store_find s key cb user = Done (r, s') → store_inv s'.
Proof.
  intros Hinv Hrun. unfold store_find in Hrun.
  apply bind_Done in Hrun as ([node cnt] & _ & Hrun).
  apply bind_Done in Hrun as (n & _ & Hrun).
  destruct (n_key_ref n); [|by injection Hrun as _ <-].
  apply bind_Done in Hrun as (o & _ & Hrun).
  destruct (n_key o); [|by injection Hrun as _ <-].
  apply bind_Done in Hrun as (kb & _ & Hrun).
  apply bind_Done in Hrun as (same & _ & Hrun).
  destruct (same && _); [|by injection Hrun as _ <-].
  destruct cb; injection Hrun as _ <-; [|done].
  eapply inv_same_shape; [done|]. apply agree_with_calls.
Qed.

Theorem store_init_inv o clock keysize keybits lifespan s :
  1 ≤ keybits ≤ 8 → 0 < keysize → keysize * 8 + 8 < 2 ^ 32 →
  (keybits | keysize * 8) →
  store_init o clock keysize keybits lifespan = Some s → store_inv s.
Proof.
  intros Hb Hk Hk2 Hdiv Hinit. unfold store_init in Hinit.
  assert (∃ o', s = mk_store {[0%nat := set_place None (u32 (-1)) (u32 (-1)) zero_elem]}
                      1%nat o' 0%nat clock [] (Some 0%nat) None keysize
                      (u8 keybits) lifespan) as [o' ->].
  { destruct o as [|[] [|[] o]]; cbn in Hinit; try done;
      injection Hinit as <-; eexists; f_equal. }
  assert (u8 keybits = keybits) as Hu8 by (unfold u8; apply Z.mod_small; lia).
  split; cbn; rewrite ?Hu8; try done.
  - intros a e Ha. apply lookup_singleton_Some in Ha as [<- _]. lia.
  - exists 0%nat, (set_place None (u32 (-1)) (u32 (-1)) zero_elem).
    rewrite lookup_singleton_eq. split_and!; done.
  - intros p ep Hp. apply lookup_singleton_Some in Hp as [<- <-].
    exists []. split; [constructor|]. intros c. split; [by intros ?%elem_of_nil|].
    intros (ec & Hc & Hpc & _). apply lookup_singleton_Some in Hc as [<- <-]. done.
  - intros a e p Ha Hp. apply lookup_singleton_Some in Ha as [<- <-]. done.
  - intros a b ea eb Ha Hb'. apply lookup_singleton_Some in Ha as [<- <-]. done.
  - intros a e Ha. apply lookup_singleton_Some in Ha as [<- <-]. done.
Qed.

(** *** [find_node] returns, within the depth of the trie *)

Lemma descend_S fuel s key root c0 ret index cnt :
  descend (S fuel) s key root (Some c0) ret index cnt =
    if index <? ctx_key_size s * 8 then
      id ← get_bits_at key index (ctx_bits s);
      node ← sibling_scan (brk s) s (Some c0) id;
      match node with
      | None => Done (ret, cnt)
      | Some a =>
        e ← deref s a;
        if (n_id e =? id) && bool_decide (n_childrens e = None)
        then Done (a, S cnt)
        else descend fuel s key root (n_childrens e) a
               (u32 (index + ctx_bits s)) (S cnt)
      end
    else Done (root, cnt).
Proof. reflexivity. Qed.

Lemma descend_total fuel s key root ret rete node index cnt :
  store_inv s → valid_key s key →
  heap s !! ret = Some rete → node = n_childrens rete →
  index = u32 (n_level rete + 1) * ctx_bits s →
  ctx_key_size s * 8 - index < Z.of_nat fuel →
  ∃ res c, descend fuel s (Some key) root node ret index cnt = Done (res, c).
Proof.
  intros Hinv Hvalid. revert ret rete node index cnt.
  pose proof (inv_bits _ Hinv) as Hb. pose proof (inv_size _ Hinv) as Hsz.
  induction fuel as [|fuel IH]; intros ret rete node index cnt Hret Hnode Hidx Hfuel.
  - destruct node as [c0|]; cbn; [|eauto].
    destruct (index <? _) eqn:Hlt; [|eauto]. apply Z.ltb_lt in Hlt. lia.
  - destruct node as [c0|]; [|cbn; eauto]. rewrite descend_S.
    destruct (index <? _) eqn:Hlt; [|eauto]. apply Z.ltb_lt in Hlt.
    assert (0 ≤ u32 (n_level rete + 1)) as H0 by (apply Z.mod_pos_bound; lia).
    destruct (get_bits_defined s key (u32 (n_level rete + 1)) Hinv Hvalid)
      as [id Hid]; [lia|lia|].
    rewrite <- Hidx in Hid. unfold get_bits_at. cbn [must mbind outcome_bind].
    rewrite Hid. cbn [must mbind outcome_bind].
    destruct (children_chain s ret rete Hinv Hret) as (l & Hl & Hlen & Hmem).
    rewrite <- Hnode in Hl.
    rewrite (sibling_scan_spec _ _ _ l) by done. cbn [mbind outcome_bind].
    destruct (scan_list s l id) as [a|] eqn:Hscan; [|eauto].
    destruct (scan_list_Some _ _ _ _ Hscan) as (Hin & ea & Hea & Hida & Hdla).
    unfold deref. rewrite Hea. cbn [must mbind outcome_bind].
    destruct ((n_id ea =? id) && _); [eauto|].
    destruct (proj1 (Hmem a) Hin) as (ea' & Hea' & Hpara & Hdeada).
    assert (ea' = ea) as -> by congruence.
    destruct (inv_parent _ Hinv a ea ret Hea Hpara Hdeada)
      as (ep & Hep & _ & _ & Hlv & Hl0 & Hlb & _).
    assert (ep = rete) as -> by congruence.
    destruct (level_next s a ea ret Hinv Hea Hpara Hdeada) as [Hn1 Hn2].
    apply (IH a ea); [done|done| |].
    + rewrite Hidx, <- Hlv, Hn2, Hn1. done.
    + rewrite Hidx, <- Hlv, Hn2. lia.
Qed.

Lemma find_node_total s key :
  store_inv s → valid_key s key →
  ∃ node cnt, find_node s None (Some key) = Done (node, cnt).
Proof.
  intros Hinv Hvalid. unfold find_node.
  destruct (inv_root _ Hinv) as (r & er & Hr & Her & Hpar & Hlv & _).
  rewrite Hr. unfold deref. cbn [must mbind outcome_bind]. rewrite Her.
  cbn [must mbind outcome_bind].
  pose proof (inv_size _ Hinv).
  apply (descend_total _ s key r r er); try done.
  - rewrite Hlv. change (u32 (u32 (-1) + 1)) with 0. lia.
  - lia.
Qed.




(** *** [find_node] finds every live leaf *)

Lemma in_trie_placed s a :
  store_inv s → in_trie s a →
  ctx_data s = Some a ∨
  ∃ e, heap s !! a = Some e ∧ n_parent e ≠ None ∧ NODEP_dead e = false.
Proof.
  intros Hinv. induction 1 as [r Hr|p ep c _ IH Hp Hc|a e m _ IH He Hm]; [by left|..].
  - right. destruct (inv_children _ Hinv p ep Hp) as (l & Hl & Hmem).
    rewrite Hc in Hl. inversion Hl; subst.
    destruct (proj1 (Hmem c)) as (ec & Hec & Hpc & Hdc); [set_solver|].
    exists ec. split_and!; congruence.
  - right. destruct IH as [Hroot|(e' & He' & Hpl & Hd)].
    + destruct (inv_root _ Hinv) as (r & er & Hr & Her & _ & _ & _ & _ & _ & Hn).
      congruence.
    + assert (e' = e) as -> by congruence.
      destruct (n_parent e) as [p|] eqn:Hpar; [|done].
      destruct (inv_parent _ Hinv a e p He Hpar Hd) as (ep & Hep & _).
      destruct (inv_children _ Hinv p ep Hep) as (l & Hl & Hmem).
      assert (a ∈ l) as Hin by (apply Hmem; eauto).
      pose proof (chain_next_in _ _ _ _ _ _ Hl Hin He Hm) as Hmin.
      destruct (proj1 (Hmem m) Hmin) as (em & Hem & Hpm & Hdm).
      exists em. split_and!; congruence.
Qed.

Lemma anc_child s a b :
  anc s a b → a ≠ b →
  ∃ c ec, anc s a c ∧ heap s !! c = Some ec ∧ n_parent ec = Some b.
Proof.
  induction 1 as [a|a e p b He Hp Hanc IH]; intros Hne; [done|].
  destruct (decide (p = b)) as [->|Hpb].
  - exists a, e. split_and!; [constructor|done..].
  - destruct (IH Hpb) as (c & ec & Hc & Hec & Hpc).
    exists c, ec. split_and!; [|done..]. by econstructor.
Qed.

(** A proper ancestor is the root or sits on a smaller level. *)
Lemma anc_above s a b e eb :
  store_inv s → anc s a b → a ≠ b → heap s !! a = Some e →
  NODEP_dead e = false → heap s !! b = Some eb → n_parent eb ≠ None →
  n_level eb < n_level e.
Proof.
  intros Hinv Hanc. revert e. induction Hanc as [a|a e0 p b He0 Hp Hanc IH];
    intros e Hne He Hd Hb Hpb; [done|].
  assert (e0 = e) as -> by congruence.
  destruct (inv_parent _ Hinv a e p He Hp Hd)
    as (ep & Hep & Hdp & _ & Hl & Hl0 & Hlb & Hor).
  pose proof (inv_bits _ Hinv). pose proof (inv_size _ Hinv).
  destruct (decide (p = b)) as [->|Hpb'].
  - assert (ep = eb) as -> by congruence.
    destruct (placed_level s b eb Hinv Hb Hpb Hdp) as [? ?].
    rewrite u32_small in Hl by nia. lia.
  - specialize (IH ep Hpb' Hep Hdp Hb Hpb).
    assert (n_parent ep ≠ None) as Hpp.
    { destruct Hor as [Hroot|]; [|done]. exfalso.
      inversion Hanc as [|? e1 q ? He1 Hq _]; subst; [done|].
      destruct (inv_root _ Hinv) as (r & er & Hr & Her & Hrp & _). congruence. }
    destruct (placed_level s p ep Hinv Hep Hpp Hdp) as [? ?].
    rewrite u32_small in Hl by nia. lia.
Qed.

Lemma anc_trans s a b c : anc s a b → anc s b c → anc s a c.
Proof.
  induction 1 as [a|a e p b He Hp _ IH]; [done|].
  intros Hbc. econstructor; [done..|]. by apply IH.
Qed.

Lemma anc_root s a e r :
  store_inv s → heap s !! a = Some e → n_parent e ≠ None →
  NODEP_dead e = false → ctx_data s = Some r → anc s a r.
Proof.
  intros Hinv He Hp Hd Hr.
  destruct (placed_level s a e Hinv He Hp Hd) as [Hl0 _].
  destruct (anc_levels s a e 0 Hinv He Hp Hd) as (b & eb & Hanc & Hb & Hpb & Hlb);
    [lia|].
  destruct (anc_live s a b e Hinv He Hd Hanc) as (eb' & Hb' & Hdb).
  assert (eb' = eb) as -> by congruence.
  destruct (n_parent eb) as [p|] eqn:Hpar; [|done].
  destruct (inv_parent _ Hinv b eb p Hb Hpar Hdb)
    as (ep & Hep & Hdp & _ & Hl & _ & _ & Hor).
  pose proof (inv_bits _ Hinv). pose proof (inv_size _ Hinv).
  assert (p = r) as ->.
  { destruct Hor as [?|Hpp]; [congruence|]. exfalso.
    destruct (placed_level s p ep Hinv Hep Hpp Hdp) as [? ?].
    rewrite u32_small in Hl by nia. lia. }
  apply (anc_trans s a b r); [done|]. econstructor; [done..|constructor].
Qed.

Lemma has_child s p ep c ec :
  store_inv s → heap s !! p = Some ep → heap s !! c = Some ec →
  n_parent ec = Some p → NODEP_dead ec = false → n_childrens ep ≠ None.
Proof.
  intros Hinv Hp Hc Hpc Hd Hnone.
  pose proof (childless_no_child s p ep c ec Hinv Hp Hnone Hc Hpc). congruence.
Qed.

Lemma descend_complete s key root a ea o eo :
  store_inv s → valid_key s key →
  heap s !! a = Some ea → n_parent ea ≠ None → NODEP_dead ea = false →
  NODEP_dlist ea = false → n_childrens ea = None →
  n_key_ref ea = Some o → heap s !! o = Some eo →
  n_key eo = Some (take (Z.to_nat (ctx_key_size s)) key) →
  ∀ d fuel ret rete cnt,
    anc s a ret → a ≠ ret → heap s !! ret = Some rete →
    n_level ea - u32 (n_level rete + 1) = Z.of_nat d → (d < fuel)%nat →
    descend fuel s (Some key) root (n_childrens rete) ret
      (u32 (n_level rete + 1) * ctx_bits s) cnt = Done (a, (cnt + d + 1)%nat).
Proof.
  intros Hinv Hvalid Ha Hpa Hda Hla Hleaf Hko Ho Hk.
  pose proof (inv_bits _ Hinv) as Hb. pose proof (inv_size _ Hinv) as Hsz.
  destruct (inv_key _ Hinv a ea Ha Hpa Hda) as (o' & eo' & Hko' & Ho' & _ & Hkeys).
  assert (o' = o) as -> by congruence. assert (eo' = eo) as -> by congruence.
  destruct (Hkeys _ Hk) as (_ & _ & Hslices).
  induction d as [|d IH]; intros fuel ret rete cnt Hanc Hne Hret Hd Hfuel.
  all: destruct (anc_child s a ret Hanc Hne) as (c & ec & Hac & Hc & Hpc).
  all: destruct (anc_live s a c ea Hinv Ha Hda Hac) as (ec' & Hc' & Hdc).
  all: assert (ec' = ec) as -> by congruence.
  all: destruct (inv_parent _ Hinv c ec ret Hc Hpc Hdc)
         as (ep & Hep & Hdp & Hdlp & Hlv & Hl0 & Hlb & _).
  all: assert (ep = rete) as -> by congruence.
  all: assert (NODEP_dlist ec = false) as Hdlc.
  1,3: destruct (decide (a = c)) as [<-|Hnc]; [congruence|];
       destruct (anc_child s a c Hac Hnc) as (c' & ec' & Hac' & Hc'' & Hpc');
       destruct (anc_live s a c' ea Hinv Ha Hda Hac') as (x & Hx & Hdx);
       assert (x = ec') as -> by congruence;
       destruct (inv_parent _ Hinv c' ec' c Hc'' Hpc' Hdx) as (y & Hy & _ & Hdly & _);
       congruence.
  all: destruct (children_chain s ret rete Hinv Hret) as (l & Hl & Hlen & Hmem).
  all: assert (c ∈ l) as Hin by (apply Hmem; eauto).
  all: destruct (n_childrens rete) as [c0|] eqn:Hch;
         [|inversion Hl; subst; by apply elem_of_nil in Hin].
  all: destruct fuel as [|fuel]; [lia|].
  all: rewrite descend_S, <- Hlv.
  all: destruct (Z.ltb_spec (n_level ec * ctx_bits s) (ctx_key_size s * 8)); [|lia].
  all: assert (get_bits_at (Some key) (n_level ec * ctx_bits s) (ctx_bits s)
               = Done (n_id ec)) as Hid
         by (apply get_bits_at_Some;
             rewrite <- (get_bits_take s key _ Hinv) by done;
             apply (Hslices c ec); [done..|congruence]).
  all: rewrite Hid; cbn [mbind outcome_bind].
  all: rewrite (sibling_scan_spec _ _ _ l) by done; cbn [mbind outcome_bind].
  all: assert (scan_list s l (n_id ec) = Some c) as ->.
  1,3: destruct (scan_list s l (n_id ec)) as [x|] eqn:Hscan;
       [destruct (scan_list_Some _ _ _ _ Hscan) as (Hxin & ex & Hx & Hidx & Hdlx);
        destruct (proj1 (Hmem x) Hxin) as (ex' & Hx' & Hpx & Hdx);
        assert (ex' = ex) as -> by congruence;
        f_equal; eapply (inv_uniq _ Hinv x c ex ec); congruence
       |destruct (scan_list_None s l (n_id ec) c ec Hscan); try done;
        [intros y Hy; by eapply chain_alloc|congruence]].
  all: unfold deref; rewrite Hc; cbn [must mbind outcome_bind].
  all: rewrite Z.eqb_refl; cbn [andb].
  all: destruct (decide (a = c)) as [<-|Hnc].
  - assert (ec = ea) as -> by congruence.
    rewrite bool_decide_eq_true_2 by done. do 2 f_equal. lia.
  - exfalso. assert (n_level ec < n_level ea); [|lia].
    eapply (anc_above s a c); try done. congruence.
  - exfalso. assert (ec = ea) as -> by congruence. lia.
  - destruct (anc_child s a c Hac Hnc) as (c' & ec' & Hac' & Hc'' & Hpc').
    destruct (anc_live s a c' ea Hinv Ha Hda Hac') as (x & Hx & Hdx).
    assert (x = ec') as -> by congruence.
    rewrite bool_decide_eq_false_2
      by (eapply (has_child s c ec c' ec'); done).
    destruct (level_next s c ec ret Hinv Hc Hpc Hdc) as [Hn1 Hn2].
    rewrite Hn2, <- Hn1.
    rewrite (IH fuel c ec (S cnt)); [do 2 f_equal; lia|done..| |lia].
    rewrite Hn1. lia.
Qed.

Lemma live_leaf_of_at s a k :
  store_inv s → live_leaf_of s a k → live_leaf_at s a k.
Proof.
  intros Hinv [[Htrie (e & o & eo & Ha & Hleaf & Hko & Ho & Hk)]
                 (e' & Ha' & Hlive)].
  assert (e' = e) as -> by congruence.
  destruct (inv_root _ Hinv) as (r & er & Hr & Her & Hpr & Hlr & Hkr & _).
  destruct (in_trie_placed s a Hinv Htrie) as [Hroot|(e' & Ha'' & Hp & Hd)];
    [congruence|].
  assert (e' = e) as -> by congruence.
  exists e, o, eo. split_and!; done.
Qed.

Lemma find_node_complete s key a :
  store_inv s → valid_key s key →
  live_leaf_at s a (take (Z.to_nat (ctx_key_size s)) key) →
  ∃ cnt, find_node s None (Some key) = Done (a, cnt).
Proof.
  intros Hinv Hvalid (e & o & eo & Ha & Hp & Hd & Hlive & Hleaf & Hko & Ho & Hk).
  destruct (inv_root _ Hinv) as (r & er & Hr & Her & Hpr & Hlr & Hkr & _).
  pose proof (inv_bits _ Hinv) as Hb. pose proof (inv_size _ Hinv) as Hsz.
  destruct (placed_level s a e Hinv Ha Hp Hd) as [Hl0 Hlb].
  unfold find_node. rewrite Hr. unfold deref. cbn [must mbind outcome_bind].
  rewrite Her. cbn [must mbind outcome_bind].
  eexists.
  assert (0 = u32 (n_level er + 1) * ctx_bits s) as ->.
  { rewrite Hlr. change (u32 (u32 (-1) + 1)) with 0. lia. }
  apply (descend_complete s key r a e o eo Hinv Hvalid Ha Hp Hd Hlive Hleaf Hko
           Ho Hk (Z.to_nat (n_level e))); try done.
  - by eapply anc_root.
  - congruence.
  - rewrite Hlr. change (u32 (u32 (-1) + 1)) with 0. lia.
  - nia.
Qed.

(** The key of a live leaf is a full key. *)
Lemma live_leaf_key s a k :
  store_inv s → live_leaf_at s a k →
  valid_key s k ∧ take (Z.to_nat (ctx_key_size s)) k = k.
Proof.
  intros Hinv (e & o & eo & Ha & Hp & Hd & Hlive & Hleaf & Hko & Ho & Hk).
  destruct (inv_key _ Hinv a e Ha Hp Hd) as (o' & eo' & Hko' & Ho' & _ & Hkeys).
  assert (o' = o) as -> by congruence. assert (eo' = eo) as -> by congruence.
  destruct (Hkeys k Hk) as (Hlen & Hby & _).
  split; [split; [lia|done]|]. apply take_ge. lia.
Qed.

(** No two live leaves share a full key. *)
Lemma live_leaf_unique s a b k :
  store_inv s → live_leaf_at s a k → live_leaf_at s b k → a = b.
Proof.
  intros Hinv Ha Hb. destruct (live_leaf_key s a k Hinv Ha) as [Hvalid Htake].
  rewrite <- Htake in Ha, Hb.
  destruct (find_node_complete s k a Hinv Hvalid Ha) as [ca Hfa].
  destruct (find_node_complete s k b Hinv Hvalid Hb) as [cb Hfb].
  congruence.
Qed.

(** *** Reachable stores are well formed *)

Theorem reachable_inv s : reachable s → store_inv s.
Proof.
  induction 1 as [o clock K B L s (Hb & Hk & Hk2 & Hdiv) Hinit|s t _ IH
                 |s key data del r s' _ IH Hby Hadd
                 |s key cb user r s' _ IH Hfind|s key r s' _ IH Hdel].
  - by eapply store_init_inv.
  - eapply inv_same_shape; [done|]. by split_and!.
  - eapply store_add_inv; [done| |done]. by intros kb [= <-].
  - by eapply store_find_inv.
  - by eapply store_delete_inv.
Qed.

(** *** Deleting a key twice *)

Lemma push_dlist_total root node s er en :
  heap s !! root = Some er → heap s !! node = Some en →
  ∃ s', push_dlist root node s = Done s'.
Proof.
  intros Hr Hn. unfold push_dlist, modify, deref.
  rewrite Hr. cbn [must mbind outcome_bind mret outcome_ret].
  destruct (decide (root = node)) as [->|Hne].
  - rewrite write_eq. cbn [must mbind outcome_bind mret outcome_ret]. eauto.
  - rewrite write_ne by done. rewrite Hn.
    cbn [must mbind outcome_bind mret outcome_ret]. eauto.
Qed.

Lemma deref_eq s a e : heap s !! a = Some e → deref s a = Done e.
Proof. by apply deref_Done. Qed.

Lemma modify_eq a f s e :
  heap s !! a = Some e → modify a f s = Done (write a (f e) s).
Proof. intros. apply modify_Done. eauto. Qed.

Lemma ctx_data_write a e s : ctx_data (write a e s) = ctx_data s.
Proof. done. Qed.

Lemma memcmp_eq_total a b n :
  n ≤ Z.of_nat (length a) → n ≤ Z.of_nat (length b) →
  memcmp_eq a b n = Done (bool_decide (take (Z.to_nat n) a = take (Z.to_nat n) b)).
Proof.
  intros. unfold memcmp_eq.
  destruct (Z.ltb_spec (Z.of_nat (length a)) n); [lia|].
  destruct (Z.ltb_spec (Z.of_nat (length b)) n); [lia|]. done.
Qed.

Lemma store_delete_live s key a :
  store_inv s → valid_key s key →
  live_leaf_at s a (take (Z.to_nat (ctx_key_size s)) key) →
  ∃ s1, store_delete s (Some key) = Done (true, s1) ∧
        ctx_key_size s1 = ctx_key_size s ∧
        ∃ e1, heap s1 !! a = Some e1 ∧ NODEP_dlist e1 = true ∧
        ∀ b e, b ≠ a → heap s1 !! b = Some e →
               ∃ e0, heap s !! b = Some e0 ∧ shape e = shape e0.
Proof.
  intros Hinv Hvalid Hleaf.
  destruct (find_node_complete s key a Hinv Hvalid Hleaf) as [cnt Hfind].
  destruct Hleaf as (e & o & eo & Ha & Hp & Hd & Hlive & Hchild & Hko & Ho & Hk).
  destruct (inv_root _ Hinv) as (r & er & Hr & Her & Hrp & _).
  destruct Hvalid as [Hklen _]. pose proof (inv_size _ Hinv) as Hsz.
  assert (a ≠ r) as Har by (intros ->; congruence).
  set (e' := set_mask (Z.lor (n_mask e) MASK_DELETE_LIST) e).
  destruct (push_dlist_total r a (write a e' s) er e') as [s1 Hpush].
  { by rewrite write_ne. }
  { apply write_eq. }
  exists s1. split.
  - subst e'. unfold store_delete. rewrite Hfind. cbn [mbind outcome_bind].
    rewrite (deref_eq _ _ _ Ha). cbn [mbind outcome_bind].
    rewrite bool_decide_eq_true_2 by done.
    rewrite bool_decide_eq_true_2 by done. cbn [andb].
    rewrite Hko. cbn [must mbind outcome_bind].
    rewrite (deref_eq _ _ _ Ho). cbn [mbind outcome_bind]. rewrite Hk.
    rewrite memcmp_eq_total by (rewrite ?length_take; lia).
    cbn [mbind outcome_bind]. rewrite take_take, Nat.min_id.
    rewrite bool_decide_eq_true_2 by done. rewrite Hlive. cbn [negb].
    rewrite (modify_eq _ _ _ _ Ha). cbn [mbind outcome_bind].
    rewrite ctx_data_write, Hr.
    cbn [must mbind outcome_bind]. rewrite Hpush. done.
  - destruct (push_dlist_agree [a] _ _ _ _ Hpush) as [Hag Hlook].
    split; [by destruct Hag as (_ & ? & _)|].
    destruct (Hlook a e') as (e1 & He1 & Hsh); [apply write_eq|].
    exists e1. split; [done|]. split.
    + apply shape_fields in Hsh as (_ & _ & _ & _ & _ & _ & _ & _ & Hdl & _).
      rewrite Hdl. apply dlist_set.
    + intros b eb Hba Hb.
      destruct (agree_bwd [a] _ s1 b eb Hag) as (e0 & He0 & Hsh0);
        [set_solver|done|].
      rewrite write_ne in He0 by done. eauto.
Qed.

Lemma store_delete_gone s key a s1 e1 :
  store_inv s → valid_key s key →
  live_leaf_at s a (take (Z.to_nat (ctx_key_size s)) key) →
  store_inv s1 → ctx_key_size s1 = ctx_key_size s →
  heap s1 !! a = Some e1 → NODEP_dlist e1 = true →
  (∀ b e, b ≠ a → heap s1 !! b = Some e →
          ∃ e0, heap s !! b = Some e0 ∧ shape e = shape e0) →
  store_delete s1 (Some key) = Done (false, s1).
Proof.
  intros Hinv Hvalid Hleaf Hinv1 Hsize Ha1 Hdl1 Hother.
  assert (valid_key s1 key) as Hvalid1.
  { destruct Hvalid. split; [|done]. by rewrite Hsize. }
  destruct (find_node_total s1 key Hinv1 Hvalid1) as (node & cnt & Hfind).
  unfold store_delete. rewrite Hfind. cbn [mbind outcome_bind].
  apply find_node_sound in Hfind as (n & Hn & Hdead & Hdl & Hplace & _); [|done].
  rewrite (deref_eq _ _ _ Hn). cbn [mbind outcome_bind].
  destruct (bool_decide (n_parent n ≠ None) && bool_decide (n_childrens n = None))
    eqn:Hcond; [|done].
  apply andb_true_iff in Hcond as [Hp Hc].
  apply bool_decide_eq_true in Hp, Hc.
  destruct (inv_key _ Hinv1 node n Hn Hp Hdead) as (o & eo & Hko & Ho & _ & Hkeys).
  rewrite Hko. cbn [must mbind outcome_bind].
  rewrite (deref_eq _ _ _ Ho). cbn [mbind outcome_bind].
  destruct (n_key eo) as [k|] eqn:Hk; [|done].
  destruct (Hkeys k eq_refl) as (Hlen & _). destruct Hvalid1 as [Hklen _].
  pose proof (inv_size _ Hinv1) as Hsz.
  rewrite memcmp_eq_total by lia. cbn [mbind outcome_bind].
  destruct (bool_decide _) eqn:Hsame; [exfalso|done].
  apply bool_decide_eq_true in Hsame.
  rewrite (take_ge k) in Hsame by lia.
  assert (node ≠ a) as Hna by (intros ->; congruence).
  destruct (Hother node n Hna Hn) as (n0 & Hn0 & Hshn).
  apply shape_fields in Hshn as (F1 & F2 & F3 & F4 & F5 & F6 & F7 & F8 & F9 & F10 & _).
  destruct (inv_key _ Hinv node n0 Hn0) as (o' & eo0 & Hko' & Ho0 & Hanc & _);
    [congruence..|].
  assert (o' = o) as -> by congruence.
  assert (o ≠ a) as Hoa.
  { (* the deleted leaf has no descendant *)
    intros ->. destruct Hleaf as (e & _ & _ & Ha & Hpa & Hda & _ & Hleaf & _).
    destruct (anc_child s node a Hanc Hna) as (c & ec & Hac & Hc' & Hpc).
    destruct (anc_live s node c n0 Hinv Hn0) as (ec' & Hc'' & Hdc);
      [congruence|done|].
    assert (ec' = ec) as -> by congruence.
    by eapply (has_child s a e c ec). }
  destruct (Hother o eo Hoa Ho) as (eo0' & Ho0' & Hsh).
  assert (eo0' = eo0) as -> by congruence.
  apply shape_fields in Hsh as (_ & _ & _ & _ & _ & _ & Hkk & _).
  assert (live_leaf_at s node (take (Z.to_nat (ctx_key_size s)) key)) as Hleaf'.
  { exists n0, o, eo0. rewrite <- Hsize, Hsame. split_and!; congruence. }
  pose proof (live_leaf_unique s node a _ Hinv Hleaf' Hleaf). done.
Qed.

(** Every placed node that is not dead is a node of the trie. *)
Lemma chain_in_trie s hd l x :
  chain s hd l → (∀ a, hd = Some a → in_trie s a) → x ∈ l → in_trie s x.
Proof.
  induction 1 as [|a e l He Hl IH]; intros Hhd Hin; [by apply elem_of_nil in Hin|].
  apply elem_of_cons in Hin as [->|Hin]; [by apply Hhd|].
  apply IH; [|done]. intros m Hm. eapply in_trie_next; [by apply Hhd|done..].
Qed.

(** *** Scenarios *)

Lemma valid_params_4_4 : valid_params 4 4.
Proof. split_and!; try lia. by exists 8. Qed.

Lemma bytes_key_a : bytes key_a.
Proof. repeat constructor; lia. Qed.

Lemma bytes_key_b : bytes key_b.
Proof. repeat constructor; lia. Qed.

Lemma reachable_empty : reachable (store_empty []).
Proof.
  eapply (reach_init [] 100 4 4 60); [apply valid_params_4_4|].
  vm_compute. reflexivity.
Qed.

Lemma reachable_one : reachable store_one.
Proof.
  eapply (reach_add (store_empty []) key_a 1 None true);
    [apply reachable_empty|apply bytes_key_a|].
  vm_compute. reflexivity.
Qed.

Lemma reachable_readded : reachable store_readded.
Proof.
  eapply (reach_add _ key_a 7 None true); [|apply bytes_key_a|].
  - eapply (reach_delete store_one (Some key_a) true); [apply reachable_one|].
    vm_compute. reflexivity.
  - vm_compute. reflexivity.
Qed.


Lemma valid_key_a s : ctx_key_size s = 4 → valid_key s key_a.
Proof. intros H. split; [rewrite H; cbn; lia|apply bytes_key_a]. Qed.

(** *** The claims about the store *)



(** C5. In a reachable store, deleting the key of a live leaf returns
    true, and deleting it again right away returns false. *)
Theorem delete_twice (s : store_t) (key : list Z) (a : addr) :
  reachable s → valid_key s key →
  live_leaf_of s a (take (Z.to_nat (ctx_key_size s)) key) →
  ∃ s1, store_delete s (Some key) = Done (true, s1) ∧
        store_delete s1 (Some key) = Done (false, s1).
Proof.
  intros Hreach Hvalid Hleaf. pose proof (reachable_inv s Hreach) as Hinv.
  apply live_leaf_of_at in Hleaf; [|done].
  destruct (store_delete_live s key a Hinv Hvalid Hleaf)
    as (s1 & Hdel & Hsize & e1 & He1 & Hdl & Hother).
  exists s1. split; [done|].
  eapply (store_delete_gone s key a s1 e1); try done.
  by eapply store_delete_inv.
Qed.

Lemma in_trie_one : in_trie store_one 1%nat.
Proof.
  eapply (in_trie_child _ 0%nat); [by apply in_trie_root|vm_compute; reflexivity..].
Qed.

Lemma live_leaf_one : live_leaf_of store_one 1%nat key_a.
Proof.
  split; [split; [apply in_trie_one|]|].
  - eexists _, 1%nat, _. split_and!; vm_compute; reflexivity.
  - eexists. split; vm_compute; reflexivity.
Qed.

Lemma delete_twice_witness :
  reachable store_one ∧ valid_key store_one key_a ∧
  live_leaf_of store_one 1%nat
    (take (Z.to_nat (ctx_key_size store_one)) key_a) ∧
  ∃ s1, store_delete store_one (Some key_a) = Done (true, s1) ∧
        store_delete s1 (Some key_a) = Done (false, s1).
Proof.
  split; [apply reachable_one|]. split; [by apply valid_key_a|].
  split; [apply live_leaf_one|].
  apply (delete_twice store_one key_a 1%nat);
    [apply reachable_one|by apply valid_key_a|apply live_leaf_one].
Defined.

(** C1, as stated, fails: after a delete and a re-add of the same key, and
    before any prune, the deleted leaf and the new leaf are both in the
    trie with the same full key. *)
Lemma two_leaves_same_key :
  ∃ s a b k, reachable s ∧ leaf_of s a k ∧ leaf_of s b k ∧ a ≠ b.
Proof.
  exists store_readded, 1%nat, 2%nat, key_a.
  assert (in_trie store_readded 2%nat) as H2.
  { eapply (in_trie_child _ 0%nat); [by apply in_trie_root|vm_compute; reflexivity..]. }
  split_and!; [apply reachable_readded| | |lia].
  - split.
    + eapply (in_trie_next _ 2%nat); [exact H2|vm_compute; reflexivity..].
    + eexists _, 1%nat, _. split_and!; vm_compute; reflexivity.
  - split; [exact H2|]. eexists _, 2%nat, _. split_and!; vm_compute; reflexivity.
Qed.

(** C1, amended.  The sibling scan steps over a node that is on the delete
    list, and in every reachable store no two leaves that are not on the
    delete list have the same full key. *)
Theorem live_leaves_unique (s : store_t) (a b : addr) (k : list Z) :
  reachable s → live_leaf_of s a k → live_leaf_of s b k →
  a = b ∧
  ∀ fuel c e id, heap s !! c = Some e → NODEP_dlist e = true →
    sibling_scan (S fuel) s (Some c) id = sibling_scan fuel s (n_next e) id.
Proof.
  intros Hreach Ha Hb. pose proof (reachable_inv s Hreach) as Hinv. split.
  - eapply (live_leaf_unique s a b k); [done|by apply live_leaf_of_at..].
  - intros fuel c e id Hc Hdl. cbn. rewrite (deref_eq _ _ _ Hc).
    cbn [mbind outcome_bind]. by rewrite Hdl, orb_true_r.
Qed.

Lemma live_leaf_readded : live_leaf_of store_readded 2%nat key_a.
Proof.
  split; [split|].
  - eapply (in_trie_child _ 0%nat); [by apply in_trie_root|vm_compute; reflexivity..].
  - eexists _, 2%nat, _. split_and!; vm_compute; reflexivity.
  - eexists. split; vm_compute; reflexivity.
Qed.

Lemma live_leaves_unique_witness :
  reachable store_readded ∧ live_leaf_of store_readded 2%nat key_a ∧
  (2 = 2)%nat ∧
  ∀ fuel c e id, heap store_readded !! c = Some e → NODEP_dlist e = true →
    sibling_scan (S fuel) store_readded (Some c) id
    = sibling_scan fuel store_readded (n_next e) id.
Proof.
  split; [apply reachable_readded|]. split; [apply live_leaf_readded|].
  apply (live_leaves_unique store_readded 2%nat 2%nat key_a);
    [apply reachable_readded|apply live_leaf_readded..].
Defined.

(** *** Allocation failure in [store_add] *)











(** C8.  [store_delete] tests its key for NULL and returns false;
    [store_add] copies [key_size] bytes from the key without a test, and
    [store_find] reads the key's first bits as soon as the root has a
    child. *)
Theorem null_key_dereferenced :
  store_add (store_empty []) None 0 None = Crash ∧
  store_find store_one None None 0 = Crash ∧
  store_delete store_one None = Done (false, store_one) ∧
  reachable (store_empty []) ∧ reachable store_one.
Proof.
  split_and!; [by vm_compute..| |].
  - exact reachable_empty.
  - exact reachable_one.
Qed.

End StoreFacts.

Module StoreProps.
Import Bitwise BitwiseFacts Store StoreRel StoreFacts.

(** *** What [store_find] and [store_delete] answer *)

Lemma store_find_spec s key cb user :
  store_inv s → valid_key s key →
  (∃ a e, live_leaf_at s a (take (Z.to_nat (ctx_key_size s)) key) ∧
          heap s !! a = Some e ∧
          store_find s (Some key) cb user =
            Done (true, match cb with
                        | Some f =>
                          with_calls (calls s ++ [FindCb f key (n_data e) user]) s
                        | None => s
                        end)) ∨
  ((¬ ∃ a, live_leaf_at s a (take (Z.to_nat (ctx_key_size s)) key)) ∧
   store_find s (Some key) cb user = Done (false, s)).
Proof.
  intros Hinv Hvalid. unfold store_find.
  destruct (find_node_total s key Hinv Hvalid) as (node & cnt & Hfind).
  assert (∀ a, live_leaf_at s a (take (Z.to_nat (ctx_key_size s)) key) →
               a = node) as Hcomplete.
  { intros a Ha.
    destruct (find_node_complete s key a Hinv Hvalid Ha) as (cnt' & Hf).
    congruence. }
  rewrite Hfind. cbn [mbind outcome_bind].
  apply find_node_sound in Hfind as (n & Hn & Hdead & Hdl & Hplace & _); [|done].
  unfold deref. rewrite Hn. cbn [must mbind outcome_bind].
  destruct (n_key_ref n) as [kr|] eqn:Hkr.
  2:{ right. split; [|done]. intros (a & Ha). pose proof (Hcomplete a Ha) as ->.
      destruct Ha as (e & o & eo & He & _ & _ & _ & _ & Hko & _). congruence. }
  assert (n_parent n ≠ None) as Hp.
  { destruct Hplace as [Hroot|]; [|done].
    destruct (inv_root _ Hinv) as (r & er & Hr & Her & _ & _ & Hrk & _).
    congruence. }
  destruct (inv_key _ Hinv node n Hn Hp Hdead)
    as (o & eo & Hro & Ho & _ & Hkeys).
  assert (o = kr) as -> by congruence. rewrite Ho.
  cbn [must mbind outcome_bind].
  destruct (n_key eo) as [k|] eqn:Hk.
  2:{ right. split; [|done]. intros (a & Ha). pose proof (Hcomplete a Ha) as ->.
      destruct Ha as (e & o & eo' & He & _ & _ & _ & _ & Hko & Ho' & Hk').
      congruence. }
  cbn [must mbind outcome_bind].
  destruct (Hkeys k eq_refl) as (Hlen & _). pose proof Hvalid as [Hklen _].
  rewrite memcmp_eq_total by lia. cbn [mbind outcome_bind].
  destruct (bool_decide (take _ k = take _ key) &&
            bool_decide (n_childrens n = None)) eqn:Hcond.
  - apply andb_true_iff in Hcond as [Hsame Hleaf].
    apply bool_decide_eq_true in Hsame, Hleaf.
    rewrite (take_ge k) in Hsame by lia.
    left. exists node, n. split; [|split; [done|by destruct cb]].
    exists n, kr, eo. rewrite <- Hsame. by split_and!.
  - right. split; [|done]. intros (a & Ha). pose proof (Hcomplete a Ha) as ->.
    destruct Ha as (e & o & eo' & He & _ & _ & _ & Hc & Hko & Ho' & Hk').
    assert (e = n) as -> by congruence.
    assert (o = kr) as -> by congruence.
    assert (eo' = eo) as -> by congruence.
    rewrite Hk in Hk'. injection Hk' as ->.
    apply andb_false_iff in Hcond as [Hc'|Hc'];
      apply bool_decide_eq_false in Hc'; apply Hc'; [|done].
    by rewrite take_take, Nat.min_id.
Qed.

Lemma store_delete_spec s key :
  store_inv s → valid_key s key →
  (∃ a s1, live_leaf_at s a (take (Z.to_nat (ctx_key_size s)) key) ∧
           store_delete s (Some key) = Done (true, s1) ∧
           store_inv s1 ∧ valid_key s1 key ∧
           ¬ ∃ b, live_leaf_at s1 b (take (Z.to_nat (ctx_key_size s1)) key)) ∨
  ((¬ ∃ a, live_leaf_at s a (take (Z.to_nat (ctx_key_size s)) key)) ∧
   store_delete s (Some key) = Done (false, s)).
Proof.
  intros Hinv Hvalid.
  destruct (store_find_spec s key None 0 Hinv Hvalid)
    as [(a & e & Hleaf & He & _)|[Hnone Hfindrun]].
  - left.
    destruct (store_delete_live s key a Hinv Hvalid Hleaf)
      as (s1 & Hdel & Hsize & e1 & He1 & Hdl & Hother).
    pose proof (store_delete_inv _ _ _ _ Hinv Hdel) as Hinv1.
    assert (valid_key s1 key) as Hvalid1.
    { destruct Hvalid. split; [|done]. by rewrite Hsize. }
    exists a, s1. split_and!; try done.
    intros (b & Hb).
    pose proof (store_delete_gone s key a s1 e1 Hinv Hvalid Hleaf Hinv1 Hsize
                  He1 Hdl Hother) as Hgone.
    destruct (store_delete_live s1 key b Hinv1 Hvalid1 Hb) as (s2 & Hdel2 & _).
    congruence.
  - right. split; [done|].
    destruct (find_node_total s key Hinv Hvalid) as (node & cnt & Hfind).
    unfold store_delete. rewrite Hfind. cbn [mbind outcome_bind].
    pose proof Hfind as Hfound.
    apply find_node_sound in Hfound as (n & Hn & Hdead & Hdl & Hplace & _);
      [|done].
    rewrite (deref_eq _ _ _ Hn). cbn [mbind outcome_bind].
    destruct (bool_decide (n_parent n ≠ None) &&
              bool_decide (n_childrens n = None)) eqn:Hcond; [|done].
    apply andb_true_iff in Hcond as [Hp Hc].
    apply bool_decide_eq_true in Hp, Hc.
    destruct (inv_key _ Hinv node n Hn Hp Hdead)
      as (o & eo & Hko & Ho & _ & Hkeys).
    rewrite Hko. cbn [must mbind outcome_bind].
    rewrite (deref_eq _ _ _ Ho). cbn [mbind outcome_bind].
    destruct (n_key eo) as [k|] eqn:Hk; [|done].
    destruct (Hkeys k eq_refl) as (Hlen & _). destruct Hvalid as [Hklen _].
    rewrite memcmp_eq_total by lia. cbn [mbind outcome_bind].
    destruct (bool_decide _) eqn:Hsame; [exfalso|done].
    apply bool_decide_eq_true in Hsame.
    rewrite (take_ge k) in Hsame by lia.
    apply Hnone. exists node, n, o, eo. rewrite Hsame. by split_and!.
Qed.

(** *** What a [store_add] that returns true has built *)

Lemma ALLOC_calls s r s1 : ALLOC s = (r, s1) → calls s1 = calls s.
Proof.
  unfold ALLOC. destruct (oracle s) as [|[] ?]; by intros [= <- <-].
Qed.

Lemma ALLOC_buf_calls s r s1 : ALLOC_buf s = (r, s1) → calls s1 = calls s.
Proof.
  unfold ALLOC_buf. destruct (oracle s) as [|[] ?]; by intros [= <- <-].
Qed.

Lemma add_loop_true fuel el key : ∀ s s' e,
  store_inv s → valid_key s key → el_ready s el key →
  heap s !! el = Some e → NODEP_dlist e = false →
  add_loop fuel el key s = Done (true, s') →
  store_inv s' ∧ ctx_key_size s' = ctx_key_size s ∧ calls s' = calls s ∧
  ∃ e', heap s' !! el = Some e' ∧ n_parent e' ≠ None ∧
        n_childrens e' = None ∧ n_mask e' = n_mask e ∧
        n_key_ref e' = Some el ∧ n_key e' = n_key e ∧ n_data e' = n_data e.
Proof.
  induction fuel as [|fuel IH]; intros s s' e0 Hinv Hvalid Hready He0 Hdl0 Hrun;
    [done|].
  cbn [add_loop] in Hrun.
  apply bind_Done in Hrun as ([node cnt] & Hfind & Hrun).
  apply find_node_sound in Hfind; [|done].
  apply bind_Done in Hrun as (n & Hn & Hrun). apply deref_Done in Hn.
  pose proof Hready as (Helroot & e & He & Ep & Ec & Ed & Er & Ek).
  assert (e0 = e) as -> by congruence.
  destruct (bool_decide (n_childrens n = None) &&
            bool_decide (Some node ≠ ctx_data s)) eqn:Hcond.
  - apply andb_true_iff in Hcond as [Hleaf Hnroot].
    apply bool_decide_eq_true in Hleaf, Hnroot.
    apply bind_Done in Hrun as (kr & Hkr & Hrun). apply must_Done in Hkr.
    apply bind_Done in Hrun as (o & Ho & Hrun). apply deref_Done in Ho.
    apply bind_Done in Hrun as (dup & Hdup & Hrun).
    destruct dup; [done|].
    destruct (ALLOC s) as [[inject|] s1] eqn:Halloc; [|done].
    pose proof (ALLOC_Some _ _ _ Halloc)
      as (-> & Hheap & Hbrk & Hdata & Hsize & Hbits & _).
    pose proof (ALLOC_calls _ _ _ Halloc) as Hcalls.
    apply bind_Done in Hrun as (i & Hi & Hrun).
    apply bind_Done in Hrun as (n' & Hn' & Hrun). apply deref_Done in Hn'.
    assert (heap s !! brk s = None) as Hfresh by (by apply fresh_brk).
    assert (brk s ≠ node) as Hne by congruence.
    rewrite write_ne in Hn' by done. rewrite Hheap in Hn'.
    assert (n' = n) as -> by congruence.
    rewrite bool_decide_eq_true_2 in Hrun by done.
    apply bind_Done in Hrun as (s3 & Hs3 & Hrun).
    apply modify_Done in Hs3 as (n'' & Hn'' & ->).
    rewrite write_ne in Hn'' by done. rewrite Hheap in Hn''.
    assert (n'' = n) as -> by congruence.
    rewrite Hbits in Hi.
    assert (el ≠ node) as Helnode.
    { intros ->. destruct Hfind as (n0 & Hn0 & _ & _ & [?|?] & _); congruence. }
    assert (brk s ≠ el) as Hbel by congruence.
    match type of Hrun with
    | add_loop _ _ _ ?S = _ =>
      destruct (IH S s' e) as (Hinv' & Hsz' & Hcalls' & Hres);
        [| | | | |exact Hrun|]
    end.
    + eapply (split_step s key node n kr o i); try done.
      intros k Hk. rewrite Hk in Hdup. apply memcmp_eq_Done in Hdup.
      symmetry in Hdup. by apply bool_decide_eq_false in Hdup.
    + destruct Hvalid. split; [|done]. cbn. by rewrite Hsize.
    + split; [cbn; by rewrite Hdata|]. exists e. cbn.
      rewrite lookup_insert_ne by done.
      rewrite lookup_insert_ne by congruence. rewrite Hheap, Hsize. done.
    + cbn. rewrite lookup_insert_ne by done.
      rewrite lookup_insert_ne by congruence. by rewrite Hheap.
    + done.
    + cbn in Hsz', Hcalls'. split_and!; [done|congruence|congruence|done].
  - apply andb_false_iff in Hcond.
    assert (¬ (n_childrens n = None ∧ Some node ≠ ctx_data s)) as Hnot.
    { intros [H1 H2]. destruct Hcond as [Hc|Hc];
        apply bool_decide_eq_false in Hc; done. }
    destruct (place_level s key node n Hinv Hfind Hn Hnot)
      as (Hlv0 & Hfit & l & Hl & Hlen & Hscan).
    pose proof (inv_bits _ Hinv) as Hb. pose proof (inv_size _ Hinv) as Hsz.
    assert (el ≠ node) as Helnode.
    { intros ->. destruct Hfind as (n0 & Hn0 & _ & _ & [?|?] & _); congruence. }
    apply bind_Done in Hrun as (e0 & He0' & Hrun). apply deref_Done in He0'.
    assert (e0 = e) as -> by congruence.
    apply bind_Done in Hrun as (kr & Hkr & Hrun). apply must_Done in Hkr.
    assert (kr = el) as -> by congruence.
    apply bind_Done in Hrun as (o & Ho & Hrun). apply deref_Done in Ho.
    assert (o = e) as -> by congruence.
    apply bind_Done in Hrun as (i & Hi & Hrun).
    rewrite Ek in Hi. apply get_bits_at_Some in Hi.
    rewrite u32_small in Hi by lia.
    apply bind_Done in Hrun as (s1 & Hs1 & Hrun).
    apply modify_Done in Hs1 as (e1 & He1 & ->).
    assert (e1 = e) as -> by congruence.
    apply bind_Done in Hrun as (n' & Hn' & Hrun). apply deref_Done in Hn'.
    rewrite write_ne in Hn' by done. assert (n' = n) as -> by congruence.
    set (e1 := set_place (Some node) (u32 (n_level n + 1)) i e) in *.
    assert (el ∉ l) as Hel.
    { intros Hin. destruct (child_member s node n l el Hinv Hn Hl Hin)
        as (x & Hx & Hpx & _). congruence. }
    assert (sibling_scan (brk (write el e1 s)) (write el e1 s) (n_childrens n) i
            = Done None) as Hsib.
    { rewrite (sibling_scan_spec _ _ _ l); [| |done].
      - f_equal. rewrite <- (Hscan i); [|by rewrite <- (get_bits_take s key _ Hinv)].
        apply scan_list_frame.
        + intros a ea Ha Hea. exists ea. split; [|done].
          rewrite write_ne; [done|]. intros ->. done.
        + intros a Ha. by eapply chain_alloc.
      - eapply chain_frame; [|exact Hl]. intros a ea Ha Hea. exists ea.
        split; [|done]. rewrite write_ne; [done|]. intros ->. done. }
    rewrite Hsib in Hrun. cbn [mbind outcome_bind] in Hrun.
    apply bind_Done in Hrun as (s2 & Hs2 & Hrun).
    apply modify_Done in Hs2 as (e1' & He1' & ->).
    rewrite write_eq in He1'. injection He1' as <-.
    rewrite write_write in Hrun.
    apply bind_Done in Hrun as (s3 & Hs3 & Hrun).
    apply modify_Done in Hs3 as (n'' & Hn'' & ->).
    rewrite write_ne in Hn'' by done. assert (n'' = n) as -> by congruence.
    apply bind_Done in Hrun as (root & Hroot & Hrun).
    apply must_Done in Hroot. cbn in Hroot.
    apply bind_Done in Hrun as (s4 & Hs4 & Hrun).
    injection Hrun as <-.
    split; [by eapply (place_step s key el e node n i s4 root)|].
    unfold push_olist in Hs4.
    apply bind_Done in Hs4 as (r & Hr & Hs4). apply deref_Done in Hr.
    apply bind_Done in Hs4 as (s5 & Hs5 & Hs4).
    apply modify_Done in Hs5 as (r' & Hr' & ->).
    apply modify_Done in Hs4 as (e2 & He2 & ->).
    assert (root ≠ el) as Hrel by congruence.
    rewrite write_ne, write_ne, write_eq in He2 by done.
    injection He2 as <-. split; [done|]. split; [done|].
    eexists. rewrite write_eq. split; [done|]. by split_and!.
Qed.

Lemma store_add_true s key data del s' :
  store_inv s → valid_key s key →
  store_add s (Some key) data del = Done (true, s') →
  store_inv s' ∧ ctx_key_size s' = ctx_key_size s ∧ calls s' = calls s ∧
  ∃ e, heap s' !! brk s = Some e ∧ n_data e = data ∧
       live_leaf_at s' (brk s) (take (Z.to_nat (ctx_key_size s)) key).
Proof.
  intros Hinv Hvalid Hrun. unfold store_add in Hrun.
  pose proof (fresh_brk s Hinv) as Hfresh.
  destruct (ALLOC s) as [[el|] s1] eqn:Halloc; [|done].
  pose proof (ALLOC_calls _ _ _ Halloc) as Hcalls.
  apply ALLOC_Some in Halloc as (-> & Hheap & Hbrk & Hdata & Hsize & Hbits & _).
  destruct (ALLOC_buf (write (brk s) zero_elem s1)) as [ok s3] eqn:Hbuf.
  assert (calls s3 = calls s) as Hcalls3.
  { apply ALLOC_buf_calls in Hbuf. cbn in Hbuf. congruence. }
  apply ALLOC_buf_spec in Hbuf as (Hheap3 & Hbrk3 & Hdata3 & Hsize3 & Hbits3 & _).
  cbn in Hheap3, Hbrk3, Hdata3, Hsize3, Hbits3.
  destruct ok; [|done].
  cbn [must mbind outcome_bind] in Hrun.
  destruct (Z.of_nat (length key) <? ctx_key_size s3) eqn:Hlen; [done|].
  apply Z.ltb_ge in Hlen.
  set (init := mk_elem None None None None None 0 0 MASK_TIME_LIST data
                 (Some (take (Z.to_nat (ctx_key_size s3)) key))
                 (Some (brk s)) (now s3) del) in *.
  assert (store_inv (write (brk s) init s3)) as Hinv4.
  { eapply (inv_unplaced s _ (brk s) init); try done.
    - split_and!; cbn; try congruence; try lia.
      intros a Ha. rewrite lookup_insert_ne by set_solver.
      rewrite Hheap3. rewrite lookup_insert_ne by set_solver. by rewrite Hheap.
    - cbn. lia.
    - apply write_eq. }
  match type of Hrun with
  | add_loop ?f ?el _ ?S = _ =>
    destruct (add_loop_true f el key S s' init Hinv4)
      as (Hinv' & Hsz' & Hcalls' & e' & He' & Hp' & Hc' & Hm' & Hr' & Hk'
          & Hd'); [| | | |exact Hrun|]
  end.
  - split; [cbn; lia|]. by destruct Hvalid.
  - split.
    + cbn. rewrite Hdata3, Hdata.
      destruct (inv_root _ Hinv) as (r0 & er & Hr & Her & _). congruence.
    + exists init. rewrite write_eq. split_and!; done.
  - apply write_eq.
  - done.
  - cbn in Hsz', Hcalls'. split_and!; [done|congruence|congruence|].
    exists e'. split_and!; [done|done|].
    exists e', (brk s), e'. unfold NODEP_dead, NODEP_dlist. rewrite Hm'.
    split_and!; try done. rewrite Hk'. cbn. do 2 f_equal. congruence.
Qed.

(** *** [store_add] of a key that is in the store *)

Lemma store_add_dup s key data del a :
  store_inv s → valid_key s key →
  live_leaf_at s a (take (Z.to_nat (ctx_key_size s)) key) →
  oracle s = [] ∨ (∃ o, oracle s = true :: true :: o) →
  ∃ s', store_add s (Some key) data del = Done (false, s') ∧
        (∀ b e, heap s !! b = Some e → heap s' !! b = Some e) ∧
        is_Some (heap s' !! brk s) ∧ ctx_data s' = ctx_data s ∧
        ctx_expired s' = ctx_expired s ∧ calls s' = calls s.
Proof.
  intros Hinv Hvalid Hleaf Horacle. unfold store_add.
  pose proof (fresh_brk s Hinv) as Hfresh.
  destruct (ALLOC s) as [[el|] s1] eqn:Halloc.
  2:{ unfold ALLOC in Halloc.
      destruct Horacle as [Ho|[o Ho]]; rewrite Ho in Halloc; done. }
  assert (calls s1 = calls s ∧ ctx_expired s1 = ctx_expired s ∧
          (oracle s1 = [] ∨ ∃ o, oracle s1 = true :: o)) as (Hcalls & Hexp & Ho1).
  { unfold ALLOC in Halloc.
    destruct Horacle as [Ho|[o Ho]]; rewrite Ho in Halloc;
      injection Halloc as _ <-; cbn; eauto. }
  apply ALLOC_Some in Halloc as (-> & Hheap & Hbrk & Hdata & Hsize & Hbits & _).
  destruct (ALLOC_buf (write (brk s) zero_elem s1)) as [ok s3] eqn:Hbuf.
  assert (ok = true ∧ calls s3 = calls s ∧ ctx_expired s3 = ctx_expired s)
    as (-> & Hcalls3 & Hexp3).
  { unfold ALLOC_buf in Hbuf. cbn [oracle write with_heap] in Hbuf.
    destruct Ho1 as [Ho|[o Ho]]; rewrite Ho in Hbuf;
      injection Hbuf as <- <-; done. }
  apply ALLOC_buf_spec in Hbuf as (Hheap3 & Hbrk3 & Hdata3 & Hsize3 & Hbits3 & _).
  cbn in Hheap3, Hbrk3, Hdata3, Hsize3, Hbits3.
  cbn [must mbind outcome_bind].
  pose proof Hvalid as [Hklen Hbytes].
  destruct (Z.ltb_spec (Z.of_nat (length key)) (ctx_key_size s3)); [lia|].
  set (init := mk_elem None None None None None 0 0 MASK_TIME_LIST data
                 (Some (take (Z.to_nat (ctx_key_size s3)) key))
                 (Some (brk s)) (now s3) del) in *.
  set (St := write (brk s) init s3).
  assert (∀ b, b ≠ brk s → heap St !! b = heap s !! b) as Hfr.
  { intros b Hb. unfold St. rewrite write_ne by done. rewrite Hheap3.
    rewrite lookup_insert_ne by done. by rewrite Hheap. }
  assert (store_inv St) as Hinv4.
  { eapply (inv_unplaced s _ (brk s) init); try done.
    - split_and!; cbn; try congruence; try lia.
      intros b Hb. f_equal. apply Hfr. set_solver.
    - cbn. lia.
    - apply write_eq. }
  assert (ctx_key_size St = ctx_key_size s) as HsizeS by (cbn; congruence).
  assert (valid_key St key) as HvalidS by (by split; [rewrite HsizeS|]).
  destruct Hleaf as (e & o & eo & He & Hp & Hd & Hdl & Hc & Hko & Ho & Hk).
  assert (a ≠ brk s) as Hab by congruence.
  assert (o ≠ brk s) as Hob by congruence.
  assert (live_leaf_at St a (take (Z.to_nat (ctx_key_size St)) key)) as HleafS.
  { exists e, o, eo. rewrite HsizeS, !Hfr by done. by split_and!. }
  destruct (find_node_complete St key a Hinv4 HvalidS HleafS) as (cnt & Hfind).
  assert (0 ≤ ctx_key_size s) as Hpos by (pose proof (inv_size _ Hinv); lia).
  replace (S (Z.to_nat (ctx_key_size s3 * 8)))
    with (S (Z.to_nat (ctx_key_size s * 8))) by (f_equal; congruence).
  cbn [add_loop]. fold St. rewrite Hfind. cbn [mbind outcome_bind].
  rewrite (deref_eq St a e) by (by rewrite Hfr).
  cbn [mbind outcome_bind].
  assert (Some a ≠ ctx_data St) as Hroot.
  { cbn. rewrite Hdata3, Hdata.
    destruct (inv_root _ Hinv) as (r0 & er & Hr & Her & Hpr & _).
    rewrite Hr. intros [= ->]. congruence. }
  rewrite (bool_decide_eq_true_2 _ Hc), (bool_decide_eq_true_2 _ Hroot).
  cbn [andb]. rewrite Hko. cbn [must mbind outcome_bind].
  rewrite (deref_eq St o eo) by (by rewrite Hfr).
  cbn [mbind outcome_bind]. rewrite Hk.
  rewrite memcmp_eq_total.
  2:{ rewrite length_take. lia. }
  2:{ lia. }
  cbn [mbind outcome_bind].
  rewrite bool_decide_eq_true_2.
  2:{ rewrite HsizeS, take_take. f_equal. lia. }
  exists St. split; [done|]. split_and!.
  - intros b eb Hb. rewrite Hfr; [done|]. congruence.
  - unfold St. rewrite write_eq. eauto.
  - cbn. congruence.
  - cbn. congruence.
  - cbn. congruence.
Qed.

(** *** Properties of the store *)

(** In a reachable store [store_find] returns, and it returns true exactly
    when the trie has a live leaf with the key.  The call changes nothing
    but the record of calls: when it returns true and a callback was given,
    the callback has been called once, with the caller's key, the data of
    that leaf and the user pointer. *)
Theorem find_true_iff_live_leaf (s : store_t) (key : list Z) (cb : option Z)
    (user : Z) :
  reachable s → valid_key s key →
  ∃ r s', store_find s (Some key) cb user = Done (r, s') ∧
    (r = true ↔
     ∃ a, live_leaf_at s a (take (Z.to_nat (ctx_key_size s)) key)) ∧
    heap s' = heap s ∧ brk s' = brk s ∧ ctx_data s' = ctx_data s ∧
    ctx_expired s' = ctx_expired s ∧
    (r = false ∨ cb = None → s' = s) ∧
    (∀ f, r = true → cb = Some f →
       ∃ a e, live_leaf_at s a (take (Z.to_nat (ctx_key_size s)) key) ∧
              heap s !! a = Some e ∧
              calls s' = calls s ++ [FindCb f key (n_data e) user]).
Proof.
  intros Hreach Hvalid. apply reachable_inv in Hreach.
  destruct (store_find_spec s key cb user Hreach Hvalid)
    as [(a & e & Hleaf & He & Hrun)|[Hnone Hrun]].
  - eexists true, _. split; [exact Hrun|].
    split; [split; [eauto|done]|]. split_and!.
    + by destruct cb.
    + by destruct cb.
    + by destruct cb.
    + by destruct cb.
    + intros [?| ->]; done.
    + intros f _ ->. exists a, e. by split_and!.
  - exists false, s. split; [exact Hrun|].
    split; [split; [done|]; intros H; by destruct Hnone|].
    split_and!; done.
Qed.

Lemma inv_one : store_inv store_one.
Proof. apply reachable_inv, reachable_one. Qed.

Lemma live_leaf_at_one : live_leaf_at store_one 1%nat key_a.
Proof. apply live_leaf_of_at; [apply inv_one|apply live_leaf_one]. Qed.

Lemma find_true_iff_live_leaf_witness :
  ∃ r s', store_find store_one (Some key_a) (Some 5) 9 = Done (r, s') ∧
    (r = true ↔
     ∃ a, live_leaf_at store_one a
            (take (Z.to_nat (ctx_key_size store_one)) key_a)) ∧
    heap s' = heap store_one ∧ brk s' = brk store_one ∧
    ctx_data s' = ctx_data store_one ∧
    ctx_expired s' = ctx_expired store_one ∧
    (r = false ∨ Some 5 = None → s' = store_one) ∧
    (∀ f, r = true → Some 5 = Some f →
       ∃ a e, live_leaf_at store_one a
                (take (Z.to_nat (ctx_key_size store_one)) key_a) ∧
              heap store_one !! a = Some e ∧
              calls s' = calls store_one ++ [FindCb f key_a (n_data e) 9]).
Proof.
  apply (find_true_iff_live_leaf store_one key_a (Some 5) 9).
  - exact reachable_one.
  - by apply valid_key_a.
Defined.

(** In a reachable store [store_delete] returns, and it returns true exactly
    when the trie has a live leaf with the key; a call that returns false
    leaves the store as it was. *)
Theorem delete_true_iff_live_leaf (s : store_t) (key : list Z) :
  reachable s → valid_key s key →
  ∃ r s', store_delete s (Some key) = Done (r, s') ∧
    (r = true ↔
     ∃ a, live_leaf_at s a (take (Z.to_nat (ctx_key_size s)) key)) ∧
    (r = false → s' = s).
Proof.
  intros Hreach Hvalid. apply reachable_inv in Hreach.
  destruct (store_delete_spec s key Hreach Hvalid)
    as [(a & s1 & Hleaf & Hrun & _)|[Hnone Hrun]].
  - exists true, s1. split; [exact Hrun|]. split; [|done].
    split; [eauto|done].
  - exists false, s. split; [exact Hrun|]. split; [|done].
    split; [done|]. intros H. by destruct Hnone.
Qed.

Lemma delete_true_iff_live_leaf_witness :
  ∃ r s', store_delete store_one (Some key_b) = Done (r, s') ∧
    (r = true ↔
     ∃ a, live_leaf_at store_one a
            (take (Z.to_nat (ctx_key_size store_one)) key_b)) ∧
    (r = false → s' = store_one).
Proof.
  apply (delete_true_iff_live_leaf store_one key_b).
  - exact reachable_one.
  - split; [vm_compute; congruence|apply bytes_key_b].
Defined.

(** After a [store_delete] that returned true, and before any prune,
    [store_find] for the same key returns false and calls nothing. *)
Theorem delete_then_find (s : store_t) (key : list Z) (s' : store_t)
    (cb : option Z) (user : Z) :
  reachable s → valid_key s key →
  store_delete s (Some key) = Done (true, s') →
  store_find s' (Some key) cb user = Done (false, s').
Proof.
  intros Hreach Hvalid Hrun. apply reachable_inv in Hreach.
  destruct (store_delete_spec s key Hreach Hvalid)
    as [(a & s1 & Hleaf & Hrun1 & Hinv1 & Hvalid1 & Hnone)|[_ Hrun1]];
    [|congruence].
  assert (s1 = s') as -> by congruence.
  destruct (store_find_spec s' key cb user Hinv1 Hvalid1)
    as [(b & e & Hb & _)|[_ Hfind]]; [|done].
  destruct Hnone. eauto.
Qed.

Lemma delete_then_find_witness :
  store_find (after store_one (λ s, store_delete s (Some key_a)))
    (Some key_a) (Some 5) 9
  = Done (false, after store_one (λ s, store_delete s (Some key_a))).
Proof.
  apply (delete_then_find store_one key_a).
  - exact reachable_one.
  - by apply valid_key_a.
  - vm_compute. reflexivity.
Defined.

(** After a [store_add] that returned true, [store_find] for the same key
    returns true and passes the data that was added to the callback. *)
Theorem add_then_find (s : store_t) (key : list Z) (data : Z)
    (del : option Z) (s' : store_t) (f user : Z) :
  reachable s → valid_key s key →
  store_add s (Some key) data del = Done (true, s') →
  store_find s' (Some key) (Some f) user =
    Done (true, with_calls (calls s' ++ [FindCb f key data user]) s').
Proof.
  intros Hreach Hvalid Hrun. apply reachable_inv in Hreach.
  destruct (store_add_true s key data del s' Hreach Hvalid Hrun)
    as (Hinv' & Hsize & _ & e & He & Hdata & Hleaf).
  assert (valid_key s' key) as Hvalid'.
  { destruct Hvalid. split; [|done]. by rewrite Hsize. }
  rewrite <- Hsize in Hleaf.
  destruct (store_find_spec s' key (Some f) user Hinv' Hvalid')
    as [(b & eb & Hb & Heb & Hfind)|[Hnone _]].
  - pose proof (live_leaf_unique s' b (brk s) _ Hinv' Hb Hleaf) as ->.
    assert (eb = e) as -> by congruence. by rewrite Hfind, Hdata.
  - destruct Hnone. eauto.
Qed.

Lemma add_then_find_witness :
  store_find (after store_one (λ s, store_add s (Some key_b) 7 None))
    (Some key_b) (Some 5) 9
  = Done (true,
      with_calls
        (calls (after store_one (λ s, store_add s (Some key_b) 7 None))
         ++ [FindCb 5 key_b 7 9])
        (after store_one (λ s, store_add s (Some key_b) 7 None))).
Proof.
  apply (add_then_find store_one key_b 7 None).
  - exact reachable_one.
  - split; [vm_compute; congruence|apply bytes_key_b].
  - vm_compute. reflexivity.
Defined.

(** [store_add] of a key that has a live leaf, with memory at hand: the
    call returns false and leaves every node as it was, and the element it
    had prepared for the key stays allocated (the exit for a key that is in
    the store does not free it). *)
Theorem add_existing_key (s : store_t) (key : list Z) (data : Z)
    (del : option Z) (a : addr) :
  reachable s → valid_key s key →
  live_leaf_at s a (take (Z.to_nat (ctx_key_size s)) key) →
  oracle s = [] ∨ (∃ o, oracle s = true :: true :: o) →
  ∃ s', store_add s (Some key) data del = Done (false, s') ∧
        (∀ b e, heap s !! b = Some e → heap s' !! b = Some e) ∧
        heap s !! brk s = None ∧ is_Some (heap s' !! brk s) ∧
        ctx_data s' = ctx_data s ∧ ctx_expired s' = ctx_expired s ∧
        calls s' = calls s.
Proof.
  intros Hreach Hvalid Hleaf Horacle. apply reachable_inv in Hreach.
  destruct (store_add_dup s key data del a Hreach Hvalid Hleaf Horacle)
    as (s' & Hrun & Hfr & Hleak & Hrest).
  exists s'. split_and!; try done; try tauto. by apply fresh_brk.
Qed.

Lemma add_existing_key_witness :
  ∃ s', store_add store_one (Some key_a) 7 None = Done (false, s') ∧
        (∀ b e, heap store_one !! b = Some e → heap s' !! b = Some e) ∧
        heap store_one !! brk store_one = None ∧
        is_Some (heap s' !! brk store_one) ∧
        ctx_data s' = ctx_data store_one ∧
        ctx_expired s' = ctx_expired store_one ∧
        calls s' = calls store_one.
Proof.
  apply (add_existing_key store_one key_a 7 None 1%nat).
  - exact reachable_one.
  - by apply valid_key_a.
  - exact live_leaf_at_one.
  - left. vm_compute. reflexivity.
Defined.

(** A store that [store_init] has just returned holds no key: for the
    parameters the store is meant for, [store_find] and [store_delete]
    return false for every key and leave the store as it is. *)
Theorem fresh_store_is_empty (o : list bool) (clock keysize keybits
    lifespan : Z) (s : store_t) (key : list Z) (cb : option Z) (user : Z) :
  valid_params keysize keybits →
  store_init o clock keysize keybits lifespan = Some s →
  valid_key s key →
  store_find s (Some key) cb user = Done (false, s) ∧
  store_delete s (Some key) = Done (false, s).
Proof.
  intros Hparams Hinit Hvalid.
  assert (reachable s) as Hreach by (by eapply reach_init).
  apply reachable_inv in Hreach.
  assert (¬ ∃ a, live_leaf_at s a (take (Z.to_nat (ctx_key_size s)) key))
    as Hnone.
  { intros (a & e & _ & _ & Ha & Hp & _).
    unfold store_init in Hinit.
    destruct o as [|[] o']; cbn in Hinit; try done.
    - injection Hinit as <-. cbn in Ha.
      destruct (decide (a = 0%nat)) as [->|Hne].
      + rewrite lookup_insert_eq in Ha. by injection Ha as <-.
      + by rewrite lookup_insert_ne, lookup_empty in Ha.
    - destruct o' as [|[] o'']; cbn in Hinit; try done.
      all: injection Hinit as <-; cbn in Ha.
      all: destruct (decide (a = 0%nat)) as [->|Hne];
        [rewrite lookup_insert_eq in Ha; by injection Ha as <-
        |by rewrite lookup_insert_ne, lookup_empty in Ha]. }
  split.
  - destruct (store_find_spec s key cb user Hreach Hvalid)
      as [(a & e & Hleaf & _)|[_ Hfind]]; [|done].
    destruct Hnone. eauto.
  - destruct (store_delete_spec s key Hreach Hvalid)
      as [(a & s1 & Hleaf & _)|[_ Hdel]]; [|done].
    destruct Hnone. eauto.
Qed.

Lemma fresh_store_is_empty_witness :
  store_find (store_empty []) (Some key_a) (Some 5) 9
    = Done (false, store_empty []) ∧
  store_delete (store_empty []) (Some key_a) = Done (false, store_empty []).
Proof.
  apply (fresh_store_is_empty [] 100 4 4 60 (store_empty []) key_a).
  - exact valid_params_4_4.
  - vm_compute. reflexivity.
  - by apply valid_key_a.
Defined.

(** Every store reached from [store_init] by adds, finds and deletes is
    well formed: the child list of a node holds exactly the nodes placed
    under it, children that are off the delete list have distinct ids, a
    node is one level below its parent and inside the key, and the ids on
    the path to a node are the slices of the key the node refers to. *)
Theorem reachable_store_well_formed (s : store_t) :
  reachable s → store_inv s.
Proof. apply reachable_inv. Qed.

Lemma reachable_store_well_formed_witness : store_inv store_readded.
Proof.
  apply (reachable_store_well_formed store_readded), reachable_readded.
Defined.

End StoreProps.

(** ** Pruning *)

Module StorePruneFacts.
Import Bitwise BitwiseFacts Store StoreRel StorePrune StoreFacts StoreProps.

Lemma chain_head s hd l : chain s hd l → hd = head l.
Proof. by destruct 1. Qed.

Lemma chain_tail s hd P R :
  chain s hd (P ++ R) → ∃ m, chain s m R ∧ (P = [] → m = hd).
Proof.
  revert hd. induction P as [|x P IH]; intros hd Hl.
  - by exists hd.
  - cbn in Hl. inversion Hl as [|? e ? He Hl1]; subst.
    destruct (IH _ Hl1) as (m & Hm & _). by exists m.
Qed.

(** Taking an element out of a list of siblings, after its first one. *)
Lemma chain_unlink s s' hd P q c ec eq' R :
  chain s hd (P ++ q :: c :: R) → NoDup (P ++ q :: c :: R) →
  heap s !! c = Some ec → heap s' !! q = Some eq' → n_next eq' = n_next ec →
  (∀ a e, a ∈ P ++ R → heap s !! a = Some e →
          ∃ e', heap s' !! a = Some e' ∧ n_next e' = n_next e) →
  chain s' hd (P ++ q :: R).
Proof.
  revert hd. induction P as [|x P IH]; intros hd Hl Hnd Hc Hq Hnext Hrest.
  - cbn in *. inversion Hl as [|? e0 ? He0 Hl1]; subst.
    inversion Hl1 as [|? e1 ? He1 Hl2]; subst.
    assert (e1 = ec) as -> by congruence.
    econstructor; [exact Hq|]. rewrite Hnext.
    eapply chain_frame; [|exact Hl2]. intros a e Ha He. by apply Hrest.
  - cbn in *. inversion Hl as [|? e0 ? He0 Hl1]; subst.
    apply NoDup_cons in Hnd as [Hx Hnd].
    destruct (Hrest x e0) as (e' & He' & Hn'); [by left|done|].
    econstructor; [exact He'|]. rewrite Hn'. apply IH; try done.
    intros a e Ha He. apply Hrest; [|done]. by right.
Qed.

Lemma unhook_scan_hit s node q R P :
  ∀ hd fuel,
    chain s hd (P ++ q :: node :: R) → (length P < fuel)%nat →
    unhook_scan fuel s hd node = Done (Some q).
Proof.
  induction P as [|a P IH]; intros hd fuel Hl Hfuel.
  - cbn in Hl. inversion Hl as [|? e ? He Hl1]; subst.
    destruct fuel as [|fuel]; [lia|]. cbn [unhook_scan].
    rewrite (deref_eq _ _ _ He). cbn.
    rewrite (chain_head _ _ _ Hl1). by rewrite bool_decide_eq_true_2.
  - pose proof (chain_NoDup _ _ _ Hl) as Hnd.
    cbn in Hl. inversion Hl as [|? e ? He Hl1]; subst.
    destruct fuel as [|fuel]; [cbn in Hfuel; lia|]. cbn [unhook_scan].
    rewrite (deref_eq _ _ _ He). cbn.
    rewrite bool_decide_eq_false_2.
    + apply IH; [done|cbn in Hfuel; lia].
    + rewrite (chain_head _ _ _ Hl1). intros Heq.
      cbn in Hnd. apply NoDup_cons in Hnd as [_ Hnd].
      destruct P as [|b P]; cbn in Heq; injection Heq as ->.
      * apply NoDup_cons in Hnd as [Hnd _]. apply Hnd. by left.
      * apply NoDup_cons in Hnd as [Hnd _]. apply Hnd.
        apply elem_of_app. right. right. by left.
Qed.

Lemma unhook_scan_miss s node l :
  ∀ hd fuel,
    chain s hd l → node ∉ l → (length l ≤ fuel)%nat →
    unhook_scan fuel s hd node = Done None.
Proof.
  induction l as [|a l IH]; intros hd fuel Hl Hnode Hfuel.
  - inversion Hl; subst. by destruct fuel.
  - inversion Hl as [|? e ? He Hl1]; subst.
    destruct fuel as [|fuel]; [cbn in Hfuel; lia|]. cbn [unhook_scan].
    rewrite (deref_eq _ _ _ He). cbn.
    rewrite bool_decide_eq_false_2.
    + apply IH; [done| |cbn in Hfuel; lia].
      intros Hin. apply Hnode. by right.
    + rewrite (chain_head _ _ _ Hl1). intros Heq. apply Hnode. right.
      destruct l as [|b l]; [done|]. injection Heq as ->. by left.
Qed.

(** [store_unhook] for a node that is in the child list of its parent. *)
Lemma unhook_spec s node n p pe l1 l2 :
  (∀ a e, heap s !! a = Some e → (a < brk s)%nat) →
  heap s !! node = Some n → n_parent n = Some p → heap s !! p = Some pe →
  chain s (n_childrens pe) (l1 ++ node :: l2) → p ∉ l1 ++ node :: l2 →
  ∃ x ex ex',
    heap s !! x = Some ex ∧ x ≠ node ∧ x ∉ l2 ∧
    store_unhook s node =
      Done (write node (set_next None n) (write x ex' s)) ∧
    ((l1 = [] ∧ x = p ∧ ex' = set_childrens (n_next n) ex) ∨
     (last l1 = Some x ∧ ex' = set_next (n_next n) ex)) ∧
    ∃ pe', heap (write node (set_next None n) (write x ex' s)) !! p
           = Some pe' ∧
           chain (write node (set_next None n) (write x ex' s))
             (n_childrens pe') (l1 ++ l2).
Proof.
  intros Hb Hn Hp Hpe Hl Hpl.
  pose proof (chain_NoDup _ _ _ Hl) as Hnd.
  pose proof (chain_length _ _ _ Hb Hl) as Hlen.
  assert (p ≠ node) as Hpn.
  { intros ->. apply Hpl. apply elem_of_app. right. by left. }
  destruct (chain_tail _ _ _ _ Hl) as (m & Hm & Hm0).
  inversion Hm as [|? e0 ? He0 Hl2]; subst.
  assert (e0 = n) as -> by congruence.
  unfold store_unhook. rewrite (deref_eq _ _ _ Hn). cbn. rewrite Hp. cbn.
  rewrite (deref_eq _ _ _ Hpe). cbn.
  destruct (last l1) as [q|] eqn:Hlast.
  - apply last_Some in Hlast as [P ->].
    rewrite <- app_assoc in Hl, Hnd, Hpl. cbn in Hl, Hnd, Hpl.
    assert (q ∈ P ++ q :: node :: l2) as Hq.
    { apply elem_of_app. right. by left. }
    destruct (chain_alloc _ _ _ _ Hl Hq) as [eq Heq].
    assert (q ≠ node) as Hqn.
    { intros ->. apply NoDup_app in Hnd as (_ & _ & Hnd).
      apply NoDup_cons in Hnd as [Hnd _]. apply Hnd. by left. }
    assert (q ≠ p) as Hqp by (by intros ->).
    assert (q ∉ l2) as Hql.
    { intros Hin. apply NoDup_app in Hnd as (_ & _ & Hnd).
      apply NoDup_cons in Hnd as [Hnd _]. apply Hnd. by right. }
    rewrite bool_decide_eq_false_2.
    2:{ rewrite (chain_head _ _ _ Hl). intros Heq'.
        destruct P as [|b P]; cbn in Heq'; injection Heq' as Heq'; [done|].
        subst b. cbn in Hnd. apply NoDup_cons in Hnd as [Hnd _].
        apply Hnd. apply elem_of_app. right. right. by left. }
    rewrite (unhook_scan_hit s node q l2 P (n_childrens pe) (brk s));
      [|done|rewrite !length_app in Hlen; cbn in Hlen; lia].
    cbn. rewrite (modify_eq _ _ _ _ Heq). cbn.
    rewrite (modify_eq _ _ _ n) by (by rewrite write_ne).
    exists q, eq, (set_next (n_next n) eq).
    split; [done|]. split; [done|]. split; [done|]. split; [done|].
    split; [by right|].
    exists pe. split; [by rewrite !lookup_insert_ne|].
    rewrite <- app_assoc. cbn [app].
    eapply (chain_unlink s _ _ P q node n (set_next (n_next n) eq));
      [exact Hl|done|done| |done|].
    + rewrite write_ne by done. apply write_eq.
    + intros a e Ha He. exists e. rewrite !write_ne; [done| |].
      * intros ->. apply NoDup_app in Hnd as (_ & Hnd1 & Hnd2).
        apply elem_of_app in Ha as [Ha|Ha].
        -- apply (Hnd1 a Ha). by left.
        -- apply NoDup_cons in Hnd2 as [Hnd2 _]. apply Hnd2. by right.
      * intros ->. apply NoDup_app in Hnd as (_ & Hnd1 & Hnd2).
        apply NoDup_cons in Hnd2 as [_ Hnd2].
        apply NoDup_cons in Hnd2 as [Hnd2 _].
        apply elem_of_app in Ha as [Ha|Ha]; [|done].
        apply (Hnd1 a Ha). right. by left.
  - apply last_None in Hlast as ->. cbn [app] in *.
    specialize (Hm0 eq_refl). rewrite <- Hm0.
    rewrite bool_decide_eq_true_2 by done.
    rewrite (modify_eq _ _ _ _ Hpe). cbn.
    rewrite (modify_eq _ _ _ n) by (by rewrite write_ne).
    exists p, pe, (set_childrens (n_next n) pe).
    apply NoDup_cons in Hnd as [Hnode Hnd].
    split; [done|]. split; [done|]. split.
    { intros Hin. apply Hpl. by right. }
    split; [done|]. split; [by left|].
    exists (set_childrens (n_next n) pe).
    split; [by rewrite lookup_insert_ne, lookup_insert_eq|].
    cbn [n_childrens set_childrens].
    eapply chain_frame; [|exact Hl2]. intros a e Ha He. exists e.
    rewrite !write_ne; [done| |].
    + intros ->. apply Hpl. by right.
    + by intros ->.
Qed.

Lemma anc_fields s s' a b :
  (∀ x e, heap s !! x = Some e →
          ∃ e', heap s' !! x = Some e' ∧ n_parent e' = n_parent e) →
  anc s a b → anc s' a b.
Proof.
  intros Hf. induction 1 as [a|a e p b He Hp _ IH]; [constructor|].
  destruct (Hf a e He) as (e' & He' & Hp'). econstructor; [exact He'| |exact IH].
  by rewrite Hp'.
Qed.

Lemma mask_dead m :
  NODEP_dead (set_mask (Z.lor m MASK_DEAD) zero_elem) = true.
Proof.
  unfold NODEP_dead. cbn [n_mask set_mask].
  apply negb_true_iff, Z.eqb_neq. intros H.
  apply (f_equal (λ z, Z.testbit z 2)) in H.
  rewrite Z.land_spec, Z.lor_spec in H. cbn in H.
  by rewrite orb_true_r in H.
Qed.

Lemma mask_undeleted m :
  Z.land (Z.lor (Z.land m (u32 (Z.lnot MASK_DELETE_LIST))) MASK_DEAD)
    MASK_DELETE_LIST = 0.
Proof.
  apply Z.bits_inj'. intros t Ht.
  rewrite Z.land_spec, Z.lor_spec, Z.land_spec, Z.bits_0.
  destruct (decide (t = 1)) as [->|Hne].
  - cbn. by rewrite andb_false_r.
  - replace (Z.testbit MASK_DELETE_LIST t) with false;
      [by rewrite andb_false_r|].
    unfold MASK_DELETE_LIST. destruct (decide (t = 0)) as [->|H0]; [done|].
    symmetry. apply (Z.bits_above_log2 2 t); [lia|]. cbn. lia.
Qed.

Section Unhooked.
Variables (s s' : store_t) (node : addr) (n : store_elem).
Hypothesis Hinv : store_inv s.
Hypothesis Hn : heap s !! node = Some n.
Hypothesis Hleaf : n_childrens n = None.
Hypothesis Hplaced : n_parent n ≠ None.
Hypothesis Hun : unhooked s s' node.

Lemma unhooked_back a e' :
  heap s' !! a = Some e' → ∃ e, heap s !! a = Some e.
Proof.
  intros Ha. destruct (proj1 (unh_dom _ _ _ Hun a)) as [e He]; eauto.
Qed.

Lemma unhooked_forth a e :
  heap s !! a = Some e → ∃ e', heap s' !! a = Some e'.
Proof.
  intros Ha. destruct (proj2 (unh_dom _ _ _ Hun a)) as [e' He']; eauto.
Qed.

Lemma unhooked_dead a e e' :
  a ≠ node → heap s !! a = Some e → heap s' !! a = Some e' →
  NODEP_dead e' = NODEP_dead e ∧ NODEP_dlist e' = NODEP_dlist e.
Proof.
  intros Hne He He'.
  destruct (unh_fields _ _ _ Hun a e e' He He')
    as (_ & _ & _ & _ & _ & _ & _ & Hm).
  destruct (Hm Hne) as [Hmask _].
  unfold NODEP_dead, NODEP_dlist. by rewrite Hmask.
Qed.

Lemma unhooked_alive a e' :
  heap s' !! a = Some e' → NODEP_dead e' = false → a ≠ node.
Proof.
  intros He' Hd ->. destruct (unh_node _ _ _ Hun) as (n' & Hn' & Hdead & _).
  congruence.
Qed.

Lemma unhooked_anc a b : anc s' a b ↔ anc s a b.
Proof.
  split; apply anc_fields.
  - intros x e' He'. destruct (unhooked_back _ _ He') as [e He].
    exists e. split; [done|].
    by destruct (unh_fields _ _ _ Hun x e e' He He') as (-> & _).
  - intros x e He. destruct (unhooked_forth _ _ He) as [e' He'].
    exists e'. split; [done|].
    by destruct (unh_fields _ _ _ Hun x e e' He He') as (-> & _).
Qed.

(** A node that is alive in [s'], seen in [s]. *)
Lemma unhooked_same a e' :
  heap s' !! a = Some e' → NODEP_dead e' = false →
  ∃ e, heap s !! a = Some e ∧ a ≠ node ∧ NODEP_dead e = false ∧
       NODEP_dlist e = NODEP_dlist e' ∧
       n_parent e = n_parent e' ∧ n_id e = n_id e' ∧ n_level e = n_level e' ∧
       n_key e = n_key e' ∧ n_key_ref e = n_key_ref e'.
Proof.
  intros He' Hd. destruct (unhooked_back _ _ He') as [e He].
  pose proof (unhooked_alive _ _ He' Hd) as Hne.
  destruct (unhooked_dead a e e' Hne He He') as [Hd1 Hd2].
  destruct (unh_fields _ _ _ Hun a e e' He He')
    as (Hp & Hi & Hl & Hk & Hkr & _).
  exists e. split_and!; try done. congruence.
Qed.

Lemma unhooked_inv : store_inv s'.
Proof.
  pose proof Hun as [Hbits Hsize Hdata Hbrk _ Hdom Hf Hnode Hlists].
  pose proof Hinv as [I1 I2 I3 I4 I5 I6 I7 I8 I9].
  split.
  - by rewrite Hbits.
  - by rewrite Hsize.
  - by rewrite Hbits, Hsize.
  - intros a e' He'. destruct (unhooked_back _ _ He') as [e He].
    rewrite Hbrk. by eapply I4.
  - destruct I5 as (r & er & Hr & Her & H1 & H2 & H3 & H4 & H5 & H6).
    destruct (unhooked_forth _ _ Her) as [er' Her'].
    assert (r ≠ node) as Hrn by (intros ->; congruence).
    destruct (Hf r er er' Her Her') as (Hp & _ & Hl & _ & Hk & _ & _ & Hm).
    destruct (unhooked_dead r er er' Hrn Her Her') as [Hd1 Hd2].
    destruct (Hm Hrn) as [_ [Hnx|Hnx]]; [|congruence].
    exists r, er'. rewrite Hdata, Hp, Hl, Hk, Hd1, Hd2, Hnx.
    by split_and!.
  - intros p ep' Hep'. destruct (unhooked_back _ _ Hep') as [ep Hep].
    destruct (Hlists p ep ep' Hep Hep') as (l & Hl & Hl').
    destruct (I6 p ep Hep) as (l0 & Hl0 & Hmem).
    pose proof (chain_det _ _ _ _ Hl Hl0) as ->.
    eexists. split; [exact Hl'|]. intros c.
    rewrite list_elem_of_filter, Hmem. split.
    + intros (Hcn & ec & Hec & Hcp & Hcd).
      destruct (unhooked_forth _ _ Hec) as [ec' Hec'].
      destruct (unhooked_dead c ec ec' Hcn Hec Hec') as [Hd1 _].
      destruct (Hf c ec ec' Hec Hec') as (Hp & _).
      exists ec'. split_and!; congruence.
    + intros (ec' & Hec' & Hcp & Hcd).
      destruct (unhooked_same _ _ Hec' Hcd)
        as (ec & Hec & Hcn & Hd & _ & Hp & _).
      split; [done|]. exists ec. split_and!; congruence.
  - intros a e' p He' Hp Hd.
    destruct (unhooked_same _ _ He' Hd)
      as (e & He & Han & Hde & _ & Hpe & _ & Hle & _).
    rewrite Hp in Hpe.
    destruct (I7 a e p He Hpe Hde)
      as (ep & Hep & Hd1 & Hd2 & Hlv & Hl0 & Hl1 & Hrt).
    destruct (unhooked_forth _ _ Hep) as [ep' Hep'].
    assert (p ≠ node) as Hpn.
    { intros ->. assert (ep = n) as -> by congruence.
      pose proof (childless_no_child _ _ _ _ _ Hinv Hn Hleaf He Hpe).
      congruence. }
    destruct (unhooked_dead p ep ep' Hpn Hep Hep') as [Hd1' Hd2'].
    destruct (Hf p ep ep' Hep Hep') as (Hpp & _ & Hpl & _).
    exists ep'. rewrite Hd1', Hd2', <- Hle, Hpl, Hbits, Hsize, Hdata, Hpp.
    by split_and!.
  - intros a b ea' eb' Ha' Hb' Hpa Hpab Hid Hda Hdb Hfa Hfb.
    destruct (unhooked_same _ _ Ha' Hda)
      as (ea & Hea & _ & Hda0 & Hfa0 & Hpa0 & Hia0 & _).
    destruct (unhooked_same _ _ Hb' Hdb)
      as (eb & Heb & _ & Hdb0 & Hfb0 & Hpb0 & Hib0 & _).
    eapply (I8 a b ea eb); congruence.
  - intros a e' He' Hp Hd.
    destruct (unhooked_same _ _ He' Hd)
      as (e & He & Han & Hde & _ & Hpe & _ & _ & _ & Hkr).
    destruct (I9 a e He) as (o & eo & Ho & Heo & Hanc & Hkey);
      [congruence|done|].
    destruct (unhooked_forth _ _ Heo) as [eo' Heo'].
    exists o, eo'. split; [congruence|]. split; [done|].
    split; [by apply unhooked_anc|].
    intros k Hk.
    destruct (Hf o eo eo' Heo Heo') as (_ & _ & _ & Hko & _).
    destruct (Hkey k) as (Hlen & Hbytes & Hpath); [congruence|].
    rewrite Hsize, Hbits. split; [done|]. split; [done|].
    intros b eb' Hab Heb' Hpb.
    destruct (unhooked_back _ _ Heb') as [eb Heb].
    destruct (Hf b eb eb' Heb Heb') as (Hp1 & Hi1 & Hl1 & _).
    rewrite Hi1, Hl1. apply (Hpath b eb); [by apply unhooked_anc|done|congruence].
Qed.

End Unhooked.

Lemma chain_None s l : chain s None l → l = [].
Proof. by inversion 1. Qed.

Lemma chain_Some s a l : chain s (Some a) l → l ≠ [].
Proof. by inversion 1. Qed.

Section Leaves.
Variables (s s' : store_t) (node p : addr) (n : store_elem).
Hypothesis Hinv : store_inv s.
Hypothesis Hn : heap s !! node = Some n.
Hypothesis Hleaf : n_childrens n = None.
Hypothesis Hparent : n_parent n = Some p.
Hypothesis Hflag : NODEP_dlist n = true.
Hypothesis Hkeeps :
  ctx_data s = Some p ∨
  ∃ c ec, c ≠ node ∧ heap s !! c = Some ec ∧ n_parent ec = Some p ∧
          NODEP_dead ec = false.
Hypothesis Hun : unhooked s s' node.

Lemma unhooked_childless a e e' :
  heap s !! a = Some e → heap s' !! a = Some e' → n_parent e ≠ None →
  n_childrens e' = None ↔ n_childrens e = None.
Proof.
  intros He He' Hp.
  destruct (unh_lists _ _ _ Hun a e e' He He') as (l & Hl & Hl').
  destruct (inv_children _ Hinv a e He) as (l0 & Hl0 & Hmem).
  pose proof (chain_det _ _ _ _ Hl Hl0) as ->. split.
  - intros Hnone. rewrite Hnone in Hl'. apply chain_None in Hl'.
    destruct (n_childrens e) as [c|] eqn:Hc; [|done]. exfalso.
    inversion Hl as [|? ec l1 Hec Hrest]; subst.
    assert (c = node) as ->.
    { destruct (decide (c = node)) as [|Hne]; [done|].
      rewrite filter_cons_True in Hl' by done. done. }
    assert (n_parent n = Some a) as Hpa.
    { destruct (proj1 (Hmem node)) as (en & Hen & Hpn & _); [by left|].
      congruence. }
    assert (a = p) as -> by congruence.
    destruct Hkeeps as [Hroot|(c & ec' & Hcn & Hec' & Hcp & Hcd)].
    + destruct (inv_root _ Hinv) as (r & er & Hr & Her & Hrp & _).
      assert (r = p) as -> by congruence. congruence.
    + assert (c ∈ node :: l1) as Hin by (apply Hmem; eauto).
      assert (c ∈ filter (λ c, c ≠ node) (node :: l1)) as Hin'.
      { by apply list_elem_of_filter. }
      rewrite Hl' in Hin'. by apply elem_of_nil in Hin'.
  - intros Hnone. rewrite Hnone in Hl. apply chain_None in Hl as ->.
    destruct (n_childrens e') as [c|] eqn:Hc; [|done].
    by apply chain_Some in Hl'.
Qed.

Lemma unhooked_leaves a k : live_leaf_at s' a k ↔ live_leaf_at s a k.
Proof.
  assert (n_parent n ≠ None) as Hplaced by congruence.
  split.
  - intros (e' & o & eo' & He' & Hp & Hd & Hf & Hc & Hkr & Heo' & Hk).
    destruct (unhooked_same s s' node Hun a e' He' Hd)
      as (e & He & Han & Hde & Hfl & Hpe & _ & _ & _ & Hkre).
    destruct (unhooked_back s s' node Hun o eo' Heo') as [eo Heo].
    destruct (unh_fields _ _ _ Hun o eo eo' Heo Heo')
      as (_ & _ & _ & Hko & _).
    exists e, o, eo. split_and!; try congruence.
    apply (unhooked_childless a e e'); [done|done|congruence|done].
  - intros (e & o & eo & He & Hp & Hd & Hf & Hc & Hkr & Heo & Hk).
    assert (a ≠ node) as Han by (intros ->; congruence).
    destruct (unhooked_forth s s' node Hun a e He) as [e' He'].
    destruct (unhooked_forth s s' node Hun o eo Heo) as [eo' Heo'].
    destruct (unhooked_dead s s' node Hun a e e' Han He He') as [Hd1 Hd2].
    destruct (unh_fields _ _ _ Hun a e e' He He')
      as (Hpe & _ & _ & _ & Hkre & _).
    destruct (unh_fields _ _ _ Hun o eo eo' Heo Heo')
      as (_ & _ & _ & Hko & _).
    exists e', o, eo'. split_and!; try congruence.
    by apply (unhooked_childless a e e').
Qed.

End Leaves.

Lemma filter_all {A} (P : A → Prop) `{∀ x, Decision (P x)} (l : list A) :
  Forall P l → filter P l = l.
Proof.
  induction 1 as [|x l Hx _ IH]; [done|].
  by rewrite filter_cons_True, IH.
Qed.

Lemma filter_out_middle (node : addr) (l1 l2 : list addr) :
  NoDup (l1 ++ node :: l2) →
  filter (λ c, c ≠ node) (l1 ++ node :: l2) = l1 ++ l2.
Proof.
  intros Hnd. apply NoDup_app in Hnd as (_ & H1 & H2).
  apply NoDup_cons in H2 as [H2 _].
  rewrite filter_app, filter_cons_False by (intros H; by apply H).
  f_equal; apply filter_all, Forall_forall.
  - intros x Hx ->. apply (H1 node Hx). by left.
  - by intros x Hx ->.
Qed.

Lemma not_own_child s a e :
  store_inv s → heap s !! a = Some e → NODEP_dead e = false →
  n_parent e ≠ Some a.
Proof.
  intros Hinv He Hd Hp.
  destruct (inv_parent _ Hinv a e a He Hp Hd)
    as (ep & Hep & _ & _ & Hlv & H0 & H1 & _).
  assert (ep = e) as -> by congruence.
  pose proof (inv_bits _ Hinv). pose proof (inv_size _ Hinv).
  rewrite u32_small in Hlv; [lia|]. nia.
Qed.

Section Prune.
Variables (s : store_t) (root node p : addr) (er n : store_elem).
Hypothesis Hinv : store_inv s.
Hypothesis Hroot : ctx_data s = Some root.
Hypothesis Her : heap s !! root = Some er.
Hypothesis Hdl : n_dlist er = Some node.
Hypothesis Hn : heap s !! node = Some n.
Hypothesis Hnd : n_dlist n = None.
Hypothesis Hflag : NODEP_dlist n = true.
Hypothesis Holist : NODEP_olist n = true.
Hypothesis Hdead : NODEP_dead n = false.
Hypothesis Hparent : n_parent n = Some p.
Hypothesis Hleaf : n_childrens n = None.
Hypothesis Hkeeps :
  ctx_data s = Some p ∨
  ∃ c ec, c ≠ node ∧ heap s !! c = Some ec ∧ n_parent ec = Some p ∧
          NODEP_dead ec = false.

Lemma prune_leaf_run :
  ∃ s', store_prune s = Done s' ∧ unhooked s s' node ∧
        oracle s' = oracle s ∧ now s' = now s ∧
        ctx_expired s' = ctx_expired s ∧
        ∃ er', heap s' !! root = Some er' ∧ n_dlist er' = None.
Proof.
  destruct (inv_root _ Hinv) as (r & er0 & Hr & Her0 & Hrp & _ & _ & _ & _ & Hrn).
  assert (r = root) as -> by congruence.
  assert (er0 = er) as -> by congruence.
  assert (node ≠ root) as Hnr by (intros ->; congruence).
  destruct (inv_parent _ Hinv node n p Hn Hparent Hdead)
    as (ep & Hep & Hpd & Hpf & _).
  assert (p ≠ node) as Hpn.
  { intros Heq. apply (not_own_child s node n Hinv Hn Hdead).
    by rewrite <- Heq. }
  destruct (inv_children _ Hinv p ep Hep) as (l & Hl & Hmem).
  assert (node ∈ l) as Hin by (apply Hmem; eauto).
  apply list_elem_of_split in Hin as (l1 & l2 & ->).
  pose proof (chain_NoDup _ _ _ Hl) as Hnodup.
  assert (p ∉ l1 ++ node :: l2) as Hpl.
  { intros Hin. apply Hmem in Hin as (ec & Hec & Hcp & Hcd).
    by apply (not_own_child s p ec Hinv Hec Hcd). }
  set (s0 := write root (set_dlist None er) s).
  assert (∀ a, heap s0 !! a = if decide (a = root) then Some (set_dlist None er)
                              else heap s !! a) as Hh0.
  { intros a. unfold s0. destruct (decide (a = root)) as [->|Hne].
    - apply write_eq.
    - by rewrite write_ne. }
  assert (∀ a e, heap s !! a = Some e →
            ∃ e0, heap s0 !! a = Some e0 ∧ n_next e0 = n_next e ∧
                  n_childrens e0 = n_childrens e ∧ n_parent e0 = n_parent e ∧
                  n_mask e0 = n_mask e ∧ n_id e0 = n_id e ∧
                  n_level e0 = n_level e ∧ n_key e0 = n_key e ∧
                  n_key_ref e0 = n_key_ref e ∧ n_data e0 = n_data e ∧
                  n_cb e0 = n_cb e) as Hf0.
  { intros a e He. rewrite Hh0. destruct (decide (a = root)) as [->|Hne].
    - assert (e = er) as -> by congruence. eexists. by split_and!.
    - exists e. by split_and!. }
  destruct (Hf0 p ep Hep) as (ep0 & Hep0 & _ & Hpc0 & _).
  assert (heap s0 !! node = Some n) as Hn0.
  { rewrite Hh0. by rewrite decide_False. }
  assert (chain s0 (n_childrens ep0) (l1 ++ node :: l2)) as Hl0.
  { rewrite Hpc0. eapply chain_frame; [|exact Hl]. intros a e Ha He.
    destruct (Hf0 a e He) as (e0 & He0 & Hnx & _). eauto. }
  destruct (unhook_spec s0 node n p ep0 l1 l2)
    as (x & ex & ex' & Hex & Hxn & Hxl2 & Hunhook & Hcase & pe1 & Hpe1 & Hl1);
    try done.
  { intros a e. rewrite Hh0. destruct (decide (a = root)) as [->|Hne].
    - intros _. by eapply (inv_brk _ Hinv).
    - apply (inv_brk _ Hinv). }
  set (s1 := write node (set_next None n) (write x ex' s0)) in *.
  set (n1 := set_next None n).
  set (m1 := Z.land (n_mask n1) (u32 (Z.lnot MASK_DELETE_LIST))).
  set (n2 := set_mask m1 n1).
  set (s2 := write node n2 s1).
  set (n3 := set_mask (Z.lor (n_mask n2) MASK_DEAD) n2).
  set (s3 := write node n3 s2).
  assert (heap s1 !! node = Some n1) as Hn1 by apply write_eq.
  assert (n_childrens pe1 ≠ None ∨ n_parent pe1 = None) as Hstay.
  { assert (n_parent pe1 = n_parent ep0) as Hpp.
    { unfold s1 in Hpe1. rewrite write_ne in Hpe1 by done.
      destruct Hcase as [(-> & -> & ->)|[Hlast ->]].
      - rewrite write_eq in Hpe1. injection Hpe1 as <-.
        by assert (ex = ep0) as -> by congruence.
      - destruct (decide (x = p)) as [->|Hxp].
        + rewrite write_eq in Hpe1. injection Hpe1 as <-.
          by assert (ex = ep0) as -> by congruence.
        + rewrite write_ne in Hpe1 by done. congruence. }
    destruct Hkeeps as [Hrootp|(c & ec & Hcn & Hec & Hcp & Hcd)].
    - right. assert (p = root) as -> by congruence. rewrite Hpp.
      rewrite Hh0, decide_True in Hep0 by done. by injection Hep0 as <-.
    - left. assert (c ∈ l1 ++ node :: l2) as Hc by (apply Hmem; eauto).
      assert (c ∈ l1 ++ l2) as Hc'.
      { rewrite elem_of_app, elem_of_cons in Hc. rewrite elem_of_app.
        tauto. }
      intros Hnone. rewrite Hnone in Hl1. apply chain_None in Hl1.
      rewrite Hl1 in Hc'. by apply elem_of_nil in Hc'. }
  exists s3. split.
  { unfold store_prune. rewrite Hroot. cbn. rewrite (deref_eq _ _ _ Her).
    cbn. rewrite (modify_eq _ _ _ _ Her). cbn. fold s0. rewrite Hdl.
    destruct (brk s) as [|fuel] eqn:Hbrk.
    { pose proof (inv_brk _ Hinv _ _ Hn). lia. }
    cbn [prune_loop]. rewrite (deref_eq _ _ _ Hn0). cbn. rewrite Hunhook.
    cbn. fold s1. rewrite (deref_eq _ _ _ Hn1). cbn. rewrite Hparent. cbn.
    rewrite (deref_eq _ _ _ Hpe1). cbn.
    assert (bool_decide (n_childrens pe1 = None) &&
            bool_decide (n_parent pe1 ≠ None) = false) as ->.
    { destruct Hstay as [Hc|Hp].
      - by rewrite bool_decide_eq_false_2.
      - rewrite (bool_decide_eq_false_2 (n_parent pe1 ≠ None))
          by (by intros H). apply andb_false_r. }
    cbn. rewrite (deref_eq _ _ _ Hn1). cbn.
    assert (NODEP_olist n1 = true) as -> by done. cbn.
    rewrite (modify_eq _ _ _ _ Hn1). cbn.
    change (write node
              (set_mask (Z.land (n_mask n) (u32 (Z.lnot MASK_DELETE_LIST)))
                 n1) s1) with s2.
    rewrite (deref_eq s2 node n2) by apply write_eq. cbn.
    rewrite (modify_eq _ _ _ n2) by apply write_eq. cbn.
    rewrite Hnd. by destruct fuel. }
  assert (∀ a, heap s3 !! a =
               if decide (a = node) then Some n3
               else if decide (a = x) then Some ex'
               else heap s0 !! a) as Hh3.
  { intros a. unfold s3, s2, s1.
    destruct (decide (a = node)) as [->|Hne]; [apply write_eq|].
    rewrite !write_ne by done.
    destruct (decide (a = x)) as [->|Hne']; [apply write_eq|].
    by rewrite write_ne. }
  assert (∀ a e, a ≠ node → heap s !! a = Some e →
            ∃ e3, heap s3 !! a = Some e3 ∧
              n_parent e3 = n_parent e ∧ n_mask e3 = n_mask e ∧
              n_id e3 = n_id e ∧ n_level e3 = n_level e ∧
              n_key e3 = n_key e ∧ n_key_ref e3 = n_key_ref e ∧
              n_data e3 = n_data e ∧ n_cb e3 = n_cb e ∧
              (a ≠ x → n_next e3 = n_next e ∧
                       n_childrens e3 = n_childrens e) ∧
              (a = x → (l1 = [] ∧ x = p ∧ n_next e3 = n_next e ∧
                        n_childrens e3 = n_next n) ∨
                       (last l1 = Some x ∧ n_next e3 = n_next n ∧
                        n_childrens e3 = n_childrens e))) as Hf3.
  { intros a e Han He. rewrite Hh3, decide_False by done.
    destruct (Hf0 a e He)
      as (e0 & He0 & Hx1 & Hx2 & Hx3 & Hx4 & Hx5 & Hx6 & Hx7 & Hx8 & Hx9
          & Hx10).
    destruct (decide (a = x)) as [->|Hax].
    - assert (e0 = ex) as -> by congruence. exists ex'.
      destruct Hcase as [(-> & -> & ->)|[Hlast ->]]; cbn.
      + split_and!; try done. intros _. left. by split_and!.
      + split_and!; try done. intros _. right. by split_and!.
    - exists e0. by split_and!. }
  split; [|split_and!; try done].
  2:{ destruct (Hf3 root er) as (er3 & Her3 & _); [done|done|].
      exists er3. split; [done|]. rewrite Hh3 in Her3.
      rewrite decide_False in Her3 by done.
      destruct (decide (root = x)) as [<-|Hrx].
      - injection Her3 as <-. rewrite Hh0, decide_True in Hex by done.
        injection Hex as <-.
        destruct Hcase as [(_ & _ & ->)|[_ ->]]; done.
      - rewrite Hh0, decide_True in Her3 by done. by injection Her3 as <-. }
  assert (∀ q eq, last l1 = Some q → heap s !! q = Some eq →
                  n_next eq = Some node) as Hprev.
  { intros q eq Hlast Heq. apply last_Some in Hlast as [P ->].
    rewrite <- app_assoc in Hl. cbn in Hl.
    destruct (chain_tail _ _ _ _ Hl) as (m & Hm & _).
    inversion Hm as [|? e0 ? He0 Hrest]; subst.
    assert (e0 = eq) as -> by congruence.
    by rewrite (chain_head _ _ _ Hrest). }
  split; try done.
  - intros a. rewrite Hh3.
    destruct (decide (a = node)) as [->|Han]; [by rewrite Hn|].
    destruct (decide (a = x)) as [->|Hax].
    + split; [|done]. intros _. rewrite Hh0 in Hex.
      destruct (decide (x = root)) as [->|]; [by rewrite Her|by rewrite Hex].
    + rewrite Hh0. destruct (decide (a = root)) as [->|]; [|done].
      by rewrite Her.
  - intros a e e' He He'. destruct (decide (a = node)) as [->|Han].
    + assert (e = n) as -> by congruence.
      rewrite Hh3, decide_True in He' by done. injection He' as <-.
      by split_and!.
    + destruct (Hf3 a e Han He)
        as (e3 & He3 & H1 & H2 & H3 & H4 & H5 & H6 & H7 & H8 & H9 & H10).
      assert (e3 = e') as -> by congruence.
      split_and!; try done. intros _. split; [done|].
      destruct (decide (a = x)) as [->|Hax].
      * destruct (H10 eq_refl) as [(_ & _ & Hnx & _)|(Hlast & Hnx & _)].
        -- by left.
        -- right. by eapply Hprev.
      * left. by apply H9.
  - exists n3. split; [by rewrite Hh3, decide_True|].
    split_and!; try done.
    + apply (mask_dead (n_mask n2)).
    + unfold NODEP_dlist, n3. cbn [n_mask set_mask]. unfold n2, m1.
      cbn [n_mask set_mask]. by rewrite mask_undeleted.
  - intros q eq eq' Heq Heq'.
    destruct (inv_children _ Hinv q eq Heq) as (lq & Hlq & Hmemq).
    exists lq. split; [done|].
    assert (∀ a e, a ∈ lq → a ≠ node → last l1 ≠ Some a →
              heap s !! a = Some e →
              ∃ e', heap s3 !! a = Some e' ∧ n_next e' = n_next e) as Hkeep.
    { intros a e Ha Han Hlast He.
      destruct (Hf3 a e Han He)
        as (e3 & He3 & H1 & H2 & H3 & H4 & H5 & H6 & H7 & H8 & H9 & H10).
      exists e3. split; [done|]. destruct (decide (a = x)) as [->|Hax].
      - destruct (H10 eq_refl) as [(_ & _ & Hnx & _)|(Hl' & _)]; done.
      - by apply H9. }
    destruct (decide (q = p)) as [->|Hqp].
    + assert (eq = ep) as -> by congruence.
      pose proof (chain_det _ _ _ _ Hlq Hl) as ->.
      rewrite filter_out_middle by done.
      assert (eq' = pe1) as ->.
      { unfold s1 in Hpe1. rewrite Hh3, decide_False in Heq' by done.
        rewrite write_ne in Hpe1 by done.
        destruct (decide (p = x)) as [<-|Hpx].
        - rewrite write_eq in Hpe1. congruence.
        - rewrite write_ne in Hpe1 by done. congruence. }
      eapply chain_frame; [|exact Hl1]. intros a e Ha He. exists e.
      split; [|done]. rewrite <- He. unfold s3, s2.
      assert (a ≠ node) as Han.
      { intros ->. apply NoDup_app in Hnodup as (_ & H1 & H2).
        apply NoDup_cons in H2 as [H2 _].
        apply elem_of_app in Ha as [Ha|Ha]; [|done].
        apply (H1 node Ha). by left. }
      by rewrite !write_ne.
    + assert (node ∉ lq) as Hnq.
      { intros Hin. apply Hmemq in Hin as (en & Hen & Hpq & _). congruence. }
      rewrite filter_all.
      2:{ apply Forall_forall. by intros a Ha ->. }
      assert (n_childrens eq' = n_childrens eq) as ->.
      { destruct (decide (q = node)) as [->|Hqn].
        - assert (eq = n) as -> by congruence.
          rewrite Hh3, decide_True in Heq' by done. by injection Heq' as <-.
        - destruct (Hf3 q eq Hqn Heq)
            as (e3 & He3 & H1 & H2 & H3 & H4 & H5 & H6 & H7 & H8 & H9 & H10).
          assert (e3 = eq') as -> by congruence.
          destruct (decide (q = x)) as [->|Hqx]; [|by apply H9].
          destruct (H10 eq_refl) as [(_ & -> & _)|(_ & _ & Hc)]; done. }
      eapply chain_frame; [|exact Hlq]. intros a e Ha He.
      apply Hkeep; try done.
      * by intros ->.
      * intros Hlast. apply last_Some in Hlast as [P ->].
        assert (a ∈ (P ++ [a]) ++ node :: l2) as Hin.
        { apply elem_of_app. left. apply elem_of_app. right. by left. }
        apply Hmem in Hin as (ea & Hea & Hpa & _).
        apply Hmemq in Ha as (ea' & Hea' & Hpa' & _). congruence.
Qed.

End Prune.

(** *** Properties of the pruning *)

(** [store_unhook] of a node that is alive, in a well-formed store: the
    call returns; the child list of the parent is the list it was, in the
    same order, without the node; the next link of the node is cleared; and
    of the other nodes only the one link that skipped the node has
    changed. *)
Theorem unhook_removes (s : store_t) (node p : addr) (n : store_elem) :
  store_inv s → heap s !! node = Some n → n_parent n = Some p →
  NODEP_dead n = false →
  ∃ ep l1 l2 s' ep',
    heap s !! p = Some ep ∧ chain s (n_childrens ep) (l1 ++ node :: l2) ∧
    store_unhook s node = Done s' ∧
    heap s' !! p = Some ep' ∧ chain s' (n_childrens ep') (l1 ++ l2) ∧
    heap s' !! node = Some (set_next None n) ∧
    ∀ a e, a ≠ node → heap s !! a = Some e →
      ∃ e', heap s' !! a = Some e' ∧
        (e' = e ∨
         (a = p ∧ l1 = [] ∧ e' = set_childrens (n_next n) e) ∨
         (last l1 = Some a ∧ e' = set_next (n_next n) e)).
Proof.
  intros Hinv Hn Hparent Hdead.
  destruct (inv_parent _ Hinv node n p Hn Hparent Hdead)
    as (ep & Hep & Hpd & Hpf & _).
  destruct (inv_children _ Hinv p ep Hep) as (l & Hl & Hmem).
  assert (node ∈ l) as Hin by (apply Hmem; eauto).
  apply list_elem_of_split in Hin as (l1 & l2 & ->).
  assert (p ∉ l1 ++ node :: l2) as Hpl.
  { intros Hin. apply Hmem in Hin as (ec & Hec & Hcp & Hcd).
    by apply (not_own_child s p ec Hinv Hec Hcd). }
  destruct (unhook_spec s node n p ep l1 l2 (inv_brk _ Hinv) Hn Hparent Hep
              Hl Hpl)
    as (x & ex & ex' & Hex & Hxn & Hxl2 & Hunhook & Hcase & pe1 & Hpe1 & Hl1).
  exists ep, l1, l2, (write node (set_next None n) (write x ex' s)), pe1.
  split_and!; try done.
  - apply write_eq.
  - intros a e Han He. rewrite write_ne by done.
    destruct (decide (a = x)) as [->|Hax].
    + rewrite write_eq. exists ex'. split; [done|].
      assert (e = ex) as -> by congruence.
      destruct Hcase as [(-> & -> & ->)|[Hlast ->]]; [right; by left|].
      right. by right.
    + rewrite write_ne by done. exists e. split; [done|by left].
Qed.

Lemma reachable_two : reachable store_two.
Proof.
  eapply (reach_add store_one key_b 2 (Some 8) true);
    [apply reachable_one|apply bytes_key_b|].
  vm_compute. reflexivity.
Qed.

Lemma reachable_two_deleted : reachable store_two_deleted.
Proof.
  eapply (reach_delete store_two (Some key_b) true); [apply reachable_two|].
  vm_compute. reflexivity.
Qed.

Lemma unhook_removes_witness :
  ∃ ep l1 l2 s' ep',
    heap store_two_deleted !! 5%nat = Some ep ∧
    chain store_two_deleted (n_childrens ep) (l1 ++ 2%nat :: l2) ∧
    store_unhook store_two_deleted 2 = Done s' ∧
    heap s' !! 5%nat = Some ep' ∧ chain s' (n_childrens ep') (l1 ++ l2) ∧
    heap s' !! 2%nat =
      Some (set_next None
              (mk_elem (Some 5%nat) (Some 6%nat) None (Some 1%nat) None 5 4 3
                 2 (Some key_b) (Some 2%nat) 100 (Some 8))) ∧
    ∀ a e, a ≠ 2%nat → heap store_two_deleted !! a = Some e →
      ∃ e', heap s' !! a = Some e' ∧
        (e' = e ∨
         (a = 5%nat ∧ l1 = [] ∧ e' = set_childrens (Some 6%nat) e) ∨
         (last l1 = Some a ∧ e' = set_next (Some 6%nat) e)).
Proof.
  apply (unhook_removes store_two_deleted 2%nat 5%nat
           (mk_elem (Some 5%nat) (Some 6%nat) None (Some 1%nat) None 5 4 3
              2 (Some key_b) (Some 2%nat) 100 (Some 8))).
  - apply reachable_inv, reachable_two_deleted.
  - vm_compute. reflexivity.
  - reflexivity.
  - reflexivity.
Defined.

(** [store_prune] when the delete list holds one node, a leaf that is
    still on the expiry list and whose parent is the root or keeps another
    child: the call returns; the leaf is out of the tree, marked dead
    and no more on the delete list; nothing is freed and no callback is
    called (that is left to the expiry thread); the store is well formed,
    its live leaves are those of before, and [store_find] gives for every
    key the answer it gave before. *)
Theorem prune_deleted_leaf (s : store_t) (root node p : addr)
    (er n : store_elem) :
  reachable s → ctx_data s = Some root → heap s !! root = Some er →
  n_dlist er = Some node → heap s !! node = Some n → n_dlist n = None →
  NODEP_dlist n = true → NODEP_olist n = true → NODEP_dead n = false →
  n_parent n = Some p → n_childrens n = None →
  (ctx_data s = Some p ∨
   ∃ c ec, c ≠ node ∧ heap s !! c = Some ec ∧ n_parent ec = Some p ∧
           NODEP_dead ec = false) →
  ∃ s', store_prune s = Done s' ∧ store_inv s' ∧
    (∀ a k, live_leaf_at s' a k ↔ live_leaf_at s a k) ∧
    calls s' = calls s ∧
    (∀ a, is_Some (heap s' !! a) ↔ is_Some (heap s !! a)) ∧
    (∃ n', heap s' !! node = Some n' ∧ NODEP_dead n' = true ∧
           NODEP_dlist n' = false ∧ n_next n' = None) ∧
    (∃ er', heap s' !! root = Some er' ∧ n_dlist er' = None) ∧
    ∀ key cb user, valid_key s key →
      ∃ r s1 s1', store_find s (Some key) cb user = Done (r, s1) ∧
                  store_find s' (Some key) cb user = Done (r, s1').
Proof.
  intros Hreach Hroot Her Hdl Hn Hnd Hflag Holist Hdead Hparent Hleaf Hkeeps.
  pose proof (reachable_inv _ Hreach) as Hinv.
  destruct (prune_leaf_run s root node p er n)
    as (s' & Hrun & Hun & _ & _ & _ & Hroot'); try done.
  assert (n_parent n ≠ None) as Hplaced by congruence.
  assert (store_inv s') as Hinv'
    by (eapply (unhooked_inv s s' node n); eassumption).
  assert (∀ a k, live_leaf_at s' a k ↔ live_leaf_at s a k) as Hleaves
    by (eapply (unhooked_leaves s s' node p n); eassumption).
  exists s'. split_and!; try done.
  - by destruct Hun.
  - by destruct Hun.
  - destruct (unh_node _ _ _ Hun) as (n' & Hn' & H1 & H2 & H3 & _). eauto.
  - intros key cb user Hkey.
    assert (valid_key s' key) as Hkey'.
    { destruct Hkey. split; [|done]. by rewrite (unh_size _ _ _ Hun). }
    assert (ctx_key_size s' = ctx_key_size s) as Hsz by (by destruct Hun).
    destruct (store_find_spec s key cb user Hinv Hkey)
      as [(a & e & Ha & _ & Hfind)|[Hnone Hfind]];
      destruct (store_find_spec s' key cb user Hinv' Hkey')
        as [(a' & e' & Ha' & _ & Hfind')|[Hnone' Hfind']].
    + eauto.
    + destruct Hnone'. exists a. rewrite Hsz. by apply Hleaves.
    + destruct Hnone. exists a'. rewrite <- Hsz. by apply Hleaves.
    + eauto.
Qed.

Lemma prune_deleted_leaf_witness :
  ∃ s', store_prune store_two_deleted = Done s' ∧ store_inv s' ∧
    (∀ a k, live_leaf_at s' a k ↔ live_leaf_at store_two_deleted a k) ∧
    calls s' = calls store_two_deleted ∧
    (∀ a, is_Some (heap s' !! a) ↔ is_Some (heap store_two_deleted !! a)) ∧
    (∃ n', heap s' !! 2%nat = Some n' ∧ NODEP_dead n' = true ∧
           NODEP_dlist n' = false ∧ n_next n' = None) ∧
    (∃ er', heap s' !! 0%nat = Some er' ∧ n_dlist er' = None) ∧
    ∀ key cb user, valid_key store_two_deleted key →
      ∃ r s1 s1',
        store_find store_two_deleted (Some key) cb user = Done (r, s1) ∧
        store_find s' (Some key) cb user = Done (r, s1').
Proof.
  apply (prune_deleted_leaf store_two_deleted 0%nat 2%nat 5%nat
           (mk_elem None None (Some 1%nat) (Some 2%nat) (Some 2%nat)
              4294967295 4294967295 0 0 None None 0 None)
           (mk_elem (Some 5%nat) (Some 6%nat) None (Some 1%nat) None 5 4 3
              2 (Some key_b) (Some 2%nat) 100 (Some 8))).
  - exact reachable_two_deleted.
  - reflexivity.
  - vm_compute. reflexivity.
  - reflexivity.
  - vm_compute. reflexivity.
  - reflexivity.
  - reflexivity.
  - reflexivity.
  - reflexivity.
  - reflexivity.
  - reflexivity.
  - right. exists 6%nat. eexists. split; [discriminate|].
    split; [vm_compute; reflexivity|]. split; reflexivity.
Defined.

End StorePruneFacts.

(** ** event.c *)

Module EvmFacts.
Import Evm.

(** *** Running a computation step by step *)

Lemma bind_run {A B} (m : M A) (f : A → M B) st :
  (m ≫= f) st =
  match m st with
  | (Done a, st1) => f a st1
  | (Crash, st1) => (Crash, st1)
  | (Timeout, st1) => (Timeout, st1)
  end.
Proof. reflexivity. Qed.

Lemma bind_ok {A B} (m : M A) (f : A → M B) st b st' :
  (m ≫= f) st = (Done b, st') →
  ∃ a st1, m st = (Done a, st1) ∧ f a st1 = (Done b, st').
Proof.
  rewrite bind_run. destruct (m st) as [[a| |] st1]; [|done..].
  intros H. by exists a, st1.
Qed.

Lemma bind_any {A B} (m : M A) (f : A → M B) st out st' :
  (m ≫= f) st = (out, st') →
  (∃ a st1, m st = (Done a, st1) ∧ f a st1 = (out, st')) ∨
  ((m st = (Crash, st') ∨ m st = (Timeout, st')) ∧ ∀ b, out ≠ Done b).
Proof.
  rewrite bind_run. destruct (m st) as [[a| |] st1].
  - intros H. left. by exists a, st1.
  - intros [= <- <-]. right. split; [by left|done].
  - intros [= <- <-]. right. split; [by right|done].
Qed.

Lemma ret_ok {A} (a b : A) st st' :
  (mret a : M A) st = (Done b, st') → b = a ∧ st' = st.
Proof. by intros [= <- <-]. Qed.


Lemma load_ok a o st st' :
  load a st = (Done o, st') → heap st !! a = Some o ∧ st' = st.
Proof. unfold load. destruct (heap st !! a); [|done]. by intros [= <- <-]. Qed.


Lemma get_def_ok a x st st' :
  get_def a st = (Done x, st') → heap st !! a = Some (Def x) ∧ st' = st.
Proof.
  intros H. apply bind_ok in H as (o & st1 & Ho & H).
  apply load_ok in Ho as [Ho ->]. destruct o; try done.
  by apply ret_ok in H as [-> ->].
Qed.

Lemma get_event_ok a x st st' :
  get_event a st = (Done x, st') → heap st !! a = Some (Event x) ∧ st' = st.
Proof.
  intros H. apply bind_ok in H as (o & st1 & Ho & H).
  apply load_ok in Ho as [Ho ->]. destruct o; try done.
  by apply ret_ok in H as [-> ->].
Qed.

Lemma get_grp_ok a x st st' :
  get_grp a st = (Done x, st') → heap st !! a = Some (Grp x) ∧ st' = st.
Proof.
  intros H. apply bind_ok in H as (o & st1 & Ho & H).
  apply load_ok in Ho as [Ho ->]. destruct o; try done.
  by apply ret_ok in H as [-> ->].
Qed.

Lemma get_session_ok a x st st' :
  get_session a st = (Done x, st') →
  heap st !! a = Some (Session x) ∧ st' = st.
Proof.
  intros H. apply bind_ok in H as (o & st1 & Ho & H).
  apply load_ok in Ho as [Ho ->]. destruct o; try done.
  by apply ret_ok in H as [-> ->].
Qed.

Lemma get_ctx_ok a x st st' :
  get_ctx a st = (Done x, st') → heap st !! a = Some (Ctx x) ∧ st' = st.
Proof.
  intros H. apply bind_ok in H as (o & st1 & Ho & H).
  apply load_ok in Ho as [Ho ->]. destruct o; try done.
  by apply ret_ok in H as [-> ->].
Qed.


Lemma upd_def_ok a f u st st' :
  upd_def a f st = (Done u, st') →
  ∃ x, heap st !! a = Some (Def x) ∧ st' = put a (Def (f x)) st.
Proof.
  intros H. apply bind_ok in H as (x & st1 & Hx & H).
  apply get_def_ok in Hx as [Hx ->]. exists x. split; [done|].
  by injection H as <-.
Qed.

Lemma upd_event_ok a f u st st' :
  upd_event a f st = (Done u, st') →
  ∃ x, heap st !! a = Some (Event x) ∧ st' = put a (Event (f x)) st.
Proof.
  intros H. apply bind_ok in H as (x & st1 & Hx & H).
  apply get_event_ok in Hx as [Hx ->]. exists x. split; [done|].
  by injection H as <-.
Qed.

Lemma upd_grp_ok a f u st st' :
  upd_grp a f st = (Done u, st') →
  ∃ x, heap st !! a = Some (Grp x) ∧ st' = put a (Grp (f x)) st.
Proof.
  intros H. apply bind_ok in H as (x & st1 & Hx & H).
  apply get_grp_ok in Hx as [Hx ->]. exists x. split; [done|].
  by injection H as <-.
Qed.

Lemma upd_session_ok a f u st st' :
  upd_session a f st = (Done u, st') →
  ∃ x, heap st !! a = Some (Session x) ∧ st' = put a (Session (f x)) st.
Proof.
  intros H. apply bind_ok in H as (x & st1 & Hx & H).
  apply get_session_ok in Hx as [Hx ->]. exists x. split; [done|].
  by injection H as <-.
Qed.

Lemma upd_ctx_ok a f u st st' :
  upd_ctx a f st = (Done u, st') →
  ∃ x, heap st !! a = Some (Ctx x) ∧ st' = put a (Ctx (f x)) st.
Proof.
  intros H. apply bind_ok in H as (x & st1 & Hx & H).
  apply get_ctx_ok in Hx as [Hx ->]. exists x. split; [done|].
  by injection H as <-.
Qed.

Lemma log_ok o u st st' : log o st = (Done u, st') → st' = emit o st.
Proof. by intros [= <-]. Qed.


Lemma bound_ok n st st' : bound st = (Done n, st') → n = brk st ∧ st' = st.
Proof. by intros [= <- <-]. Qed.

Lemma release_ok a u st st' :
  release a st = (Done u, st') → is_Some (heap st !! a) ∧ st' = del a st.
Proof.
  unfold release. destruct (heap st !! a) eqn:E; [|done].
  intros [= <-]. by split.
Qed.

Lemma place_ok o r st st' :
  place o st = (Done r, st') →
  r = Some (brk st) ∧ st' = alloc o st.
Proof. by intros [= <- <-]. Qed.

(** Heap lookups in updated states. *)
Lemma heap_put a o st b :
  heap (put a o st) !! b = if decide (a = b) then Some o else heap st !! b.
Proof.
  cbn. destruct (decide (a = b)) as [->|Hne].
  - apply lookup_insert_eq.
  - by apply lookup_insert_ne.
Qed.

Lemma heap_put_eq a o st : heap (put a o st) !! a = Some o.
Proof. rewrite heap_put. by destruct (decide (a = a)). Qed.

Lemma heap_put_ne a o st b : a ≠ b → heap (put a o st) !! b = heap st !! b.
Proof. intros. rewrite heap_put. by destruct (decide (a = b)). Qed.

Lemma heap_del a st b :
  heap (del a st) !! b = if decide (a = b) then None else heap st !! b.
Proof.
  cbn. destruct (decide (a = b)) as [->|Hne].
  - apply lookup_delete_eq.
  - by apply lookup_delete_ne.
Qed.

Lemma heap_emit o st : heap (emit o st) = heap st.
Proof. done. Qed.

(** *** Lists in the heap *)

Lemma lseg_det next hd l l' : lseg next hd l → lseg next hd l' → l = l'.
Proof.
  intros H. revert l'. induction H as [|a n l Hn _ IH]; intros l' H'.
  - by inversion H'.
  - inversion H' as [|? n' l2 Hn' Hl2]; subst.
    rewrite Hn in Hn'. injection Hn' as <-. f_equal. by apply IH.
Qed.

Lemma lseg_member next hd l a : lseg next hd l → a ∈ l → is_Some (next a).
Proof.
  induction 1 as [|b n l Hn _ IH]; intros Hin; [by apply elem_of_nil in Hin|].
  apply elem_of_cons in Hin as [->|Hin]; eauto.
Qed.

Lemma lseg_from next hd l a :
  lseg next hd l → a ∈ l →
  ∃ l1 l2, l = l1 ++ a :: l2 ∧ lseg next (Some a) (a :: l2).
Proof.
  induction 1 as [|b n l Hn Hl IH]; intros Hin; [by apply elem_of_nil in Hin|].
  apply elem_of_cons in Hin as [->|Hin].
  - exists [], l. split; [done|]. by econstructor.
  - destruct (IH Hin) as (l1 & l2 & -> & Hc). by exists (b :: l1), l2.
Qed.

Lemma lseg_NoDup next hd l : lseg next hd l → NoDup l.
Proof.
  induction 1 as [|a n l Hn Hl IH]; [constructor|].
  constructor; [|done]. intros Hin.
  destruct (lseg_from _ _ _ _ Hl Hin) as (l1 & l2 & Heq & Hc).
  assert (lseg next (Some a) (a :: l)) as Hc' by (by econstructor).
  pose proof (lseg_det _ _ _ _ Hc Hc') as Hl2.
  injection Hl2 as Hl2. subst l2.
  apply (f_equal length) in Heq. rewrite length_app in Heq. cbn in Heq. lia.
Qed.

(** A list only depends on the [next] members of its elements. *)
Lemma lseg_ext next next' hd l :
  (∀ a, a ∈ l → next' a = next a) → lseg next hd l → lseg next' hd l.
Proof.
  intros Hfr H. induction H as [|a n l Hn Hl IH]; [constructor|].
  econstructor.
  - rewrite Hfr; [done|set_solver].
  - apply IH. intros. apply Hfr. set_solver.
Qed.

Lemma lseg_snoc next next' hd l t x :
  lseg next hd (l ++ [t]) →
  (∀ a, a ∈ l → next' a = next a) →
  next' t = Some (Some x) → next' x = Some None →
  lseg next' hd (l ++ [t; x]).
Proof.
  revert hd. induction l as [|b l IH]; intros hd H Hfr Ht Hx; cbn in *.
  - inversion H as [|? n ? Hn Hl]; subst. inversion Hl; subst.
    econstructor; [done|]. econstructor; [done|]. constructor.
  - inversion H as [|? n ? Hn Hl]; subst.
    econstructor; [rewrite Hfr; [done|set_solver]|].
    apply IH; [done| |done..]. intros. apply Hfr. set_solver.
Qed.

Lemma lseg_nil_inv next hd : lseg next hd [] → hd = None.
Proof. by inversion 1. Qed.

Lemma lseg_None next l : lseg next None l → l = [].
Proof. by inversion 1. Qed.

Lemma lseg_head next hd l : lseg next hd l → hd = head l.
Proof. by destruct 1. Qed.

Lemma last_snoc_cons {A} (l : list A) (t x : A) :
  last (l ++ [t; x]) = Some x.
Proof. by rewrite (last_app _ [t; x]). Qed.

(** Forward execution of the accessors. *)
Lemma ret_run {A} (a : A) st : (mret a : M A) st = (Done a, st).
Proof. reflexivity. Qed.

Ltac mred :=
  repeat first [rewrite bind_run | rewrite ret_run | progress cbv beta iota].

Lemma get_listener_run a x st :
  heap st !! a = Some (Listener x) → get_listener a st = (Done x, st).
Proof. intros H. unfold get_listener, load. by rewrite bind_run, H. Qed.

Lemma get_def_run a x st :
  heap st !! a = Some (Def x) → get_def a st = (Done x, st).
Proof. intros H. unfold get_def, load. by rewrite bind_run, H. Qed.

Lemma get_event_run a x st :
  heap st !! a = Some (Event x) → get_event a st = (Done x, st).
Proof. intros H. unfold get_event, load. by rewrite bind_run, H. Qed.

Lemma get_grp_run a x st :
  heap st !! a = Some (Grp x) → get_grp a st = (Done x, st).
Proof. intros H. unfold get_grp, load. by rewrite bind_run, H. Qed.

Lemma get_session_run a x st :
  heap st !! a = Some (Session x) → get_session a st = (Done x, st).
Proof. intros H. unfold get_session, load. by rewrite bind_run, H. Qed.

Lemma get_ctx_run a x st :
  heap st !! a = Some (Ctx x) → get_ctx a st = (Done x, st).
Proof. intros H. unfold get_ctx, load. by rewrite bind_run, H. Qed.

Lemma upd_listener_run a f x st :
  heap st !! a = Some (Listener x) →
  upd_listener a f st = (Done tt, put a (Listener (f x)) st).
Proof.
  intros H. unfold upd_listener. by rewrite bind_run, (get_listener_run _ x).
Qed.

Lemma upd_def_run a f x st :
  heap st !! a = Some (Def x) →
  upd_def a f st = (Done tt, put a (Def (f x)) st).
Proof. intros H. unfold upd_def. by rewrite bind_run, (get_def_run _ x). Qed.

Lemma upd_event_run a f x st :
  heap st !! a = Some (Event x) →
  upd_event a f st = (Done tt, put a (Event (f x)) st).
Proof.
  intros H. unfold upd_event. by rewrite bind_run, (get_event_run _ x).
Qed.

Lemma upd_grp_run a f x st :
  heap st !! a = Some (Grp x) →
  upd_grp a f st = (Done tt, put a (Grp (f x)) st).
Proof. intros H. unfold upd_grp. by rewrite bind_run, (get_grp_run _ x). Qed.

Lemma upd_session_run a f x st :
  heap st !! a = Some (Session x) →
  upd_session a f st = (Done tt, put a (Session (f x)) st).
Proof.
  intros H. unfold upd_session. by rewrite bind_run, (get_session_run _ x).
Qed.

Lemma upd_ctx_run a f x st :
  heap st !! a = Some (Ctx x) →
  upd_ctx a f st = (Done tt, put a (Ctx (f x)) st).
Proof. intros H. unfold upd_ctx. by rewrite bind_run, (get_ctx_run _ x). Qed.

Lemma next_session_inv st a n :
  next_session st a = Some n →
  ∃ x, heap st !! a = Some (Session x) ∧ s_next x = n.
Proof.
  unfold next_session. destruct (heap st !! a) as [[]|]; try done.
  intros [= <-]. eauto.
Qed.

Lemma next_grp_inv st a n :
  next_grp st a = Some n → ∃ x, heap st !! a = Some (Grp x) ∧ g_next x = n.
Proof.
  unfold next_grp. destruct (heap st !! a) as [[]|]; try done.
  intros [= <-]. eauto.
Qed.

Lemma next_event_inv st a n :
  next_event st a = Some n →
  ∃ x, heap st !! a = Some (Event x) ∧ e_next x = n.
Proof.
  unfold next_event. destruct (heap st !! a) as [[]|]; try done.
  intros [= <-]. eauto.
Qed.

Lemma next_session_put st a o b :
  next_session (put a o st) b =
  if decide (a = b)
  then match o with Session s => Some (s_next s) | _ => None end
  else next_session st b.
Proof. unfold next_session. rewrite heap_put. by destruct (decide (a = b)). Qed.

Lemma next_grp_put st a o b :
  next_grp (put a o st) b =
  if decide (a = b)
  then match o with Grp s => Some (g_next s) | _ => None end
  else next_grp st b.
Proof. unfold next_grp. rewrite heap_put. by destruct (decide (a = b)). Qed.

Lemma next_event_put st a o b :
  next_event (put a o st) b =
  if decide (a = b)
  then match o with Event s => Some (e_next s) | _ => None end
  else next_event st b.
Proof. unfold next_event. rewrite heap_put. by destruct (decide (a = b)). Qed.

Lemma last_Some_snoc {A} (l : list A) (t : A) :
  last l = Some t → ∃ l', l = l' ++ [t].
Proof.
  intros H. destruct l as [|a l _] using rev_ind; [done|].
  rewrite last_snoc in H. injection H as ->. eauto.
Qed.

Lemma ends_ctx st c hd tl :
  queue_ends st (CtxQ c) = Some (hd, tl) →
  ∃ x, heap st !! c = Some (Ctx x) ∧ hd = c_head x ∧ tl = c_tail x.
Proof.
  cbn. destruct (heap st !! c) as [[]|]; try done. intros [= <- <-]. eauto.
Qed.

Lemma ends_session st c hd tl :
  queue_ends st (SessionQ c) = Some (hd, tl) →
  ∃ x, heap st !! c = Some (Session x) ∧ hd = s_head x ∧ tl = s_tail x.
Proof.
  cbn. destruct (heap st !! c) as [[]|]; try done. intros [= <- <-]. eauto.
Qed.

Lemma ends_grp st c hd tl :
  queue_ends st (GrpQ c) = Some (hd, tl) →
  ∃ x, heap st !! c = Some (Grp x) ∧ hd = g_head x ∧ tl = g_tail x.
Proof.
  cbn. destruct (heap st !! c) as [[]|]; try done. intros [= <- <-]. eauto.
Qed.

(** *** The queue operations *)

Lemma ctx_push_spec st c x l :
  queue st (CtxQ c) l → next_session st x = Some None → x ∉ l →
  ∃ st', evm_ctx_push_session (Some c) (Some x) st = (Done (Some x), st') ∧
         queue st' (CtxQ c) (l ++ [x]) ∧
         (∀ a, a ≠ c → last l ≠ Some a → heap st' !! a = heap st !! a) ∧
         (∀ t y, last l = Some t → heap st !! t = Some (Session y) →
                 heap st' !! t = Some (Session (set_s_next (Some x) y))) ∧
         brk st' = brk st ∧ trace st' = trace st ∧ oracle st' = oracle st ∧
         evm_gctx st' = evm_gctx st.
Proof.
  intros (hd & tl & Hends & Hl & Hlast') Hx Hnin. cbn in Hl.
  apply ends_ctx in Hends as (cx & Hc & -> & ->). rename Hlast' into Htl.
  apply next_session_inv in Hx as (sx & Hsx & Hnx).
  assert (x ≠ c) as Hxc by (intros ->; congruence).
  unfold evm_ctx_push_session.
  rewrite bind_run, (get_ctx_run _ _ _ Hc), Htl.
  destruct (last l) as [t|] eqn:Hlast.
  - destruct (last_Some_snoc _ _ Hlast) as (l' & ->).
    assert (t ∈ l' ++ [t]) as Htin by set_solver.
    destruct (lseg_member _ _ _ _ Hl Htin) as [n Hn].
    apply next_session_inv in Hn as (tx & Htx & _).
    assert (t ≠ c) as Htc by (intros ->; congruence).
    assert (t ≠ x) as Htx' by (intros ->; done).
    rewrite !bind_run, (upd_session_run _ _ _ _ Htx).
    rewrite (upd_ctx_run _ _ cx); [|by rewrite heap_put_ne]. cbn [mret M_ret].
    eexists. split; [done|]. split_and!; try done.
    + exists (c_head cx), (Some x). cbn. rewrite lookup_insert_eq.
      split; [done|]. split; [|by rewrite last_snoc].
      rewrite <- (assoc_L app). cbn.
      pose proof (lseg_NoDup _ _ _ Hl) as Hnd.
      apply NoDup_app in Hnd as (_ & Hdisj & _).
      eapply lseg_snoc; [exact Hl|..].
      * intros a Ha.
        assert (a ≠ c) as Hac.
        { intros ->. destruct (lseg_member _ _ _ c Hl) as [? Hcn];
            [set_solver|].
          apply next_session_inv in Hcn as (? & ? & _). congruence. }
        assert (a ≠ t) as Hat.
        { intros ->. apply (Hdisj t Ha). set_solver. }
        unfold next_session. cbn. by rewrite !lookup_insert_ne.
      * unfold next_session. cbn.
        rewrite lookup_insert_ne, lookup_insert_eq by done. done.
      * unfold next_session. cbn.
        rewrite !lookup_insert_ne by done. by rewrite Hsx, Hnx.
    + intros a Hac Hat. cbn. rewrite !lookup_insert_ne; [done|..]; congruence.
    + intros t' y [= <-] Hy. cbn.
      rewrite lookup_insert_ne, lookup_insert_eq by done. congruence.
  - assert (l = []) as ->.
    { destruct l as [|a l _] using rev_ind; [done|].
      by rewrite last_snoc in Hlast. }
    rewrite !bind_run, (upd_ctx_run _ _ _ _ Hc).
    rewrite (upd_ctx_run _ _ (set_c_head (Some x) cx)); [|by rewrite heap_put_eq].
    cbn [mret M_ret].
    eexists. split; [done|]. split_and!; try done.
    + exists (Some x), (Some x). cbn. rewrite lookup_insert_eq.
      split; [done|]. split; [|done].
      econstructor; [|constructor]. unfold next_session. cbn.
      rewrite !lookup_insert_ne by done. by rewrite Hsx, Hnx.
    + intros a Hac _. cbn. by rewrite !lookup_insert_ne.
Qed.

Lemma session_push_spec st c x l :
  queue st (SessionQ c) l → next_grp st x = Some None → x ∉ l →
  ∃ st', evm_session_push_grp (Some c) (Some x) st = (Done (Some x), st') ∧
         queue st' (SessionQ c) (l ++ [x]) ∧
         (∀ a, a ≠ c → last l ≠ Some a → heap st' !! a = heap st !! a) ∧
         (∀ t y, last l = Some t → heap st !! t = Some (Grp y) →
                 heap st' !! t = Some (Grp (set_g_next (Some x) y))) ∧
         brk st' = brk st ∧ trace st' = trace st ∧ oracle st' = oracle st ∧
         evm_gctx st' = evm_gctx st.
Proof.
  intros (hd & tl & Hends & Hl & Hlast') Hx Hnin. cbn in Hl.
  apply ends_session in Hends as (cx & Hc & -> & ->). rename Hlast' into Htl.
  apply next_grp_inv in Hx as (sx & Hsx & Hnx).
  assert (x ≠ c) as Hxc by (intros ->; congruence).
  unfold evm_session_push_grp.
  rewrite bind_run, (get_session_run _ _ _ Hc), Htl.
  destruct (last l) as [t|] eqn:Hlast.
  - destruct (last_Some_snoc _ _ Hlast) as (l' & ->).
    assert (t ∈ l' ++ [t]) as Htin by set_solver.
    destruct (lseg_member _ _ _ _ Hl Htin) as [n Hn].
    apply next_grp_inv in Hn as (tx & Htx & _).
    assert (t ≠ c) as Htc by (intros ->; congruence).
    assert (t ≠ x) as Htx' by (intros ->; done).
    rewrite !bind_run, (upd_grp_run _ _ _ _ Htx).
    rewrite (upd_session_run _ _ cx); [|by rewrite heap_put_ne]. cbn [mret M_ret].
    eexists. split; [done|]. split_and!; try done.
    + exists (s_head cx), (Some x). cbn. rewrite lookup_insert_eq.
      split; [done|]. split; [|by rewrite last_snoc].
      rewrite <- (assoc_L app). cbn.
      pose proof (lseg_NoDup _ _ _ Hl) as Hnd.
      apply NoDup_app in Hnd as (_ & Hdisj & _).
      eapply lseg_snoc; [exact Hl|..].
      * intros a Ha.
        assert (a ≠ c) as Hac.
        { intros ->. destruct (lseg_member _ _ _ c Hl) as [? Hcn];
            [set_solver|].
          apply next_grp_inv in Hcn as (? & ? & _). congruence. }
        assert (a ≠ t) as Hat.
        { intros ->. apply (Hdisj t Ha). set_solver. }
        unfold next_grp. cbn. by rewrite !lookup_insert_ne.
      * unfold next_grp. cbn.
        rewrite lookup_insert_ne, lookup_insert_eq by done. done.
      * unfold next_grp. cbn.
        rewrite !lookup_insert_ne by done. by rewrite Hsx, Hnx.
    + intros a Hac Hat. cbn. rewrite !lookup_insert_ne; [done|..]; congruence.
    + intros t' y [= <-] Hy. cbn.
      rewrite lookup_insert_ne, lookup_insert_eq by done. congruence.
  - assert (l = []) as ->.
    { destruct l as [|a l _] using rev_ind; [done|].
      by rewrite last_snoc in Hlast. }
    rewrite !bind_run, (upd_session_run _ _ _ _ Hc).
    rewrite (upd_session_run _ _ (set_s_head (Some x) cx)); [|by rewrite heap_put_eq].
    cbn [mret M_ret].
    eexists. split; [done|]. split_and!; try done.
    + exists (Some x), (Some x). cbn. rewrite lookup_insert_eq.
      split; [done|]. split; [|done].
      econstructor; [|constructor]. unfold next_grp. cbn.
      rewrite !lookup_insert_ne by done. by rewrite Hsx, Hnx.
    + intros a Hac _. cbn. by rewrite !lookup_insert_ne.
Qed.

Lemma grp_push_spec st c x l :
  queue st (GrpQ c) l → next_event st x = Some None → x ∉ l →
  ∃ st', evm_grp_push_event (Some c) (Some x) st = (Done (Some x), st') ∧
         queue st' (GrpQ c) (l ++ [x]) ∧
         (∀ a, a ≠ c → last l ≠ Some a → heap st' !! a = heap st !! a) ∧
         (∀ t y, last l = Some t → heap st !! t = Some (Event y) →
                 heap st' !! t = Some (Event (set_e_next (Some x) y))) ∧
         brk st' = brk st ∧ trace st' = trace st ∧ oracle st' = oracle st ∧
         evm_gctx st' = evm_gctx st.
Proof.
  intros (hd & tl & Hends & Hl & Hlast') Hx Hnin. cbn in Hl.
  apply ends_grp in Hends as (cx & Hc & -> & ->). rename Hlast' into Htl.
  apply next_event_inv in Hx as (sx & Hsx & Hnx).
  assert (x ≠ c) as Hxc by (intros ->; congruence).
  unfold evm_grp_push_event.
  rewrite bind_run, (get_grp_run _ _ _ Hc), Htl.
  destruct (last l) as [t|] eqn:Hlast.
  - destruct (last_Some_snoc _ _ Hlast) as (l' & ->).
    assert (t ∈ l' ++ [t]) as Htin by set_solver.
    destruct (lseg_member _ _ _ _ Hl Htin) as [n Hn].
    apply next_event_inv in Hn as (tx & Htx & _).
    assert (t ≠ c) as Htc by (intros ->; congruence).
    assert (t ≠ x) as Htx' by (intros ->; done).
    rewrite !bind_run, (upd_event_run _ _ _ _ Htx).
    rewrite (upd_grp_run _ _ cx); [|by rewrite heap_put_ne]. cbn [mret M_ret].
    eexists. split; [done|]. split_and!; try done.
    + exists (g_head cx), (Some x). cbn. rewrite lookup_insert_eq.
      split; [done|]. split; [|by rewrite last_snoc].
      rewrite <- (assoc_L app). cbn.
      pose proof (lseg_NoDup _ _ _ Hl) as Hnd.
      apply NoDup_app in Hnd as (_ & Hdisj & _).
      eapply lseg_snoc; [exact Hl|..].
      * intros a Ha.
        assert (a ≠ c) as Hac.
        { intros ->. destruct (lseg_member _ _ _ c Hl) as [? Hcn];
            [set_solver|].
          apply next_event_inv in Hcn as (? & ? & _). congruence. }
        assert (a ≠ t) as Hat.
        { intros ->. apply (Hdisj t Ha). set_solver. }
        unfold next_event. cbn. by rewrite !lookup_insert_ne.
      * unfold next_event. cbn.
        rewrite lookup_insert_ne, lookup_insert_eq by done. done.
      * unfold next_event. cbn.
        rewrite !lookup_insert_ne by done. by rewrite Hsx, Hnx.
    + intros a Hac Hat. cbn. rewrite !lookup_insert_ne; [done|..]; congruence.
    + intros t' y [= <-] Hy. cbn.
      rewrite lookup_insert_ne, lookup_insert_eq by done. congruence.
  - assert (l = []) as ->.
    { destruct l as [|a l _] using rev_ind; [done|].
      by rewrite last_snoc in Hlast. }
    rewrite !bind_run, (upd_grp_run _ _ _ _ Hc).
    rewrite (upd_grp_run _ _ (set_g_head (Some x) cx)); [|by rewrite heap_put_eq].
    cbn [mret M_ret].
    eexists. split; [done|]. split_and!; try done.
    + exists (Some x), (Some x). cbn. rewrite lookup_insert_eq.
      split; [done|]. split; [|done].
      econstructor; [|constructor]. unfold next_event. cbn.
      rewrite !lookup_insert_ne by done. by rewrite Hsx, Hnx.
    + intros a Hac _. cbn. by rewrite !lookup_insert_ne.
Qed.

Lemma ctx_pop_spec st c l :
  queue st (CtxQ c) l →
  ∃ st', evm_ctx_pop_session (Some c) st = (Done (head l), st') ∧
         queue st' (CtxQ c) (tail l) ∧
         (∀ a, a ≠ c → head l ≠ Some a → heap st' !! a = heap st !! a) ∧
         (∀ r y, head l = Some r → heap st !! r = Some (Session y) →
                 heap st' !! r = Some (Session (set_s_next None y))) ∧
         brk st' = brk st ∧ trace st' = trace st ∧ oracle st' = oracle st ∧
         evm_gctx st' = evm_gctx st.
Proof.
  intros (hd & tl & Hends & Hl & Hlast'). cbn in Hl.
  apply ends_ctx in Hends as (cx & Hc & -> & ->). rename Hlast' into Htl.
  unfold evm_ctx_pop_session.
  rewrite bind_run, (get_ctx_run _ _ _ Hc).
  inversion Hl as [Hhd|r n l' Hn Hl' Hhd]; subst l.
  - cbn [mret M_ret]. exists st. split; [done|]. split_and!; try done.
    exists None, None. cbn. rewrite Hc, <- Hhd. split; [by rewrite Htl|].
    split; [constructor|done].
  - pose proof (lseg_NoDup _ _ _ Hl) as Hnd.
    apply NoDup_cons in Hnd as [Hrl' _].
    apply next_session_inv in Hn as (rx & Hrx & <-).
    assert (r ≠ c) as Hrc by (intros ->; congruence).
    assert (∀ a, a ∈ l' → a ≠ c ∧ a ≠ r) as Hmem.
    { intros a Ha. split; [|by intros ->].
      intros ->. destruct (lseg_member _ _ _ c Hl') as [? Hcn]; [done|].
      apply next_session_inv in Hcn as (? & ? & _). congruence. }
    rewrite !bind_run, (get_session_run _ _ _ Hrx).
    rewrite !bind_run, (upd_ctx_run _ _ _ _ Hc).
    destruct (bool_decide (s_next rx = None)) eqn:Hdec.
    + apply bool_decide_eq_true in Hdec. rewrite Hdec in *.
      apply lseg_None in Hl'. subst l'. cbv beta iota.
      rewrite !bind_run, (upd_ctx_run _ _ (set_c_head None cx));
        [|by rewrite heap_put_eq].
      cbv beta iota.
      rewrite !bind_run, (upd_session_run _ _ rx); [|by rewrite !heap_put_ne].
      cbn [mret M_ret]. eexists. split; [done|]. split_and!; try done.
      * exists None, None. cbn.
        rewrite lookup_insert_ne, lookup_insert_eq by done.
        split; [done|]. split; [constructor|done].
      * intros a Hac Har. cbn in Har |- *.
        rewrite !lookup_insert_ne; [done|..]; congruence.
      * intros r' y [= <-] Hy. cbn. rewrite lookup_insert_eq. congruence.
    + apply bool_decide_eq_false in Hdec.
      mred. rewrite (upd_session_run _ _ rx); [|by rewrite !heap_put_ne].
      mred.
      eexists. split; [done|]. split_and!; try done.
      * exists (s_next rx), (c_tail cx). cbn.
        rewrite lookup_insert_ne, lookup_insert_eq by done.
        split; [done|]. split.
        -- eapply lseg_ext; [|exact Hl']. intros a Ha.
           destruct (Hmem a Ha). unfold next_session. cbn.
           by rewrite !lookup_insert_ne.
        -- rewrite Htl. destruct l'; [|done]. by apply lseg_nil_inv in Hl'.
      * intros a Hac Har. cbn in Har |- *.
        rewrite !lookup_insert_ne; [done|..]; congruence.
      * intros r' y [= <-] Hy. cbn. rewrite lookup_insert_eq. congruence.
Qed.

Lemma session_pop_spec st c l :
  queue st (SessionQ c) l →
  ∃ st', evm_session_pop_grp (Some c) st = (Done (head l), st') ∧
         queue st' (SessionQ c) (tail l) ∧
         (∀ a, a ≠ c → head l ≠ Some a → heap st' !! a = heap st !! a) ∧
         (∀ r y, head l = Some r → heap st !! r = Some (Grp y) →
                 heap st' !! r = Some (Grp (set_g_next None y))) ∧
         brk st' = brk st ∧ trace st' = trace st ∧ oracle st' = oracle st ∧
         evm_gctx st' = evm_gctx st.
Proof.
  intros (hd & tl & Hends & Hl & Hlast'). cbn in Hl.
  apply ends_session in Hends as (cx & Hc & -> & ->). rename Hlast' into Htl.
  unfold evm_session_pop_grp.
  rewrite bind_run, (get_session_run _ _ _ Hc).
  inversion Hl as [Hhd|r n l' Hn Hl' Hhd]; subst l.
  - cbn [mret M_ret]. exists st. split; [done|]. split_and!; try done.
    exists None, None. cbn. rewrite Hc, <- Hhd. split; [by rewrite Htl|].
    split; [constructor|done].
  - pose proof (lseg_NoDup _ _ _ Hl) as Hnd.
    apply NoDup_cons in Hnd as [Hrl' _].
    apply next_grp_inv in Hn as (rx & Hrx & <-).
    assert (r ≠ c) as Hrc by (intros ->; congruence).
    assert (∀ a, a ∈ l' → a ≠ c ∧ a ≠ r) as Hmem.
    { intros a Ha. split; [|by intros ->].
      intros ->. destruct (lseg_member _ _ _ c Hl') as [? Hcn]; [done|].
      apply next_grp_inv in Hcn as (? & ? & _). congruence. }
    mred. rewrite (get_grp_run _ _ _ Hrx). mred.
    rewrite (upd_session_run _ _ _ _ Hc). mred.
    rewrite (upd_grp_run _ _ rx); [|by rewrite !heap_put_ne]. mred.
    destruct (bool_decide (g_next rx = None)) eqn:Hdec.
    + apply bool_decide_eq_true in Hdec. rewrite Hdec in *.
      apply lseg_None in Hl'. subst l'. mred.
      rewrite (upd_session_run _ _ (set_s_head None cx));
        [|by rewrite heap_put_ne, heap_put_eq].
      mred. eexists. split; [done|]. split_and!; try done.
      * exists None, None. cbn. rewrite lookup_insert_eq.
        split; [done|]. split; [constructor|done].
      * intros a Hac Har. cbn in Har |- *.
        rewrite !lookup_insert_ne; [done|..]; congruence.
      * intros r' y [= <-] Hy. cbn.
        rewrite lookup_insert_ne, lookup_insert_eq by done. congruence.
    + apply bool_decide_eq_false in Hdec. mred.
      eexists. split; [done|]. split_and!; try done.
      * exists (g_next rx), (s_tail cx). cbn.
        rewrite lookup_insert_ne, lookup_insert_eq by done.
        split; [done|]. split.
        -- eapply lseg_ext; [|exact Hl']. intros a Ha.
           destruct (Hmem a Ha). unfold next_grp. cbn.
           by rewrite !lookup_insert_ne.
        -- rewrite Htl. destruct l'; [|done]. by apply lseg_nil_inv in Hl'.
      * intros a Hac Har. cbn in Har |- *.
        rewrite !lookup_insert_ne; [done|..]; congruence.
      * intros r' y [= <-] Hy. cbn. rewrite lookup_insert_eq. congruence.
Qed.

Lemma grp_pop_spec st c l :
  queue st (GrpQ c) l →
  ∃ st', evm_grp_pop_event (Some c) st = (Done (head l), st') ∧
         queue st' (GrpQ c) (tail l) ∧
         (∀ a, a ≠ c → head l ≠ Some a → heap st' !! a = heap st !! a) ∧
         (∀ r y, head l = Some r → heap st !! r = Some (Event y) →
                 heap st' !! r = Some (Event (set_e_next None y))) ∧
         brk st' = brk st ∧ trace st' = trace st ∧ oracle st' = oracle st ∧
         evm_gctx st' = evm_gctx st.
Proof.
  intros (hd & tl & Hends & Hl & Hlast'). cbn in Hl.
  apply ends_grp in Hends as (cx & Hc & -> & ->). rename Hlast' into Htl.
  unfold evm_grp_pop_event.
  rewrite bind_run, (get_grp_run _ _ _ Hc).
  inversion Hl as [Hhd|r n l' Hn Hl' Hhd]; subst l.
  - cbn [mret M_ret]. exists st. split; [done|]. split_and!; try done.
    exists None, None. cbn. rewrite Hc, <- Hhd. split; [by rewrite Htl|].
    split; [constructor|done].
  - pose proof (lseg_NoDup _ _ _ Hl) as Hnd.
    apply NoDup_cons in Hnd as [Hrl' _].
    apply next_event_inv in Hn as (rx & Hrx & <-).
    assert (r ≠ c) as Hrc by (intros ->; congruence).
    assert (∀ a, a ∈ l' → a ≠ c ∧ a ≠ r) as Hmem.
    { intros a Ha. split; [|by intros ->].
      intros ->. destruct (lseg_member _ _ _ c Hl') as [? Hcn]; [done|].
      apply next_event_inv in Hcn as (? & ? & _). congruence. }
    mred. rewrite (get_event_run _ _ _ Hrx). mred.
    rewrite (upd_grp_run _ _ _ _ Hc). mred.
    rewrite (upd_event_run _ _ rx); [|by rewrite !heap_put_ne]. mred.
    destruct (bool_decide (e_next rx = None)) eqn:Hdec.
    + apply bool_decide_eq_true in Hdec. rewrite Hdec in *.
      apply lseg_None in Hl'. subst l'. mred.
      rewrite (upd_grp_run _ _ (set_g_head None cx));
        [|by rewrite heap_put_ne, heap_put_eq].
      mred. eexists. split; [done|]. split_and!; try done.
      * exists None, None. cbn. rewrite lookup_insert_eq.
        split; [done|]. split; [constructor|done].
      * intros a Hac Har. cbn in Har |- *.
        rewrite !lookup_insert_ne; [done|..]; congruence.
      * intros r' y [= <-] Hy. cbn.
        rewrite lookup_insert_ne, lookup_insert_eq by done. congruence.
    + apply bool_decide_eq_false in Hdec. mred.
      eexists. split; [done|]. split_and!; try done.
      * exists (e_next rx), (g_tail cx). cbn.
        rewrite lookup_insert_ne, lookup_insert_eq by done.
        split; [done|]. split.
        -- eapply lseg_ext; [|exact Hl']. intros a Ha.
           destruct (Hmem a Ha). unfold next_event. cbn.
           by rewrite !lookup_insert_ne.
        -- rewrite Htl. destruct l'; [|done]. by apply lseg_nil_inv in Hl'.
      * intros a Hac Har. cbn in Har |- *.
        rewrite !lookup_insert_ne; [done|..]; congruence.
      * intros r' y [= <-] Hy. cbn. rewrite lookup_insert_eq. congruence.
Qed.

Lemma safe_bind {A B} (m : M A) (f : A → M B) st Q :
  safe m st (λ a st1, safe (f a) st1 Q) → safe (m ≫= f) st Q.
Proof.
  intros (a & st1 & Hm & b & st2 & Hf & HQ). exists b, st2.
  by rewrite bind_run, Hm.
Qed.

Lemma safe_ret {A} (a : A) st (Q : A → evm_t → Prop) :
  Q a st → safe (mret a) st Q.
Proof. intros HQ. by exists a, st. Qed.

Lemma safe_mono {A} (m : M A) st (Q Q' : A → evm_t → Prop) :
  safe m st Q → (∀ a st', Q a st' → Q' a st') → safe m st Q'.
Proof. intros (a & st' & Hm & HQ) H. exists a, st'. eauto. Qed.

Lemma safe_request st (Q : bool → evm_t → Prop) :
  (∀ o, Q true (with_oracle o st)) →
  (∀ o, Q false (emit ORefused (with_oracle o st))) →
  safe request st Q.
Proof.
  intros Ht Hf. unfold safe, request. destruct (oracle st) as [|[] o] eqn:Ho.
  - exists true, st. split; [done|].
    replace st with (with_oracle [] st); [apply Ht|].
    destruct st. cbn in *. by subst.
  - eauto.
  - eauto.
Qed.

Lemma safe_ALLOC ob st (Q : option addr → evm_t → Prop) :
  (∀ o, Q (Some (brk st)) (alloc ob (with_oracle o st))) →
  (∀ o, Q None (emit ORefused (with_oracle o st))) →
  safe (ALLOC ob) st Q.
Proof.
  intros Ht Hf. unfold ALLOC. apply safe_bind, safe_request.
  - intros o. eexists _, _. split; [done|]. apply Ht.
  - intros o. by apply safe_ret.
Qed.

Lemma safe_load a o st (Q : object → evm_t → Prop) :
  heap st !! a = Some o → Q o st → safe (load a) st Q.
Proof. intros H HQ. exists o, st. unfold load. by rewrite H. Qed.

Lemma safe_store a o st (Q : unit → evm_t → Prop) :
  Q tt (put a o st) → safe (store a o) st Q.
Proof. intros HQ. by eexists _, _. Qed.

Lemma safe_get_ctx a x st (Q : evm_ctx_s → evm_t → Prop) :
  heap st !! a = Some (Ctx x) → Q x st → safe (get_ctx a) st Q.
Proof. intros H HQ. exists x, st. by rewrite (get_ctx_run _ _ _ H). Qed.

Lemma safe_upd_ctx a f x st (Q : unit → evm_t → Prop) :
  heap st !! a = Some (Ctx x) → Q tt (put a (Ctx (f x)) st) →
  safe (upd_ctx a f) st Q.
Proof. intros H HQ. eexists _, _. by rewrite (upd_ctx_run _ _ _ _ H). Qed.

Lemma safe_release a o st (Q : unit → evm_t → Prop) :
  heap st !! a = Some o → Q tt (del a st) → safe (release a) st Q.
Proof. intros H HQ. eexists _, _. unfold release. by rewrite H. Qed.

Lemma heap_alloc ob st b :
  heap (alloc ob st) !! b =
  if decide (brk st = b) then Some ob else heap st !! b.
Proof.
  cbn. destruct (decide (brk st = b)) as [->|Hne].
  - apply lookup_insert_eq.
  - by apply lookup_insert_ne.
Qed.

Lemma heap_with_oracle o st : heap (with_oracle o st) = heap st.
Proof. done. Qed.

(** Lookups in a state given by the updates that led to it. *)
Ltac heap_look :=
  repeat match goal with x := _ : evm_t |- _ => subst x end;
  repeat first
    [ rewrite heap_put | rewrite heap_alloc | rewrite heap_del
    | rewrite heap_emit | rewrite heap_with_oracle ];
  cbn [brk put alloc del emit with_oracle];
  repeat (destruct (decide _) as [?|?]; try lia; try done).

(** *** [evm_initialize] *)

Lemma initialize_run mfreq st :
  safe (evm_initialize 1 mfreq) st (λ r st',
    ∃ tr, trace st' = trace st ++ tr ∧
          (r = None ∧ tr = [ORefused] ∨
           tr = [] ∧ ∃ c cx, r = Some c ∧ heap st' !! c = Some (Ctx cx) ∧
                             c_wcnt cx = 1)).
Proof.
  unfold evm_initialize. set (c := brk st).
  apply safe_bind, safe_ALLOC; intros o0; cbv beta iota.
  2:{ apply safe_ret. exists [ORefused]. split; [done|by left]. }
  apply safe_bind. eapply safe_upd_ctx; [by heap_look|].
  cbv beta. fold c. set (st1 := put c _ _).
  assert (∀ st2 z,
            heap st2 !! c = Some z → trace st2 = trace st ++ [ORefused] →
            safe (FREE (Some c);; mret None : M (option addr)) st2 (λ r st',
              ∃ tr, trace st' = trace st ++ tr ∧
                    (r = None ∧ tr = [ORefused] ∨
                     tr = [] ∧ ∃ c cx, r = Some c ∧
                                       heap st' !! c = Some (Ctx cx) ∧
                                       c_wcnt cx = 1))) as Hfail.
  { intros st2 z Hz Htr. apply safe_bind. cbn [FREE].
    eapply safe_release; [done|]. apply safe_ret.
    exists [ORefused]. split; [done|by left]. }
  apply safe_bind, safe_request; intros o1; cbv beta iota.
  2:{ apply safe_bind, safe_ret, safe_bind, safe_ret, safe_bind, safe_ret.
      cbv beta iota. eapply Hfail; [by heap_look|done]. }
  apply safe_bind, safe_request; intros o2; cbv beta iota.
  2:{ apply safe_bind, safe_ret, safe_bind, safe_ret.
      cbv beta iota. eapply Hfail; [by heap_look|done]. }
  apply safe_bind, safe_request; intros o3; cbv beta iota.
  2:{ apply safe_bind, safe_ret.
      cbv beta iota. eapply Hfail; [by heap_look|done]. }
  apply safe_bind, safe_bind. unfold tp_request_thread.
  apply safe_ALLOC; intros o4; cbv beta iota.
  2:{ apply safe_bind. eapply safe_upd_ctx; [by heap_look|].
      apply safe_ret. rewrite bool_decide_eq_false_2 by (by intros ?).
      eapply Hfail; [by heap_look|done]. }
  apply safe_bind. eapply safe_upd_ctx; [by heap_look|].
  apply safe_ret. rewrite bool_decide_eq_true_2 by done.
  change (1 =? 0) with false. cbv beta iota.
  apply safe_bind, safe_ALLOC; intros o6; cbv beta iota.
  2:{ apply safe_bind. eapply safe_upd_ctx; [by heap_look|].
      apply safe_bind, safe_ret, safe_bind.
      eapply safe_get_ctx; [by heap_look|].
      cbn [c_wcnt set_c_workers set_c_maintenance set_c_mfreq].
      change (0 =? 0) with true. cbv beta iota.
      apply safe_bind. cbn [FREE c_workers set_c_workers]. apply safe_ret.
      eapply Hfail; [by heap_look|done]. }
  apply safe_bind. eapply safe_upd_ctx; [by heap_look|].
  apply safe_bind. change (Z.to_nat 1) with 1%nat. cbn [request_workers].
  unfold tp_request_thread.
  apply safe_bind, safe_ALLOC; intros o8; cbv beta iota.
  - apply safe_bind. eapply safe_load; [by heap_look|].
    cbv beta iota. apply safe_bind, safe_store.
    apply safe_bind. eapply safe_upd_ctx; [by heap_look|].
    apply safe_ret, safe_bind. eapply safe_get_ctx; [by heap_look|].
    cbn [c_wcnt set_c_wcnt set_c_workers set_c_maintenance set_c_mfreq].
    change (0 + 1 =? 0) with false. cbv beta iota.
    apply safe_ret. exists []. split; [by rewrite app_nil_r|]. right.
    split; [done|]. eexists _, _. split; [done|]. split; [by heap_look|done].
  - apply safe_bind. eapply safe_load; [by heap_look|].
    cbv beta iota. apply safe_bind, safe_store. apply safe_ret, safe_bind.
    eapply safe_get_ctx; [by heap_look|].
    cbn [c_wcnt set_c_wcnt set_c_workers set_c_maintenance set_c_mfreq].
    change (0 =? 0) with true. cbv beta iota.
    apply safe_bind. cbn [FREE c_workers set_c_workers].
    eapply safe_release; [by heap_look|].
    eapply Hfail; [by heap_look|done].
Qed.

(** *** Properties kept by every call *)

Lemma hoare_bind {A B} P (m : M A) Q (f : A → M B) R E :
  hoare P m Q E → (∀ a, hoare (Q a) (f a) R E) → hoare P (m ≫= f) R E.
Proof.
  intros Hm Hf st out st' HP Hrun.
  apply bind_any in Hrun as [(a & st1 & Hm1 & Hf1)|[[Hc|Hc] Hout]].
  - eapply Hf; [|done]. by apply (Hm _ _ _ HP Hm1).
  - specialize (Hm _ _ _ HP Hc). by destruct out; [destruct (Hout a)|..].
  - specialize (Hm _ _ _ HP Hc). by destruct out; [destruct (Hout a)|..].
Qed.

Lemma hoare_ret {A} P (a : A) (Q : A → evm_t → Prop) E :
  (∀ st, P st → Q a st) → hoare P (mret a) Q E.
Proof. intros H st out st' HP [= <- <-]. by apply H. Qed.

Lemma hoare_pre {A} (P P' : evm_t → Prop) (m : M A) Q E :
  (∀ st, P' st → P st) → hoare P m Q E → hoare P' m Q E.
Proof. intros H Hm st out st' HP. apply Hm. by apply H. Qed.

Lemma hoare_post {A} P (m : M A) (Q Q' : A → evm_t → Prop) E :
  (∀ a st, Q a st → Q' a st) → hoare P m Q E → hoare P m Q' E.
Proof.
  intros H Hm st out st' HP Hrun. specialize (Hm _ _ _ HP Hrun).
  destruct out; [by apply H|done..].
Qed.

Section Plain.
Variable I : evm_t → Prop.
Hypothesis I_refused : ∀ st, I st → I (emit ORefused st).
Hypothesis I_oracle : ∀ o st, I st → I (with_oracle o st).
Hypothesis I_gctx : ∀ v st, I st → I (with_gctx v st).
Hypothesis I_alloc : ∀ ob st, plain ob → I st → I (alloc ob st).
Hypothesis I_free : ∀ a ob st,
  heap st !! a = Some ob → plain ob → I st → I (del a st).
Hypothesis I_put : ∀ a ob ob' st,
  heap st !! a = Some ob → plain ob → similar ob ob' → I st →
  I (put a ob' st).

Lemma keeps_bind {A B} (m : M A) (f : A → M B) :
  keeps I m → (∀ a, keeps I (f a)) → keeps I (m ≫= f).
Proof. apply hoare_bind. Qed.

Lemma keeps_ret {A} (a : A) : keeps I (mret a).
Proof. by apply hoare_ret. Qed.

Lemma keeps_crash {A} : keeps I (crash : M A).
Proof. by intros st out st' HI [= <- <-]. Qed.

Lemma keeps_timeout {A} : keeps I (timeout : M A).
Proof. by intros st out st' HI [= <- <-]. Qed.

Lemma keeps_deref {A} (o : option A) : keeps I (deref o).
Proof. destruct o; [apply keeps_ret|apply keeps_crash]. Qed.

Lemma keeps_history : keeps I history.
Proof. by intros st out st' HI [= <- <-]. Qed.

Lemma keeps_bound : keeps I bound.
Proof. by intros st out st' HI [= <- <-]. Qed.

Lemma keeps_get_gctx : keeps I get_gctx.
Proof. by intros st out st' HI [= <- <-]. Qed.

Lemma keeps_set_gctx v : keeps I (set_gctx v).
Proof. intros st out st' HI [= <- <-]. by apply I_gctx. Qed.

Lemma keeps_request : keeps I request.
Proof.
  intros st out st' HI. unfold request.
  destruct (oracle st) as [|[] o]; intros [= <- <-]; auto.
Qed.

Lemma keeps_ALLOC_plain o : plain o → keeps I (ALLOC o).
Proof.
  intros Ho. apply keeps_bind; [apply keeps_request|].
  intros []; [|apply keeps_ret]. intros st out st' HI [= <- <-].
  by apply I_alloc.
Qed.

Lemma hoare_load a :
  hoare I (load a) (λ o st, I st ∧ heap st !! a = Some o) I.
Proof.
  intros st out st' HI. unfold load.
  destruct (heap st !! a) eqn:E; intros [= <- <-]; auto.
Qed.

Lemma keeps_load a : keeps I (load a).
Proof. eapply hoare_post; [|apply hoare_load]. by intros ?? [? _]. Qed.

Lemma hoare_get_listener a :
  hoare I (get_listener a) (λ x st, I st ∧ heap st !! a = Some (Listener x)) I.
Proof.
  eapply hoare_bind; [apply hoare_load|]. intros o.
  destruct o; try (by intros st out st' [HI _] [= <- <-]).
  apply hoare_ret. by intros st [].
Qed.

Lemma keeps_get_listener a : keeps I (get_listener a).
Proof. eapply hoare_post; [|apply hoare_get_listener]. by intros ?? [? _]. Qed.

Lemma hoare_get_def a :
  hoare I (get_def a) (λ x st, I st ∧ heap st !! a = Some (Def x)) I.
Proof.
  eapply hoare_bind; [apply hoare_load|]. intros o.
  destruct o; try (by intros st out st' [HI _] [= <- <-]).
  apply hoare_ret. by intros st [].
Qed.

Lemma keeps_get_def a : keeps I (get_def a).
Proof. eapply hoare_post; [|apply hoare_get_def]. by intros ?? [? _]. Qed.

Lemma hoare_get_event a :
  hoare I (get_event a) (λ x st, I st ∧ heap st !! a = Some (Event x)) I.
Proof.
  eapply hoare_bind; [apply hoare_load|]. intros o.
  destruct o; try (by intros st out st' [HI _] [= <- <-]).
  apply hoare_ret. by intros st [].
Qed.

Lemma keeps_get_event a : keeps I (get_event a).
Proof. eapply hoare_post; [|apply hoare_get_event]. by intros ?? [? _]. Qed.

Lemma hoare_get_grp a :
  hoare I (get_grp a) (λ x st, I st ∧ heap st !! a = Some (Grp x)) I.
Proof.
  eapply hoare_bind; [apply hoare_load|]. intros o.
  destruct o; try (by intros st out st' [HI _] [= <- <-]).
  apply hoare_ret. by intros st [].
Qed.

Lemma keeps_get_grp a : keeps I (get_grp a).
Proof. eapply hoare_post; [|apply hoare_get_grp]. by intros ?? [? _]. Qed.

Lemma hoare_get_session a :
  hoare I (get_session a) (λ x st, I st ∧ heap st !! a = Some (Session x)) I.
Proof.
  eapply hoare_bind; [apply hoare_load|]. intros o.
  destruct o; try (by intros st out st' [HI _] [= <- <-]).
  apply hoare_ret. by intros st [].
Qed.

Lemma keeps_get_session a : keeps I (get_session a).
Proof. eapply hoare_post; [|apply hoare_get_session]. by intros ?? [? _]. Qed.

Lemma hoare_get_ctx a :
  hoare I (get_ctx a) (λ x st, I st ∧ heap st !! a = Some (Ctx x)) I.
Proof.
  eapply hoare_bind; [apply hoare_load|]. intros o.
  destruct o; try (by intros st out st' [HI _] [= <- <-]).
  apply hoare_ret. by intros st [].
Qed.

Lemma keeps_get_ctx a : keeps I (get_ctx a).
Proof. eapply hoare_post; [|apply hoare_get_ctx]. by intros ?? [? _]. Qed.

Lemma keeps_upd_listener_next a v : keeps I (upd_listener a (set_l_next v)).
Proof.
  eapply hoare_bind; [apply hoare_get_listener|].
  intros x st out st' [HI Ho] [= <- <-]. eapply I_put; [done..| |done].
  by left.
Qed.

Lemma keeps_upd_listener_cb a : keeps I (upd_listener a (set_l_cb None)).
Proof.
  eapply hoare_bind; [apply hoare_get_listener|].
  intros x st out st' [HI Ho] [= <- <-]. eapply I_put; [done..| |done].
  by right.
Qed.

Lemma keeps_upd_def a f : keeps I (upd_def a f).
Proof.
  eapply hoare_bind; [apply hoare_get_def|].
  intros x st out st' [HI Ho] [= <- <-]. by eapply I_put.
Qed.

Lemma keeps_upd_ctx a f : keeps I (upd_ctx a f).
Proof.
  eapply hoare_bind; [apply hoare_get_ctx|].
  intros x st out st' [HI Ho] [= <- <-]. by eapply I_put.
Qed.

#[local] Hint Resolve keeps_deref keeps_history keeps_bound keeps_get_gctx
  keeps_set_gctx keeps_request keeps_load keeps_get_listener keeps_get_def
  keeps_get_event keeps_get_grp keeps_get_session keeps_get_ctx
  keeps_upd_listener_next keeps_upd_listener_cb keeps_upd_def
  keeps_upd_ctx : keeps.

Ltac keeps_go :=
  repeat first
    [ apply keeps_ret | apply keeps_crash | apply keeps_timeout
    | solve [eauto with keeps]
    | apply keeps_ALLOC_plain; exact Logic.I
    | apply keeps_bind; [|intros ?]
    | case_match
    | progress cbv beta iota ].

Lemma keeps_create_def ctx eid f : keeps I (evm_create_def ctx eid f).
Proof. unfold evm_create_def. keeps_go. Qed.

Lemma keeps_create_listener d cb dcb u :
  keeps I (evm_create_listener d cb dcb u).
Proof. unfold evm_create_listener. keeps_go. Qed.

#[local] Hint Resolve keeps_create_def keeps_create_listener : keeps.

Lemma keeps_find_def_from fuel d eid : keeps I (find_def_from fuel d eid).
Proof.
  revert d. induction fuel as [|fuel IH]; intros [d|]; cbn [find_def_from];
    keeps_go.
Qed.

#[local] Hint Resolve keeps_find_def_from : keeps.

Lemma keeps_find_def ctx eid : keeps I (evm_find_def ctx eid).
Proof. unfold evm_find_def. keeps_go. Qed.

#[local] Hint Resolve keeps_find_def : keeps.

(** [evm_initialize] always returns; it frees what it has allocated. *)
Lemma safe_keeps {A} (m : M A) :
  (∀ st, I st → safe m st (λ _ st', I st')) → keeps I m.
Proof.
  intros H st out st' HI Hrun. destruct (H st HI) as (a & st'' & Hm & HI').
  rewrite Hm in Hrun. by injection Hrun as <- <-.
Qed.

Ltac look :=
  repeat match goal with x := _ : evm_t |- _ => subst x end;
  repeat first
    [ rewrite heap_put | rewrite heap_alloc | rewrite heap_del
    | rewrite heap_emit | rewrite heap_with_oracle ];
  cbn [brk put alloc del emit with_oracle];
  repeat (destruct (decide _) as [?|?]; try lia);
  first [reflexivity | eassumption | done].

Ltac I_go :=
  repeat first
    [ assumption
    | apply I_oracle | apply I_refused | apply I_gctx
    | apply I_alloc; [exact Logic.I|]
    | eapply I_put; [look|exact Logic.I|cbn; auto|]
    | eapply I_free; [look|exact Logic.I|] ].

Lemma safe_request_workers n c w st cx ws :
  I st → heap st !! c = Some (Ctx cx) → heap st !! w = Some (Workers ws) →
  (c < brk st)%nat → (w < brk st)%nat →
  safe (request_workers n c w) st (λ _ st',
    I st' ∧
    (∃ cx', heap st' !! c = Some (Ctx cx') ∧ c_workers cx' = c_workers cx) ∧
    (∃ ws', heap st' !! w = Some (Workers ws')) ∧ (brk st ≤ brk st')%nat).
Proof.
  revert st cx ws. induction n as [|n IH]; intros st cx ws HI Hc Hw Hcb Hwb;
    cbn [request_workers].
  { apply safe_ret. split_and!; eauto. }
  assert (c ≠ w) as Hcw by (intros ->; congruence).
  unfold tp_request_thread. apply safe_bind, safe_ALLOC; intros o.
  - apply safe_bind. eapply safe_load; [look|]. cbv beta iota.
    apply safe_bind, safe_store. apply safe_bind.
    eapply safe_upd_ctx; [look|].
    eapply safe_mono.
    { eapply IH; [I_go|look|look|cbn; lia|cbn; lia]. }
    cbn [brk put alloc with_oracle].
    intros _ st' (HI' & Hc' & Hw' & Hbrk). split_and!; try done. lia.
  - apply safe_bind. eapply safe_load; [look|]. cbv beta iota.
    apply safe_bind, safe_store. apply safe_ret.
    split_and!; [I_go|eexists; split; [look|done]|eexists; look|done].
Qed.

Lemma safe_initialize n mfreq st :
  I st → safe (evm_initialize n mfreq) st (λ _ st', I st').
Proof.
  intros HI. unfold evm_initialize.
  apply safe_bind, safe_ALLOC; intros o0; cbv beta iota.
  2:{ apply safe_ret. I_go. }
  apply safe_bind. eapply safe_upd_ctx; [look|].
  assert (∀ st2 z, heap st2 !! brk st = Some (Ctx z) → I st2 →
            safe (FREE (Some (brk st));; mret None : M (option addr)) st2
              (λ _ st', I st')) as Hfail.
  { intros st2 z Hz HI2. apply safe_bind. cbn [FREE].
    eapply safe_release; [done|]. apply safe_ret. by eapply I_free. }
  apply safe_bind, safe_request; intros o1; cbv beta iota.
  2:{ apply safe_bind, safe_ret, safe_bind, safe_ret, safe_bind, safe_ret.
      cbv beta iota. eapply Hfail; [look|I_go]. }
  apply safe_bind, safe_request; intros o2; cbv beta iota.
  2:{ apply safe_bind, safe_ret, safe_bind, safe_ret.
      cbv beta iota. eapply Hfail; [look|I_go]. }
  apply safe_bind, safe_request; intros o3; cbv beta iota.
  2:{ apply safe_bind, safe_ret.
      cbv beta iota. eapply Hfail; [look|I_go]. }
  apply safe_bind, safe_bind. unfold tp_request_thread.
  apply safe_ALLOC; intros o4; cbv beta iota.
  2:{ apply safe_bind. eapply safe_upd_ctx; [look|].
      apply safe_ret. rewrite bool_decide_eq_false_2 by (by intros ?).
      eapply Hfail; [look|I_go]. }
  apply safe_bind. eapply safe_upd_ctx; [look|].
  apply safe_ret. rewrite bool_decide_eq_true_2 by done. cbv beta iota.
  apply safe_bind, safe_ALLOC; intros o6; cbv beta iota.
  2:{ apply safe_bind. eapply safe_upd_ctx; [look|].
      apply safe_bind, safe_ret, safe_bind.
      eapply safe_get_ctx; [look|].
      cbn [c_wcnt set_c_workers set_c_maintenance set_c_mfreq].
      change (0 =? 0) with true. cbv beta iota.
      apply safe_bind. cbn [FREE c_workers set_c_workers]. apply safe_ret.
      eapply Hfail; [look|I_go]. }
  apply safe_bind. eapply safe_upd_ctx; [look|].
  apply safe_bind.
  cbn [brk put alloc with_oracle].
  eapply safe_mono.
  { eapply safe_request_workers; [I_go|look|look|cbn; lia|cbn; lia]. }
  cbn [brk put alloc with_oracle].
  intros _ st' (HI' & (cx' & Hc' & Hwk) & [ws' Hw'] & Hbrk).
  cbn [c_workers set_c_workers] in Hwk.
  apply safe_bind. eapply safe_get_ctx; [done|].
  destruct (c_wcnt cx' =? 0); [|by apply safe_ret].
  rewrite Hwk. cbn [FREE].
  apply safe_bind. eapply safe_release; [done|].
  apply safe_bind. eapply safe_release.
  { rewrite heap_del. destruct (decide _) as [E|_]; [lia|done]. }
  apply safe_ret. eapply I_free.
  { rewrite heap_del. destruct (decide _) as [E|_]; [lia|done]. }
  { done. }
  by eapply I_free.
Qed.

Lemma keeps_initialize n m : keeps I (evm_initialize n m).
Proof. apply safe_keeps. intros. by apply safe_initialize. Qed.

#[local] Hint Resolve keeps_initialize : keeps.

Lemma keeps_singleton : keeps I evm_singleton.
Proof. unfold evm_singleton. keeps_go. Qed.

#[local] Hint Resolve keeps_singleton : keeps.

Lemma keeps_or_singleton ctx : keeps I (or_singleton ctx).
Proof. unfold or_singleton. keeps_go. Qed.

#[local] Hint Resolve keeps_or_singleton : keeps.

Lemma keeps_register_type ctx eid f : keeps I (evm_register_type ctx eid f).
Proof. unfold evm_register_type. keeps_go. Qed.

Lemma keeps_add_listener ctx eid cb dcb u :
  keeps I (evm_add_listener ctx eid cb dcb u).
Proof. unfold evm_add_listener. keeps_go. Qed.

Lemma keeps_remove_listener ctx l : keeps I (evm_remove_listener ctx l).
Proof. unfold evm_remove_listener. keeps_go. Qed.

End Plain.

Section Keeps.
Context {code : callbacks}.
Variable I : evm_t → Prop.
Hypothesis I_refused : ∀ st, I st → I (emit ORefused st).
Hypothesis I_append : ∀ s e c u st, I st → I (emit (OAppend s e c u) st).
Hypothesis I_session : ∀ c s d u st, I st → I (emit (OSession c s d u) st).
Hypothesis I_emit : ∀ o st, benign o → I st → I (emit o st).
Hypothesis I_call : ∀ l x cb s e u st,
  heap st !! l = Some (Listener x) → l_cb x = Some cb → I st →
  I (emit (OListener l cb s e u) st).
Hypothesis I_oracle : ∀ o st, I st → I (with_oracle o st).
Hypothesis I_alloc : ∀ ob st, I st → I (alloc ob st).
Hypothesis I_del : ∀ a st, I st → I (del a st).
Hypothesis I_put : ∀ a ob ob' st,
  heap st !! a = Some ob → similar ob ob' → I st → I (put a ob' st).
Hypothesis I_gctx : ∀ v st, I st → I (with_gctx v st).

Lemma G_alloc ob st : plain ob → I st → I (alloc ob st).
Proof. intros _. apply I_alloc. Qed.

Lemma G_free a ob st :
  heap st !! a = Some ob → plain ob → I st → I (del a st).
Proof. intros _ _. apply I_del. Qed.

Lemma G_put a ob ob' st :
  heap st !! a = Some ob → plain ob → similar ob ob' → I st →
  I (put a ob' st).
Proof. intros ? _. by apply I_put. Qed.

Ltac plainly lem :=
  eapply lem;
  first [exact I_refused | exact I_oracle | exact I_gctx | exact G_alloc
        | exact G_free | exact G_put].

Lemma keeps_log o : benign o → keeps I (log o).
Proof. intros Ho st out st' HI [= <- <-]. by apply I_emit. Qed.

Lemma keeps_log_append s e c u : keeps I (log (OAppend s e c u)).
Proof. intros st out st' HI [= <- <-]. by apply I_append. Qed.

Lemma keeps_log_session c s d u : keeps I (log (OSession c s d u)).
Proof. intros st out st' HI [= <- <-]. by apply I_session. Qed.

Lemma keeps_place o : keeps I (place o).
Proof. intros st out st' HI [= <- <-]. by apply I_alloc. Qed.

Lemma keeps_ALLOC o : keeps I (ALLOC o).
Proof.
  apply keeps_bind; [plainly keeps_request|].
  intros []; [apply keeps_place|apply keeps_ret].
Qed.

Lemma keeps_release a : keeps I (release a).
Proof.
  intros st out st' HI. unfold release.
  destruct (heap st !! a); intros [= <- <-]; auto.
Qed.

Lemma keeps_FREE a : keeps I (FREE a).
Proof. destruct a; [apply keeps_release|apply keeps_ret]. Qed.

Lemma keeps_upd_event a f : keeps I (upd_event a f).
Proof.
  eapply hoare_bind; [apply hoare_get_event|].
  intros x st out st' [HI Ho] [= <- <-]. by eapply I_put.
Qed.

Lemma keeps_upd_grp a f : keeps I (upd_grp a f).
Proof.
  eapply hoare_bind; [apply hoare_get_grp|].
  intros x st out st' [HI Ho] [= <- <-]. by eapply I_put.
Qed.

Lemma keeps_upd_session a f : keeps I (upd_session a f).
Proof.
  eapply hoare_bind; [apply hoare_get_session|].
  intros x st out st' [HI Ho] [= <- <-]. by eapply I_put.
Qed.

#[local] Hint Resolve keeps_deref keeps_history keeps_bound keeps_get_gctx
  keeps_ALLOC keeps_release keeps_FREE keeps_load keeps_get_listener
  keeps_get_def keeps_get_event keeps_get_grp keeps_get_session
  keeps_get_ctx keeps_upd_event keeps_upd_grp keeps_upd_session
  keeps_find_def_from keeps_find_def : keeps.

Ltac plain_call :=
  first
    [ plainly keeps_set_gctx | plainly keeps_request
    | plainly keeps_upd_listener_next | plainly keeps_upd_listener_cb
    | plainly keeps_upd_def | plainly keeps_upd_ctx
    | plainly keeps_initialize | plainly keeps_singleton
    | plainly keeps_or_singleton | plainly keeps_register_type
    | plainly keeps_add_listener | plainly keeps_remove_listener ].

Ltac keeps_go :=
  repeat first
    [ apply keeps_ret | apply keeps_crash | apply keeps_timeout
    | solve [eauto with keeps]
    | solve [plain_call]
    | apply keeps_log_append | apply keeps_log_session
    | apply keeps_log; exact Logic.I
    | apply keeps_bind; [|intros ?]
    | case_match
    | progress cbv beta iota ].

Lemma keeps_create_session ctx cb u : keeps I (evm_create_session ctx cb u).
Proof. unfold evm_create_session. keeps_go. Qed.

Lemma keeps_create_grp s d : keeps I (evm_create_grp s d).
Proof. unfold evm_create_grp. keeps_go. Qed.

Lemma keeps_create_event d g data cb u :
  keeps I (evm_create_event d g data cb u).
Proof. unfold evm_create_event. keeps_go. Qed.

#[local] Hint Resolve keeps_create_session keeps_create_grp
  keeps_create_event : keeps.

Lemma keeps_ctx_push_session c s : keeps I (evm_ctx_push_session c s).
Proof. unfold evm_ctx_push_session. keeps_go. Qed.

Lemma keeps_ctx_pop_session c : keeps I (evm_ctx_pop_session c).
Proof. unfold evm_ctx_pop_session. keeps_go. Qed.

Lemma keeps_session_push_grp s g : keeps I (evm_session_push_grp s g).
Proof. unfold evm_session_push_grp. keeps_go. Qed.

Lemma keeps_session_back_grp s : keeps I (evm_session_back_grp s).
Proof. unfold evm_session_back_grp. keeps_go. Qed.

Lemma keeps_session_pop_grp s : keeps I (evm_session_pop_grp s).
Proof. unfold evm_session_pop_grp. keeps_go. Qed.

Lemma keeps_grp_push_event g e : keeps I (evm_grp_push_event g e).
Proof. unfold evm_grp_push_event. keeps_go. Qed.

Lemma keeps_grp_pop_event g : keeps I (evm_grp_pop_event g).
Proof. unfold evm_grp_pop_event. keeps_go. Qed.

#[local] Hint Resolve keeps_ctx_push_session keeps_ctx_pop_session
  keeps_session_push_grp keeps_session_back_grp keeps_session_pop_grp
  keeps_grp_push_event keeps_grp_pop_event : keeps.

Lemma keeps_destroy_listener l : keeps I (evm_destroy_listener l).
Proof. unfold evm_destroy_listener. keeps_go. Qed.

Lemma keeps_destroy_event e : keeps I (evm_destroy_event e).
Proof. unfold evm_destroy_event. keeps_go. Qed.

#[local] Hint Resolve keeps_destroy_listener keeps_destroy_event : keeps.

Lemma keeps_destroy_events fuel e : keeps I (destroy_events fuel e).
Proof.
  revert e. induction fuel as [|fuel IH]; intros [e|]; cbn [destroy_events];
    keeps_go.
Qed.

#[local] Hint Resolve keeps_destroy_events : keeps.

Lemma keeps_destroy_grp g : keeps I (evm_destroy_grp g).
Proof. unfold evm_destroy_grp. keeps_go. Qed.

#[local] Hint Resolve keeps_destroy_grp : keeps.

Lemma keeps_destroy_grps fuel g : keeps I (destroy_grps fuel g).
Proof.
  revert g. induction fuel as [|fuel IH]; intros [g|]; cbn [destroy_grps];
    keeps_go.
Qed.

Lemma keeps_destroy_listeners fuel l : keeps I (destroy_listeners fuel l).
Proof.
  revert l. induction fuel as [|fuel IH]; intros [l|];
    cbn [destroy_listeners]; keeps_go.
Qed.

#[local] Hint Resolve keeps_destroy_grps keeps_destroy_listeners : keeps.

Lemma keeps_destroy_def d : keeps I (evm_destroy_def d).
Proof. unfold evm_destroy_def. keeps_go. Qed.

Lemma keeps_session_append s eid data dcb u :
  keeps I (evm_session_append s eid data dcb u).
Proof. unfold evm_session_append. keeps_go. Qed.

Lemma keeps_start_session ctx eid data ecb cb u :
  keeps I (evm_start_session ctx eid data ecb cb u).
Proof. unfold evm_start_session. keeps_go. Qed.

#[local] Hint Resolve keeps_destroy_def keeps_session_append
  keeps_start_session : keeps.

Lemma keeps_run_prog p : keeps I (run_prog p).
Proof. induction p; cbn [run_prog]; keeps_go. Qed.

#[local] Hint Resolve keeps_run_prog : keeps.

Lemma keeps_call_session_cb cb s d u : keeps I (call_session_cb cb s d u).
Proof. unfold call_session_cb. keeps_go. Qed.

#[local] Hint Resolve keeps_call_session_cb : keeps.

Lemma keeps_destroy_session s : keeps I (evm_destroy_session s).
Proof. unfold evm_destroy_session. keeps_go. Qed.

#[local] Hint Resolve keeps_destroy_session : keeps.

Lemma keeps_dispatch_listeners fuel s e l :
  keeps I (dispatch_listeners fuel s e l).
Proof.
  revert l. induction fuel as [|fuel IH]; intros [l|];
    cbn [dispatch_listeners]; try by keeps_go.
  eapply hoare_bind; [apply hoare_get_listener|]. intros x.
  apply (hoare_bind _ _ (λ _, I)); [|intros _; keeps_go].
  destruct (l_cb x) as [cb|] eqn:Hcb; [|apply hoare_ret; by intros ? []].
  apply (hoare_bind _ _ (λ h st, I st ∧ heap st !! l = Some (Listener x))).
  { by intros st out st' [HI Hl] [= <- <-]. }
  intros h. apply (hoare_bind _ _ (λ _, I)); [|intros _; keeps_go].
  intros st out st' [HI Hl] [= <- <-]. by eapply I_call.
Qed.

#[local] Hint Resolve keeps_dispatch_listeners : keeps.

Lemma keeps_dispatch_event e : keeps I (evm_dispatch_event e).
Proof. unfold evm_dispatch_event. keeps_go. Qed.

#[local] Hint Resolve keeps_dispatch_event : keeps.

Lemma keeps_process_events fuel g : keeps I (process_events fuel g).
Proof.
  induction fuel as [|fuel IH]; cbn [process_events]; keeps_go.
Qed.

#[local] Hint Resolve keeps_process_events : keeps.

Lemma keeps_process_grps fuel s : keeps I (process_grps fuel s).
Proof.
  induction fuel as [|fuel IH]; cbn [process_grps]; keeps_go.
Qed.

#[local] Hint Resolve keeps_process_grps : keeps.

Lemma keeps_session_process fuel s : keeps I (evm_session_process fuel s).
Proof. unfold evm_session_process. keeps_go. Qed.

Lemma keeps_find_session fuel c s curr prev :
  keeps I (find_session fuel c s curr prev).
Proof.
  revert curr prev. induction fuel as [|fuel IH]; intros [curr|] prev;
    cbn [find_session]; keeps_go.
Qed.

#[local] Hint Resolve keeps_session_process keeps_find_session : keeps.

Lemma keeps_cancel_session c s : keeps I (evm_cancel_session c s).
Proof. unfold evm_cancel_session. keeps_go. Qed.

Lemma keeps_worker fuel c : keeps I (evm_worker fuel c).
Proof. unfold evm_worker. keeps_go. Qed.

Lemma keeps_sweep_listeners fuel d curr prev dead :
  keeps I (sweep_listeners fuel d curr prev dead).
Proof.
  revert curr prev dead.
  induction fuel as [|fuel IH]; intros [curr|] prev dead;
    cbn [sweep_listeners]; keeps_go.
Qed.

#[local] Hint Resolve keeps_cancel_session keeps_worker
  keeps_sweep_listeners : keeps.

Lemma keeps_sweep_defs fuel d dead : keeps I (sweep_defs fuel d dead).
Proof.
  revert d dead. induction fuel as [|fuel IH]; intros [d|] dead;
    cbn [sweep_defs]; keeps_go.
Qed.

#[local] Hint Resolve keeps_sweep_defs : keeps.

Lemma keeps_maintenance c : keeps I (evm_maintenance c).
Proof. unfold evm_maintenance. keeps_go. Qed.

Lemma keeps_destroy_sessions fuel s : keeps I (destroy_sessions fuel s).
Proof.
  revert s. induction fuel as [|fuel IH]; intros [s|];
    cbn [destroy_sessions]; keeps_go.
Qed.

Lemma keeps_destroy_defs fuel d : keeps I (destroy_defs fuel d).
Proof.
  revert d. induction fuel as [|fuel IH]; intros [d|];
    cbn [destroy_defs]; keeps_go.
Qed.

#[local] Hint Resolve keeps_maintenance keeps_destroy_sessions
  keeps_destroy_defs : keeps.

Lemma keeps_destroy c : keeps I (evm_destroy c).
Proof. unfold evm_destroy. keeps_go. Qed.

#[local] Hint Resolve keeps_destroy : keeps.

Lemma keeps_call c : keeps I (call c).
Proof. destruct c; cbn [call]; keeps_go. Qed.

Lemma keeps_run cs : keeps I (run cs).
Proof.
  induction cs as [|c cs IH]; cbn [run]; [apply keeps_ret|].
  apply keeps_bind; [apply keeps_call|done].
Qed.

End Keeps.

Section Reach.
Context {code : callbacks}.

Lemma run_keeps (I : evm_t → Prop) cs st out st' :
  (∀ o st, benign o → I st → I (emit o st)) →
  (∀ l x cb s e u st,
     heap st !! l = Some (Listener x) → l_cb x = Some cb → I st →
     I (emit (OListener l cb s e u) st)) →
  (∀ o st, I st → I (with_oracle o st)) →
  (∀ ob st, I st → I (alloc ob st)) →
  (∀ a st, I st → I (del a st)) →
  (∀ a ob ob' st,
     heap st !! a = Some ob → similar ob ob' → I st → I (put a ob' st)) →
  (∀ v st, I st → I (with_gctx v st)) →
  I st → run cs st = (out, st') → I st'.
Proof.
  intros H1 H2 H3 H4 H5 H6 H7 HI Hrun.
  assert (keeps I (run cs)) as H.
  { apply keeps_run; auto; intros; by apply H1. }
  specialize (H st out st' HI Hrun). by destruct out.
Qed.

Lemma below_run cs st out st' : below st → run cs st = (out, st') → below st'.
Proof.
  apply (run_keeps below); unfold below.
  - intros o s _ H a ob. apply H.
  - intros l x cb s e u s0 _ _ H a ob. apply H.
  - intros o s H a ob. apply H.
  - intros ob s H a ob'. rewrite heap_alloc. cbn [brk alloc].
    destruct (decide _) as [<-|_]; [lia|]. intros Ha.
    specialize (H _ _ Ha). lia.
  - intros a s H b ob. rewrite heap_del. destruct (decide _); [done|apply H].
  - intros a ob ob' s Ha _ H b o. rewrite heap_put. cbn [brk put].
    destruct (decide _) as [<-|_]; [|apply H]. intros _. by eapply H.
  - intros v s H a ob. apply H.
Qed.

Lemma reachable_below st : reachable st → below st.
Proof.
  intros (o & cs & Hrun). eapply below_run; [|done].
  intros a ob. cbn. by rewrite lookup_empty.
Qed.



End Reach.


(** *** Calls that leave sessions, groups and events alone *)

Lemma steady_refl st : below st → steady st st.
Proof.
  intros Hb. split_and!; [done..|]. exists []. by rewrite app_nil_r.
Qed.

Lemma steady_keeps {A} (m : M A) st0 :
  below st0 →
  (∀ I : evm_t → Prop,
     (∀ st, I st → I (emit ORefused st)) →
     (∀ o st, I st → I (with_oracle o st)) →
     (∀ v st, I st → I (with_gctx v st)) →
     (∀ ob st, plain ob → I st → I (alloc ob st)) →
     (∀ a ob st, heap st !! a = Some ob → plain ob → I st → I (del a st)) →
     (∀ a ob ob' st,
        heap st !! a = Some ob → plain ob → similar ob ob' → I st →
        I (put a ob' st)) →
     keeps I m) →
  ∀ out st', m st0 = (out, st') → steady st0 st'.
Proof.
  intros Hb0 Hm out st' Hrun.
  assert (keeps (steady st0) m) as Hk.
  { apply Hm; unfold steady.
    - intros st (Hb & Hbrk & Hg & tr & Htr & Hall). split_and!; [done..|].
      exists (tr ++ [ORefused]). cbn. rewrite Htr, (assoc_L app).
      split; [done|]. apply Forall_app. by split; [|constructor].
    - intros o st (Hb & Hbrk & Hg & Htr). by split_and!.
    - intros v st (Hb & Hbrk & Hg & Htr). by split_and!.
    - intros ob st Hob (Hb & Hbrk & Hg & Htr). split_and!; [|cbn; lia| |done].
      + intros a ob'. rewrite heap_alloc. cbn [brk alloc].
        destruct (decide _) as [<-|_]; [lia|]. intros Ha.
        specialize (Hb _ _ Ha). lia.
      + intros a ob' Hob'. rewrite heap_alloc.
        destruct (decide _) as [<-|_]; [|by apply Hg]. split.
        * by intros [= <-].
        * intros Ha. specialize (Hb0 _ _ Ha). lia.
    - intros a ob st Ha Hob (Hb & Hbrk & Hg & Htr). split_and!; [|done| |done].
      + intros b ob'. rewrite heap_del. destruct (decide _); [done|apply Hb].
      + intros b ob' Hob'. rewrite heap_del.
        destruct (decide _) as [<-|_]; [|by apply Hg]. split; [done|].
        intros Hb'. apply Hg in Hb'; [|done]. congruence.
    - intros a ob ob' st Ha Hob Hsim (Hb & Hbrk & Hg & Htr).
      assert (plain ob') as Hob' by (by destruct ob, ob').
      split_and!; [|done| |done].
      + intros b o. rewrite heap_put. cbn [brk put].
        destruct (decide _) as [<-|_]; [|apply Hb]. intros _. by eapply Hb.
      + intros b o Ho. rewrite heap_put.
        destruct (decide _) as [<-|_]; [|by apply Hg]. split.
        * by intros [= <-].
        * intros Hb'. apply Hg in Hb'; [|done]. congruence. }
  pose proof (Hk st0 out st' (steady_refl _ Hb0) Hrun) as H.
  by destruct out.
Qed.

Lemma steady_add_listener ctx eid cb dcb u st out st' :
  below st → evm_add_listener ctx eid cb dcb u st = (out, st') →
  steady st st'.
Proof.
  intros Hb. apply steady_keeps; [done|]. intros. by apply keeps_add_listener.
Qed.

Lemma steady_remove_listener ctx l st out st' :
  below st → evm_remove_listener ctx l st = (out, st') → steady st st'.
Proof.
  intros Hb. apply steady_keeps; [done|].
  intros. by apply keeps_remove_listener.
Qed.

Lemma steady_register_type ctx eid f st out st' :
  below st → evm_register_type ctx eid f st = (out, st') → steady st st'.
Proof.
  intros Hb. apply steady_keeps; [done|].
  intros. by apply keeps_register_type.
Qed.

Lemma steady_or_singleton ctx st out st' :
  below st → or_singleton ctx st = (out, st') → steady st st'.
Proof.
  intros Hb. apply steady_keeps; [done|]. intros. by apply keeps_or_singleton.
Qed.

Lemma steady_find_def ctx eid st out st' :
  evm_find_def ctx eid st = (out, st') → st' = st.
Proof.
  intros Hrun.
  assert (keeps (eq st) (evm_find_def ctx eid)) as Hk
    by apply keeps_find_def.
  specialize (Hk st out st' eq_refl Hrun). by destruct out.
Qed.

(** *** What the parts of a session depend on *)

Lemma queue_frame st st' q l :
  queue_ends st' q = queue_ends st q →
  (∀ a, a ∈ l → queue_next st' q a = queue_next st q a) →
  queue st q l → queue st' q l.
Proof.
  intros He Hn (hd & tl & Hends & Hl & Htl). exists hd, tl.
  split; [by rewrite He|]. split; [|done]. by eapply lseg_ext.
Qed.

Lemma next_event_heap st st' a :
  heap st' !! a = heap st !! a → next_event st' a = next_event st a.
Proof. unfold next_event. by intros ->. Qed.

Lemma next_grp_heap st st' a :
  heap st' !! a = heap st !! a → next_grp st' a = next_grp st a.
Proof. unfold next_grp. by intros ->. Qed.

Lemma pending_members st g E e :
  pending st g E → e ∈ E.*1.*1 →
  ∃ ex, heap st !! e = Some (Event ex) ∧ e_grp ex = Some g.
Proof.
  intros [_ Hall] Hin.
  apply list_elem_of_fmap in Hin as ([e' c] & -> & Hin).
  apply list_elem_of_fmap in Hin as (x & -> & Hin).
  rewrite Forall_forall in Hall. destruct (Hall _ Hin) as (ex & Hex & Hg & _).
  eauto.
Qed.

Lemma pending_frame st st' g E :
  heap st' !! g = heap st !! g →
  (∀ e, e ∈ E.*1.*1 → heap st' !! e = heap st !! e) →
  pending st g E → pending st' g E.
Proof.
  intros Hg He [Hq Hall]. split.
  - eapply queue_frame; [..|done].
    + cbn. by rewrite Hg.
    + intros a Ha. cbn. apply next_event_heap. by apply He.
  - rewrite Forall_forall in Hall |- *. intros x Hx.
    destruct (Hall x Hx) as (ex & Hex & HH). exists ex.
    rewrite He; [done|]. apply list_elem_of_fmap. exists x.1.
    split; [done|]. apply list_elem_of_fmap. by exists x.
Qed.

Lemma grp_of_frame st st' s g d :
  heap st' !! g = heap st !! g → grp_of st s g d → grp_of st' s g d.
Proof. intros Hg (gx & Hgx & HH). exists gx. by rewrite Hg. Qed.

(** The queue of a session with one group. *)
Lemma session_queue_one st s n :
  queue st (SessionQ s) [n] ↔
  ∃ sx nx, heap st !! s = Some (Session sx) ∧ s_head sx = Some n ∧
           s_tail sx = Some n ∧ heap st !! n = Some (Grp nx) ∧
           g_next nx = None.
Proof.
  split.
  - intros (hd & tl & Hends & Hl & Htl).
    apply ends_session in Hends as (sx & Hs & -> & ->).
    inversion Hl as [|? nn ? Hn Hl' Hhd]; subst.
    apply lseg_nil_inv in Hl'. subst nn. cbn in Hn.
    apply next_grp_inv in Hn as (nx & Hnx & Hnn).
    exists sx, nx. by split_and!.
  - intros (sx & nx & Hs & Hhd & Htl & Hn & Hnn).
    exists (Some n), (Some n). cbn. rewrite Hs, Hhd, Htl.
    split; [done|]. split; [|done].
    econstructor; [|constructor]. unfold next_grp. by rewrite Hn, Hnn.
Qed.

Lemma session_queue_nil st s :
  queue st (SessionQ s) [] ↔
  ∃ sx, heap st !! s = Some (Session sx) ∧ s_head sx = None ∧
        s_tail sx = None.
Proof.
  split.
  - intros (hd & tl & Hends & Hl & Htl).
    apply ends_session in Hends as (sx & Hs & -> & ->).
    apply lseg_nil_inv in Hl. eauto.
  - intros (sx & Hs & Hhd & Htl). exists None, None. cbn.
    rewrite Hs, Hhd, Htl. split; [done|]. split; [constructor|done].
Qed.

Lemma busy_frame st st' s g n d R L :
  (∀ sx, heap st !! s = Some (Session sx) →
         ∃ sx', heap st' !! s = Some (Session sx') ∧
                s_head sx' = s_head sx ∧ s_tail sx' = s_tail sx) →
  heap st' !! g = heap st !! g → heap st' !! n = heap st !! n →
  (∀ e, e ∈ R.*1.*1 → heap st' !! e = heap st !! e) →
  (∀ e, e ∈ L.*1.*1 → heap st' !! e = heap st !! e) →
  busy st s g n d R L → busy st' s g n d R L.
Proof.
  intros Hs Hg Hn HR HL [Hq Hnx HLp Hgx HRp Hne]. split; try done.
  - apply session_queue_one in Hq as (sx & nx & Hsx & Hhd & Htl & Hnn & Hnxt).
    destruct (Hs _ Hsx) as (sx' & Hsx' & Hhd' & Htl').
    apply session_queue_one. exists sx', nx.
    split_and!; [done|congruence|congruence|by rewrite Hn|done].
  - by eapply grp_of_frame.
  - by eapply pending_frame.
  - by eapply grp_of_frame.
  - by eapply pending_frame.
Qed.

Lemma steady_graph st st' a ob :
  steady st st' → heap st !! a = Some ob → ¬ plain ob →
  heap st' !! a = Some ob.
Proof. intros (_ & _ & Hg & _) Ha Hob. by apply Hg. Qed.

Lemma steady_busy st st' s g n d R L :
  steady st st' → busy st s g n d R L → busy st' s g n d R L.
Proof.
  intros Hst Hb. pose proof Hb as [Hq Hnx HLp Hgx HRp Hne].
  eapply busy_frame; [..|done].
  - intros sx Hsx. exists sx. split; [|done].
    eapply steady_graph; [done..|]. by intros [].
  - destruct Hgx as (gx & Hgx & _). rewrite Hgx.
    eapply steady_graph; [done..|]. by intros [].
  - destruct Hnx as (nx & Hnx & _). rewrite Hnx.
    eapply steady_graph; [done..|]. by intros [].
  - intros e He. destruct (pending_members _ _ _ _ HRp He) as (ex & Hex & _).
    rewrite Hex. eapply steady_graph; [done..|]. by intros [].
  - intros e He. destruct (pending_members _ _ _ _ HLp He) as (ex & Hex & _).
    rewrite Hex. eapply steady_graph; [done..|]. by intros [].
Qed.

Lemma steady_inv st st' : steady st st' → evm_inv st → evm_inv st'.
Proof.
  intros (Hb & Hbrk & Hg & _) [Hb0 Hst Hgt Hstr]. split; [done|..].
  - intros s sx g Hs Htl. apply Hg in Hs; [|by intros []].
    destruct (Hst _ _ _ Hs Htl) as [Hlt Hgs]. split; [lia|].
    intros gx Hgx. apply Hgs. by apply Hg in Hgx; [|intros []].
  - intros g gx e Hgx Htl. apply Hg in Hgx; [|by intros []].
    destruct (Hgt _ _ _ Hgx Htl) as [Hlt Hes]. split; [lia|].
    intros ex Hex. apply Hes. by apply Hg in Hex; [|intros []].
  - intros e ex Hex. apply Hg in Hex; [|by intros []]. by eapply Hstr.
Qed.

Lemma steady_trans st1 st2 st3 :
  steady st1 st2 → steady st2 st3 → steady st1 st3.
Proof.
  intros (Hb1 & Hbrk1 & Hg1 & tr1 & Htr1 & Hall1)
         (Hb2 & Hbrk2 & Hg2 & tr2 & Htr2 & Hall2).
  split_and!; [done|lia| |].
  - intros a ob Hob. by rewrite Hg2, Hg1.
  - exists (tr1 ++ tr2). rewrite Htr2, Htr1, (assoc_L app). split; [done|].
    apply Forall_app. by split.
Qed.

Ltac look :=
  repeat match goal with x := _ : evm_t |- _ => subst x end;
  repeat first
    [ rewrite heap_put | rewrite heap_alloc | rewrite heap_del
    | rewrite heap_emit | rewrite heap_with_oracle ];
  cbn [brk put alloc del emit with_oracle];
  repeat (destruct (decide _) as [?|?]; try lia);
  first [reflexivity | eassumption | done | congruence].

(** *** The links under the updates of the heap *)

Lemma inv_emit o st : evm_inv st → evm_inv (emit o st).
Proof. by intros []. Qed.

Lemma inv_with_oracle o st : evm_inv st → evm_inv (with_oracle o st).
Proof. by intros []. Qed.

Lemma inv_del a st : evm_inv st → evm_inv (del a st).
Proof.
  intros [Hb Hst Hgt Hstr]. split.
  - intros b ob. rewrite heap_del. destruct (decide _); [done|apply Hb].
  - intros s sx g. rewrite heap_del. destruct (decide _); [done|].
    intros Hs Htl. destruct (Hst _ _ _ Hs Htl) as [Hlt Hgs]. split; [done|].
    intros gx. rewrite heap_del. destruct (decide _); [done|apply Hgs].
  - intros g gx e. rewrite heap_del. destruct (decide _); [done|].
    intros Hg Htl. destruct (Hgt _ _ _ Hg Htl) as [Hlt Hes]. split; [done|].
    intros ex. rewrite heap_del. destruct (decide _); [done|apply Hes].
  - intros e ex. rewrite heap_del. destruct (decide _); [done|apply Hstr].
Qed.

Lemma inv_alloc ob st : fresh_ok ob → evm_inv st → evm_inv (alloc ob st).
Proof.
  intros Hob [Hb Hst Hgt Hstr]. split.
  - intros b o. rewrite heap_alloc. cbn [brk alloc].
    destruct (decide _) as [<-|_]; [lia|]. intros Hbo.
    specialize (Hb _ _ Hbo). lia.
  - intros s sx g. rewrite heap_alloc. cbn [brk alloc].
    destruct (decide _) as [<-|_].
    { intros [= ->]. cbn in Hob. congruence. }
    intros Hs Htl. destruct (Hst _ _ _ Hs Htl) as [Hlt Hgs]. split; [lia|].
    intros gx. rewrite heap_alloc. destruct (decide _); [lia|apply Hgs].
  - intros g gx e. rewrite heap_alloc. cbn [brk alloc].
    destruct (decide _) as [<-|_].
    { intros [= ->]. cbn in Hob. congruence. }
    intros Hg Htl. destruct (Hgt _ _ _ Hg Htl) as [Hlt Hes]. split; [lia|].
    intros ex. rewrite heap_alloc. destruct (decide _); [lia|apply Hes].
  - intros e ex. rewrite heap_alloc.
    destruct (decide _) as [<-|_]; [|apply Hstr]. by intros [= ->].
Qed.


Lemma inv_put_grp a gx gx' st :
  heap st !! a = Some (Grp gx) → g_session gx' = g_session gx →
  (∀ e, g_tail gx' = Some e →
        (e < brk st)%nat ∧
        ∀ ex, heap st !! e = Some (Event ex) → e_grp ex = Some a) →
  evm_inv st → evm_inv (put a (Grp gx') st).
Proof.
  intros Ha Hs Htl' [Hb Hst Hgt Hstr]. split.
  - intros b o. rewrite heap_put. cbn [brk put].
    destruct (decide _) as [<-|_]; [|apply Hb]. intros _. by eapply Hb.
  - intros s sx g. rewrite heap_put. destruct (decide _); [done|].
    intros Hsx Htl. destruct (Hst _ _ _ Hsx Htl) as [Hlt Hgs].
    split; [done|]. intros gx0. rewrite heap_put.
    destruct (decide _) as [<-|_]; [|apply Hgs].
    intros [= <-]. rewrite Hs. by apply Hgs.
  - intros g gx0 e. rewrite heap_put. destruct (decide _) as [<-|_].
    + intros [= <-] Htl. destruct (Htl' _ Htl) as [Hlt Hes]. split; [done|].
      intros ex. rewrite heap_put. destruct (decide _); [done|apply Hes].
    + intros Hgx Htl. destruct (Hgt _ _ _ Hgx Htl) as [Hlt Hes].
      split; [done|]. intros ex. rewrite heap_put.
      destruct (decide _); [done|apply Hes].
  - intros e ex. rewrite heap_put. destruct (decide _); [done|apply Hstr].
Qed.

Lemma inv_put_session a sx sx' st :
  heap st !! a = Some (Session sx) →
  (∀ g, s_tail sx' = Some g →
        (g < brk st)%nat ∧
        ∀ gx, heap st !! g = Some (Grp gx) → g_session gx = Some a) →
  evm_inv st → evm_inv (put a (Session sx') st).
Proof.
  intros Ha Htl' [Hb Hst Hgt Hstr]. split.
  - intros b o. rewrite heap_put. cbn [brk put].
    destruct (decide _) as [<-|_]; [|apply Hb]. intros _. by eapply Hb.
  - intros s sx0 g. rewrite heap_put. destruct (decide _) as [<-|_].
    + intros [= <-] Htl. destruct (Htl' _ Htl) as [Hlt Hgs]. split; [done|].
      intros gx. rewrite heap_put. destruct (decide _); [done|apply Hgs].
    + intros Hsx Htl. destruct (Hst _ _ _ Hsx Htl) as [Hlt Hgs].
      split; [done|]. intros gx. rewrite heap_put.
      destruct (decide _); [done|apply Hgs].
  - intros g gx e. rewrite heap_put. destruct (decide _); [done|].
    intros Hgx Htl. destruct (Hgt _ _ _ Hgx Htl) as [Hlt Hes].
    split; [done|]. intros ex. rewrite heap_put.
    destruct (decide _); [done|apply Hes].
  - intros e ex. rewrite heap_put. destruct (decide _); [done|apply Hstr].
Qed.

Lemma inv_put_plain a ob ob' st :
  heap st !! a = Some ob → plain ob' → evm_inv st → evm_inv (put a ob' st).
Proof.
  intros Ha Hob [Hb Hst Hgt Hstr]. split.
  - intros b o. rewrite heap_put. cbn [brk put].
    destruct (decide _) as [<-|_]; [|apply Hb]. intros _. by eapply Hb.
  - intros s sx g. rewrite heap_put.
    destruct (decide _) as [<-|_]; [by intros [= ->]|].
    intros Hsx Htl. destruct (Hst _ _ _ Hsx Htl) as [Hlt Hgs].
    split; [done|]. intros gx. rewrite heap_put.
    destruct (decide _) as [<-|_]; [by intros [= ->]|apply Hgs].
  - intros g gx e. rewrite heap_put.
    destruct (decide _) as [<-|_]; [by intros [= ->]|].
    intros Hgx Htl. destruct (Hgt _ _ _ Hgx Htl) as [Hlt Hes].
    split; [done|]. intros ex. rewrite heap_put.
    destruct (decide _) as [<-|_]; [by intros [= ->]|apply Hes].
  - intros e ex. rewrite heap_put.
    destruct (decide _) as [<-|_]; [by intros [= ->]|apply Hstr].
Qed.

(** *** [evm_session_append] while a session is processed *)

Lemma grp_push_inv g e st r st' :
  evm_grp_push_event (Some g) (Some e) st = (Done r, st') →
  r = Some e ∧
  ∃ gx, heap st !! g = Some (Grp gx) ∧
    ((g_tail gx = None ∧
      st' = put g (Grp (set_g_tail (Some e) (set_g_head (Some e) gx)))
              (put g (Grp (set_g_head (Some e) gx)) st)) ∨
     (∃ t tx, g_tail gx = Some t ∧ heap st !! t = Some (Event tx) ∧
              st' = put g (Grp (set_g_tail (Some e) gx))
                      (put t (Event (set_e_next (Some e) tx)) st))).
Proof.
  unfold evm_grp_push_event. intros H.
  apply bind_ok in H as (gx & st1 & Hgx & H).
  apply get_grp_ok in Hgx as [Hgx ->].
  apply bind_ok in H as (u & st1 & Hu & H). apply ret_ok in H as [-> ->].
  split; [done|]. exists gx. split; [done|].
  destruct (g_tail gx) as [t|] eqn:Htl.
  - right. apply bind_ok in Hu as (u1 & st2 & Hu1 & Hu).
    apply upd_event_ok in Hu1 as (tx & Htx & ->).
    apply upd_grp_ok in Hu as (gx' & Hgx' & ->).
    assert (t ≠ g) by (intros ->; congruence).
    rewrite heap_put_ne in Hgx' by done.
    assert (gx' = gx) as -> by congruence. by exists t, tx.
  - left. apply bind_ok in Hu as (u1 & st2 & Hu1 & Hu).
    apply upd_grp_ok in Hu1 as (gx1 & Hgx1 & ->).
    apply upd_grp_ok in Hu as (gx2 & Hgx2 & ->).
    rewrite heap_put_eq in Hgx2.
    assert (gx1 = gx) as -> by congruence.
    assert (gx2 = set_g_head (Some e) gx) as -> by congruence. done.
Qed.

Lemma ALLOC_ok ob r st st' :
  ALLOC ob st = (Done r, st') →
  ∃ o, (r = Some (brk st) ∧ st' = alloc ob (with_oracle o st)) ∨
       (r = None ∧ st' = emit ORefused (with_oracle o st)).
Proof.
  intros H.
  assert (safe (ALLOC ob) st (λ r st',
    ∃ o, (r = Some (brk st) ∧ st' = alloc ob (with_oracle o st)) ∨
         (r = None ∧ st' = emit ORefused (with_oracle o st)))) as Hs.
  { apply safe_ALLOC; intros o; exists o; [by left|by right]. }
  destruct Hs as (r' & st'' & Hrun & Hs). rewrite Hrun in H.
  by injection H as <- <-.
Qed.

Lemma appended_app s tr1 tr2 :
  appended s (tr1 ++ tr2) = appended s tr1 ++ appended s tr2.
Proof. apply omap_app. Qed.





Lemma busy_allocated st s g n d R L a :
  busy st s g n d R L →
  a = s ∨ a = g ∨ a = n ∨ a ∈ R.*1.*1 ∨ a ∈ L.*1.*1 →
  is_Some (heap st !! a).
Proof.
  intros [Hq Hnx HLp Hgx HRp Hne] Ha.
  apply session_queue_one in Hq as (sx & nx & Hsx & _).
  destruct Hnx as (nx' & Hnx & _). destruct Hgx as (gx & Hgx & _).
  destruct Ha as [->|[->|[->|[Ha|Ha]]]]; eauto.
  - destruct (pending_members _ _ _ _ HRp Ha) as (? & ? & _). eauto.
  - destruct (pending_members _ _ _ _ HLp Ha) as (? & ? & _). eauto.
Qed.


(** *** Calls that add to the sessions but leave those there alone *)

Lemma alike_refl ob : alike ob ob.
Proof. by left. Qed.

Lemma alike_trans o1 o2 o3 : alike o1 o2 → alike o2 o3 → alike o1 o3.
Proof.
  intros [->|(sx & v & -> & ->)] [->|(sx' & v' & Heq & ->)].
  - by left.
  - right. eauto.
  - right. eauto.
  - injection Heq as <-. right. by exists sx, v'.
Qed.

Lemma alike_plain o o' : alike o o' → plain o' → plain o.
Proof. by intros [->|(sx & v & -> & ->)]. Qed.

Lemma kept_refl st : kept st st.
Proof. intros a ob Ha _. exists ob. split; [done|apply alike_refl]. Qed.

Lemma kept_trans st1 st2 st3 : kept st1 st2 → kept st2 st3 → kept st1 st3.
Proof.
  intros H12 H23 a ob Ha Hob.
  destruct (H12 _ _ Ha Hob) as (ob2 & Ha2 & Hal2).
  destruct (H23 _ _ Ha2) as (ob3 & Ha3 & Hal3).
  { intros Hp. apply Hob. by eapply alike_plain. }
  exists ob3. split; [done|]. by eapply alike_trans.
Qed.

Lemma steady_kept st st' : steady st st' → kept st st'.
Proof.
  intros Hst a ob Ha Hob. exists ob. split; [|apply alike_refl].
  by eapply steady_graph.
Qed.








Lemma session_push_inv s g st r st' :
  evm_session_push_grp (Some s) (Some g) st = (Done r, st') →
  r = Some g ∧
  ∃ sx, heap st !! s = Some (Session sx) ∧
    ((s_tail sx = None ∧
      st' = put s (Session (set_s_tail (Some g) (set_s_head (Some g) sx)))
              (put s (Session (set_s_head (Some g) sx)) st)) ∨
     (∃ t tx, s_tail sx = Some t ∧ heap st !! t = Some (Grp tx) ∧
              st' = put s (Session (set_s_tail (Some g) sx))
                      (put t (Grp (set_g_next (Some g) tx)) st))).
Proof.
  unfold evm_session_push_grp. intros H.
  apply bind_ok in H as (sx & st1 & Hsx & H).
  apply get_session_ok in Hsx as [Hsx ->].
  apply bind_ok in H as (u & st1 & Hu & H). apply ret_ok in H as [-> ->].
  split; [done|]. exists sx. split; [done|].
  destruct (s_tail sx) as [t|] eqn:Htl.
  - right. apply bind_ok in Hu as (u1 & st2 & Hu1 & Hu).
    apply upd_grp_ok in Hu1 as (tx & Htx & ->).
    apply upd_session_ok in Hu as (sx' & Hsx' & ->).
    assert (t ≠ s) by (intros ->; congruence).
    rewrite heap_put_ne in Hsx' by done.
    assert (sx' = sx) as -> by congruence. by exists t, tx.
  - left. apply bind_ok in Hu as (u1 & st2 & Hu1 & Hu).
    apply upd_session_ok in Hu1 as (sx1 & Hsx1 & ->).
    apply upd_session_ok in Hu as (sx2 & Hsx2 & ->).
    rewrite heap_put_eq in Hsx2.
    assert (sx1 = sx) as -> by congruence.
    assert (sx2 = set_s_head (Some g) sx) as -> by congruence. done.
Qed.

Lemma ctx_push_inv c s st r st' :
  evm_ctx_push_session (Some c) (Some s) st = (Done r, st') →
  r = Some s ∧
  ∃ cx, heap st !! c = Some (Ctx cx) ∧
    ((c_tail cx = None ∧
      st' = put c (Ctx (set_c_tail (Some s) (set_c_head (Some s) cx)))
              (put c (Ctx (set_c_head (Some s) cx)) st)) ∨
     (∃ t tx, c_tail cx = Some t ∧ heap st !! t = Some (Session tx) ∧
              st' = put c (Ctx (set_c_tail (Some s) cx))
                      (put t (Session (set_s_next (Some s) tx)) st))).
Proof.
  unfold evm_ctx_push_session. intros H.
  apply bind_ok in H as (cx & st1 & Hcx & H).
  apply get_ctx_ok in Hcx as [Hcx ->].
  apply bind_ok in H as (u & st1 & Hu & H). apply ret_ok in H as [-> ->].
  split; [done|]. exists cx. split; [done|].
  destruct (c_tail cx) as [t|] eqn:Htl.
  - right. apply bind_ok in Hu as (u1 & st2 & Hu1 & Hu).
    apply upd_session_ok in Hu1 as (tx & Htx & ->).
    apply upd_ctx_ok in Hu as (cx' & Hcx' & ->).
    assert (t ≠ c) by (intros ->; congruence).
    rewrite heap_put_ne in Hcx' by done.
    assert (cx' = cx) as -> by congruence. by exists t, tx.
  - left. apply bind_ok in Hu as (u1 & st2 & Hu1 & Hu).
    apply upd_ctx_ok in Hu1 as (cx1 & Hcx1 & ->).
    apply upd_ctx_ok in Hu as (cx2 & Hcx2 & ->).
    rewrite heap_put_eq in Hcx2.
    assert (cx1 = cx) as -> by congruence.
    assert (cx2 = set_c_head (Some s) cx) as -> by congruence. done.
Qed.

(** Updates that keep the sessions, groups and events there were. *)
Lemma kept_alloc st0 st ob :
  below st0 → (brk st0 ≤ brk st)%nat → kept st0 st → kept st0 (alloc ob st).
Proof.
  intros Hb Hbrk Hk a o Ha Ho. destruct (Hk _ _ Ha Ho) as (o' & Ha' & Hal).
  exists o'. split; [|done]. rewrite heap_alloc.
  destruct (decide _) as [<-|_]; [|done]. specialize (Hb _ _ Ha). lia.
Qed.

Lemma kept_put_new st0 st a ob :
  below st0 → (brk st0 ≤ a)%nat → kept st0 st → kept st0 (put a ob st).
Proof.
  intros Hb Hbrk Hk b o Hb' Ho. destruct (Hk _ _ Hb' Ho) as (o' & Ha' & Hal).
  exists o'. split; [|done]. rewrite heap_put.
  destruct (decide _) as [<-|_]; [|done]. specialize (Hb _ _ Hb'). lia.
Qed.

Lemma kept_del_new st0 st a :
  below st0 → (brk st0 ≤ a)%nat → kept st0 st → kept st0 (del a st).
Proof.
  intros Hb Hbrk Hk b o Hb' Ho. destruct (Hk _ _ Hb' Ho) as (o' & Ha' & Hal).
  exists o'. split; [|done]. rewrite heap_del.
  destruct (decide _) as [<-|_]; [|done]. specialize (Hb _ _ Hb'). lia.
Qed.

Lemma kept_put_alike st0 st a ob ob' :
  heap st !! a = Some ob → alike ob ob' → kept st0 st →
  kept st0 (put a ob' st).
Proof.
  intros Ha Hal Hk b o Hb Ho. destruct (Hk _ _ Hb Ho) as (o' & Hb' & Hal').
  rewrite heap_put. destruct (decide _) as [<-|_]; [|eauto].
  exists ob'. split; [done|]. eapply alike_trans; [done|]. congruence.
Qed.

Lemma kept_put_plain st0 st a ob ob' :
  heap st !! a = Some ob → plain ob → kept st0 st → kept st0 (put a ob' st).
Proof.
  intros Ha Hp Hk b o Hb Ho. destruct (Hk _ _ Hb Ho) as (o' & Hb' & Hal').
  rewrite heap_put. destruct (decide _) as [<-|_]; [|eauto].
  exfalso. apply Ho. eapply alike_plain; [done|]. congruence.
Qed.

Lemma kept_emit st0 st o : kept st0 st → kept st0 (emit o st).
Proof. done. Qed.

Lemma kept_with_oracle st0 st o : kept st0 st → kept st0 (with_oracle o st).
Proof. done. Qed.

Lemma grown_refl st : evm_inv st → grown st st.
Proof.
  intros Hinv. split_and!; [done|apply kept_refl|done|].
  exists []. by rewrite app_nil_r.
Qed.

Lemma grown_steady st0 st st' : steady st st' → grown st0 st → grown st0 st'.
Proof.
  intros Hst (Hinv & Hk & Hbrk & tr & Htr & Hall).
  pose proof Hst as (_ & Hbrk' & _ & tr' & Htr' & Hall').
  split_and!.
  - by eapply steady_inv.
  - eapply kept_trans; [done|]. by apply steady_kept.
  - lia.
  - exists (tr ++ tr'). rewrite Htr', Htr, (assoc_L app). split; [done|].
    apply Forall_app. by split.
Qed.

Lemma grown_refused st0 st o :
  grown st0 st → grown st0 (emit ORefused (with_oracle o st)).
Proof.
  intros (Hinv & Hk & Hbrk & tr & Htr & Hall). split_and!; [|done..|].
  - by apply inv_emit, inv_with_oracle.
  - exists (tr ++ [ORefused]). cbn. rewrite Htr, (assoc_L app).
    split; [done|]. apply Forall_app. by split; [|constructor].
Qed.

Lemma grown_alloc st0 st ob o :
  below st0 → fresh_ok ob → grown st0 st →
  grown st0 (alloc ob (with_oracle o st)).
Proof.
  intros Hb Hob (Hinv & Hk & Hbrk & Htr). split_and!; [| |cbn; lia|done].
  - by apply inv_alloc, inv_with_oracle.
  - by apply kept_alloc.
Qed.

Lemma grown_del st0 st a :
  below st0 → (brk st0 ≤ a)%nat → grown st0 st → grown st0 (del a st).
Proof.
  intros Hb Ha (Hinv & Hk & Hbrk & Htr). split_and!; [| |done..].
  - by apply inv_del.
  - by apply kept_del_new.
Qed.

Lemma grown_put_session st0 st a sx sx' :
  below st0 → (brk st0 ≤ a)%nat → heap st !! a = Some (Session sx) →
  (∀ g, s_tail sx' = Some g →
        (g < brk st)%nat ∧
        ∀ gx, heap st !! g = Some (Grp gx) → g_session gx = Some a) →
  grown st0 st → grown st0 (put a (Session sx') st).
Proof.
  intros Hb Ha Hsx Htl (Hinv & Hk & Hbrk & Htr). split_and!; [| |done..].
  - by eapply inv_put_session.
  - by apply kept_put_new.
Qed.

Lemma grown_put_grp st0 st a gx gx' :
  below st0 → (brk st0 ≤ a)%nat → heap st !! a = Some (Grp gx) →
  g_session gx' = g_session gx →
  (∀ e, g_tail gx' = Some e →
        (e < brk st)%nat ∧
        ∀ ex, heap st !! e = Some (Event ex) → e_grp ex = Some a) →
  grown st0 st → grown st0 (put a (Grp gx') st).
Proof.
  intros Hb Ha Hgx Hs Htl (Hinv & Hk & Hbrk & Htr). split_and!; [| |done..].
  - by eapply inv_put_grp.
  - by apply kept_put_new.
Qed.

Lemma grown_put_next st0 st t tx v :
  heap st !! t = Some (Session tx) → grown st0 st →
  grown st0 (put t (Session (set_s_next v tx)) st).
Proof.
  intros Ht (Hinv & Hk & Hbrk & Htr). split_and!; [| |done..].
  - eapply inv_put_session; [done| |done]. cbn. intros g Hg.
    by eapply inv_session_tail.
  - eapply kept_put_alike; [done| |done]. right. eauto.
Qed.

Lemma grown_put_plain st0 st a ob ob' :
  heap st !! a = Some ob → plain ob → plain ob' → grown st0 st →
  grown st0 (put a ob' st).
Proof.
  intros Ha Hp Hp' (Hinv & Hk & Hbrk & Htr). split_and!; [| |done..].
  - by eapply inv_put_plain.
  - by eapply kept_put_plain.
Qed.

Lemma start_session_grown ctx eid data ecb cb u st r st' :
  evm_inv st → evm_start_session ctx eid data ecb cb u st = (Done r, st') →
  grown st st'.
Proof.
  intros Hinv Hrun. unfold evm_start_session in Hrun.
  apply bind_ok in Hrun as (ctx' & st1 & Hsing & Hrun).
  apply steady_or_singleton in Hsing as Hst1; [|by destruct Hinv].
  apply bind_ok in Hrun as (def & st1' & Hdef & Hrun).
  pose proof (steady_find_def _ _ _ _ _ Hdef) as ->.
  assert (grown st st1) as Hg1 by (eapply grown_steady; [done|by apply grown_refl]).
  enough (grown st1 st') as Hg.
  { destruct Hg1 as (_ & Hk1 & Hbrk1 & tr1 & Htr1 & Hall1).
    destruct Hg as (Hinv' & Hk & Hbrk & tr & Htr & Hall).
    split_and!; [done|by eapply kept_trans|lia|].
    exists (tr1 ++ tr). rewrite Htr, Htr1, (assoc_L app). split; [done|].
    apply Forall_app. by split. }
  assert (evm_inv st1) as Hinv1 by (by destruct Hg1).
  pose proof (inv_below _ Hinv1) as Hb1.
  pose proof (grown_refl _ Hinv1) as G0.
  destruct def as [d0|]; [|by apply ret_ok in Hrun as [_ ->]].
  destruct ctx' as [c|]; [|by apply ret_ok in Hdef as [? _]].
  (* the session *)
  apply bind_ok in Hrun as (retval & T1 & Hs & Hrun).
  apply ALLOC_ok in Hs as (o1 & [[-> ->]|[-> ->]]).
  2:{ apply ret_ok in Hrun as [_ ->]. by apply grown_refused. }
  set (s2 := brk st1) in *.
  set (sx0 := mk_session (Some c) None None cb u None) in *.
  set (T1 := alloc (Session sx0) (with_oracle o1 st1)) in *.
  assert (grown st1 T1) as G1 by (by apply grown_alloc).
  assert (heap T1 !! s2 = Some (Session sx0)) as HT1s by look.
  (* the group *)
  apply bind_ok in Hrun as (grp & T2 & Hg & Hrun).
  apply ALLOC_ok in Hg as (o2 & [[-> ->]|[-> ->]]).
  2:{ apply bind_ok in Hrun as (pushed & T3 & Hp & Hrun).
      apply ret_ok in Hp as [-> ->].
      apply bind_ok in Hrun as (? & T3 & Hf & Hrun).
      apply release_ok in Hf as [_ ->]. apply ret_ok in Hrun as [_ ->].
      apply grown_del; [done|done|]. by apply grown_refused. }
  set (g2 := brk T1) in *.
  assert (g2 = S s2) as Hg2 by done.
  set (gx0 := mk_grp (Some s2) 0 None None None) in *.
  set (T2 := alloc (Grp gx0) (with_oracle o2 T1)) in *.
  assert (grown st1 T2) as G2 by (by apply grown_alloc).
  assert (heap T2 !! s2 = Some (Session sx0)) as HT2s by look.
  assert (heap T2 !! g2 = Some (Grp gx0)) as HT2g by look.
  apply bind_ok in Hrun as (pushed & T3 & Hp & Hrun).
  apply session_push_inv in Hp as (-> & sx & Hsx & Hcases).
  assert (sx = sx0) as -> by congruence.
  destruct Hcases as [[_ ->]|(t & tx & Htl & _)]; [|done].
  set (T3 := put s2 _ (put s2 _ T2)) in *.
  assert (grown st1 T3) as G3.
  { eapply grown_put_session; [done|subst s2; lia|by rewrite heap_put_eq| |].
    - cbn [s_tail set_s_tail set_s_head]. intros g [= <-]. cbn [brk put].
      split; [subst T2; cbn; lia|].
      intros gx. rewrite heap_put_ne by lia. rewrite HT2g. by intros [= <-].
    - eapply grown_put_session; [done|subst s2; lia|done| |done]. done. }
  assert (heap T3 !! g2 = Some (Grp gx0)) as HT3g.
  { subst T3. by rewrite !heap_put_ne by lia. }
  assert (∃ sx3, heap T3 !! s2 = Some (Session sx3)) as [sx3 HT3s].
  { subst T3. rewrite heap_put_eq. eauto. }
  assert (brk T3 = S (S s2)) as HbT3 by done.
  (* the event *)
  apply bind_ok in Hrun as (event & T4 & He & Hrun).
  apply ALLOC_ok in He as (o3 & [[-> ->]|[-> ->]]).
  2:{ apply bind_ok in Hrun as (pushed & T5 & Hp & Hrun).
      apply ret_ok in Hp as [-> ->].
      apply bind_ok in Hrun as (? & T5 & Hf & Hrun).
      apply release_ok in Hf as [_ ->].
      apply bind_ok in Hrun as (? & T6 & Hf & Hrun).
      apply release_ok in Hf as [_ ->]. apply ret_ok in Hrun as [_ ->].
      apply grown_del; [done|done|]. apply grown_del; [done|lia|].
      by apply grown_refused. }
  set (e2 := brk T3) in *.
  set (ex0 := mk_event (Some d0) data false (Some g2) ecb u None None) in *.
  set (T4 := alloc (Event ex0) (with_oracle o3 T3)) in *.
  assert (grown st1 T4) as G4 by (by apply grown_alloc).
  assert (heap T4 !! g2 = Some (Grp gx0)) as HT4g.
  { subst T4. rewrite heap_alloc. cbn [brk with_oracle].
    destruct (decide _); [lia|done]. }
  assert (heap T4 !! e2 = Some (Event ex0)) as HT4e.
  { subst T4. rewrite heap_alloc. cbn [brk with_oracle].
    by destruct (decide _). }
  apply bind_ok in Hrun as (pushed & T5 & Hp & Hrun).
  apply grp_push_inv in Hp as (-> & gx & Hgx & Hcases).
  assert (gx = gx0) as -> by congruence.
  destruct Hcases as [[_ ->]|(t & tx & Htl & _)]; [|done].
  set (T5 := put g2 _ (put g2 _ T4)) in *.
  assert (grown st1 T5) as G5.
  { eapply grown_put_grp; [done|lia|by rewrite heap_put_eq|done| |].
    - cbn [g_tail set_g_tail set_g_head]. intros e [= <-]. cbn [brk put].
      split; [subst T4; cbn; lia|].
      intros ex. rewrite heap_put_ne by lia. rewrite HT4e. by intros [= <-].
    - eapply grown_put_grp; [done|lia|done|done| |done]. done. }
  (* the queue of the context *)
  apply bind_ok in Hrun as (queued & T6 & Hq & Hrun).
  apply ctx_push_inv in Hq as (-> & cx & Hcx & Hcases).
  apply ret_ok in Hrun as [_ ->].
  destruct Hcases as [[_ ->]|(t & tx & Htl & Htx & ->)].
  - eapply grown_put_plain; [by rewrite heap_put_eq|done..|].
    by eapply grown_put_plain.
  - eapply grown_put_plain.
    { rewrite heap_put_ne; [done|]. intros ->. congruence. }
    { done. } { done. }
    by apply grown_put_next.
Qed.

(** *** The callbacks of one event *)

Section Callbacks.
Context {code : callbacks}.






End Callbacks.

Section Dispatch.
Context {code : callbacks}.

Lemma destroy_event_spec e ex st r st' :
  evm_inv st → heap st !! e = Some (Event ex) →
  evm_destroy_event (Some e) st = (Done r, st') →
  trace st' = trace st ++ destroy_obs e ex ∧
  (∀ a, heap st' !! a = if decide (e = a) then None else heap st !! a) ∧
  brk st' = brk st.
Proof.
  intros Hinv He Hrun. unfold evm_destroy_event in Hrun.
  apply bind_ok in Hrun as (ex1 & st1 & Hex1 & Hrun).
  apply get_event_ok in Hex1 as [Hex1 ->].
  assert (ex1 = ex) as -> by congruence.
  apply bind_ok in Hrun as (? & st1 & Hlog & Hrun).
  apply bind_ok in Hrun as (ex2 & st2 & Hex2 & Hrun).
  apply get_event_ok in Hex2 as [Hex2 ->].
  assert (heap st1 = heap st ∧ brk st1 = brk st ∧
          trace st1 = trace st ++ destroy_obs e ex) as (Hh & Hb & Ht).
  { unfold destroy_obs. destruct (e_destroycb ex).
    - by apply log_ok in Hlog as ->.
    - apply ret_ok in Hlog as [_ ->]. by rewrite app_nil_r. }
  rewrite Hh in Hex2. assert (ex2 = ex) as -> by congruence.
  rewrite (inv_strep _ Hinv _ _ He) in Hrun. cbn [FREE] in Hrun.
  apply bind_ok in Hrun as (? & st3 & Hf & Hrun).
  apply ret_ok in Hf as [_ ->]. apply release_ok in Hrun as [_ ->].
  split_and!; [done| |done]. intros a. rewrite heap_del. by rewrite Hh.
Qed.


End Dispatch.

Lemma narrowed_refl ob : narrowed ob ob.
Proof. destruct ob; cbn; auto. Qed.

Lemma inv_shrink st st' :
  evm_inv st → brk st' = brk st →
  (∀ a ob', heap st' !! a = Some ob' →
            ∃ ob, heap st !! a = Some ob ∧ narrowed ob ob') →
  evm_inv st'.
Proof.
  intros [Hb Hs Hg He] Hbrk Hn. split.
  - intros a ob' Ha. destruct (Hn _ _ Ha) as (ob & Hob & _).
    rewrite Hbrk. by eapply Hb.
  - intros s sx' g Hsx' Htl.
    destruct (Hn _ _ Hsx') as (ob & Hob & Hnar).
    destruct ob as [| | | |sx| | | |]; cbn in Hnar; try done.
    destruct Hnar as [Hnar|Hnar]; [|congruence]. rewrite Htl in Hnar.
    destruct (Hs _ _ _ Hob (eq_sym Hnar)) as [Hlt Hown]. rewrite Hbrk.
    split; [done|]. intros gx' Hgx'.
    destruct (Hn _ _ Hgx') as (ob & Hob' & Hnar').
    destruct ob as [| | |gx| | | | |]; cbn in Hnar'; try done.
    destruct Hnar' as [-> _]. by eapply Hown.
  - intros g gx' e Hgx' Htl.
    destruct (Hn _ _ Hgx') as (ob & Hob & Hnar).
    destruct ob as [| | |gx| | | | |]; cbn in Hnar; try done.
    destruct Hnar as [_ [Hnar|Hnar]]; [|congruence]. rewrite Htl in Hnar.
    destruct (Hg _ _ _ Hob (eq_sym Hnar)) as [Hlt Hown]. rewrite Hbrk.
    split; [done|]. intros ex' Hex'.
    destruct (Hn _ _ Hex') as (ob & Hob' & Hnar').
    destruct ob as [| |ex| | | | | |]; cbn in Hnar'; try done.
    destruct Hnar' as [-> _]. by eapply Hown.
  - intros e ex' Hex'.
    destruct (Hn _ _ Hex') as (ob & Hob' & Hnar').
    destruct ob as [| |ex| | | | | |]; cbn in Hnar'; try done.
    destruct Hnar' as [_ ->]. by eapply He.
Qed.










Section Events.
Context {code : callbacks}.








End Events.

Section Groups.
Context {code : callbacks}.

Lemma entry_member (x : entry) (E : list entry) : x ∈ E → x.1.1 ∈ E.*1.*1.
Proof.
  intros Hx. apply list_elem_of_fmap. exists x.1. split; [done|].
  apply list_elem_of_fmap. by exists x.
Qed.

Lemma destroy_events_spec g : ∀ E fuel hd st st',
  evm_inv st → lseg (next_event st) hd E.*1.*1 →
  Forall (is_pending st g) E →
  destroy_events fuel hd st = (Done tt, st') →
  trace st' = trace st ++ destroyed E ∧ brk st' = brk st ∧
  ∀ a, heap st' !! a =
       if decide (a ∈ E.*1.*1) then None else heap st !! a.
Proof.
  induction E as [|x E IH]; intros fuel hd st st' Hinv Hl Hall Hrun.
  - apply lseg_nil_inv in Hl as ->. destruct fuel; cbn in Hrun.
    all: injection Hrun as <-; rewrite app_nil_r; split_and!; try done.
    all: intros a; destruct (decide _) as [Hin|_]; [|done].
    all: by apply elem_of_nil in Hin.
  - pose proof (lseg_NoDup _ _ _ Hl) as Hnd. cbn in Hnd.
    apply NoDup_cons in Hnd as [Hx Hnd].
    inversion Hl as [|? nx ? Hn Hl']; subst.
    apply next_event_inv in Hn as (ex & Hex & <-).
    apply Forall_cons in Hall as [Hpx Hall].
    destruct fuel as [|fuel]; [done|]. cbn [destroy_events] in Hrun.
    apply bind_ok in Hrun as (ex1 & st1 & Hex1 & Hrun).
    apply get_event_ok in Hex1 as [Hex1 ->].
    assert (ex1 = ex) as -> by congruence.
    apply bind_ok in Hrun as (? & st1 & Hdes & Hrun).
    destruct (destroy_event_spec _ _ _ _ _ Hinv Hex Hdes)
      as (Htr & Hh & Hbrk).
    assert (evm_inv st1) as Hinv1.
    { eapply inv_shrink; [done|done|]. intros a ob' Ha. exists ob'.
      rewrite Hh in Ha. destruct (decide (x.1.1 = a)); [done|].
      split; [done|apply narrowed_refl]. }
    assert (∀ a, a ∈ E.*1.*1 → heap st1 !! a = heap st !! a) as Hfr.
    { intros a Ha. rewrite Hh. destruct (decide (x.1.1 = a)); [|done].
      by subst a. }
    destruct (IH fuel (e_next ex) st1 st' Hinv1) as (Htr' & Hbrk' & Hh').
    { eapply lseg_ext; [|exact Hl']. intros a Ha.
      apply next_event_heap. by apply Hfr. }
    { apply Forall_forall. intros y Hy. rewrite Forall_forall in Hall.
      destruct (Hall _ Hy) as (yx & Hyx & HH). exists yx. split; [|done].
      rewrite Hfr; [done|]. by apply entry_member. }
    { done. }
    destruct Hpx as (ex' & Hex' & _ & Hd & Hc & Hu).
    assert (ex' = ex) as -> by congruence.
    split_and!.
    + rewrite Htr', Htr, <- (assoc_L app). f_equal. cbn. f_equal.
      unfold destroy_obs. rewrite Hc, Hd, Hu. done.
    + congruence.
    + intros a. rewrite Hh', Hh. cbn.
      destruct (decide (a ∈ E.*1.*1)) as [Hin|Hnin].
      * rewrite decide_True; [done|set_solver].
      * destruct (decide (x.1.1 = a)) as [<-|Hne].
        -- rewrite decide_True; [done|set_solver].
        -- rewrite decide_False; [done|]. set_solver.
Qed.

Lemma destroy_grp_spec g E st st' :
  evm_inv st → pending st g E →
  evm_destroy_grp (Some g) st = (Done tt, st') →
  evm_inv st' ∧ trace st' = trace st ++ destroyed E ∧ brk st' = brk st ∧
  ∀ a, heap st' !! a =
       if decide (a = g ∨ a ∈ E.*1.*1) then None else heap st !! a.
Proof.
  intros Hinv [(hd & tl & Hends & Hl & _) Hall] Hrun.
  apply ends_grp in Hends as (gx & Hgx & -> & _). cbn in Hl.
  unfold evm_destroy_grp in Hrun.
  apply bind_ok in Hrun as (gx1 & st1 & Hgx1 & Hrun).
  apply get_grp_ok in Hgx1 as [Hgx1 ->].
  assert (gx1 = gx) as -> by congruence.
  apply bind_ok in Hrun as (fuel & st1 & Hfuel & Hrun).
  apply bound_ok in Hfuel as [_ ->].
  apply bind_ok in Hrun as ([] & st1 & Hdes & Hrun).
  destruct (destroy_events_spec _ _ _ _ _ _ Hinv Hl Hall Hdes)
    as (Htr & Hbrk & Hh).
  cbn [FREE] in Hrun. apply release_ok in Hrun as [_ ->].
  assert (∀ a, heap (del g st1) !! a =
               if decide (a = g ∨ a ∈ E.*1.*1) then None
               else heap st !! a) as Hh'.
  { intros a. rewrite heap_del, Hh.
    destruct (decide (g = a)) as [<-|Hne].
    - rewrite decide_True; [done|by left].
    - destruct (decide (a ∈ E.*1.*1)).
      + rewrite decide_True; [done|by right].
      + rewrite decide_False; [done|]. intros [?|?]; congruence. }
  split_and!; try done.
  eapply inv_shrink; [exact Hinv|done|]. intros a ob' Ha. exists ob'.
  rewrite Hh' in Ha. destruct (decide _); [done|].
  split; [done|apply narrowed_refl].
Qed.


End Groups.

Section Sessions.
Context {code : callbacks}.





Lemma appended_destroyed s E : appended s (destroyed E) = [].
Proof.
  induction E as [|x E IH]; [done|].
  change (appended s ((match x.1.2 with
    | Some cb => [OEventDestroy cb x.1.1 false x.2] | None => [] end)
    ++ destroyed E) = []).
  rewrite appended_app, IH. by destruct (x.1.2).
Qed.





End Sessions.

Section Generations.
Context {code : callbacks}.





End Generations.

Section Process.
Context {code : callbacks}.


(** A session callback leaves calls of itself and the marks of the calls
    it makes. *)
Lemma call_session_cb_winding cb s d u st r st' :
  call_session_cb cb s d u st = (Done r, st') →
  ∃ tr, trace st' = trace st ++ tr ∧ Forall winding tr.
Proof.
  intros Hrun.
  pose (I := λ x : evm_t, ∃ tr, trace x = trace st ++ tr ∧ Forall winding tr).
  assert (∀ o x, winding o → I x → I (emit o x)) as Hemit.
  { intros o x Ho (tr & Htr & Hw). exists (tr ++ [o]). cbn.
    rewrite Htr, (assoc_L app). split; [done|]. apply Forall_app.
    split; [done|]. by repeat constructor. }
  assert (keeps I (call_session_cb cb s d u)) as Hk.
  { apply keeps_call_session_cb; unfold I; try done.
    - intros x. by apply Hemit.
    - intros ? ? ? ? x. by apply Hemit.
    - intros ? ? ? ? x. by apply Hemit. }
  apply (Hk st (Done r) st'); [|done]. exists []. by rewrite app_nil_r.
Qed.

Lemma destroy_session_spec s L st st' :
  evm_inv st →
  (queue st (SessionQ s) [] ∧ L = []) ∨ (∃ n d, ready st s n d L) →
  evm_destroy_session (Some s) st = (Done tt, st') →
  ∃ tr, trace st' = trace st ++ destroyed L ++ tr ∧ Forall winding tr.
Proof.
  intros Hinv Hst Hrun. unfold evm_destroy_session in Hrun.
  apply bind_ok in Hrun as (sx & st1 & Hsx & Hrun).
  apply get_session_ok in Hsx as [Hsx ->].
  apply bind_ok in Hrun as (fuel & st1 & Hfuel & Hrun).
  apply bound_ok in Hfuel as [_ ->].
  apply bind_ok in Hrun as ([] & st1 & Hgrps & Hrun).
  assert (trace st1 = trace st ++ destroyed L) as Htr1.
  { destruct Hst as [[Hq ->]|(n & d & [Hq Hg Hp])].
    - apply session_queue_nil in Hq as (sx0 & Hsx0 & Hhd & _).
      assert (sx0 = sx) as -> by congruence. rewrite Hhd in Hgrps.
      destruct fuel; cbn in Hgrps; injection Hgrps as <-;
        by rewrite app_nil_r.
    - apply session_queue_one in Hq
        as (sx0 & nx & Hsx0 & Hhd & _ & Hnx & Hnxt).
      assert (sx0 = sx) as -> by congruence. rewrite Hhd in Hgrps.
      destruct fuel as [|fuel]; [done|]. cbn [destroy_grps] in Hgrps.
      apply bind_ok in Hgrps as (nx1 & st2 & Hnx1 & Hgrps).
      apply get_grp_ok in Hnx1 as [Hnx1 ->].
      assert (nx1 = nx) as -> by congruence.
      apply bind_ok in Hgrps as ([] & st2 & Hdes & Hgrps).
      destruct (destroy_grp_spec _ _ _ _ Hinv Hp Hdes) as (_ & Htr & _).
      rewrite Hnxt in Hgrps.
      destruct fuel; cbn in Hgrps; by injection Hgrps as <-. }
  apply bind_ok in Hrun as (sx1 & st2 & Hsx1 & Hrun).
  apply get_session_ok in Hsx1 as [_ ->].
  apply bind_ok in Hrun as (? & st2 & Hcb & Hrun).
  cbn [FREE] in Hrun. apply release_ok in Hrun as [_ ->].
  destruct (s_cb sx1) as [cb|].
  - apply bind_ok in Hcb as (h & st3 & Hcb & Hret).
    apply ret_ok in Hret as [_ ->].
    apply call_session_cb_winding in Hcb as (tr & Htr & Hw).
    exists tr. split; [|done]. cbn. by rewrite Htr, Htr1, (assoc_L app).
  - apply ret_ok in Hcb as [_ ->]. exists []. split; [|done].
    cbn. by rewrite Htr1, !app_nil_r.
Qed.




End Process.



Lemma queue_null_iff st q l hd tl :
  queue st q l → queue_ends st q = Some (hd, tl) →
  (hd = None ↔ tl = None).
Proof.
  intros (hd' & tl' & Hends & Hl & ->) Hends'. rewrite Hends in Hends'.
  injection Hends' as -> <-. apply lseg_head in Hl as ->.
  destruct l as [|a l]; [done|]. split; [done|].
  intros Hlast. exfalso.
  assert (is_Some (last (a :: l))) as [t Ht]; [|congruence].
  clear. revert a. induction l as [|b l IH]; intros a; [by eexists|].
  apply (IH b).
Qed.

(** C10.  A queue of the engine that holds [l], front first, has both its
    ends NULL or neither; pushing a new element leaves it holding [l]
    followed by the element, and popping returns the first element of [l],
    NULL when there is none, and leaves the rest.  The queue is that of the
    sessions of a context, of the groups of a session or of the events of a
    group. *)
Theorem queue_fifo (st : evm_t) (q : queue_id) (l : list addr) :
  queue st q l →
  (∀ hd tl, queue_ends st q = Some (hd, tl) → (hd = None ↔ tl = None)) ∧
  (∀ x, queue_next st q x = Some None → x ∉ l →
     ∃ st', push q (Some x) st = (Done (Some x), st') ∧
            queue st' q (l ++ [x]) ∧
            ∀ hd tl, queue_ends st' q = Some (hd, tl) →
                     (hd = None ↔ tl = None)) ∧
  (∃ st', pop q st = (Done (head l), st') ∧ queue st' q (tail l) ∧
          ∀ hd tl, queue_ends st' q = Some (hd, tl) →
                   (hd = None ↔ tl = None)).
Proof.
  intros Hq. split_and!.
  - intros hd tl. by apply queue_null_iff with l.
  - intros x Hx Hnin. destruct q as [c|s|g]; cbn [queue_next] in Hx; cbn [push].
    + destruct (ctx_push_spec _ _ _ _ Hq Hx Hnin) as (st' & Hrun & Hq' & _).
      exists st'. split_and!; [done..|]. intros hd tl.
      by apply (queue_null_iff _ _ _ _ _ Hq').
    + destruct (session_push_spec _ _ _ _ Hq Hx Hnin)
        as (st' & Hrun & Hq' & _).
      exists st'. split_and!; [done..|]. intros hd tl.
      by apply (queue_null_iff _ _ _ _ _ Hq').
    + destruct (grp_push_spec _ _ _ _ Hq Hx Hnin) as (st' & Hrun & Hq' & _).
      exists st'. split_and!; [done..|]. intros hd tl.
      by apply (queue_null_iff _ _ _ _ _ Hq').
  - destruct q as [c|s|g]; cbn [pop].
    + destruct (ctx_pop_spec _ _ _ Hq) as (st' & Hrun & Hq' & _).
      exists st'. split_and!; [done..|]. intros hd tl.
      by apply (queue_null_iff _ _ _ _ _ Hq').
    + destruct (session_pop_spec _ _ _ Hq) as (st' & Hrun & Hq' & _).
      exists st'. split_and!; [done..|]. intros hd tl.
      by apply (queue_null_iff _ _ _ _ _ Hq').
    + destruct (grp_pop_spec _ _ _ Hq) as (st' & Hrun & Hq' & _).
      exists st'. split_and!; [done..|]. intros hd tl.
      by apply (queue_null_iff _ _ _ _ _ Hq').
Qed.

(** C9, as the code has it.  [evm_initialize] takes a count of zero
    workers for a count of one: the call returns, with NULL when a
    resource is refused and otherwise with a context that has one
    worker. *)
Theorem initialize_zero_workers (mfreq : Z) (st : evm_t) :
  evm_initialize 0 mfreq st = evm_initialize 1 mfreq st ∧
  safe (evm_initialize 0 mfreq) st (λ r st',
    ∃ tr, trace st' = trace st ++ tr ∧
          (r = None ∧ tr = [ORefused] ∨
           tr = [] ∧ ∃ c cx, r = Some c ∧ heap st' !! c = Some (Ctx cx) ∧
                             c_wcnt cx = 1)).
Proof.
  assert (evm_initialize 0 mfreq st = evm_initialize 1 mfreq st) as Heq
    by done.
  split; [done|]. unfold safe. rewrite Heq. apply initialize_run.
Qed.

(** C9, as the specification has it, fails: with memory and threads at
    hand the call with a count of zero returns a context. *)
Lemma initialize_zero_returns_context :
  ∃ st', evm_initialize 0 300 (boot []) = (Done (Some 0%nat), st').
Proof. eexists. vm_compute. reflexivity. Qed.

(** *** The scenario *)

Lemma heap_listed st l a ob :
  map_to_list (heap st) = l → heap st !! a = Some ob → (a, ob) ∈ l.
Proof. intros <- H. by apply elem_of_map_to_list. Qed.

Ltac heap_cases st H :=
  let l := eval vm_compute in (map_to_list (heap st)) in
  let HH := fresh in
  pose proof (heap_listed st l _ _ ltac:(vm_compute; reflexivity) H) as HH;
  clear H; rename HH into H;
  repeat (apply elem_of_cons in H as [H|H]);
  [..|exfalso; exact (proj1 (elem_of_nil _) H)].

Ltac concrete := vm_compute; reflexivity.

Lemma evm_started_inv : evm_inv evm_started.
Proof.
  assert (brk evm_started = 9%nat) as Hbrk by concrete.
  split.
  - intros a ob H. rewrite Hbrk. heap_cases evm_started H.
    all: injection H as -> _; lia.
  - intros s sx g H Htl. rewrite Hbrk. heap_cases evm_started H.
    all: try discriminate H.
    injection H as -> ->. injection Htl as <-. split; [lia|].
    intros gx Hg. vm_compute in Hg. by injection Hg as <-.
  - intros g gx e H Htl. rewrite Hbrk. heap_cases evm_started H.
    all: try discriminate H.
    injection H as -> ->. injection Htl as <-. split; [lia|].
    intros ex He. vm_compute in He. by injection He as <-.
  - intros e ex H. heap_cases evm_started H.
    all: try discriminate H.
    by injection H as -> ->.
Qed.

Lemma evm_started_ready : ready evm_started 6 7 0 [(8%nat, Some 3, 20)].
Proof.
  split.
  - apply session_queue_one. eexists _, _. split_and!; concrete.
  - eexists. split_and!; concrete.
  - split.
    + exists (Some 8%nat), (Some 8%nat). split_and!; [concrete| |done].
      cbn. econstructor; [concrete|constructor].
    + constructor; [|constructor]. eexists. split_and!; concrete.
Qed.



Lemma queue_fifo_witness :
  queue evm_started (GrpQ 7) [8%nat] ∧
  ∃ st', pop (GrpQ 7) evm_started = (Done (Some 8%nat), st') ∧
         queue st' (GrpQ 7) [].
Proof.
  assert (queue evm_started (GrpQ 7) [8%nat]) as Hq.
  { exists (Some 8%nat), (Some 8%nat). split_and!; [concrete| |done].
    cbn. econstructor; [concrete|constructor]. }
  split; [exact Hq|].
  destruct (queue_fifo evm_started (GrpQ 7) [8%nat] Hq)
    as (_ & _ & st' & Hpop & Hq' & _).
  exists st'. split; [exact Hpop|exact Hq'].
Defined.


End EvmFacts.

Module EvmProps.
Import Evm EvmList EvmFacts.

(** *** Looking up and registering event types *)

Lemma lseg_below next st hd L :
  below st → (∀ a, is_Some (next a) → is_Some (heap st !! a)) →
  lseg next hd L → (length L ≤ brk st)%nat.
Proof.
  intros Hb Hnext Hl. apply StoreFacts.NoDup_length_bound.
  - by eapply lseg_NoDup.
  - intros a Ha. destruct (Hnext a (lseg_member _ _ _ _ Hl Ha)) as [ob Hob].
    by eapply Hb.
Qed.

Lemma next_def_inv st a n :
  next_def st a = Some n → ∃ x, heap st !! a = Some (Def x) ∧ d_next x = n.
Proof.
  unfold next_def. destruct (heap st !! a) as [[]|]; try done.
  intros [= <-]. eauto.
Qed.

Lemma find_def_from_run st eid : ∀ L fuel hd,
  lseg (next_def st) hd L → (length L ≤ fuel)%nat →
  find_def_from fuel hd eid st = (Done (first_def st L eid), st).
Proof.
  induction L as [|d L IH]; intros fuel hd Hl Hlen.
  - apply lseg_nil_inv in Hl as ->. by destruct fuel.
  - inversion Hl as [|? n ? Hn Hl']; subst.
    apply next_def_inv in Hn as (dx & Hdx & <-).
    destruct fuel as [|fuel]; [cbn in Hlen; lia|].
    cbn [find_def_from first_def]. rewrite bind_run, (get_def_run _ dx), Hdx
      by done.
    destruct (d_eid dx =? eid); [done|]. apply IH; [done|cbn in Hlen; lia].
Qed.

Lemma find_def_run st c L eid :
  below st → def_list st c L →
  evm_find_def (Some c) eid st = (Done (first_def st L eid), st).
Proof.
  intros Hb (cx & Hc & Hl). cbn [evm_find_def].
  rewrite bind_run, (get_ctx_run _ cx) by done.
  rewrite bind_run. cbn [bound]. apply find_def_from_run; [done|].
  eapply lseg_below; [done| |done].
  intros a [n Hn]. apply next_def_inv in Hn as (x & Hx & _). eauto.
Qed.

Lemma first_def_frame st st' L eid :
  (∀ d, d ∈ L → ∀ dx, heap st !! d = Some (Def dx) →
        ∃ dx', heap st' !! d = Some (Def dx') ∧ d_eid dx' = d_eid dx) →
  (∀ d, d ∈ L → ∃ dx, heap st !! d = Some (Def dx)) →
  first_def st' L eid = first_def st L eid.
Proof.
  induction L as [|d L IH]; intros Hfr Hal; [done|]. cbn.
  destruct (Hal d) as (dx & Hdx); [set_solver|].
  destruct (Hfr d ltac:(set_solver) dx Hdx) as (dx' & Hdx' & Heid).
  rewrite Hdx, Hdx', Heid. destruct (_ =? _); [done|].
  apply IH; intros; [apply Hfr|apply Hal]; set_solver.
Qed.

Lemma register_type_run st c L eid f :
  below st → def_list st c L →
  match first_def st L eid with
  | Some _ => evm_register_type (Some c) eid f st = (Done false, st)
  | None =>
    ∃ r st', evm_register_type (Some c) eid f st = (Done r, st') ∧
      if r then
        def_list st' c (brk st :: L) ∧
        first_def st' (brk st :: L) eid = Some (brk st) ∧
        (∃ dx, heap st' !! brk st = Some (Def dx) ∧ d_eid dx = eid ∧
               d_formatter dx = f ∧ d_ctx dx = Some c ∧
               d_listeners dx = None) ∧
        (∀ a, a ≠ c → a ≠ brk st → heap st' !! a = heap st !! a) ∧
        trace st' = trace st
      else heap st' = heap st ∧ trace st' = trace st ++ [ORefused]
  end.
Proof.
  intros Hb Hdefs. pose proof Hdefs as (cx & Hc & Hl).
  unfold evm_register_type. cbn [or_singleton].
  destruct (first_def st L eid) as [d|] eqn:Hfirst.
  - rewrite bind_run, ret_run, bind_run, (find_def_run _ _ L) by done.
    by rewrite Hfirst.
  - rewrite bind_run, ret_run, bind_run, (find_def_run _ _ L) by done.
    rewrite Hfirst. unfold evm_create_def.
    set (new := Def (mk_def eid f (Some c) None None)).
    assert (safe (ALLOC new) st (λ r st',
      ∃ o, (r = Some (brk st) ∧ st' = alloc new (with_oracle o st)) ∨
           (r = None ∧ st' = emit ORefused (with_oracle o st)))) as Hs.
    { apply safe_ALLOC; intros o; exists o; [by left|by right]. }
    destruct Hs as (r & st1 & Hrun & o & [[-> ->]|[-> ->]]).
    + set (d := brk st) in *. exists true.
      set (st1 := alloc new (with_oracle o st)).
      assert (c ≠ d) as Hcd.
      { intros Heq. apply Hb in Hc. unfold d in Heq. lia. }
      assert (heap st1 !! c = Some (Ctx cx)) as Hc1.
      { unfold st1. rewrite heap_alloc. cbn [brk with_oracle]. fold d.
        destruct (decide (d = c)); [congruence|done]. }
      set (st2 := put c (Ctx (set_c_defs (Some d) cx)) st1).
      set (nd := mk_def eid f (Some c) None (c_defs cx)).
      set (st3 := put d (Def nd) st2).
      exists st3. split.
      { rewrite bind_run, Hrun. cbv beta iota.
        rewrite bind_run, (get_ctx_run _ cx) by done.
        rewrite bind_run, (upd_ctx_run _ _ cx) by done.
        rewrite bind_run. fold st2.
        rewrite (upd_def_run _ _ (mk_def eid f (Some c) None None)).
        - done.
        - unfold st2. rewrite heap_put_ne by done. unfold st1.
          rewrite heap_alloc. cbn [brk with_oracle]. fold d.
          by destruct (decide (d = d)). }
      assert (∀ a, a ≠ c → a ≠ d → heap st3 !! a = heap st !! a) as Hfr.
      { intros a Hac Had. unfold st3, st2, st1.
        rewrite !heap_put_ne by done. rewrite heap_alloc.
        cbn [brk with_oracle]. fold d.
        destruct (decide (d = a)); [congruence|done]. }
      assert (heap st3 !! d = Some (Def nd)) as Hd3.
      { unfold st3. by rewrite heap_put_eq. }
      assert (∀ a, a ∈ L → a ≠ c ∧ a ≠ d) as HL.
      { intros a Ha. destruct (lseg_member _ _ _ _ Hl Ha) as [n Hn].
        apply next_def_inv in Hn as (x & Hx & _). split.
        - intros ->. congruence.
        - intros ->. apply Hb in Hx. unfold d in Hx. lia. }
      split_and!.
      * exists (set_c_defs (Some d) cx). split.
        { unfold st3, st2. rewrite heap_put_ne, heap_put_eq by done. done. }
        cbn. econstructor.
        { unfold next_def. rewrite Hd3. done. }
        cbn. eapply lseg_ext; [|exact Hl]. intros a Ha.
        destruct (HL a Ha). unfold next_def. by rewrite Hfr.
      * cbn [first_def]. fold d. rewrite Hd3. unfold nd. cbn [d_eid].
        by rewrite Z.eqb_refl.
      * exists nd. by split_and!.
      * done.
      * done.
    + exists false, (emit ORefused (with_oracle o st)). split; [|done].
      rewrite bind_run, Hrun. done.
Qed.

(** *** Starting a session *)

Ltac hlook :=
  repeat match goal with x := _ : nat |- _ => subst x end;
  repeat match goal with x := _ : evm_t |- _ => subst x end;
  repeat first
    [ rewrite heap_put | rewrite heap_alloc | rewrite heap_del
    | rewrite heap_emit | rewrite heap_with_oracle ];
  cbn [brk put alloc del emit with_oracle];
  repeat (destruct (decide _) as [?|?]; try lia);
  try reflexivity.

Lemma start_session_run st c L eid d Q data ecb cb u s st' :
  evm_inv st → def_list st c L → first_def st L eid = Some d →
  queue st (CtxQ c) Q →
  evm_start_session (Some c) eid data ecb cb u st = (Done (Some s), st') →
  s = brk st ∧ evm_inv st' ∧
  ready st' s (S s) 0 [(S (S s), ecb, u)] ∧
  queue st' (CtxQ c) (Q ++ [s]) ∧ trace st' = trace st ∧
  (∃ sx, heap st' !! s = Some (Session sx) ∧ s_ctx sx = Some c ∧
         s_cb sx = cb ∧ s_user sx = u) ∧
  (∃ ex, heap st' !! S (S s) = Some (Event ex) ∧ e_def ex = Some d ∧
         e_data ex = data).
Proof.
  intros Hinv Hdefs Hfirst Hq Hrun.
  pose proof (start_session_grown _ _ _ _ _ _ _ _ _ Hinv Hrun) as (Hinv' & _).
  pose proof (inv_below _ Hinv) as Hb.
  unfold evm_start_session in Hrun. cbn [or_singleton] in Hrun.
  apply bind_ok in Hrun as (ctx' & st0 & Hret & Hrun).
  apply ret_ok in Hret as [-> ->].
  apply bind_ok in Hrun as (def & st0 & Hdef & Hrun).
  rewrite (find_def_run _ _ L) in Hdef by done.
  injection Hdef as <- <-. rewrite Hfirst in Hrun.
  apply bind_ok in Hrun as (r1 & st1 & Hs & Hrun).
  unfold evm_create_session in Hs.
  apply ALLOC_ok in Hs as [o1 [[-> ->]|[-> ->]]];
    [|by apply ret_ok in Hrun as [? _]].
  set (s0 := brk st) in *.
  set (sx0 := mk_session (Some c) None None cb u None) in *.
  set (st1 := alloc (Session sx0) (with_oracle o1 st)) in *.
  apply bind_ok in Hrun as (r2 & st2 & Hg & Hrun).
  unfold evm_create_grp in Hg.
  apply ALLOC_ok in Hg as [o2 [[-> ->]|[-> ->]]].
  2:{ apply bind_ok in Hrun as (p & st2 & Hp & Hrun).
      apply ret_ok in Hp as [-> ->].
      apply bind_ok in Hrun as (? & st2 & _ & Hrun).
      by apply ret_ok in Hrun as [? _]. }
  set (gx0 := mk_grp (Some s0) 0 None None None) in *.
  set (st2 := alloc (Grp gx0) (with_oracle o2 st1)) in *.
  assert (brk st1 = S s0) as Hbrk1 by done.
  rewrite Hbrk1 in Hrun. set (g := S s0) in *.
  apply bind_ok in Hrun as (pushed & st3 & Hpush & Hrun).
  assert (heap st2 !! s0 = Some (Session sx0)) as Hs2 by hlook.
  apply session_push_inv in Hpush
    as (-> & sx & Hsx & [[_ ->]|(t & tx & Ht & _)]).
  2:{ rewrite Hs2 in Hsx. by injection Hsx as <-. }
  rewrite Hs2 in Hsx. injection Hsx as <-.
  set (sx1 := set_s_head (Some g) sx0) in *.
  set (sx2 := set_s_tail (Some g) sx1) in *.
  set (st3 := put s0 (Session sx2) (put s0 (Session sx1) st2)) in *.
  apply bind_ok in Hrun as (r3 & st4 & He & Hrun).
  unfold evm_create_event in He.
  apply ALLOC_ok in He as [o3 [[-> ->]|[-> ->]]].
  2:{ apply bind_ok in Hrun as (p & st4 & Hp & Hrun).
      apply ret_ok in Hp as [-> ->].
      apply bind_ok in Hrun as (? & st4 & _ & Hrun).
      apply bind_ok in Hrun as (? & st5 & _ & Hrun).
      by apply ret_ok in Hrun as [? _]. }
  assert (brk st3 = S g) as Hbrk3 by done.
  rewrite Hbrk3 in Hrun. set (e := S g) in *.
  set (ex0 := mk_event (Some d) data false (Some g) ecb u None None) in *.
  set (st4 := alloc (Event ex0) (with_oracle o3 st3)) in *.
  apply bind_ok in Hrun as (pushed & st5 & Hpush & Hrun).
  assert (heap st4 !! g = Some (Grp gx0)) as Hg4.
  { hlook. }
  apply grp_push_inv in Hpush
    as (-> & gx & Hgx & [[_ ->]|(t & tx & Ht & _)]).
  2:{ rewrite Hg4 in Hgx. by injection Hgx as <-. }
  rewrite Hg4 in Hgx. injection Hgx as <-.
  set (gx1 := set_g_head (Some e) gx0) in *.
  set (gx2 := set_g_tail (Some e) gx1) in *.
  set (st5 := put g (Grp gx2) (put g (Grp gx1) st4)) in *.
  apply bind_ok in Hrun as (queued & st6 & Hqueue & Hrun).
  assert (∀ a, (a < s0)%nat → heap st5 !! a = heap st !! a) as Hold.
  { intros a Ha. hlook. }
  assert (heap st5 !! s0 = Some (Session sx2)) as Hs5.
  { hlook. }
  assert (heap st5 !! g = Some (Grp gx2)) as Hg5.
  { hlook. }
  assert (heap st5 !! e = Some (Event ex0)) as He5.
  { hlook. }
  assert (∀ a, a ∈ Q → (a < s0)%nat) as HQ.
  { intros a Ha. destruct Hq as (hd & tl & _ & Hl & _).
    destruct (lseg_member _ _ _ _ Hl Ha) as [n Hn].
    apply next_session_inv in Hn as (x & Hx & _). by eapply Hb. }
  assert (c < s0)%nat as Hc.
  { destruct Hdefs as (cx & Hcx & _). by eapply Hb. }
  assert (queue st5 (CtxQ c) Q) as Hq5.
  { eapply queue_frame; [..|exact Hq].
    - cbn. by rewrite Hold.
    - intros a Ha. cbn. unfold next_session. rewrite Hold; [done|by apply HQ]. }
  destruct (ctx_push_spec st5 c s0 Q Hq5)
    as (st7 & Hrun7 & Hq7 & Hfr7 & _ & _ & Htr7 & _).
  { unfold next_session. by rewrite Hs5. }
  { intros Hin. apply HQ in Hin. lia. }
  rewrite Hrun7 in Hqueue. injection Hqueue as <- <-.
  apply ret_ok in Hrun as [Hs ->]. injection Hs as ->.
  assert (∀ a, (s0 ≤ a)%nat → heap st7 !! a = heap st5 !! a) as Hnew.
  { intros a Ha. apply Hfr7; [lia|]. intros Hlast.
    apply last_Some_elem_of in Hlast. apply HQ in Hlast. lia. }
  split; [done|]. split; [done|].
  change (S s0) with g. change (S g) with e. split_and!.
  - split.
    + apply session_queue_one. exists sx2, gx2.
      rewrite !Hnew by (unfold g; lia). by split_and!.
    + exists gx2. rewrite Hnew by (unfold g; lia). by split_and!.
    + split.
      * exists (Some e), (Some e). cbn [queue_ends queue_next].
        rewrite Hnew by (unfold g; lia).
        rewrite Hg5. split; [done|]. split; [|done]. cbn [fmap list_fmap fst].
        econstructor; [|constructor]. unfold next_event.
        rewrite Hnew by (unfold e, g; lia). by rewrite He5.
      * constructor; [|constructor]. exists ex0. cbn [fst snd].
        rewrite Hnew by (unfold e, g; lia). by split_and!.
  - done.
  - done.
  - exists sx2. rewrite Hnew by lia. by split_and!.
  - exists ex0. rewrite Hnew by (unfold e, g; lia). by split_and!.
Qed.

(** *** The worker *)

Lemma inv_settled st st' :
  evm_inv st → brk st' = brk st →
  (∀ a ob', heap st' !! a = Some ob' →
            ∃ ob, heap st !! a = Some ob ∧
                  (narrowed ob ob' ∨ (plain ob ∧ plain ob'))) →
  evm_inv st'.
Proof.
  intros [Hb Hs Hg He] Hbrk Hn. split.
  - intros a ob' Ha. destruct (Hn _ _ Ha) as (ob & Hob & _).
    rewrite Hbrk. by eapply Hb.
  - intros s sx' g Hsx' Htl.
    destruct (Hn _ _ Hsx') as (ob & Hob & [Hnar|[_ Hpl]]); [|done].
    destruct ob as [| | | |sx| | | |]; cbn in Hnar; try done.
    destruct Hnar as [Hnar|Hnar]; [|congruence]. rewrite Htl in Hnar.
    destruct (Hs _ _ _ Hob (eq_sym Hnar)) as [Hlt Hown]. rewrite Hbrk.
    split; [done|]. intros gx' Hgx'.
    destruct (Hn _ _ Hgx') as (ob & Hob' & [Hnar'|[_ Hpl]]); [|done].
    destruct ob as [| | |gx| | | | |]; cbn in Hnar'; try done.
    destruct Hnar' as [-> _]. by eapply Hown.
  - intros g gx' e Hgx' Htl.
    destruct (Hn _ _ Hgx') as (ob & Hob & [Hnar|[_ Hpl]]); [|done].
    destruct ob as [| | |gx| | | | |]; cbn in Hnar; try done.
    destruct Hnar as [_ [Hnar|Hnar]]; [|congruence]. rewrite Htl in Hnar.
    destruct (Hg _ _ _ Hob (eq_sym Hnar)) as [Hlt Hown]. rewrite Hbrk.
    split; [done|]. intros ex' Hex'.
    destruct (Hn _ _ Hex') as (ob & Hob' & [Hnar'|[_ Hpl]]); [|done].
    destruct ob as [| |ex| | | | | |]; cbn in Hnar'; try done.
    destruct Hnar' as [-> _]. by eapply Hown.
  - intros e ex' Hex'.
    destruct (Hn _ _ Hex') as (ob & Hob' & [Hnar'|[_ Hpl]]); [|done].
    destruct ob as [| |ex| | | | | |]; cbn in Hnar'; try done.
    destruct Hnar' as [_ ->]. by eapply He.
Qed.



Section Worker.
Context {code : callbacks}.


Lemma worker_idle c fuel st :
  queue st (CtxQ c) [] → evm_worker fuel (Some c) st = (Done tt, st).
Proof.
  intros (hd & tl & Hends & Hl & _). apply lseg_nil_inv in Hl as ->.
  apply ends_ctx in Hends as (cx & Hcx & Hhd & _).
  cbn [evm_worker evm_ctx_pop_session].
  rewrite bind_run, bind_run, (get_ctx_run _ cx) by done.
  by rewrite <- Hhd.
Qed.

End Worker.

(** *** Properties of the event engine *)

(** [evm_find_def] returns the first definition in the list of the
    context that has the event type asked for, NULL when there is none, and
    changes nothing. *)
Theorem find_def_first `{callbacks} (st : evm_t) (c : addr) (L : list addr)
    (eid : Z) :
  reachable st → def_list st c L →
  evm_find_def (Some c) eid st = (Done (first_def st L eid), st).
Proof.
  intros Hreach Hdefs. apply find_def_run; [|done].
  by apply reachable_below.
Qed.

Lemma reachable_listening : @reachable (code_demo false) evm_listening.
Proof. exists [], evm_set_up. vm_compute. reflexivity. Qed.

Lemma def_list_listening : def_list evm_listening 0 [4%nat].
Proof.
  eexists. split; [vm_compute; reflexivity|]. cbn [c_defs].
  econstructor; [vm_compute; reflexivity|constructor].
Qed.

Lemma find_def_first_witness :
  evm_find_def (Some 0%nat) 5 evm_listening =
    (Done (first_def evm_listening [4%nat] 5), evm_listening).
Proof.
  apply (@find_def_first (code_demo false) evm_listening 0%nat [4%nat] 5).
  - exact reachable_listening.
  - exact def_list_listening.
Defined.

(** [evm_register_type] for an event type the context has no definition
    of: when it returns true the new definition is the first of the list,
    the definitions that were there follow it unchanged, [evm_find_def]
    finds the new one for that type and what it found before for the other
    types, and a second registration of the type returns false and changes
    nothing.  When it returns false a request for memory was refused and
    the heap is as it was.  For an event type that has a definition
    [evm_register_type] returns false and changes nothing. *)
Theorem register_type_once `{callbacks} (st : evm_t) (c : addr)
    (L : list addr) (eid : Z) (f : option Z) :
  reachable st → def_list st c L →
  (first_def st L eid ≠ None →
   evm_register_type (Some c) eid f st = (Done false, st)) ∧
  (first_def st L eid = None →
   ∃ r st', evm_register_type (Some c) eid f st = (Done r, st') ∧
     if r then
       def_list st' c (brk st :: L) ∧
       evm_find_def (Some c) eid st' = (Done (Some (brk st)), st') ∧
       (∀ eid', eid' ≠ eid →
          evm_find_def (Some c) eid' st' = (Done (first_def st L eid'), st')) ∧
       (∀ f', evm_register_type (Some c) eid f' st' = (Done false, st')) ∧
       trace st' = trace st
     else heap st' = heap st ∧ trace st' = trace st ++ [ORefused]).
Proof.
  intros Hreach Hdefs. pose proof (reachable_below _ Hreach) as Hb.
  pose proof (register_type_run st c L eid f Hb Hdefs) as Hrun.
  split.
  - intros Hsome. by destruct (first_def st L eid).
  - intros Hnone. rewrite Hnone in Hrun.
    destruct Hrun as (r & st' & Hrun & Hres). exists r, st'.
    split; [done|]. destruct r; [|done].
    destruct Hres as (Hdefs' & Hfirst' & (dx & Hdx & Heid & _) & Hfr & Htr).
    pose proof (steady_register_type _ _ _ _ _ _ Hb Hrun) as (Hb' & _).
    split_and!; try done.
    + by rewrite (find_def_run _ _ _ _ Hb' Hdefs'), Hfirst'.
    + intros eid' Hne. rewrite (find_def_run _ _ _ _ Hb' Hdefs').
      do 2 f_equal. cbn [first_def]. rewrite Hdx, Heid.
      destruct (Z.eqb_spec eid eid'); [congruence|].
      destruct Hdefs as (cx & Hc & Hl).
      apply first_def_frame.
      * intros d Hd dx0 Hdx0. exists dx0. split; [|done].
        rewrite Hfr; [done|intros ->; congruence|].
        intros ->. apply Hb in Hdx0. lia.
      * intros d Hd. destruct (lseg_member _ _ _ _ Hl Hd) as [n0 Hn0].
        apply next_def_inv in Hn0 as (x & Hx & _). eauto.
    + intros f'.
      pose proof (register_type_run st' c _ eid f' Hb' Hdefs') as Hrun'.
      by rewrite Hfirst' in Hrun'.
Qed.

Lemma register_type_once_witness :
  ∃ r st', evm_register_type (Some 0%nat) 6 None evm_listening
             = (Done r, st') ∧
    if r then
      def_list st' 0 (brk evm_listening :: [4%nat]) ∧
      evm_find_def (Some 0%nat) 6 st' = (Done (Some (brk evm_listening)), st') ∧
      (∀ eid', eid' ≠ 6 →
         evm_find_def (Some 0%nat) eid' st'
         = (Done (first_def evm_listening [4%nat] eid'), st')) ∧
      (∀ f', evm_register_type (Some 0%nat) 6 f' st' = (Done false, st')) ∧
      trace st' = trace evm_listening
    else heap st' = heap evm_listening ∧
         trace st' = trace evm_listening ++ [ORefused].
Proof.
  apply (@register_type_once (code_demo false) evm_listening 0%nat [4%nat] 6
           None reachable_listening def_list_listening).
  vm_compute. reflexivity.
Defined.

(** An event type that the context has no definition of: [evm_add_listener]
    and [evm_start_session] return NULL and [evm_session_append] returns
    false, and none of them changes anything. *)
Theorem unregistered_type_refused `{callbacks} (st : evm_t) (c : addr)
    (L : list addr) (eid data : Z) (cb dcb scb : option Z) (u : Z) :
  reachable st → def_list st c L → first_def st L eid = None →
  evm_add_listener (Some c) eid cb dcb u st = (Done None, st) ∧
  evm_start_session (Some c) eid data dcb scb u st = (Done None, st) ∧
  ∀ s sx, heap st !! s = Some (Session sx) → s_ctx sx = Some c →
          evm_session_append (Some s) eid data dcb u st = (Done false, st).
Proof.
  intros Hreach Hdefs Hnone. pose proof (reachable_below _ Hreach) as Hb.
  pose proof (find_def_run st c L eid Hb Hdefs) as Hfind.
  rewrite Hnone in Hfind. split_and!.
  - unfold evm_add_listener. cbn [or_singleton].
    rewrite bind_run, ret_run. destruct cb; [|done].
    by rewrite bind_run, Hfind.
  - unfold evm_start_session. cbn [or_singleton].
    by rewrite bind_run, ret_run, bind_run, Hfind.
  - intros s sx Hsx Hctx. cbn [evm_session_append].
    rewrite bind_run, (get_session_run _ sx) by done.
    by rewrite bind_run, Hctx, Hfind.
Qed.

Lemma unregistered_type_refused_witness :
  evm_add_listener (Some 0%nat) 6 (Some 1) None 0 evm_listening
    = (Done None, evm_listening) ∧
  evm_start_session (Some 0%nat) 6 10 None (Some 9) 0 evm_listening
    = (Done None, evm_listening) ∧
  ∀ s sx, heap evm_listening !! s = Some (Session sx) →
          s_ctx sx = Some 0%nat →
          evm_session_append (Some s) 6 10 None 0 evm_listening
          = (Done false, evm_listening).
Proof.
  apply (@unregistered_type_refused (code_demo false) evm_listening 0%nat
           [4%nat] 6 10 (Some 1) None (Some 9) 0 reachable_listening
           def_list_listening).
  vm_compute. reflexivity.
Defined.

(** [evm_start_session] that returns a session: the session is new and is
    the last of the queue of the context; it has one group, at depth 0,
    that holds one event, of the type asked for, with the data, the destroy
    callback and the user pointer given; the links of the engine are in
    order and nothing has been observed. *)
Theorem start_session_ready (st : evm_t) (c : addr) (L : list addr)
    (eid : Z) (d : addr) (Q : list addr) (data : Z) (ecb cb : option Z)
    (u : Z) (s : addr) (st' : evm_t) :
  evm_inv st → def_list st c L → first_def st L eid = Some d →
  queue st (CtxQ c) Q →
  evm_start_session (Some c) eid data ecb cb u st = (Done (Some s), st') →
  s = brk st ∧ evm_inv st' ∧
  ready st' s (S s) 0 [(S (S s), ecb, u)] ∧
  queue st' (CtxQ c) (Q ++ [s]) ∧ trace st' = trace st ∧
  (∃ sx, heap st' !! s = Some (Session sx) ∧ s_ctx sx = Some c ∧
         s_cb sx = cb ∧ s_user sx = u) ∧
  (∃ ex, heap st' !! S (S s) = Some (Event ex) ∧ e_def ex = Some d ∧
         e_data ex = data).
Proof. apply start_session_run. Qed.

Lemma evm_listening_inv : evm_inv evm_listening.
Proof.
  assert (brk evm_listening = 6%nat) as Hbrk by concrete.
  split.
  - intros a ob H. rewrite Hbrk. heap_cases evm_listening H.
    all: injection H as -> _; lia.
  - intros s sx g H Htl. heap_cases evm_listening H.
    all: discriminate H.
  - intros g gx e H Htl. heap_cases evm_listening H.
    all: discriminate H.
  - intros e ex H. heap_cases evm_listening H.
    all: discriminate H.
Qed.

Lemma start_session_ready_witness :
  6%nat = brk evm_listening ∧ evm_inv evm_started ∧
  ready evm_started 6 7 0 [(8%nat, Some 3, 20)] ∧
  queue evm_started (CtxQ 0) ([] ++ [6%nat]) ∧
  trace evm_started = trace evm_listening ∧
  (∃ sx, heap evm_started !! 6%nat = Some (Session sx) ∧
         s_ctx sx = Some 0%nat ∧ s_cb sx = Some 9 ∧ s_user sx = 20) ∧
  (∃ ex, heap evm_started !! 8%nat = Some (Event ex) ∧
         e_def ex = Some 4%nat ∧ e_data ex = 10).
Proof.
  apply (start_session_ready evm_listening 0%nat [4%nat] 5 4%nat [] 10
           (Some 3) (Some 9) 20 6%nat evm_started).
  - exact evm_listening_inv.
  - exact def_list_listening.
  - vm_compute. reflexivity.
  - exists None, None. split_and!; [concrete|constructor|reflexivity].
  - vm_compute. reflexivity.
Defined.





(** Registering a type, adding a listener and removing a listener never
    touch a session, a group or an event: whatever the outcome of the
    call, the sessions, groups and events are those of before, and nothing
    but refused requests has been observed. *)
Theorem registry_calls_leave_sessions `{callbacks} (st : evm_t)
    (ctx : option addr) (eid : Z) (f cb dcb : option Z) (u : Z)
    (l : option addr) :
  reachable st →
  steady st (evm_register_type ctx eid f st).2 ∧
  steady st (evm_add_listener ctx eid cb dcb u st).2 ∧
  steady st (evm_remove_listener ctx l st).2.
Proof.
  intros Hreach. apply reachable_below in Hreach. split_and!.
  - destruct (evm_register_type ctx eid f st) as [out st'] eqn:Hrun.
    by eapply steady_register_type.
  - destruct (evm_add_listener ctx eid cb dcb u st) as [out st'] eqn:Hrun.
    by eapply steady_add_listener.
  - destruct (evm_remove_listener ctx l st) as [out st'] eqn:Hrun.
    by eapply steady_remove_listener.
Qed.

Lemma reachable_started : @reachable (code_demo false) evm_started.
Proof.
  exists [], (evm_set_up ++ [StartSession (Some 0%nat) 5 10 (Some 3) (Some 9) 20]).
  vm_compute. reflexivity.
Qed.

Lemma registry_calls_leave_sessions_witness :
  steady evm_started (evm_register_type (Some 0%nat) 5 None evm_started).2 ∧
  steady evm_started
    (evm_add_listener (Some 0%nat) 5 (Some 2) None 0 evm_started).2 ∧
  steady evm_started
    (evm_remove_listener (Some 0%nat) (Some 5%nat) evm_started).2.
Proof.
  apply (@registry_calls_leave_sessions (code_demo false) evm_started
           (Some 0%nat) 5 None (Some 2) None 0 (Some 5%nat)).
  exact reachable_started.
Defined.

End EvmProps.

(** ** The maintenance round *)

Module EvmRegistryFacts.
Import Evm EvmList EvmRegistry EvmFacts EvmProps.

Lemma next_listener_inv st a n :
  next_listener st a = Some n →
  ∃ x, heap st !! a = Some (Listener x) ∧ l_next x = n.
Proof.
  unfold next_listener. intros H.
  destruct (heap st !! a) as [[]|]; try done. injection H as <-. eauto.
Qed.

Lemma next_listener_put_listener st b x a :
  next_listener (put b (Listener x) st) a =
  if decide (b = a) then Some (l_next x) else next_listener st a.
Proof.
  unfold next_listener. rewrite heap_put. by destruct (decide (b = a)).
Qed.

Lemma next_listener_put_def st b x a :
  next_listener (put b (Def x) st) a =
  if decide (b = a) then None else next_listener st a.
Proof.
  unfold next_listener. rewrite heap_put. by destruct (decide (b = a)).
Qed.

Lemma relinked_refl st : relinked st st.
Proof.
  split_and!; try done. intros a.
  destruct (heap st !! a) as [[lx|dx| | | | | | | ]|]; try done.
  - exists (l_next lx). by destruct lx.
  - exists (d_listeners dx). by destruct dx.
Qed.

Lemma relinked_trans st1 st2 st3 :
  relinked st1 st2 → relinked st2 st3 → relinked st1 st3.
Proof.
  intros (? & ? & ? & ? & H12) (? & ? & ? & ? & H23).
  split_and!; try congruence.
  intros a. specialize (H12 a). specialize (H23 a).
  destruct (heap st1 !! a) as [[lx|dx| | | | | | | ]|].
  - destruct H12 as [n Hn]. rewrite Hn in H23.
    destruct H23 as [m Hm]. exists m. by rewrite Hm.
  - destruct H12 as [n Hn]. rewrite Hn in H23.
    destruct H23 as [m Hm]. exists m. by rewrite Hm.
  - by rewrite H12 in H23.
  - by rewrite H12 in H23.
  - by rewrite H12 in H23.
  - by rewrite H12 in H23.
  - by rewrite H12 in H23.
  - by rewrite H12 in H23.
  - by rewrite H12 in H23.
  - by rewrite H12 in H23.
Qed.

Lemma relinked_put_listener st l lx n :
  heap st !! l = Some (Listener lx) →
  relinked st (put l (Listener (set_l_next n lx)) st).
Proof.
  intros Hl. split_and!; try done. intros a. rewrite heap_put.
  destruct (decide (l = a)) as [<-|Hne].
  - rewrite Hl. by exists n.
  - apply relinked_refl.
Qed.

Lemma relinked_put_def st d dx n :
  heap st !! d = Some (Def dx) →
  relinked st (put d (Def (set_d_listeners n dx)) st).
Proof.
  intros Hd. split_and!; try done. intros a. rewrite heap_put.
  destruct (decide (d = a)) as [<-|Hne].
  - rewrite Hd. by exists n.
  - apply relinked_refl.
Qed.

Lemma relinked_has_cb st st' a : relinked st st' → has_cb st' a = has_cb st a.
Proof.
  intros (_ & _ & _ & _ & H). specialize (H a). unfold has_cb.
  destruct (heap st !! a) as [[lx|dx| | | | | | | ]|].
  - destruct H as [n ->]. done.
  - destruct H as [n ->]. done.
  - by rewrite H.
  - by rewrite H.
  - by rewrite H.
  - by rewrite H.
  - by rewrite H.
  - by rewrite H.
  - by rewrite H.
  - by rewrite H.
Qed.

Lemma relinked_next_def st st' a :
  relinked st st' → next_def st' a = next_def st a.
Proof.
  intros (_ & _ & _ & _ & H). specialize (H a). unfold next_def.
  destruct (heap st !! a) as [[lx|dx| | | | | | | ]|].
  - destruct H as [n ->]. done.
  - destruct H as [n ->]. done.
  - by rewrite H.
  - by rewrite H.
  - by rewrite H.
  - by rewrite H.
  - by rewrite H.
  - by rewrite H.
  - by rewrite H.
  - by rewrite H.
Qed.

Lemma relinked_def st st' d dx :
  relinked st st' → heap st !! d = Some (Def dx) →
  ∃ n, heap st' !! d = Some (Def (set_d_listeners n dx)).
Proof. intros (_ & _ & _ & _ & H) Hd. specialize (H d). by rewrite Hd in H. Qed.

Lemma relinked_listener st st' l lx :
  relinked st st' → heap st !! l = Some (Listener lx) →
  ∃ n, heap st' !! l = Some (Listener (set_l_next n lx)).
Proof. intros (_ & _ & _ & _ & H) Hl. specialize (H l). by rewrite Hl in H. Qed.

Lemma relinked_ctx st st' c cx :
  relinked st st' → heap st !! c = Some (Ctx cx) →
  heap st' !! c = Some (Ctx cx).
Proof. intros (_ & _ & _ & _ & H) Hc. specialize (H c). by rewrite Hc in H. Qed.

Lemma relinked_below st st' : relinked st st' → below st → below st'.
Proof.
  intros (Hbrk & _ & _ & _ & H) Hb a ob Ha. rewrite Hbrk.
  specialize (H a). destruct (heap st !! a) as [ob0|] eqn:Hst.
  - by apply (Hb a ob0).
  - rewrite H in Ha. done.
Qed.

Lemma relinked_listener_of st st' d l :
  relinked st st' → listener_of st d l → listener_of st' d l.
Proof.
  intros Hrel (lx & Hl & Hd).
  destruct (relinked_listener _ _ _ _ Hrel Hl) as [n Hn].
  by exists (set_l_next n lx).
Qed.

Lemma relinked_obs st st' l :
  relinked st st' → listener_destroy_obs st' l = listener_destroy_obs st l.
Proof.
  intros Hrel. unfold listener_destroy_obs.
  destruct Hrel as (_ & _ & _ & _ & H). pose proof (H l) as Hl.
  destruct (heap st !! l) as [[lx|dx| | | | | | | ]|]; cbn in Hl;
    try (destruct Hl as [n Hl']; rename Hl' into Hl); rewrite Hl; try done.
  cbn. destruct (l_destroycb lx); [|done]. destruct (l_def lx) as [d|]; [|done].
  pose proof (H d) as Hd.
  destruct (heap st !! d) as [[lx'|dx'| | | | | | | ]|]; cbn in Hd;
    try (destruct Hd as [m Hd']; rename Hd' into Hd); rewrite Hd; done.
Qed.

(** Taking an element out of a list, after its first one. *)
Lemma lseg_unlink next next' hd P p c n Rr :
  lseg next hd (P ++ p :: c :: Rr) → NoDup (P ++ p :: c :: Rr) →
  next c = Some n → next' p = Some n →
  (∀ a, a ≠ p → a ≠ c → next' a = next a) →
  lseg next' hd (P ++ p :: Rr).
Proof.
  revert hd. induction P as [|x P IH]; intros hd Hl Hnd Hc Hp Hrest.
  - cbn in *. inversion Hl as [|? m ? Hm Hl1]; subst.
    inversion Hl1 as [|? m' ? Hm' Hl2]; subst.
    assert (m' = n) as -> by congruence.
    econstructor; [exact Hp|].
    apply NoDup_cons in Hnd as [Hp1 Hnd]. apply NoDup_cons in Hnd as [Hc1 _].
    eapply lseg_ext; [|exact Hl2]. intros a Ha. apply Hrest.
    + intros ->. apply Hp1. by right.
    + by intros ->.
  - cbn in *. inversion Hl as [|? m ? Hm Hl1]; subst.
    apply NoDup_cons in Hnd as [Hx Hnd].
    econstructor.
    + rewrite Hrest; [exact Hm| |].
      * intros ->. apply Hx. apply elem_of_app. right. by left.
      * intros ->. apply Hx. apply elem_of_app. right. right. by left.
    + by apply IH.
Qed.

Lemma lseg_app_tail next hd P Rr :
  lseg next hd (P ++ Rr) → ∃ m, lseg next m Rr ∧ (P = [] → m = hd).
Proof.
  revert hd. induction P as [|x P IH]; intros hd Hl.
  - by exists hd.
  - cbn in Hl. inversion Hl as [|? m ? Hm Hl1]; subst.
    destruct (IH _ Hl1) as (m' & Hm' & _). by exists m'.
Qed.

Lemma lseg_listener st hd L a :
  lseg (next_listener st) hd L → a ∈ L →
  ∃ lx, heap st !! a = Some (Listener lx).
Proof.
  intros Hl Ha. destruct (lseg_member _ _ _ _ Hl Ha) as [n Hn].
  apply next_listener_inv in Hn as (lx & Hlx & _). eauto.
Qed.

Section Sweep.
Variable live : addr → bool.

Lemma sweep_listeners_spec d Rr :
  ∀ st P prev curr dead D fuel dx,
    (∀ a, has_cb st a = live a) →
    heap st !! d = Some (Def dx) →
    lseg (next_listener st) (d_listeners dx) (P ++ Rr) →
    lseg (next_listener st) curr Rr →
    prev = last P →
    lseg (next_listener st) dead D →
    NoDup (P ++ Rr ++ D) → (length Rr ≤ fuel)%nat →
    ∃ dead' st',
      sweep_listeners fuel d curr prev dead st = (Done dead', st') ∧
      relinked st st' ∧
      (∃ dx', heap st' !! d = Some (Def dx') ∧
              lseg (next_listener st') (d_listeners dx')
                (P ++ filter (λ a, live a) Rr)) ∧
      lseg (next_listener st') dead'
        (reverse (filter (λ a, ¬ live a) Rr) ++ D) ∧
      ∀ a, a ≠ d → a ∉ P ++ Rr → heap st' !! a = heap st !! a.
Proof.
  induction Rr as [|c Rr IH];
    intros st P prev curr dead D fuel dx Hlive Hd Hlist Hcurr Hprev Hdead
      Hnd Hfuel.
  - apply lseg_nil_inv in Hcurr as ->. exists dead, st.
    rewrite app_nil_r in *. split; [by destruct fuel|].
    split; [apply relinked_refl|]. split_and!; eauto.
  - inversion Hcurr as [|? n ? Hn Hrest]; subst.
    destruct fuel as [|fuel]; [cbn in Hfuel; lia|].
    destruct (next_listener_inv _ _ _ Hn) as (cx & Hc & Hnext).
    cbn [sweep_listeners]. rewrite bind_run, (get_listener_run _ cx) by done.
    pose proof (Hlive c) as Hlc. unfold has_cb in Hlc. rewrite Hc in Hlc.
    assert (c ≠ d) as Hcd by (intros ->; congruence).
    destruct (l_cb cx) eqn:Hcb.
    + destruct (IH st (P ++ [c]) (Some c) n dead D fuel dx)
        as (dead' & st' & Hrun & Hrel & Hl' & Hdead' & Hfr); try done.
      * by rewrite <- app_assoc.
      * by rewrite last_snoc.
      * by rewrite <- app_assoc.
      * cbn in Hfuel. lia.
      * exists dead', st'. rewrite Hnext. split; [exact Hrun|].
        split; [done|].
        rewrite filter_cons_True by (by rewrite <- Hlc).
        rewrite filter_cons_False by (rewrite <- Hlc; intros Hx; by apply Hx).
        rewrite <- app_assoc in Hl'. split_and!; try done.
        intros a Hne Hin. apply Hfr; [done|]. by rewrite <- app_assoc.
    + assert (∀ a, a ∈ Rr ++ D → a ≠ c) as Hfresh.
      { intros a Ha ->. apply NoDup_app in Hnd as (_ & _ & Hnd).
        cbn in Hnd. apply NoDup_cons in Hnd as [Hnd _]. done. }
      assert (∀ a, a ∈ Rr ++ D → a ≠ d) as Hnotd.
      { intros a Ha ->. apply elem_of_app in Ha as [Ha|Ha].
        - destruct (lseg_listener _ _ _ _ Hrest Ha). congruence.
        - destruct (lseg_listener _ _ _ _ Hdead Ha). congruence. }
      assert (NoDup (P ++ Rr ++ c :: D)) as Hnd'.
      { eapply NoDup_Permutation_proper; [|exact Hnd].
        apply Permutation_app_head. cbn. symmetry. apply Permutation_middle. }
      rewrite filter_cons_False by (cbn; rewrite <- Hlc; intros []).
      rewrite filter_cons_True by (cbn; rewrite <- Hlc; intros []).
      rewrite reverse_cons, <- app_assoc. cbn [app].
      destruct (last P) as [p|] eqn:Hlast.
      * apply last_Some_snoc in Hlast as [P' ->].
        assert (p ∈ (P' ++ [p]) ++ c :: Rr) as Hp.
        { apply elem_of_app. left. apply elem_of_app. right. by left. }
        destruct (lseg_listener _ _ _ _ Hlist Hp) as [px Hpx].
        assert (p ≠ c) as Hpc.
        { intros ->. rewrite <- app_assoc in Hnd.
          apply NoDup_app in Hnd as (_ & _ & Hnd). cbn in Hnd.
          apply NoDup_cons in Hnd as [Hnd _]. apply Hnd. by left. }
        assert (p ≠ d) as Hpd by (intros ->; congruence).
        rewrite bind_run, (upd_listener_run _ _ px) by done.
        set (st1 := put p (Listener (set_l_next (l_next cx) px)) st).
        assert (heap st1 !! c = Some (Listener cx)) as Hc1.
        { unfold st1. by rewrite heap_put_ne. }
        rewrite bind_run, (upd_listener_run _ _ cx) by done.
        set (st2 := put c (Listener (set_l_next dead cx)) st1).
        assert (relinked st st2) as Hrel2.
        { eapply relinked_trans; [by apply relinked_put_listener|].
          by apply relinked_put_listener. }
        assert (∀ a, next_listener st2 a =
                     if decide (c = a) then Some dead
                     else if decide (p = a) then Some (l_next cx)
                     else next_listener st a) as Hnext2.
        { intros a. unfold st2, st1. by rewrite !next_listener_put_listener. }
        destruct (IH st2 (P' ++ [p]) (Some p) n (Some c) (c :: D) fuel dx)
          as (dead' & st' & Hrun & Hrel & Hl' & Hdead' & Hfr).
        -- intros a. rewrite (relinked_has_cb _ _ _ Hrel2). apply Hlive.
        -- unfold st2, st1. by rewrite !heap_put_ne.
        -- rewrite <- app_assoc in Hlist |- *. rewrite <- app_assoc in Hnd.
           cbn in Hlist, Hnd |- *.
           eapply (lseg_unlink _ _ _ _ _ _ n); [exact Hlist| |exact Hn| |].
           ++ apply NoDup_app in Hnd as (H1 & H2 & H3).
              apply NoDup_app. split; [done|]. split.
              ** intros x Hx Hx'. apply (H2 x Hx).
                 rewrite !elem_of_cons, elem_of_app in *. naive_solver.
              ** apply NoDup_cons in H3 as [H3 H4].
                 apply NoDup_cons in H4 as [H4 H5].
                 apply NoDup_app in H5 as (H5 & _ & _).
                 apply NoDup_cons. split; [|apply NoDup_cons; split; [|done]].
                 --- rewrite !elem_of_cons, elem_of_app in *. naive_solver.
                 --- rewrite elem_of_app in H4. naive_solver.
           ++ rewrite Hnext2. rewrite decide_False by done.
              rewrite decide_True by done. by rewrite Hnext.
           ++ intros a Hap Hac. rewrite Hnext2.
              by rewrite !decide_False by done.
        -- eapply lseg_ext; [|exact Hrest]. intros a Ha. rewrite Hnext2.
           rewrite decide_False.
           2:{ intros <-. eapply Hfresh; [|done]. apply elem_of_app. by left. }
           rewrite decide_False; [done|]. intros <-.
           rewrite <- app_assoc in Hnd. apply NoDup_app in Hnd as (_ & _ & Hnd).
           cbn in Hnd. apply NoDup_cons in Hnd as [Hnd _]. apply Hnd.
           right. apply elem_of_app. by left.
        -- by rewrite last_snoc.
        -- econstructor.
           ++ rewrite Hnext2. by rewrite decide_True.
           ++ eapply lseg_ext; [|exact Hdead]. intros a Ha. rewrite Hnext2.
              rewrite decide_False.
              2:{ intros <-. eapply Hfresh; [|done]. apply elem_of_app.
                  by right. }
              rewrite decide_False; [done|]. intros <-.
              rewrite <- app_assoc in Hnd.
              apply NoDup_app in Hnd as (_ & _ & Hnd).
              cbn in Hnd. apply NoDup_cons in Hnd as [Hnd _]. apply Hnd.
              right. apply elem_of_app. by right.
        -- done.
        -- cbn in Hfuel. lia.
        -- exists dead', st'. rewrite Hnext. split; [exact Hrun|].
           split; [by eapply relinked_trans|]. split_and!; try done.
           intros a Hne Hin. rewrite Hfr; [|done|].
           ++ unfold st2, st1. rewrite !heap_put_ne; [done| |].
              ** intros <-. apply Hin. apply elem_of_app. left.
                 apply elem_of_app. right. by left.
              ** intros <-. apply Hin. apply elem_of_app. right. by left.
           ++ intros Hx. apply Hin. rewrite elem_of_app in *.
              destruct Hx as [Hx|Hx]; [by left|]. right. by right.
      * apply last_None in Hlast as ->. cbn [app] in *.
        rewrite bind_run, (upd_def_run _ _ dx) by done.
        set (st1 := put d (Def (set_d_listeners (l_next cx) dx)) st).
        assert (heap st1 !! c = Some (Listener cx)) as Hc1.
        { unfold st1. by rewrite heap_put_ne. }
        rewrite bind_run, (upd_listener_run _ _ cx) by done.
        set (st2 := put c (Listener (set_l_next dead cx)) st1).
        assert (relinked st st2) as Hrel2.
        { eapply relinked_trans; [by apply relinked_put_def|].
          by apply relinked_put_listener. }
        assert (∀ a, next_listener st2 a =
                     if decide (c = a) then Some dead
                     else if decide (d = a) then None
                     else next_listener st a) as Hnext2.
        { intros a. unfold st2, st1.
          by rewrite next_listener_put_listener, next_listener_put_def. }
        assert (∀ L hd, (∀ a, a ∈ L → a ∈ Rr ++ D) →
                        lseg (next_listener st) hd L →
                        lseg (next_listener st2) hd L) as Hkeep.
        { intros L hd HL Hseg. eapply lseg_ext; [|exact Hseg].
          intros a Ha. rewrite Hnext2.
          rewrite decide_False by (intros <-; by eapply Hfresh; [apply HL|]).
          by rewrite decide_False
            by (intros <-; by eapply Hnotd; [apply HL|]). }
        destruct (IH st2 [] None n (Some c) (c :: D) fuel
                    (set_d_listeners (l_next cx) dx))
          as (dead' & st' & Hrun & Hrel & Hl' & Hdead' & Hfr).
        -- intros a. rewrite (relinked_has_cb _ _ _ Hrel2). apply Hlive.
        -- unfold st2, st1. by rewrite heap_put_ne, heap_put_eq.
        -- cbn. rewrite Hnext. apply Hkeep; [|done].
           intros a Ha. apply elem_of_app. by left.
        -- apply Hkeep; [|done]. intros a Ha. apply elem_of_app. by left.
        -- done.
        -- econstructor.
           ++ rewrite Hnext2. by rewrite decide_True.
           ++ apply Hkeep; [|done]. intros a Ha. apply elem_of_app. by right.
        -- done.
        -- cbn in Hfuel. lia.
        -- exists dead', st'. rewrite Hnext. split; [exact Hrun|].
           split; [by eapply relinked_trans|]. split_and!; try done.
           intros a Hne Hin. rewrite Hfr; [|done|].
           ++ unfold st2, st1. rewrite !heap_put_ne; [done|done|].
              intros <-. apply Hin. by left.
           ++ intros Hx. apply Hin. by right.
Qed.

End Sweep.

Lemma lseg_def st hd L a :
  lseg (next_def st) hd L → a ∈ L → ∃ dx, heap st !! a = Some (Def dx).
Proof.
  intros Hl Ha. destruct (lseg_member _ _ _ _ Hl Ha) as [n Hn].
  apply next_def_inv in Hn as (dx & Hdx & _). eauto.
Qed.

Lemma listeners_below st hd L :
  below st → lseg (next_listener st) hd L → (length L ≤ brk st)%nat.
Proof.
  intros Hb. apply lseg_below; [done|]. intros a [n Hn].
  apply next_listener_inv in Hn as (lx & Hlx & _). eauto.
Qed.

Lemma next_listener_heap st st' a :
  heap st' !! a = heap st !! a → next_listener st' a = next_listener st a.
Proof. unfold next_listener. by intros ->. Qed.

Section SweepDefs.
Variable live : addr → bool.

Lemma sweep_defs_spec R :
  ∀ st def dead D fuel,
    below st → (∀ a, has_cb st a = live a) →
    lseg (next_def st) def R.*1 →
    Forall (λ x, listener_list st x.1 x.2) R →
    lseg (next_listener st) dead D →
    NoDup (mjoin R.*2 ++ D) → (length R ≤ fuel)%nat →
    ∃ dead' st', sweep_defs fuel def dead st = (Done dead', st') ∧
      relinked st st' ∧
      Forall (λ x, listener_list st' x.1 (filter (λ a, live a) x.2)) R ∧
      lseg (next_listener st') dead'
        (reverse (filter (λ a, ¬ live a) (mjoin R.*2)) ++ D) ∧
      ∀ a, a ∉ R.*1 → a ∉ mjoin R.*2 → heap st' !! a = heap st !! a.
Proof.
  induction R as [|[d L] R IH];
    intros st def dead D fuel Hb Hlive Hdefs Hlists Hdead Hnd Hfuel.
  - apply lseg_nil_inv in Hdefs as ->. exists dead, st.
    split; [by destruct fuel|]. split; [apply relinked_refl|].
    split_and!; try done.
  - cbn [fmap list_fmap fst snd] in *.
    change (mjoin (L :: R.*2)) with (L ++ mjoin R.*2) in *.
    pose proof (lseg_NoDup _ _ _ Hdefs) as Hnd_defs.
    inversion Hdefs as [|? n ? Hn Hrest]; subst.
    apply Forall_cons in Hlists as [(dx & Hd & HL) Hlists]. cbn in Hd, HL.
    destruct (next_def_inv _ _ _ Hn) as (dx0 & Hd0 & Hnext).
    assert (dx0 = dx) as -> by congruence.
    destruct fuel as [|fuel]; [cbn in Hfuel; lia|].
    cbn [sweep_defs]. rewrite bind_run, (get_def_run _ dx) by done.
    rewrite bind_run. cbn [bound].
    destruct (sweep_listeners_spec live d L st [] None (d_listeners dx)
                dead D (brk st) dx)
      as (dead1 & st1 & Hrun1 & Hrel1 & (dx1 & Hd1 & HL1) & Hdead1 & Hfr1);
      try done.
    { cbn. rewrite <- app_assoc in Hnd.
      apply NoDup_app in Hnd as (H1 & H2 & H3).
      apply NoDup_app in H3 as (_ & _ & H3).
      apply NoDup_app. split; [done|]. split; [|done].
      intros x Hx Hx'. apply (H2 x Hx). apply elem_of_app. by right. }
    { by eapply listeners_below. }
    rewrite bind_run, Hrun1. rewrite bind_run, (get_def_run _ dx1) by done.
    destruct (relinked_def _ _ _ _ Hrel1 Hd) as [m Hm].
    assert (d_next dx1 = n) as Hnext1.
    { rewrite Hd1 in Hm. injection Hm as ->. done. }
    rewrite Hnext1. cbn [app] in HL1, Hfr1.
    assert (∀ x, x ∈ R → ∀ a, a ∈ x.2 → a ∈ mjoin R.*2) as Hsub.
    { intros x Hx a Ha. apply list_elem_of_join. exists x.2.
      split; [done|]. by apply list_elem_of_fmap_2. }
    assert (∀ a, a ∈ L ++ mjoin R.*2 →
                 ∃ lx, heap st !! a = Some (Listener lx)) as Hkind.
    { intros a Ha. apply elem_of_app in Ha as [Ha|Ha].
      - eapply lseg_listener; [exact HL|exact Ha].
      - apply list_elem_of_join in Ha as (l & Ha & Hl).
        apply list_elem_of_fmap in Hl as (x & -> & Hx).
        rewrite Forall_forall in Hlists.
        destruct (Hlists x Hx) as (dx' & _ & Hseg).
        eapply lseg_listener; [exact Hseg|exact Ha]. }
    assert (∀ a, a ∈ d :: R.*1 → ∃ dx', heap st !! a = Some (Def dx'))
      as Hkind_d.
    { intros a Ha. eapply lseg_def; [exact Hdefs|exact Ha]. }
    assert (∀ a, a ∈ mjoin R.*2 → a ∉ L) as Hdisj.
    { intros a Ha Ha'. rewrite <- app_assoc in Hnd.
      apply NoDup_app in Hnd as (_ & Hnd & _). apply (Hnd a Ha').
      apply elem_of_app. by left. }
    destruct (IH st1 n dead1
                (reverse (filter (λ a, ¬ live a) L) ++ D) fuel)
      as (dead' & st' & Hrun & Hrel & Hlists' & Hdead' & Hfr).
    + by eapply relinked_below.
    + intros a. rewrite (relinked_has_cb _ _ _ Hrel1). apply Hlive.
    + eapply lseg_ext; [|exact Hrest]. intros a _.
      by apply relinked_next_def.
    + rewrite Forall_forall in Hlists |- *. intros x Hx.
      destruct (Hlists x Hx) as (dx' & Hx1 & Hseg).
      assert (x.1 ∈ R.*1) as Hx1in by (by apply list_elem_of_fmap_2).
      exists dx'. split.
      * rewrite Hfr1; [done| |].
        -- intros Heq. apply NoDup_cons in Hnd_defs as [Hnd_defs _].
           apply Hnd_defs. by rewrite <- Heq.
        -- intros Hin. destruct (Hkind x.1) as [lx Hlx]; [|congruence].
           apply elem_of_app. by left.
      * eapply lseg_ext; [|exact Hseg]. intros a Ha.
        apply next_listener_heap. apply Hfr1.
        -- intros ->. destruct (Hkind d) as [lx Hlx]; [|congruence].
           apply elem_of_app. right. by eapply Hsub.
        -- apply Hdisj. by eapply Hsub.
    + done.
    + pose proof (lseg_NoDup _ _ _ Hdead1) as Hnd1.
      rewrite <- app_assoc in Hnd.
      apply NoDup_app in Hnd as (_ & Hnd2 & Hnd3).
      apply NoDup_app in Hnd3 as (Hnd3 & Hnd4 & _).
      apply NoDup_app. split; [done|]. split; [|done].
      intros x Hx Hx'. apply elem_of_app in Hx' as [Hx'|Hx'].
      * apply elem_of_reverse, list_elem_of_filter in Hx' as [_ Hx'].
        by apply (Hdisj x).
      * by apply (Hnd4 x).
    + cbn in Hfuel. lia.
    + exists dead', st'. split; [exact Hrun|].
      split; [by eapply relinked_trans|]. split_and!.
      * apply Forall_cons. split; [|done]. cbn [fst snd].
        exists dx1. split.
        -- rewrite Hfr; [done| |].
           ++ intros Hin. apply NoDup_cons in Hnd_defs as [Hnd_defs _]. done.
           ++ intros Hin. destruct (Hkind d) as [lx Hlx]; [|congruence].
              apply elem_of_app. by right.
        -- eapply lseg_ext; [|exact HL1]. intros a Ha.
           apply list_elem_of_filter in Ha as [_ Ha].
           apply next_listener_heap. apply Hfr.
           ++ intros Hin. destruct (Hkind a) as [lx Hlx].
              { apply elem_of_app. by left. }
              destruct (Hkind_d a) as [dx' Hdx']; [by right|congruence].
           ++ intros Hin. by apply (Hdisj a).
      * rewrite filter_app, reverse_app, <- app_assoc. done.
      * intros a Ha1 Ha2. rewrite Hfr.
        -- apply Hfr1.
           ++ intros ->. apply Ha1. by left.
           ++ intros Hin. apply Ha2. apply elem_of_app. by left.
        -- intros Hin. apply Ha1. by right.
        -- intros Hin. apply Ha2. apply elem_of_app. by right.
Qed.

End SweepDefs.

(** The destruction of the listeners taken out. *)
Lemma destroy_listeners_spec D :
  ∀ st dead fuel,
    lseg (next_listener st) dead D →
    (∀ l lx d, l ∈ D → heap st !! l = Some (Listener lx) →
               l_def lx = Some d → ∃ dx, heap st !! d = Some (Def dx)) →
    (length D ≤ fuel)%nat →
    ∃ st', destroy_listeners fuel dead st = (Done tt, st') ∧
      (∀ a, heap st' !! a = if decide (a ∈ D) then None else heap st !! a) ∧
      trace st' = trace st ++ (D ≫= listener_destroy_obs st) ∧
      brk st' = brk st ∧ oracle st' = oracle st ∧
      evm_gctx st' = evm_gctx st.
Proof.
  induction D as [|l D IH]; intros st dead fuel Hdead Hown Hfuel.
  - apply lseg_nil_inv in Hdead as ->. exists st.
    split; [by destruct fuel|]. cbn. rewrite app_nil_r. split_and!; try done.
  - pose proof (lseg_NoDup _ _ _ Hdead) as Hnd.
    apply NoDup_cons in Hnd as [Hl Hnd].
    inversion Hdead as [|? n ? Hn Hrest]; subst.
    destruct (next_listener_inv _ _ _ Hn) as (lx & Hlx & Hnext).
    destruct fuel as [|fuel]; [cbn in Hfuel; lia|].
    cbn [destroy_listeners].
    rewrite bind_run, (get_listener_run _ lx) by done.
    rewrite bind_run. unfold evm_destroy_listener.
    rewrite bind_run, (get_listener_run _ lx) by done.
    set (tr := listener_destroy_obs st l).
    set (st0 := mk_evm (heap st) (brk st) (oracle st) (trace st ++ tr)
                  (evm_gctx st)).
    assert (match l_destroycb lx, l_def lx with
            | Some cb, Some d =>
              dx ← get_def d;
              log (OListenerDestroy cb l (d_eid dx) (l_user lx))
            | _, _ => mret tt
            end st = (Done tt, st0)) as Hlog.
    { unfold st0, tr, listener_destroy_obs. rewrite Hlx.
      destruct (l_destroycb lx) as [cb|] eqn:Hcb.
      2:{ rewrite ret_run, app_nil_r. by destruct st. }
      destruct (l_def lx) as [d|] eqn:Hdef.
      2:{ rewrite ret_run, app_nil_r. by destruct st. }
      destruct (Hown l lx d) as [dx Hdx]; [by left|done|done|].
      rewrite bind_run, (get_def_run _ dx) by done. rewrite Hdx.
      unfold log, emit. done. }
    rewrite bind_run, Hlog. cbn [FREE]. unfold release.
    change (heap st0) with (heap st). rewrite Hlx.
    set (st1 := del l st0).
    assert (∀ a, heap st1 !! a = if decide (l = a) then None
                                 else heap st !! a) as Hheap1.
    { intros a. unfold st1. by rewrite heap_del. }
    assert (∀ a, a ∈ D → next_listener st1 a = next_listener st a) as Hn1.
    { intros a Ha. apply next_listener_heap. rewrite Hheap1.
      rewrite decide_False; [done|]. by intros <-. }
    destruct (IH st1 n fuel) as (st' & Hrun & Hheap & Htr & Hbrk & Hor & Hg).
    + eapply lseg_ext; [|exact Hrest]. done.
    + intros a ax d Ha Hax Hd. rewrite Hheap1 in Hax.
      destruct (decide (l = a)); [done|].
      destruct (Hown a ax d) as [dx Hdx]; [by right|done|done|].
      exists dx. rewrite Hheap1. rewrite decide_False; [done|].
      intros <-. congruence.
    + cbn in Hfuel. lia.
    + exists st'. rewrite Hnext. split; [exact Hrun|]. split_and!.
      * intros a. rewrite Hheap, Hheap1.
        destruct (decide (a ∈ D)) as [Ha|Ha].
        -- rewrite decide_True; [done|]. by right.
        -- destruct (decide (l = a)) as [<-|Hne].
           ++ rewrite decide_True; [done|]. by left.
           ++ rewrite decide_False; [done|].
              intros [->|?]%elem_of_cons; done.
      * rewrite Htr. cbn. unfold st1, del, st0. cbn.
        rewrite <- app_assoc. do 2 f_equal.
        apply Forall_bind_ext, Forall_forall.
        intros a Ha. unfold listener_destroy_obs. rewrite !Hheap1.
        rewrite decide_False by (by intros <-).
        destruct (heap st !! a) as [[ax| | | | | | | | ]|] eqn:Hax; try done.
        destruct (l_destroycb ax); [|done].
        destruct (l_def ax) as [d|] eqn:Hd; [|done].
        rewrite Hheap1. destruct (decide (l = d)) as [<-|]; [|done].
        destruct (Hown a ax l) as [dx Hdx]; [by right|done|done|congruence].
      * by rewrite Hbrk.
      * by rewrite Hor.
      * by rewrite Hg.
Qed.

Lemma next_def_heap st st' a :
  heap st' !! a = heap st !! a → next_def st' a = next_def st a.
Proof. unfold next_def. by intros ->. Qed.

Lemma filtered_lists (P : addr → Prop) `{∀ a, Decision (P a)}
    (R : list (addr * list addr)) :
  (∀ a, a ∈ mjoin ((λ x, (x.1, filter P x.2)) <$> R).*2 → a ∈ mjoin R.*2) ∧
  (NoDup (mjoin R.*2) →
   NoDup (mjoin ((λ x, (x.1, filter P x.2)) <$> R).*2)).
Proof.
  induction R as [|[d L] R [IH1 IH2]]; [done|].
  cbn [fmap list_fmap fst snd].
  change (mjoin (?l :: ?ls)) with (l ++ mjoin ls). split.
  - intros a [Ha|Ha]%elem_of_app; apply elem_of_app.
    + left. by apply list_elem_of_filter in Ha as [_ Ha].
    + right. by apply IH1.
  - intros (H1 & H2 & H3)%NoDup_app. apply NoDup_app.
    split; [by apply NoDup_filter|]. split; [|by apply IH2].
    intros a [_ Ha]%list_elem_of_filter Ha'. apply (H2 a Ha). by apply IH1.
Qed.

Lemma has_cb_listener st l :
  has_cb st l → ∃ lx, heap st !! l = Some (Listener lx).
Proof.
  unfold has_cb. destruct (heap st !! l) as [[lx| | | | | | | | ]|]; try done.
  eauto.
Qed.

Lemma maintenance_run st c R :
  below st → registry st c R →
  ∃ st', evm_maintenance (Some c) st = (Done tt, st') ∧
    registry st' c ((λ x, (x.1, filter (λ l, has_cb st l) x.2)) <$> R) ∧
    (∀ l, l ∈ mjoin R.*2 →
       if has_cb st l
       then ∃ lx n, heap st !! l = Some (Listener lx) ∧
                    heap st' !! l = Some (Listener (set_l_next n lx))
       else heap st' !! l = None) ∧
    (∀ a, a ∉ R.*1 → a ∉ mjoin R.*2 → heap st' !! a = heap st !! a) ∧
    trace st' = trace st ++
      (reverse (filter (λ l, ¬ has_cb st l) (mjoin R.*2))
         ≫= listener_destroy_obs st).
Proof.
  intros Hb ((cx & Hc & Hdefs) & Hlists & Hnd).
  set (live := has_cb st).
  set (Dd := reverse (filter (λ l, ¬ live l) (mjoin R.*2))).
  assert (length R ≤ brk st)%nat as Hlen.
  { rewrite <- (length_fmap fst). eapply lseg_below; [done| |exact Hdefs].
    intros a [n Hn]. apply next_def_inv in Hn as (dx & Hdx & _). eauto. }
  destruct (sweep_defs_spec live R st (c_defs cx) None [] (brk st))
    as (dead1 & st1 & Hrun1 & Hrel1 & Hlists1 & Hdead1 & Hfr1); try done.
  { eapply Forall_impl; [exact Hlists|]. by intros x [Hx _]. }
  { constructor. }
  { by rewrite app_nil_r. }
  rewrite app_nil_r in Hdead1. fold Dd in Hdead1.
  pose proof (relinked_below _ _ Hrel1 Hb) as Hb1.
  assert (∀ a, a ∈ mjoin R.*2 → ∃ d lx, d ∈ R.*1 ∧
            heap st !! a = Some (Listener lx) ∧ l_def lx = Some d) as Hown.
  { intros a Ha. apply list_elem_of_join in Ha as (l & Ha & Hl).
    apply list_elem_of_fmap in Hl as (x & -> & Hx).
    rewrite Forall_forall in Hlists. destruct (Hlists x Hx) as [_ Hof].
    rewrite Forall_forall in Hof. destruct (Hof a Ha) as (lx & Hlx & Hd).
    exists x.1, lx. split; [by apply list_elem_of_fmap_2|done]. }
  assert (∀ a, a ∈ Dd → a ∈ mjoin R.*2 ∧ ¬ live a) as HDd.
  { intros a Ha. unfold Dd in Ha.
    apply elem_of_reverse, list_elem_of_filter in Ha as [Ha1 Ha2]. done. }
  assert (∀ a, a ∈ R.*1 → ∃ dx, heap st !! a = Some (Def dx)) as Hkind_d.
  { intros a Ha. eapply lseg_def; [exact Hdefs|exact Ha]. }
  destruct (destroy_listeners_spec Dd st1 dead1 (brk st1))
    as (st' & Hrun & Hheap & Htr & Hbrk & Hor & Hg).
  { done. }
  { intros l lx d Hl Hlx Hd. apply HDd in Hl as [Hl _].
    destruct (Hown l Hl) as (d0 & lx0 & Hd0 & Hlx0 & Hdef0).
    destruct (relinked_listener _ _ _ _ Hrel1 Hlx0) as [n Hn].
    rewrite Hn in Hlx. injection Hlx as <-. cbn in Hd.
    assert (d0 = d) as -> by congruence.
    destruct (Hkind_d d Hd0) as [dx Hdx].
    destruct (relinked_def _ _ _ _ Hrel1 Hdx) as [m Hm]. eauto. }
  { by eapply listeners_below. }
  assert (∀ a, a ∉ Dd → heap st' !! a = heap st1 !! a) as Hkeep.
  { intros a Ha. rewrite Hheap. by rewrite decide_False. }
  assert (∀ a, a ∈ R.*1 → a ∉ Dd) as Hdef_keep.
  { intros a Ha Ha'. apply HDd in Ha' as [Ha' _].
    destruct (Hown a Ha') as (? & lx & _ & Hlx & _).
    destruct (Hkind_d a Ha) as [dx Hdx]. congruence. }
  exists st'. split.
  { cbn [evm_maintenance]. rewrite bind_run, (get_ctx_run _ cx) by done.
    rewrite bind_run. cbn [bound]. rewrite bind_run, Hrun1.
    rewrite bind_run. cbn [bound]. exact Hrun. }
  split_and!.
  - split_and!.
    + exists cx. split.
      * rewrite Hkeep.
        -- by eapply relinked_ctx.
        -- intros Ha. apply HDd in Ha as [Ha _].
           destruct (Hown c Ha) as (? & lx & _ & Hlx & _). congruence.
      * rewrite <- list_fmap_compose.
        eapply lseg_ext; [|exact Hdefs]. intros a Ha.
        rewrite <- (relinked_next_def _ _ _ Hrel1).
        apply next_def_heap, Hkeep. by apply Hdef_keep.
    + rewrite Forall_fmap. rewrite Forall_forall in Hlists, Hlists1 |- *.
      intros x Hx. unfold compose. cbn [fst snd].
      destruct (Hlists x Hx) as [_ Hof].
      destruct (Hlists1 x Hx) as (dx & Hdx & Hseg). split.
      * exists dx. split.
        -- rewrite Hkeep; [done|]. apply Hdef_keep.
           by apply list_elem_of_fmap_2.
        -- eapply lseg_ext; [|exact Hseg]. intros a Ha.
           apply next_listener_heap, Hkeep. intros Ha'.
           apply list_elem_of_filter in Ha as [Ha _].
           apply HDd in Ha' as [_ Ha']. done.
      * rewrite Forall_forall in Hof |- *. intros a Ha.
        apply list_elem_of_filter in Ha as [Hlive Ha].
        destruct (relinked_listener_of _ _ _ _ Hrel1 (Hof a Ha))
          as (lx & Hlx & Hd).
        exists lx. split; [|done]. rewrite Hkeep; [done|].
        intros Ha'. apply HDd in Ha' as [_ Ha']. done.
    + by apply filtered_lists.
  - intros l Hl. fold (live l). destruct (live l) eqn:Hlive.
    + destruct (has_cb_listener st l) as [lx Hlx].
      { fold (live l). by rewrite Hlive. }
      destruct (relinked_listener _ _ _ _ Hrel1 Hlx) as [n Hn].
      exists lx, n. split; [done|]. rewrite Hkeep; [done|].
      intros Ha'. apply HDd in Ha' as [_ Ha']. apply Ha'.
      by rewrite Hlive.
    + rewrite Hheap. rewrite decide_True; [done|].
      unfold Dd. apply elem_of_reverse, list_elem_of_filter.
      split; [|done]. rewrite Hlive. intros [].
  - intros a Ha1 Ha2. rewrite Hkeep.
    + by apply Hfr1.
    + intros Ha'. by apply HDd in Ha' as [Ha' _].
  - rewrite Htr. pose proof Hrel1 as (_ & _ & -> & _). f_equal.
    apply Forall_bind_ext, Forall_forall. intros a _.
    by apply relinked_obs.
Qed.

Lemma registry_put_cb st c R l lx :
  registry st c R → heap st !! l = Some (Listener lx) →
  registry (put l (Listener (set_l_cb None lx)) st) c R.
Proof.
  intros ((cx & Hc & Hdefs) & Hlists & Hnd) Hl.
  set (st1 := put l (Listener (set_l_cb None lx)) st).
  assert (∀ a, next_listener st1 a = next_listener st a) as Hnl.
  { intros a. unfold st1. rewrite next_listener_put_listener.
    destruct (decide (l = a)) as [<-|]; [|done].
    unfold next_listener. by rewrite Hl. }
  assert (∀ a, next_def st1 a = next_def st a) as Hnd1.
  { intros a. unfold next_def, st1. rewrite heap_put.
    destruct (decide (l = a)) as [<-|]; [|done]. by rewrite Hl. }
  assert (∀ a dx, heap st !! a = Some (Def dx) →
                  heap st1 !! a = Some (Def dx)) as Hdef.
  { intros a dx Ha. unfold st1. rewrite heap_put_ne; [done|].
    intros <-. congruence. }
  split_and!; [|
    |done].
  - exists cx. split.
    + unfold st1. rewrite heap_put_ne; [done|]. intros <-. congruence.
    + eapply lseg_ext; [|exact Hdefs]. done.
  - eapply Forall_impl; [exact Hlists|]. intros x [(dx & Hdx & Hseg) Hof].
    split.
    + exists dx. split; [by apply Hdef|]. eapply lseg_ext; [|exact Hseg]. done.
    + eapply Forall_impl; [exact Hof|]. intros a (ax & Hax & Hd).
      unfold listener_of, st1. rewrite heap_put.
      destruct (decide (l = a)) as [<-|]; [|eauto].
      assert (ax = lx) as -> by congruence. eauto.
Qed.

Lemma registry_listener st c R l :
  registry st c R → l ∈ mjoin R.*2 →
  ∃ lx, heap st !! l = Some (Listener lx).
Proof.
  intros (_ & Hlists & _) Hl.
  apply list_elem_of_join in Hl as (L & Hl & HL).
  apply list_elem_of_fmap in HL as (x & -> & Hx).
  rewrite Forall_forall in Hlists. destruct (Hlists x Hx) as [_ Hof].
  rewrite Forall_forall in Hof. destruct (Hof l Hl) as (lx & Hlx & _). eauto.
Qed.

(** *** Properties of the maintenance round *)

(** One round of [evm_maintenance] on a context whose definitions and
    lists of listeners are in order returns.  It takes the listeners
    without a callback (those that [evm_remove_listener] was called for) out
    of the lists, keeps the others in their order, frees the ones taken out
    and calls the destroy callback of each of them that has one, once, the
    last one found first.  The listeners that stay keep their fields but
    for the link to the next one, and nothing else is touched. *)
Theorem maintenance_frees_removed `{callbacks} (st : evm_t) (c : addr)
    (R : list (addr * list addr)) :
  reachable st → registry st c R →
  ∃ st', evm_maintenance (Some c) st = (Done tt, st') ∧
    registry st' c ((λ x, (x.1, filter (λ l, has_cb st l) x.2)) <$> R) ∧
    (∀ l, l ∈ mjoin R.*2 →
       if has_cb st l
       then ∃ lx n, heap st !! l = Some (Listener lx) ∧
                    heap st' !! l = Some (Listener (set_l_next n lx))
       else heap st' !! l = None) ∧
    (∀ a, a ∉ R.*1 → a ∉ mjoin R.*2 → heap st' !! a = heap st !! a) ∧
    trace st' = trace st ++
      (reverse (filter (λ l, ¬ has_cb st l) (mjoin R.*2))
         ≫= listener_destroy_obs st).
Proof.
  intros Hreach Hreg. apply maintenance_run; [|done].
  by apply reachable_below.
Qed.

Lemma reachable_pair : @reachable (code_demo false) evm_pair.
Proof.
  exists [], (evm_set_up ++ [AddListener (Some 0%nat) 5 (Some 2) (Some 7) 30]).
  vm_compute. reflexivity.
Qed.

Lemma reachable_removed : @reachable (code_demo false) evm_removed.
Proof.
  exists [], (evm_set_up ++ [AddListener (Some 0%nat) 5 (Some 2) (Some 7) 30;
                             RemoveListener (Some 0%nat) (Some 6%nat)]).
  vm_compute. reflexivity.
Qed.

Lemma registry_pair : registry evm_pair 0 [(4%nat, [6%nat; 5%nat])].
Proof.
  split_and!.
  - eexists. split; [vm_compute; reflexivity|]. cbn [c_defs].
    econstructor; [vm_compute; reflexivity|constructor].
  - constructor; [|constructor]. split.
    + eexists. split; [vm_compute; reflexivity|]. cbn [d_listeners].
      econstructor; [vm_compute; reflexivity|].
      econstructor; [vm_compute; reflexivity|constructor].
    + constructor; [|constructor; [|constructor]].
      * eexists. split; [vm_compute; reflexivity|reflexivity].
      * eexists. split; [vm_compute; reflexivity|reflexivity].
  - cbn. apply NoDup_cons. split; [|apply NoDup_singleton].
    intros Hin. apply list_elem_of_singleton in Hin. discriminate Hin.
Qed.

Lemma registry_removed : registry evm_removed 0 [(4%nat, [6%nat; 5%nat])].
Proof.
  split_and!.
  - eexists. split; [vm_compute; reflexivity|]. cbn [c_defs].
    econstructor; [vm_compute; reflexivity|constructor].
  - constructor; [|constructor]. split.
    + eexists. split; [vm_compute; reflexivity|]. cbn [d_listeners].
      econstructor; [vm_compute; reflexivity|].
      econstructor; [vm_compute; reflexivity|constructor].
    + constructor; [|constructor; [|constructor]].
      * eexists. split; [vm_compute; reflexivity|reflexivity].
      * eexists. split; [vm_compute; reflexivity|reflexivity].
  - cbn. apply NoDup_cons. split; [|apply NoDup_singleton].
    intros Hin. apply list_elem_of_singleton in Hin. discriminate Hin.
Qed.

Lemma maintenance_frees_removed_witness :
  ∃ st', @evm_maintenance (Some 0%nat) evm_removed = (Done tt, st') ∧
    registry st' 0
      ((λ x, (x.1, filter (λ l, has_cb evm_removed l) x.2))
         <$> [(4%nat, [6%nat; 5%nat])]) ∧
    (∀ l, l ∈ mjoin [(4%nat, [6%nat; 5%nat])].*2 →
       if has_cb evm_removed l
       then ∃ lx n, heap evm_removed !! l = Some (Listener lx) ∧
                    heap st' !! l = Some (Listener (set_l_next n lx))
       else heap st' !! l = None) ∧
    (∀ a, a ∉ [(4%nat, [6%nat; 5%nat])].*1 →
          a ∉ mjoin [(4%nat, [6%nat; 5%nat])].*2 →
          heap st' !! a = heap evm_removed !! a) ∧
    trace st' = trace evm_removed ++
      (reverse (filter (λ l, ¬ has_cb evm_removed l)
                  (mjoin [(4%nat, [6%nat; 5%nat])].*2))
         ≫= listener_destroy_obs evm_removed).
Proof.
  apply (@maintenance_frees_removed (code_demo false) evm_removed 0%nat
           [(4%nat, [6%nat; 5%nat])]).
  - exact reachable_removed.
  - exact registry_removed.
Defined.

(** [evm_remove_listener] for a listener of the context and then a round
    of [evm_maintenance]: both return, the listener is freed and is in no
    list any more, the listeners that had a callback and are not the one
    removed stay in their order, and the destroy callback of the listener,
    when it has one, has been called with the event type of its definition
    and its user pointer. *)
Theorem remove_then_maintenance `{callbacks} (st : evm_t) (c : addr)
    (R : list (addr * list addr)) (l : addr) :
  reachable st → registry st c R → l ∈ mjoin R.*2 →
  ∃ st1 st2,
    evm_remove_listener (Some c) (Some l) st = (Done tt, st1) ∧
    evm_maintenance (Some c) st1 = (Done tt, st2) ∧
    heap st2 !! l = None ∧
    registry st2 c
      ((λ x, (x.1, filter (λ a, has_cb st a ∧ a ≠ l) x.2)) <$> R) ∧
    ∃ tr, trace st2 = trace st ++ tr ∧
          ∀ o, o ∈ listener_destroy_obs st l → o ∈ tr.
Proof.
  intros Hreach Hreg Hl. pose proof (reachable_below _ Hreach) as Hb.
  destruct (registry_listener _ _ _ _ Hreg Hl) as [lx Hlx].
  pose proof Hreg as ((cx & Hc & _) & _ & _).
  set (st1 := put l (Listener (set_l_cb None lx)) st).
  assert (evm_remove_listener (Some c) (Some l) st = (Done tt, st1)) as Hrun1.
  { unfold evm_remove_listener. cbn [or_singleton].
    rewrite bind_run, ret_run. rewrite bind_run, (get_ctx_run _ cx) by done.
    by rewrite (upd_listener_run _ _ lx). }
  assert (below st1) as Hb1.
  { intros a ob. unfold st1. rewrite heap_put.
    destruct (decide (l = a)) as [<-|]; [|apply Hb].
    intros _. by apply (Hb l _ Hlx). }
  assert (∀ a, has_cb st1 a = if decide (a = l) then false else has_cb st a)
    as Hcb.
  { intros a. unfold has_cb, st1. rewrite heap_put.
    destruct (decide (l = a)) as [<-|Hne].
    - by rewrite decide_True.
    - by rewrite decide_False. }
  destruct (maintenance_run st1 c R Hb1 (registry_put_cb _ _ _ _ _ Hreg Hlx))
    as (st2 & Hrun2 & Hreg2 & Hfate & _ & Htr).
  exists st1, st2. split; [done|]. split; [done|]. split_and!.
  - specialize (Hfate l Hl). rewrite Hcb in Hfate.
    by rewrite decide_True in Hfate.
  - assert (∀ L : list addr,
              filter (λ a, has_cb st1 a) L
              = filter (λ a, has_cb st a ∧ a ≠ l) L) as Hfil.
    { intros L. apply list_filter_iff. intros a. rewrite Hcb.
      destruct (decide (a = l)); [|tauto]. cbn. tauto. }
    erewrite list_fmap_ext; [exact Hreg2|]. intros i x _. cbn.
    by rewrite Hfil.
  - eexists. split; [exact Htr|]. intros o Ho.
    apply list_elem_of_bind. exists l. split.
    + assert (listener_destroy_obs st1 l = listener_destroy_obs st l) as ->;
        [|done].
      unfold listener_destroy_obs, st1. rewrite heap_put_eq, Hlx.
      cbn [l_destroycb l_def l_user set_l_cb].
      destruct (l_destroycb lx); [|done]. destruct (l_def lx) as [d|]; [|done].
      rewrite heap_put. destruct (decide (l = d)) as [<-|]; [|done].
      by rewrite Hlx.
    + apply elem_of_reverse, list_elem_of_filter. split; [|done].
      rewrite Hcb, decide_True by done. intros [].
Qed.

Lemma remove_then_maintenance_witness :
  ∃ st1 st2,
    @evm_remove_listener (Some 0%nat) (Some 6%nat) evm_pair
      = (Done tt, st1) ∧
    evm_maintenance (Some 0%nat) st1 = (Done tt, st2) ∧
    heap st2 !! 6%nat = None ∧
    registry st2 0
      ((λ x, (x.1, filter (λ a, has_cb evm_pair a ∧ a ≠ 6%nat) x.2))
         <$> [(4%nat, [6%nat; 5%nat])]) ∧
    ∃ tr, trace st2 = trace evm_pair ++ tr ∧
          ∀ o, o ∈ listener_destroy_obs evm_pair 6 → o ∈ tr.
Proof.
  apply (@remove_then_maintenance (code_demo false) evm_pair 0%nat
           [(4%nat, [6%nat; 5%nat])] 6%nat).
  - exact reachable_pair.
  - exact registry_pair.
  - cbn. by left.
Defined.

(** *** The destruction of a context *)

Lemma destroy_defs_spec R :
  ∀ st def fuel,
    below st → lseg (next_def st) def R.*1 →
    Forall (λ x, listener_list st x.1 x.2 ∧
                 Forall (listener_of st x.1) x.2) R →
    NoDup (mjoin R.*2) → (length R ≤ fuel)%nat →
    ∃ st', destroy_defs fuel def st = (Done tt, st') ∧
      (∀ a, heap st' !! a =
            if decide (a ∈ R.*1 ∨ a ∈ mjoin R.*2) then None
            else heap st !! a) ∧
      trace st' = trace st ++ (mjoin R.*2 ≫= listener_destroy_obs st) ∧
      brk st' = brk st ∧ oracle st' = oracle st ∧
      evm_gctx st' = evm_gctx st.
Proof.
  induction R as [|[d L] R IH]; intros st def fuel Hb Hdefs Hlists Hnd Hfuel.
  - apply lseg_nil_inv in Hdefs as ->. exists st.
    split; [by destruct fuel|]. cbn. rewrite app_nil_r. split_and!; try done.
    all: intros a; rewrite decide_False; [done|];
      intros [Hin|Hin]; by apply elem_of_nil in Hin.
  - cbn [fmap list_fmap fst snd] in *.
    change (mjoin (L :: R.*2)) with (L ++ mjoin R.*2) in *.
    pose proof (lseg_NoDup _ _ _ Hdefs) as Hnd_defs.
    apply NoDup_cons in Hnd_defs as [Hd_new Hnd_defs].
    pose proof Hdefs as Hdefs0.
    inversion Hdefs as [|? n ? Hn Hrest]; subst.
    apply Forall_cons in Hlists as [[(dx & Hd & HL) Hof] Hlists].
    cbn [fst snd] in Hd, HL, Hof.
    destruct (next_def_inv _ _ _ Hn) as (dx0 & Hd0 & Hnext).
    assert (dx0 = dx) as -> by congruence.
    apply NoDup_app in Hnd as (HndL & Hdisj & HndR).
    assert (∀ a, a ∈ L ++ mjoin R.*2 →
                 ∃ lx, heap st !! a = Some (Listener lx)) as Hkind.
    { intros a Ha. apply elem_of_app in Ha as [Ha|Ha].
      - eapply lseg_listener; [exact HL|exact Ha].
      - apply list_elem_of_join in Ha as (l & Ha & Hl).
        apply list_elem_of_fmap in Hl as (x & -> & Hx).
        rewrite Forall_forall in Hlists.
        destruct (Hlists x Hx) as [(dx' & _ & Hseg) _].
        eapply lseg_listener; [exact Hseg|exact Ha]. }
    assert (∀ a, a ∈ d :: R.*1 → ∃ dx', heap st !! a = Some (Def dx'))
      as Hkind_d.
    { intros a Ha. eapply lseg_def; [exact Hdefs0|exact Ha]. }
    destruct fuel as [|fuel]; [cbn in Hfuel; lia|].
    cbn [destroy_defs]. rewrite bind_run, (get_def_run _ dx) by done.
    rewrite bind_run. unfold evm_destroy_def.
    rewrite bind_run, (get_def_run _ dx) by done.
    rewrite bind_run. cbn [bound].
    destruct (destroy_listeners_spec L st (d_listeners dx) (brk st))
      as (st1 & Hrun1 & Hheap1 & Htr1 & Hbrk1 & Hor1 & Hg1).
    { done. }
    { intros l lx d' Hl Hlx Hd'. rewrite Forall_forall in Hof.
      destruct (Hof l Hl) as (lx' & Hlx' & Hdef).
      assert (lx' = lx) as -> by congruence.
      assert (d' = d) as -> by congruence. eauto. }
    { by eapply listeners_below. }
    rewrite bind_run, Hrun1. cbn [FREE]. unfold release.
    assert (d ∉ L) as HdL.
    { intros Hin. destruct (Hkind d) as [lx Hlx]; [|congruence].
      apply elem_of_app. by left. }
    rewrite Hheap1, decide_False by done. rewrite Hd.
    set (st2 := del d st1).
    assert (∀ a, heap st2 !! a = if decide (a = d ∨ a ∈ L) then None
                                 else heap st !! a) as Hheap2.
    { intros a. unfold st2. rewrite heap_del, Hheap1.
      destruct (decide (d = a)) as [<-|Hne].
      - rewrite decide_True; [done|]. by left.
      - destruct (decide (a ∈ L)) as [Hin|Hnin].
        + rewrite decide_True; [done|]. by right.
        + rewrite decide_False; [done|]. intros [->|?]; done. }
    assert (∀ a, a ≠ d → a ∉ L → heap st2 !! a = heap st !! a) as Hsame.
    { intros a Had HaL. rewrite Hheap2. rewrite decide_False; [done|].
      intros [?|?]; done. }
    assert (∀ x, x ∈ R → ∀ a, a ∈ x.2 → a ∈ mjoin R.*2) as Hsub.
    { intros x Hx a Ha. apply list_elem_of_join. exists x.2.
      split; [done|]. by apply list_elem_of_fmap_2. }
    assert (∀ a, a ∈ mjoin R.*2 → a ≠ d ∧ a ∉ L) as Hfar.
    { intros a Ha. split.
      - intros ->. destruct (Hkind d) as [lx Hlx]; [|congruence].
        apply elem_of_app. by right.
      - intros Hin. by apply (Hdisj a). }
    assert (∀ a, a ∈ R.*1 → a ≠ d ∧ a ∉ L) as Hfar_d.
    { intros a Ha. split.
      - by intros ->.
      - intros Hin. destruct (Hkind a) as [lx Hlx].
        { apply elem_of_app. by left. }
        destruct (Hkind_d a) as [dx' Hdx']; [by right|congruence]. }
    destruct (IH st2 n fuel) as (st' & Hrun & Hheap & Htr & Hbrk & Hor & Hg).
    + intros a ob. unfold st2. cbn [brk del]. rewrite Hbrk1.
      rewrite Hheap2. destruct (decide _); [done|apply Hb].
    + eapply lseg_ext; [|exact Hrest]. intros a Ha.
      apply next_def_heap. by apply Hsame; apply Hfar_d.
    + rewrite Forall_forall in Hlists |- *. intros x Hx.
      destruct (Hlists x Hx) as [(dx' & Hx1 & Hseg) Hofx]. split.
      * exists dx'. split.
        -- rewrite Hsame; [done|apply Hfar_d..];
             by apply list_elem_of_fmap_2.
        -- eapply lseg_ext; [|exact Hseg]. intros a Ha.
           apply next_listener_heap.
           by apply Hsame; apply Hfar; eapply Hsub.
      * eapply Forall_impl; [|].
        { apply Forall_forall. intros a Ha. exact (conj Ha I). }
        intros a [Ha _]. rewrite Forall_forall in Hofx.
        destruct (Hofx a Ha) as (lx & Hlx & Hdef). exists lx.
        split; [|done].
        rewrite Hsame; [done|apply Hfar..]; by eapply Hsub.
    + done.
    + cbn in Hfuel. lia.
    + exists st'. rewrite Hnext. split; [exact Hrun|]. split_and!.
      * intros a. rewrite Hheap, Hheap2.
        destruct (decide (a ∈ R.*1 ∨ a ∈ mjoin R.*2)) as [Hin|Hnin].
        -- rewrite decide_True; [done|].
           destruct Hin as [Hin|Hin]; [left; by right|].
           right. apply elem_of_app. by right.
        -- destruct (decide (a = d ∨ a ∈ L)) as [Hin|Hnin'].
           ++ rewrite decide_True; [done|].
              destruct Hin as [->|Hin]; [left; by left|].
              right. apply elem_of_app. by left.
           ++ rewrite decide_False; [done|].
              rewrite elem_of_cons, elem_of_app. tauto.
      * rewrite Htr. change (trace st2) with (trace st1). rewrite Htr1.
        rewrite bind_app, <- app_assoc. do 2 f_equal.
        apply Forall_bind_ext, Forall_forall. intros a Ha.
        unfold listener_destroy_obs.
        destruct (Hfar a Ha) as [Had HaL]. rewrite (Hsame a) by done.
        destruct (heap st !! a) as [[ax| | | | | | | | ]|] eqn:Hax; try done.
        destruct (l_destroycb ax); [|done].
        destruct (l_def ax) as [d'|] eqn:Hd'; [|done].
        apply list_elem_of_join in Ha as (l & Ha & Hl).
        apply list_elem_of_fmap in Hl as (x & -> & Hx).
        rewrite Forall_forall in Hlists.
        destruct (Hlists x Hx) as [_ Hofx]. rewrite Forall_forall in Hofx.
        destruct (Hofx a Ha) as (lx & Hlx & Hdef).
        assert (lx = ax) as -> by congruence.
        assert (d' = x.1) as -> by congruence.
        rewrite Hsame; [done|apply Hfar_d..]; by apply list_elem_of_fmap_2.
      * by rewrite Hbrk.
      * by rewrite Hor.
      * by rewrite Hg.
Qed.

Lemma destroy_run `{callbacks} st c cx w ws R (ctx : option addr) :
  below st → registry st c R → queue st (CtxQ c) [] →
  heap st !! c = Some (Ctx cx) → c_workers cx = Some w →
  heap st !! w = Some (Workers ws) →
  ctx = Some c ∨ (ctx = None ∧ evm_gctx st = Some c) →
  ∃ st', evm_destroy ctx st = (Done tt, st') ∧
    (∀ a, heap st' !! a =
          if decide (a = c ∨ a = w ∨ a ∈ R.*1 ∨ a ∈ mjoin R.*2) then None
          else heap st !! a) ∧
    trace st' = trace st ++ (mjoin R.*2 ≫= listener_destroy_obs st) ∧
    evm_gctx st' = match ctx with
                   | Some _ => evm_gctx st
                   | None => None
                   end.
Proof.
  intros Hb ((cx0 & Hc0 & Hdefs) & Hlists & Hnd) Hq Hc Hw Hws Hctx.
  assert (cx0 = cx) as -> by congruence.
  destruct Hq as (hd & tl & Hends & Hl & _). apply lseg_nil_inv in Hl as ->.
  apply ends_ctx in Hends as (cx0 & Hc0' & Hhd & _).
  assert (cx0 = cx) as -> by congruence.
  set (st0 := match ctx with
              | Some _ => st
              | None => mk_evm (heap st) (brk st) (oracle st) (trace st) None
              end).
  assert (heap st0 = heap st ∧ brk st0 = brk st ∧ trace st0 = trace st ∧
          evm_gctx st0 = match ctx with
                         | Some _ => evm_gctx st
                         | None => None
                         end) as (Hh0 & Hb0 & Ht0 & Hg0).
  { unfold st0. by destruct ctx. }
  assert (∀ a, a ∈ R.*1 → ∃ dx, heap st !! a = Some (Def dx)) as Hkind_d.
  { intros a Ha. eapply lseg_def; [exact Hdefs|exact Ha]. }
  assert (∀ a, a ∈ mjoin R.*2 → ∃ lx, heap st !! a = Some (Listener lx))
    as Hkind.
  { intros a Ha. apply list_elem_of_join in Ha as (l & Ha & Hl).
    apply list_elem_of_fmap in Hl as (x & -> & Hx).
    rewrite Forall_forall in Hlists.
    destruct (Hlists x Hx) as [(dx' & _ & Hseg) _].
    eapply lseg_listener; [exact Hseg|exact Ha]. }
  assert (length R ≤ brk st)%nat as Hlen.
  { rewrite <- (length_fmap fst). eapply lseg_below; [done| |exact Hdefs].
    intros a [n Hn]. apply next_def_inv in Hn as (dx & Hdx & _). eauto. }
  destruct (destroy_defs_spec R st0 (c_defs cx) (brk st0))
    as (st1 & Hrun1 & Hheap1 & Htr1 & Hbrk1 & Hor1 & Hg1).
  { intros a ob. rewrite Hh0, Hb0. apply Hb. }
  { eapply lseg_ext; [|exact Hdefs]. intros a _. unfold next_def.
    by rewrite Hh0. }
  { eapply Forall_impl; [exact Hlists|].
    intros x [(dx & Hdx & Hseg) Hof]. split.
    - exists dx. rewrite Hh0. split; [done|].
      eapply lseg_ext; [|exact Hseg]. intros a _. unfold next_listener.
      by rewrite Hh0.
    - eapply Forall_impl; [exact Hof|]. intros a (lx & Hlx & Hd).
      exists lx. by rewrite Hh0. }
  { done. }
  { by rewrite Hb0. }
  assert (∀ a ob, heap st !! a = Some ob →
            (∀ x, ob ≠ Def x) → (∀ x, ob ≠ Listener x) →
            heap st1 !! a = Some ob) as Hkeep.
  { intros a ob Ha Hnd' Hnl. rewrite Hheap1, Hh0.
    rewrite decide_False; [done|]. intros [Hin|Hin].
    - destruct (Hkind_d a Hin) as [dx Hdx]. rewrite Hdx in Ha.
      injection Ha as <-. by eapply Hnd'.
    - destruct (Hkind a Hin) as [lx Hlx]. rewrite Hlx in Ha.
      injection Ha as <-. by eapply Hnl. }
  assert (w ≠ c) as Hwc by (intros ->; congruence).
  exists (del c (del w st1)). split.
  { unfold evm_destroy. rewrite bind_run. cbn [get_gctx]. rewrite bind_run.
    assert ((match ctx, evm_gctx st with
             | None, Some _ => set_gctx None;; mret (evm_gctx st)
             | _, _ => mret ctx
             end) st = (Done (Some c), st0)) as ->.
    { unfold st0. destruct Hctx as [->|[-> Hg]].
      - by destruct (evm_gctx st).
      - rewrite Hg. rewrite bind_run. cbn [set_gctx]. unfold with_gctx.
        by rewrite ret_run. }
    rewrite bind_run, (get_ctx_run _ cx) by (by rewrite Hh0).
    rewrite bind_run. cbn [bound]. rewrite <- Hhd. rewrite bind_run.
    assert (destroy_sessions (brk st0) None st0 = (Done tt, st0)) as ->.
    { by destruct (brk st0). }
    rewrite bind_run, (get_ctx_run _ cx) by (by rewrite Hh0).
    rewrite bind_run. cbn [bound]. rewrite bind_run, Hrun1.
    rewrite bind_run, (get_ctx_run _ cx) by (by eapply Hkeep).
    rewrite bind_run, Hw. cbn [FREE]. unfold release.
    rewrite (Hkeep w (Workers ws)) by done.
    rewrite heap_del, decide_False by done.
    by rewrite (Hkeep c (Ctx cx)). }
  split_and!.
  - intros a. rewrite !heap_del, Hheap1, Hh0.
    destruct (decide (c = a)) as [<-|Hca].
    { rewrite decide_True; [done|]. by left. }
    destruct (decide (w = a)) as [<-|Hwa].
    { rewrite decide_True; [done|]. right. by left. }
    destruct (decide (a ∈ R.*1 ∨ a ∈ mjoin R.*2)) as [Hin|Hnin].
    + rewrite decide_True; [done|]. tauto.
    + rewrite decide_False; [done|]. intros [->|[->|?]]; tauto.
  - cbn [trace del]. rewrite Htr1, Ht0. f_equal.
    apply Forall_bind_ext, Forall_forall. intros a _.
    unfold listener_destroy_obs. rewrite Hh0. done.
  - cbn [evm_gctx del]. by rewrite Hg1.
Qed.

(** [evm_destroy] on a context with an empty queue of sessions, called
    with the context or with NULL when the context is the singleton: the
    call returns; the destroy callback of every listener that has one is
    called once, removed or not, definition by definition and in the order
    of the lists; the listeners, the definitions, the table of workers and
    the context are freed and nothing else is.  The singleton pointer is
    cleared only when the call was made with NULL. *)
Theorem destroy_frees_context `{callbacks} (st : evm_t) (c : addr)
    (cx : evm_ctx_s) (w : addr) (ws : list (option addr))
    (R : list (addr * list addr)) (ctx : option addr) :
  reachable st → registry st c R → queue st (CtxQ c) [] →
  heap st !! c = Some (Ctx cx) → c_workers cx = Some w →
  heap st !! w = Some (Workers ws) →
  ctx = Some c ∨ (ctx = None ∧ evm_gctx st = Some c) →
  ∃ st', evm_destroy ctx st = (Done tt, st') ∧
    (∀ a, heap st' !! a =
          if decide (a = c ∨ a = w ∨ a ∈ R.*1 ∨ a ∈ mjoin R.*2) then None
          else heap st !! a) ∧
    trace st' = trace st ++ (mjoin R.*2 ≫= listener_destroy_obs st) ∧
    evm_gctx st' = match ctx with
                   | Some _ => evm_gctx st
                   | None => None
                   end.
Proof.
  intros Hreach. apply destroy_run. by apply reachable_below.
Qed.

Lemma destroy_frees_context_witness :
  ∃ st', @evm_destroy (code_demo false) (Some 0%nat) evm_pair
         = (Done tt, st') ∧
    (∀ a, heap st' !! a =
          if decide (a = 0%nat ∨ a = 2%nat ∨
                     a ∈ [(4%nat, [6%nat; 5%nat])].*1 ∨
                     a ∈ mjoin [(4%nat, [6%nat; 5%nat])].*2) then None
          else heap evm_pair !! a) ∧
    trace st' = trace evm_pair ++
      (mjoin [(4%nat, [6%nat; 5%nat])].*2 ≫= listener_destroy_obs evm_pair) ∧
    evm_gctx st' = evm_gctx evm_pair.
Proof.
  apply (@destroy_frees_context (code_demo false) evm_pair 0%nat
           (mk_ctx 1 (Some 2%nat) (Some 1%nat) 300 (Some 4%nat) None None)
           2%nat [Some 3%nat] [(4%nat, [6%nat; 5%nat])] (Some 0%nat)).
  - exact reachable_pair.
  - exact registry_pair.
  - exists None, None. split_and!; [vm_compute; reflexivity|constructor
                                   |reflexivity].
  - vm_compute. reflexivity.
  - reflexivity.
  - vm_compute. reflexivity.
  - by left.
Defined.

(** *** Adding a listener *)

Lemma first_def_in st L eid d : first_def st L eid = Some d → d ∈ L.
Proof.
  induction L as [|a L IH]; [done|]. cbn [first_def].
  destruct (heap st !! a) as [[]|]; try done.
  destruct (_ =? _).
  - intros [= ->]. by left.
  - intros H. right. by apply IH.
Qed.

Lemma hooked_fst (d l : addr) (R : list (addr * list addr)) :
  ((λ x, if decide (x.1 = d) then (x.1, l :: x.2) else x) <$> R).*1 = R.*1.
Proof.
  induction R as [|[d0 L0] R IH]; [done|]. cbn [fmap list_fmap fst].
  f_equal; [|exact IH]. by destruct (decide (d0 = d)).
Qed.

Lemma hooked_members (d l : addr) (R : list (addr * list addr)) a :
  a ∈ mjoin ((λ x, if decide (x.1 = d) then (x.1, l :: x.2) else x) <$> R).*2 →
  a = l ∨ a ∈ mjoin R.*2.
Proof.
  induction R as [|[d0 L0] R IH]; [by right|]. cbn [fmap list_fmap fst snd].
  change (mjoin (?x :: ?ls)) with (x ++ mjoin ls).
  intros [Ha|Ha]%elem_of_app.
  - destruct (decide (d0 = d)); cbn [snd] in Ha.
    + apply elem_of_cons in Ha as [->|Ha]; [by left|].
      right. apply elem_of_app. by left.
    + right. apply elem_of_app. by left.
  - destruct (IH Ha) as [->|Ha']; [by left|]. right. apply elem_of_app.
    by right.
Qed.

Lemma hooked_absent (d l : addr) (R : list (addr * list addr)) :
  d ∉ R.*1 →
  (λ x, if decide (x.1 = d) then (x.1, l :: x.2) else x) <$> R = R.
Proof.
  induction R as [|[d0 L0] R IH]; [done|]. cbn [fmap list_fmap fst].
  intros Hd. rewrite not_elem_of_cons in Hd. destruct Hd as [Hd0 Hd].
  rewrite decide_False by done. f_equal. by apply IH.
Qed.

Lemma hooked_NoDup (d l : addr) (R : list (addr * list addr)) :
  NoDup R.*1 → NoDup (mjoin R.*2) → l ∉ mjoin R.*2 →
  NoDup (mjoin ((λ x, if decide (x.1 = d) then (x.1, l :: x.2) else x)
                  <$> R).*2).
Proof.
  induction R as [|[d0 L0] R IH]; [done|]. cbn [fmap list_fmap fst snd].
  change (mjoin (?x :: ?ls)) with (x ++ mjoin ls).
  intros [Hd0 HndR]%NoDup_cons (H1 & H2 & H3)%NoDup_app Hl.
  assert (l ∉ L0 ∧ l ∉ mjoin R.*2) as [Hl0 HlR].
  { rewrite elem_of_app in Hl. tauto. }
  destruct (decide (d0 = d)) as [->|Hne]; cbn [snd].
  - rewrite hooked_absent by done. apply NoDup_app. split_and!; [|
      |done].
    + apply NoDup_cons. by split.
    + intros a [->|Ha]%elem_of_cons; [done|]. by apply H2.
  - apply NoDup_app. split_and!; [done| |by apply IH].
    intros a Ha Ha'. apply hooked_members in Ha' as [->|Ha']; [done|].
    by apply (H2 a).
Qed.

Lemma add_listener_run `{callbacks} st c R eid d cb dcb u :
  below st → registry st c R → first_def st R.*1 eid = Some d →
  ∃ r st',
    evm_add_listener (Some c) eid (Some cb) dcb u st = (Done r, st') ∧
    match r with
    | Some l =>
      l = brk st ∧
      registry st' c
        ((λ x, if decide (x.1 = d) then (x.1, l :: x.2) else x) <$> R) ∧
      (∃ n, heap st' !! l =
            Some (Listener (mk_listener (Some d) (Some cb) dcb u n))) ∧
      (∀ a, a ≠ d → a ≠ l → heap st' !! a = heap st !! a) ∧
      trace st' = trace st
    | None => heap st' = heap st ∧ trace st' = trace st ++ [ORefused]
    end.
Proof.
  intros Hb Hreg Hfirst. pose proof Hreg as (Hdefs & Hlists & Hnd).
  pose proof Hdefs as (cx & Hc & Hl).
  pose proof (first_def_in _ _ _ _ Hfirst) as Hd.
  destruct (lseg_def _ _ _ _ Hl Hd) as [dx Hdx].
  unfold evm_add_listener. cbn [or_singleton].
  rewrite bind_run, ret_run, bind_run, (find_def_run _ _ R.*1) by done.
  rewrite Hfirst. unfold evm_create_listener.
  set (new := Listener (mk_listener (Some d) (Some cb) dcb u None)).
  assert (safe (ALLOC new) st (λ r st',
    ∃ o, (r = Some (brk st) ∧ st' = alloc new (with_oracle o st)) ∨
         (r = None ∧ st' = emit ORefused (with_oracle o st)))) as Hs.
  { apply safe_ALLOC; intros o; exists o; [by left|by right]. }
  destruct Hs as (r & st1 & Hrun & o & [[-> ->]|[-> ->]]).
  - set (l := brk st) in *. exists (Some l).
    set (st1 := alloc new (with_oracle o st)).
    assert (d ≠ l) as Hdl.
    { intros Heq. apply Hb in Hdx. unfold l in Heq. lia. }
    assert (∀ a, a ≠ l → heap st1 !! a = heap st !! a) as H1.
    { intros a Ha. unfold st1. rewrite heap_alloc. cbn [brk with_oracle].
      fold l. destruct (decide (l = a)); [congruence|done]. }
    assert (heap st1 !! l = Some new) as Hl1.
    { unfold st1. rewrite heap_alloc. cbn [brk with_oracle]. fold l.
      by destruct (decide (l = l)). }
    set (st2 := put d (Def (set_d_listeners (Some l) dx)) st1).
    set (nl := mk_listener (Some d) (Some cb) dcb u (d_listeners dx)).
    set (st3 := put l (Listener nl) st2).
    exists st3. split.
    { rewrite bind_run, Hrun. cbv beta iota.
      rewrite bind_run, (get_def_run _ dx) by (by rewrite H1).
      rewrite bind_run, (upd_def_run _ _ dx) by (by rewrite H1).
      rewrite bind_run. fold st2.
      rewrite (upd_listener_run _ _
                 (mk_listener (Some d) (Some cb) dcb u None)).
      - by rewrite ret_run.
      - unfold st2. by rewrite heap_put_ne. }
    assert (∀ a, a ≠ d → a ≠ l → heap st3 !! a = heap st !! a) as Hfr.
    { intros a Had Hal. unfold st3, st2. rewrite !heap_put_ne by done.
      by apply H1. }
    assert (heap st3 !! l = Some (Listener nl)) as Hl3.
    { unfold st3. by rewrite heap_put_eq. }
    assert (heap st3 !! d = Some (Def (set_d_listeners (Some l) dx))) as Hd3.
    { unfold st3, st2. by rewrite heap_put_ne, heap_put_eq. }
    assert (∀ a ob, heap st !! a = Some ob → a ≠ l) as Hold.
    { intros a ob Ha ->. apply Hb in Ha. unfold l in Ha. lia. }
    assert (∀ a, a ∈ mjoin R.*2 →
                 ∃ lx, heap st !! a = Some (Listener lx)) as Hkind.
    { intros a Ha. by eapply registry_listener. }
    assert (∀ a, a ∈ mjoin R.*2 → heap st3 !! a = heap st !! a) as Hsame.
    { intros a Ha. destruct (Hkind a Ha) as [lx Hlx]. apply Hfr.
      - intros ->. congruence.
      - by eapply Hold. }
    assert (∀ x, x ∈ R → ∀ a, a ∈ x.2 → a ∈ mjoin R.*2) as Hsub.
    { intros x Hx a Ha. apply list_elem_of_join. exists x.2.
      split; [done|]. by apply list_elem_of_fmap_2. }
    split; [done|]. split_and!; try done; [|eauto].
    split_and!.
    + exists cx. split.
      * rewrite Hfr; [done| |by eapply Hold]. intros ->. congruence.
      * rewrite hooked_fst. eapply lseg_ext; [|exact Hl]. intros a Ha.
        unfold next_def. destruct (decide (a = d)) as [->|Had].
        -- by rewrite Hd3, Hdx.
        -- destruct (lseg_def _ _ _ _ Hl Ha) as [ax Hax].
           rewrite Hfr; [done|done|by eapply Hold].
    + rewrite Forall_fmap. rewrite Forall_forall in Hlists |- *.
      intros x Hx. unfold compose.
      destruct (Hlists x Hx) as [(dx' & Hdx' & Hseg) Hof].
      assert (lseg (next_listener st3) (d_listeners dx') x.2) as Hseg3.
      { eapply lseg_ext; [|exact Hseg]. intros a Ha.
        apply next_listener_heap, Hsame. by eapply Hsub. }
      assert (Forall (listener_of st3 x.1) x.2) as Hof3.
      { rewrite Forall_forall in Hof |- *. intros a Ha.
        destruct (Hof a Ha) as (lx & Hlx & Hdef). exists lx.
        rewrite Hsame; [done|]. by eapply Hsub. }
      destruct (decide (x.1 = d)) as [Hxd|Hxd]; cbn [fst snd].
      * rewrite Hxd in *. assert (dx' = dx) as -> by congruence. split.
        -- eexists. split; [exact Hd3|]. cbn [d_listeners set_d_listeners].
           econstructor; [|exact Hseg3].
           unfold next_listener. by rewrite Hl3.
        -- apply Forall_cons. split; [|done]. by exists nl.
      * split; [|done]. exists dx'. split; [|done].
        rewrite Hfr; [done|done|by eapply Hold].
    + apply hooked_NoDup; [by eapply lseg_NoDup|done|]. intros Hin.
      destruct (Hkind _ Hin) as [lx Hlx]. by eapply Hold.
  - exists None, (emit ORefused (with_oracle o st)). split; [|done].
    rewrite bind_run, Hrun. done.
Qed.

(** [evm_add_listener] with a callback, for an event type that has a
    definition: when it returns a listener, the listener is new, it is the
    first of the list of that definition, in front of the listeners that
    were there, and the other lists are as before; it holds the callback,
    the destroy callback and the user pointer given.  When it returns NULL
    the request for memory was refused and the heap is as it was. *)
Theorem add_listener_first `{callbacks} (st : evm_t) (c : addr)
    (R : list (addr * list addr)) (eid : Z) (d : addr) (cb : Z)
    (dcb : option Z) (u : Z) :
  reachable st → registry st c R → first_def st R.*1 eid = Some d →
  ∃ r st',
    evm_add_listener (Some c) eid (Some cb) dcb u st = (Done r, st') ∧
    match r with
    | Some l =>
      l = brk st ∧
      registry st' c
        ((λ x, if decide (x.1 = d) then (x.1, l :: x.2) else x) <$> R) ∧
      (∃ n, heap st' !! l =
            Some (Listener (mk_listener (Some d) (Some cb) dcb u n))) ∧
      (∀ a, a ≠ d → a ≠ l → heap st' !! a = heap st !! a) ∧
      trace st' = trace st
    | None => heap st' = heap st ∧ trace st' = trace st ++ [ORefused]
    end.
Proof.
  intros Hreach. apply add_listener_run. by apply reachable_below.
Qed.

Lemma registry_listening : registry evm_listening 0 [(4%nat, [5%nat])].
Proof.
  split_and!.
  - eexists. split; [vm_compute; reflexivity|]. cbn [c_defs].
    econstructor; [vm_compute; reflexivity|constructor].
  - constructor; [|constructor]. split.
    + eexists. split; [vm_compute; reflexivity|]. cbn [d_listeners].
      econstructor; [vm_compute; reflexivity|constructor].
    + constructor; [|constructor].
      eexists. split; [vm_compute; reflexivity|reflexivity].
  - cbn. apply NoDup_singleton.
Qed.

Lemma add_listener_first_witness :
  ∃ r st',
    @evm_add_listener (Some 0%nat) 5 (Some 2) (Some 7) 30 evm_listening
      = (Done r, st') ∧
    match r with
    | Some l =>
      l = brk evm_listening ∧
      registry st' 0
        ((λ x, if decide (x.1 = 4%nat) then (x.1, l :: x.2) else x)
           <$> [(4%nat, [5%nat])]) ∧
      (∃ n, heap st' !! l =
            Some (Listener (mk_listener (Some 4%nat) (Some 2) (Some 7) 30
                              n))) ∧
      (∀ a, a ≠ 4%nat → a ≠ l → heap st' !! a = heap evm_listening !! a) ∧
      trace st' = trace evm_listening
    | None => heap st' = heap evm_listening ∧
              trace st' = trace evm_listening ++ [ORefused]
    end.
Proof.
  apply (@add_listener_first (code_demo false) evm_listening 0%nat
           [(4%nat, [5%nat])] 5 4%nat 2 (Some 7) 30).
  - exact reachable_listening.
  - exact registry_listening.
  - vm_compute. reflexivity.
Defined.

End EvmRegistryFacts.

(** ** Cancelling a session *)

Module EvmCancelFacts.
Import Evm EvmList EvmCancel EvmFacts EvmProps EvmRegistryFacts.

Lemma find_session_miss c s Q :
  ∀ st curr prev fuel,
    lseg (next_session st) curr Q → s ∉ Q → (length Q ≤ fuel)%nat →
    find_session fuel c s curr prev st = (Done false, st).
Proof.
  induction Q as [|a Q IH]; intros st curr prev fuel Hl Hs Hfuel.
  - apply lseg_nil_inv in Hl as ->. by destruct fuel.
  - inversion Hl as [|? n ? Hn Hrest]; subst.
    destruct fuel as [|fuel]; [cbn in Hfuel; lia|].
    apply next_session_inv in Hn as (ax & Hax & Hnext).
    cbn [find_session]. rewrite bind_run, (get_session_run _ ax) by done.
    rewrite bool_decide_eq_false_2.
    2:{ intros ->. apply Hs. by left. }
    rewrite Hnext. apply IH; [done| |cbn in Hfuel; lia].
    intros Hin. apply Hs. by right.
Qed.

Lemma find_session_hit c s sx Q2 Q1 :
  ∀ st curr prev fuel,
    lseg (next_session st) curr (Q1 ++ s :: Q2) → s ∉ Q1 →
    (length Q1 < fuel)%nat → heap st !! s = Some (Session sx) →
    find_session fuel c s curr prev st =
    ((match (match last Q1 with Some p => Some p | None => prev end) with
      | Some p => upd_session p (set_s_next (s_next sx))
      | None =>
        upd_ctx c (set_c_head (s_next sx));;
        if bool_decide (s_next sx = None) then upd_ctx c (set_c_tail None)
        else mret tt
      end);; mret true) st.
Proof.
  induction Q1 as [|a Q1 IH]; intros st curr prev fuel Hl Hs Hfuel Hsx.
  - cbn in Hl. inversion Hl as [|? n ? Hn Hrest]; subst.
    destruct fuel as [|fuel]; [lia|].
    cbn [find_session]. rewrite bind_run, (get_session_run _ sx) by done.
    by rewrite bool_decide_eq_true_2.
  - cbn in Hl. inversion Hl as [|? n ? Hn Hrest]; subst.
    destruct fuel as [|fuel]; [lia|].
    apply next_session_inv in Hn as (ax & Hax & Hnext).
    cbn [find_session]. rewrite bind_run, (get_session_run _ ax) by done.
    rewrite bool_decide_eq_false_2.
    2:{ intros ->. apply Hs. by left. }
    rewrite Hnext. rewrite (IH st n (Some a) fuel); try done.
    + rewrite last_cons. by destruct (last Q1).
    + intros Hin. apply Hs. by right.
    + cbn in Hfuel. lia.
Qed.

Lemma sessions_below st hd L :
  below st → lseg (next_session st) hd L → (length L ≤ brk st)%nat.
Proof.
  intros Hb. apply lseg_below; [done|]. intros a [n Hn].
  apply next_session_inv in Hn as (lx & Hlx & _). eauto.
Qed.

Lemma lseg_session st hd L a :
  lseg (next_session st) hd L → a ∈ L →
  ∃ x, heap st !! a = Some (Session x).
Proof.
  intros Hl Ha. destruct (lseg_member _ _ _ _ Hl Ha) as [n Hn].
  apply next_session_inv in Hn as (lx & Hlx & _). eauto.
Qed.

Lemma next_session_heap st st' a :
  heap st' !! a = heap st !! a → next_session st' a = next_session st a.
Proof. unfold next_session. by intros ->. Qed.

(** The search of [evm_cancel_session] for a session of the queue: the
    session is taken out of the list; the tail of the context is set only
    when the session is the first of the queue. *)
Lemma find_session_unlinks st c cx Q1 s Q2 :
  below st → heap st !! c = Some (Ctx cx) →
  lseg (next_session st) (c_head cx) (Q1 ++ s :: Q2) →
  c_tail cx = last (Q1 ++ s :: Q2) →
  ∃ st1 cx1,
    find_session (brk st) c s (c_head cx) None st = (Done true, st1) ∧
    brk st1 = brk st ∧ trace st1 = trace st ∧
    heap st1 !! c = Some (Ctx cx1) ∧
    lseg (next_session st1) (c_head cx1) (Q1 ++ Q2) ∧
    c_tail cx1 = match Q1, Q2 with
                 | [], [] => None
                 | _, _ => c_tail cx
                 end ∧
    (∀ a, a ≠ c → last Q1 ≠ Some a → heap st1 !! a = heap st !! a) ∧
    (∀ p px, last Q1 = Some p → heap st !! p = Some (Session px) →
             heap st1 !! p = Some (Session (set_s_next (head Q2) px))).
Proof.
  intros Hb Hc Hl Htl. pose proof (lseg_NoDup _ _ _ Hl) as Hnd.
  assert (s ∉ Q1) as Hs.
  { apply NoDup_app in Hnd as (_ & Hnd & _). intros Hin.
    apply (Hnd s Hin). by left. }
  destruct (lseg_session st _ _ s Hl) as [sx Hsx].
  { apply elem_of_app. right. by left. }
  assert (next_session st s = Some (head Q2)) as Hnext.
  { destruct (lseg_app_tail _ _ _ _ Hl) as (m & Hm & _).
    inversion Hm as [|? n ? Hn Hrest]; subst. rewrite Hn.
    by rewrite (lseg_head _ _ _ Hrest). }
  assert (s_next sx = head Q2) as Hsn.
  { apply next_session_inv in Hnext as (sx' & Hsx' & <-). congruence. }
  assert (c ∉ Q1 ++ s :: Q2) as Hcq.
  { intros Hin. destruct (lseg_session _ _ _ _ Hl Hin). congruence. }
  rewrite (find_session_hit c s sx Q2 Q1); try done.
  2:{ pose proof (sessions_below _ _ _ Hb Hl) as Hlen.
      rewrite length_app in Hlen. cbn in Hlen. lia. }
  rewrite bind_run. destruct (last Q1) as [p|] eqn:Hlast.
  - apply last_Some_snoc in Hlast as [Q1' ->].
    destruct (lseg_session st _ _ p Hl) as [px Hpx].
    { apply elem_of_app. left. apply elem_of_app. right. by left. }
    rewrite (upd_session_run _ _ px) by done. rewrite ret_run.
    set (st1 := put p (Session (set_s_next (s_next sx) px)) st).
    assert (p ≠ c) as Hpc by (intros ->; congruence).
    exists st1, cx. split; [done|]. split; [done|]. split; [done|].
    split; [by unfold st1; rewrite heap_put_ne|]. split_and!.
    + rewrite <- app_assoc in Hl |- *. cbn in Hl |- *.
      rewrite <- app_assoc in Hnd. cbn in Hnd.
      eapply (lseg_unlink _ _ _ _ _ _ (head Q2)); [exact Hl|done|done| |].
      * unfold next_session, st1. rewrite heap_put_eq. by rewrite Hsn.
      * intros a Hap Has. apply next_session_heap.
        unfold st1. by rewrite heap_put_ne.
    + destruct Q1'; by destruct Q2.
    + intros a Hac Hal. unfold st1. rewrite heap_put_ne; [done|].
      intros <-. by apply Hal.
    + intros p' px' Hp' Hpx'. injection Hp' as <-.
      assert (px' = px) as -> by congruence.
      unfold st1. by rewrite heap_put_eq, Hsn.
  - apply last_None in Hlast as ->. cbn [app] in *.
    rewrite bind_run, (upd_ctx_run _ _ cx) by done.
    set (st1 := put c (Ctx (set_c_head (s_next sx) cx)) st).
    assert (∀ st2 cx2, heap st2 !! c = Some (Ctx cx2) →
              (∀ a, a ≠ c → heap st2 !! a = heap st !! a) →
              c_head cx2 = head Q2 →
              lseg (next_session st2) (c_head cx2) Q2) as Hkeep.
    { intros st2 cx2 Hc2 Hfr Hhd. rewrite Hhd.
      inversion Hl as [|? n ? Hn Hrest]; subst.
      assert (n = head Q2) as -> by congruence.
      eapply lseg_ext; [|exact Hrest]. intros a Ha.
      apply next_session_heap, Hfr. intros ->. apply Hcq. by right. }
    case_bool_decide as Hnone.
    + rewrite (upd_ctx_run _ _ (set_c_head (s_next sx) cx))
        by (by unfold st1; rewrite heap_put_eq).
      rewrite ret_run.
      set (st2 := put c (Ctx (set_c_tail None
                                (set_c_head (s_next sx) cx))) st1).
      exists st2, (set_c_tail None (set_c_head (s_next sx) cx)).
      split; [done|]. split; [done|]. split; [done|].
      split; [by unfold st2; rewrite heap_put_eq|].
      assert (Q2 = []) as ->.
      { rewrite Hsn in Hnone. by destruct Q2. }
      split_and!; try done.
      * cbn. rewrite Hsn. constructor.
      * intros a Hac _. unfold st2, st1. by rewrite !heap_put_ne.
    + rewrite ret_run, ret_run.
      exists st1, (set_c_head (s_next sx) cx).
      split; [done|]. split; [done|]. split; [done|].
      split; [by unfold st1; rewrite heap_put_eq|]. split_and!; try done.
      * apply (Hkeep st1); [by unfold st1; rewrite heap_put_eq| |done].
        intros a Hac. unfold st1. by rewrite heap_put_ne.
      * destruct Q2; [|done]. by rewrite Hsn in Hnone.
      * intros a Hac _. unfold st1. by rewrite heap_put_ne.
Qed.

Section Cancel.
Context {code : callbacks}.

Lemma destroy_session_frees s st st' :
  evm_destroy_session (Some s) st = (Done tt, st') → heap st' !! s = None.
Proof.
  intros Hrun. unfold evm_destroy_session in Hrun.
  apply bind_ok in Hrun as (sx & st1 & _ & Hrun).
  apply bind_ok in Hrun as (fuel & st2 & _ & Hrun).
  apply bind_ok in Hrun as ([] & st3 & _ & Hrun).
  apply bind_ok in Hrun as (sx1 & st4 & _ & Hrun).
  apply bind_ok in Hrun as (? & st5 & _ & Hrun).
  cbn [FREE] in Hrun. apply release_ok in Hrun as [_ ->].
  rewrite heap_del. by rewrite decide_True.
Qed.

(** The destruction of a session without a session callback. *)
Lemma destroy_session_quiet s g d E sx st st' :
  evm_inv st → ready st s g d E →
  heap st !! s = Some (Session sx) → s_cb sx = None →
  evm_destroy_session (Some s) st = (Done tt, st') →
  trace st' = trace st ++ destroyed E ∧ brk st' = brk st ∧
  ∀ a, heap st' !! a =
       if decide (a = s ∨ a = g ∨ a ∈ E.*1.*1) then None else heap st !! a.
Proof.
  intros Hinv [Hq Hg Hp] Hsx Hcb Hrun. unfold evm_destroy_session in Hrun.
  apply bind_ok in Hrun as (sx0 & st1 & Hsx0 & Hrun).
  apply get_session_ok in Hsx0 as [Hsx0 ->].
  assert (sx0 = sx) as -> by congruence.
  apply bind_ok in Hrun as (fuel & st1 & Hfuel & Hrun).
  apply bound_ok in Hfuel as [_ ->].
  apply bind_ok in Hrun as ([] & st1 & Hgrps & Hrun).
  apply session_queue_one in Hq as (sx0 & nx & Hsx0' & Hhd & _ & Hnx & Hnxt).
  assert (sx0 = sx) as -> by congruence. rewrite Hhd in Hgrps.
  destruct fuel as [|fuel]; [done|]. cbn [destroy_grps] in Hgrps.
  apply bind_ok in Hgrps as (nx1 & st2 & Hnx1 & Hgrps).
  apply get_grp_ok in Hnx1 as [Hnx1 ->].
  assert (nx1 = nx) as -> by congruence.
  apply bind_ok in Hgrps as ([] & st2 & Hdes & Hgrps).
  destruct (destroy_grp_spec _ _ _ _ Hinv Hp Hdes) as (_ & Htr & Hbrk & Hheap).
  rewrite Hnxt in Hgrps.
  assert (st1 = st2) as ->.
  { destruct fuel; cbn in Hgrps; by injection Hgrps as <-. }
  assert (heap st2 !! s = Some (Session sx)) as Hsx2.
  { rewrite Hheap. rewrite decide_False; [done|]. intros [->|Hin].
    - congruence.
    - destruct (pending_members _ _ _ _ Hp Hin) as (ex & Hex & _). congruence. }
  apply bind_ok in Hrun as (sx1 & st3 & Hsx1 & Hrun).
  apply get_session_ok in Hsx1 as [Hsx1 ->].
  assert (sx1 = sx) as -> by congruence. rewrite Hcb in Hrun.
  rewrite bind_run, ret_run in Hrun.
  cbn [FREE] in Hrun. apply release_ok in Hrun as [_ ->].
  split; [done|]. split; [done|]. intros a. rewrite heap_del, Hheap.
  destruct (decide (s = a)) as [<-|Hne].
  - rewrite decide_True; [done|]. by left.
  - destruct (decide (a = g ∨ a ∈ E.*1.*1)) as [Hin|Hnin].
    + rewrite decide_True; [done|]. by right.
    + rewrite decide_False; [done|]. intros [->|Hin]; [done|]. by apply Hnin.
Qed.

(** The state between the search and the destruction. *)
Lemma cancel_unlinked st st1 c cx Q1 s Q2 g d E :
  evm_inv st → heap st !! c = Some (Ctx cx) →
  lseg (next_session st) (c_head cx) (Q1 ++ s :: Q2) →
  ready st s g d E →
  brk st1 = brk st →
  (∃ cx1, heap st1 !! c = Some (Ctx cx1)) →
  (∀ a, a ≠ c → last Q1 ≠ Some a → heap st1 !! a = heap st !! a) →
  (∀ p px, last Q1 = Some p → heap st !! p = Some (Session px) →
           heap st1 !! p = Some (Session (set_s_next (head Q2) px))) →
  evm_inv st1 ∧ ready st1 s g d E.
Proof.
  intros Hinv Hc Hl Hready Hbrk [cx1 Hc1] Hfr Hprev.
  pose proof (lseg_NoDup _ _ _ Hl) as Hnd.
  assert (last Q1 ≠ Some s) as Hls.
  { intros Hlast. apply last_Some_snoc in Hlast as [Q1' ->].
    rewrite <- app_assoc in Hnd. apply NoDup_app in Hnd as (_ & _ & Hnd).
    cbn in Hnd. apply NoDup_cons in Hnd as [Hnd _]. apply Hnd. by left. }
  assert (∀ p, last Q1 = Some p → ∃ px, heap st !! p = Some (Session px))
    as Hpx.
  { intros p Hp. eapply lseg_session; [exact Hl|].
    apply last_Some_snoc in Hp as [Q1' ->].
    apply elem_of_app. left. apply elem_of_app. right. by left. }
  assert (∀ a ob, heap st !! a = Some ob →
                  (∀ x, ob ≠ Session x) → (∀ x, ob ≠ Ctx x) →
                  heap st1 !! a = heap st !! a) as Hother.
  { intros a ob Ha Hns Hnc. apply Hfr.
    - intros ->. rewrite Hc in Ha. injection Ha as <-. by eapply Hnc.
    - intros Hlast. destruct (Hpx a Hlast) as [px Hpx'].
      rewrite Hpx' in Ha. injection Ha as <-. by eapply Hns. }
  split.
  - eapply inv_settled; [exact Hinv|done|]. intros a ob' Ha.
    destruct (decide (a = c)) as [->|Hac].
    { exists (Ctx cx). split; [done|]. right. rewrite Hc1 in Ha.
      by injection Ha as <-. }
    destruct (decide (last Q1 = Some a)) as [Hlast|Hlast].
    { destruct (Hpx a Hlast) as [px Hpx'].
      exists (Session px). split; [done|]. left.
      rewrite (Hprev _ _ Hlast Hpx') in Ha. injection Ha as <-. by left. }
    exists ob'. rewrite <- Hfr by done. split; [done|]. left.
    apply narrowed_refl.
  - destruct Hready as [Hsq Hg Hp].
    apply session_queue_one in Hsq as (sx & nx & Hsx & Hh & Ht & Hnx & Hnn).
    assert (s ≠ c) as Hsc by (intros ->; congruence).
    split.
    + apply session_queue_one. exists sx, nx.
      rewrite (Hfr s), (Hother _ _ Hnx) by done. done.
    + eapply grp_of_frame; [|done]. by eapply Hother.
    + eapply pending_frame; [| |done].
      * by eapply Hother.
      * intros e He.
        destruct (pending_members _ _ _ _ Hp He) as (ex & Hex & _).
        by eapply Hother.
Qed.

Lemma cancel_run st c cx s r st1 :
  heap st !! c = Some (Ctx cx) →
  find_session (brk st) c s (c_head cx) None st = (Done r, st1) →
  evm_cancel_session (Some c) (Some s) st =
  ((if r then evm_destroy_session (Some s) else mret tt);; mret r) st1.
Proof.
  intros Hc Hfind. unfold evm_cancel_session. cbn [or_singleton].
  rewrite bind_run, ret_run. rewrite bind_run. cbn [deref].
  rewrite ret_run. rewrite bind_run, (get_ctx_run _ cx) by done.
  rewrite bind_run. cbn [bound]. by rewrite bind_run, Hfind.
Qed.

End Cancel.

(** *** Properties of [evm_cancel_session] *)

(** [evm_cancel_session] for a session that is not in the queue of the
    context returns false and changes nothing. *)
Theorem cancel_unknown_session `{callbacks} (st : evm_t) (c : addr)
    (Q : list addr) (s : addr) :
  reachable st → queue st (CtxQ c) Q → s ∉ Q →
  evm_cancel_session (Some c) (Some s) st = (Done false, st).
Proof.
  intros Hreach (hd & tl & Hends & Hl & _) Hs.
  apply ends_ctx in Hends as (cx & Hc & -> & _). cbn in Hl.
  rewrite (cancel_run st c cx s false st); [done..|].
  eapply find_session_miss; [exact Hl|done|].
  eapply sessions_below; [|exact Hl]. by apply reachable_below.
Qed.

Lemma queue_started : queue evm_started (CtxQ 0) [6%nat].
Proof.
  exists (Some 6%nat), (Some 6%nat). split_and!; [concrete| |reflexivity].
  econstructor; [concrete|constructor].
Qed.

Lemma cancel_unknown_session_witness :
  @evm_cancel_session (code_demo false) (Some 0%nat) (Some 9%nat) evm_started
  = (Done false, evm_started).
Proof.
  apply (@cancel_unknown_session (code_demo false) evm_started 0%nat
           [6%nat] 9%nat).
  - exact reachable_started.
  - exact queue_started.
  - intros Hin. apply list_elem_of_singleton in Hin. discriminate Hin.
Defined.

(** [evm_cancel_session] for a session of the queue that has not been
    taken by a worker, when the call returns: it returns true; the destroy
    callback of each event of the session that has one has been called, in
    order, with [dispatched] false; nothing has been dispatched and no
    listener called; and the session is freed. *)
Theorem cancel_queued_session `{callbacks} (st : evm_t) (c : addr)
    (Q : list addr) (s g : addr) (d : Z) (E : list entry) (r : bool)
    (st' : evm_t) :
  evm_inv st → queue st (CtxQ c) Q → s ∈ Q → ready st s g d E →
  evm_cancel_session (Some c) (Some s) st = (Done r, st') →
  r = true ∧ heap st' !! s = None ∧
  ∃ tr, trace st' = trace st ++ destroyed E ++ tr ∧ Forall winding tr.
Proof.
  intros Hinv (hd & tl & Hends & Hl & Htl) Hs Hready Hrun.
  apply ends_ctx in Hends as (cx & Hc & -> & ->). cbn in Hl.
  apply list_elem_of_split in Hs as (Q1 & Q2 & ->).
  destruct (find_session_unlinks st c cx Q1 s Q2 (inv_below _ Hinv) Hc Hl Htl)
    as (st1 & cx1 & Hfind & Hbrk & Htr & Hc1 & _ & _ & Hfr & Hprev).
  rewrite (cancel_run st c cx s true st1) in Hrun by done.
  apply bind_ok in Hrun as ([] & st2 & Hdes & Hret).
  apply ret_ok in Hret as [-> <-].
  destruct (cancel_unlinked st st1 c cx Q1 s Q2 g d E)
    as [Hinv1 Hready1]; eauto.
  split; [done|]. split; [by eapply destroy_session_frees|].
  destruct (destroy_session_spec s E st1 st' Hinv1) as (tr & Htr' & Hw);
    [right; eauto|done|].
  exists tr. by rewrite Htr', Htr.
Qed.

Lemma cancel_queued_session_witness :
  true = true ∧
  heap (@evm_cancel_session (code_demo false) (Some 0%nat) (Some 6%nat)
          evm_started).2 !! 6%nat = None ∧
  ∃ tr, trace (@evm_cancel_session (code_demo false) (Some 0%nat)
                 (Some 6%nat) evm_started).2
        = trace evm_started ++ destroyed [(8%nat, Some 3, 20)] ++ tr ∧
        Forall winding tr.
Proof.
  apply (@cancel_queued_session (code_demo false) evm_started 0%nat
           [6%nat] 6%nat 7%nat 0 [(8%nat, Some 3, 20)] true).
  - exact evm_started_inv.
  - exact queue_started.
  - by left.
  - exact evm_started_ready.
  - vm_compute. reflexivity.
Defined.

(** [evm_cancel_session] for a session without a session callback that is
    the first of the queue or has a session behind it, when the call
    returns: the queue holds the other sessions in their order, with head
    and tail in place; the session, its group and its events are freed. *)
Theorem cancel_relinks_queue `{callbacks} (st : evm_t) (c : addr)
    (Q1 : list addr) (s : addr) (Q2 : list addr) (g : addr) (d : Z)
    (E : list entry) (sx : evm_session_s) (r : bool) (st' : evm_t) :
  evm_inv st → queue st (CtxQ c) (Q1 ++ s :: Q2) → ready st s g d E →
  heap st !! s = Some (Session sx) → s_cb sx = None →
  Q1 = [] ∨ Q2 ≠ [] →
  evm_cancel_session (Some c) (Some s) st = (Done r, st') →
  r = true ∧ queue st' (CtxQ c) (Q1 ++ Q2) ∧
  trace st' = trace st ++ destroyed E ∧
  ∀ a, a = s ∨ a = g ∨ a ∈ E.*1.*1 → heap st' !! a = None.
Proof.
  intros Hinv (hd & tl & Hends & Hl & Htl) Hready Hsx Hcb Hcase Hrun.
  apply ends_ctx in Hends as (cx & Hc & -> & ->). cbn in Hl.
  destruct (find_session_unlinks st c cx Q1 s Q2 (inv_below _ Hinv) Hc Hl Htl)
    as (st1 & cx1 & Hfind & Hbrk & Htr & Hc1 & Hl1 & Htl1 & Hfr & Hprev).
  rewrite (cancel_run st c cx s true st1) in Hrun by done.
  apply bind_ok in Hrun as ([] & st2 & Hdes & Hret).
  apply ret_ok in Hret as [-> <-].
  destruct (cancel_unlinked st st1 c cx Q1 s Q2 g d E)
    as [Hinv1 Hready1]; eauto.
  pose proof (lseg_NoDup _ _ _ Hl) as Hnd.
  assert (heap st1 !! s = Some (Session sx)) as Hsx1.
  { rewrite Hfr; [done| |].
    - intros ->. congruence.
    - intros Hlast. apply last_Some_snoc in Hlast as [Q1' ->].
      rewrite <- app_assoc in Hnd. apply NoDup_app in Hnd as (_ & _ & Hnd).
      cbn in Hnd. apply NoDup_cons in Hnd as [Hnd _]. apply Hnd. by left. }
  destruct (destroy_session_quiet s g d E sx st1 st' Hinv1 Hready1 Hsx1 Hcb
              Hdes) as (Htr' & Hbrk' & Hheap).
  pose proof Hready1 as [_ (gx & Hgx & _) Hp1].
  assert (∀ a ob, heap st1 !! a = Some ob →
            (∀ x, ob ≠ Grp x) → (∀ x, ob ≠ Event x) → a ≠ s →
            heap st' !! a = heap st1 !! a) as Hkeep.
  { intros a ob Ha Hng Hne Has. rewrite Hheap.
    rewrite decide_False; [done|]. intros [->|[->|Hin]]; [done| |].
    - rewrite Hgx in Ha. injection Ha as <-. by eapply Hng.
    - destruct (pending_members _ _ _ _ Hp1 Hin) as (ex & Hex & _).
      rewrite Hex in Ha. injection Ha as <-. by eapply Hne. }
  split; [done|]. split_and!.
  - exists (c_head cx1), (c_tail cx1). split_and!.
    + cbn. rewrite (Hkeep c (Ctx cx1)); try done.
      * by rewrite Hc1.
      * intros ->. congruence.
    + cbn. eapply lseg_ext; [|exact Hl1]. intros a Ha.
      destruct (lseg_session _ _ _ _ Hl1 Ha) as [ax Hax].
      apply next_session_heap. eapply Hkeep; [done|done|done|].
      intros ->. apply NoDup_app in Hnd as (_ & Hnd1 & Hnd2).
      apply NoDup_cons in Hnd2 as [Hnd2 _].
      apply elem_of_app in Ha as [Ha|Ha]; [|done].
      apply (Hnd1 s Ha). by left.
    + rewrite Htl1, Htl. destruct Q2 as [|b Q2].
      * destruct Hcase as [->|]; done.
      * rewrite !last_app. cbn [last]. rewrite last_cons.
        destruct Q1; by destruct (last Q2).
  - by rewrite Htr', Htr.
  - intros a Ha. rewrite Hheap. by rewrite decide_True.
Qed.

(** [evm_cancel_session] for a session without a session callback that is
    the last of a queue of two or more, when the call returns: the session
    is freed, but the tail of the context still names it, and the next
    [evm_ctx_push_session] writes to the freed session. *)
Theorem cancel_last_leaves_tail `{callbacks} (st : evm_t) (c : addr)
    (Q1 : list addr) (s g : addr) (d : Z) (E : list entry)
    (sx : evm_session_s) (r : bool) (st' : evm_t) :
  evm_inv st → queue st (CtxQ c) (Q1 ++ [s]) → Q1 ≠ [] →
  ready st s g d E → heap st !! s = Some (Session sx) → s_cb sx = None →
  evm_cancel_session (Some c) (Some s) st = (Done r, st') →
  r = true ∧ heap st' !! s = None ∧
  (∃ cx', heap st' !! c = Some (Ctx cx') ∧ c_tail cx' = Some s) ∧
  ∀ x, evm_ctx_push_session (Some c) (Some x) st' = (Crash, st').
Proof.
  intros Hinv (hd & tl & Hends & Hl & Htl) Hne Hready Hsx Hcb Hrun.
  apply ends_ctx in Hends as (cx & Hc & -> & ->). cbn in Hl.
  destruct (find_session_unlinks st c cx Q1 s [] (inv_below _ Hinv) Hc Hl Htl)
    as (st1 & cx1 & Hfind & Hbrk & Htr & Hc1 & Hl1 & Htl1 & Hfr & Hprev).
  rewrite (cancel_run st c cx s true st1) in Hrun by done.
  apply bind_ok in Hrun as ([] & st2 & Hdes & Hret).
  apply ret_ok in Hret as [-> <-].
  destruct (cancel_unlinked st st1 c cx Q1 s [] g d E)
    as [Hinv1 Hready1]; eauto.
  pose proof (lseg_NoDup _ _ _ Hl) as Hnd.
  assert (heap st1 !! s = Some (Session sx)) as Hsx1.
  { rewrite Hfr; [done| |].
    - intros ->. congruence.
    - intros Hlast. apply last_Some_snoc in Hlast as [Q1' ->].
      rewrite <- app_assoc in Hnd. apply NoDup_app in Hnd as (_ & _ & Hnd).
      cbn in Hnd. apply NoDup_cons in Hnd as [Hnd _]. apply Hnd. by left. }
  destruct (destroy_session_quiet s g d E sx st1 st' Hinv1 Hready1 Hsx1 Hcb
              Hdes) as (Htr' & Hbrk' & Hheap).
  pose proof Hready1 as [_ (gx & Hgx & _) Hp1].
  assert (heap st' !! s = None) as Hfreed.
  { rewrite Hheap. rewrite decide_True; [done|]. by left. }
  assert (heap st' !! c = Some (Ctx cx1)) as Hc'.
  { rewrite Hheap. rewrite decide_False; [done|]. intros [->|[->|Hin]].
    - congruence.
    - congruence.
    - destruct (pending_members _ _ _ _ Hp1 Hin) as (ex & Hex & _).
      congruence. }
  assert (c_tail cx1 = Some s) as Htail.
  { rewrite Htl1, Htl. rewrite last_snoc. by destruct Q1. }
  split; [done|]. split; [done|]. split; [eauto|].
  intros x. unfold evm_ctx_push_session.
  rewrite bind_run, (get_ctx_run _ cx1) by done. rewrite Htail.
  rewrite bind_run. unfold upd_session at 1.
  rewrite bind_run, bind_run. unfold get_session at 1.
  rewrite bind_run. unfold load. by rewrite Hfreed.
Qed.

Lemma evm_queued_inv : evm_inv evm_queued.
Proof.
  assert (brk evm_queued = 12%nat) as Hbrk by concrete.
  split.
  - intros a ob H. rewrite Hbrk. heap_cases evm_queued H.
    all: injection H as -> _; lia.
  - intros s sx g H Htl. rewrite Hbrk. heap_cases evm_queued H.
    all: try discriminate H.
    + injection H as -> ->. injection Htl as <-. split; [lia|].
      intros gx Hg. vm_compute in Hg. by injection Hg as <-.
    + injection H as -> ->. injection Htl as <-. split; [lia|].
      intros gx Hg. vm_compute in Hg. by injection Hg as <-.
  - intros g gx e H Htl. rewrite Hbrk. heap_cases evm_queued H.
    all: try discriminate H.
    + injection H as -> ->. injection Htl as <-. split; [lia|].
      intros ex He. vm_compute in He. by injection He as <-.
    + injection H as -> ->. injection Htl as <-. split; [lia|].
      intros ex He. vm_compute in He. by injection He as <-.
  - intros e ex H. heap_cases evm_queued H.
    all: try discriminate H.
    + by injection H as -> ->.
    + by injection H as -> ->.
Qed.

Lemma evm_queued_first : ready evm_queued 6 7 0 [(8%nat, Some 3, 20)].
Proof.
  split.
  - apply session_queue_one. eexists _, _. split_and!; concrete.
  - eexists. split_and!; concrete.
  - split.
    + exists (Some 8%nat), (Some 8%nat). split_and!; [concrete| |done].
      cbn. econstructor; [concrete|constructor].
    + constructor; [|constructor]. eexists. split_and!; concrete.
Qed.

Lemma evm_queued_second : ready evm_queued 9 10 0 [(11%nat, Some 3, 21)].
Proof.
  split.
  - apply session_queue_one. eexists _, _. split_and!; concrete.
  - eexists. split_and!; concrete.
  - split.
    + exists (Some 11%nat), (Some 11%nat). split_and!; [concrete| |done].
      cbn. econstructor; [concrete|constructor].
    + constructor; [|constructor]. eexists. split_and!; concrete.
Qed.

Lemma evm_queued_queue : queue evm_queued (CtxQ 0) [6%nat; 9%nat].
Proof.
  exists (Some 6%nat), (Some 9%nat). split_and!; [concrete| |reflexivity].
  econstructor; [concrete|]. econstructor; [concrete|constructor].
Qed.

Lemma cancel_relinks_queue_witness :
  true = true ∧
  queue (@evm_cancel_session (code_demo false) (Some 0%nat) (Some 6%nat)
           evm_queued).2 (CtxQ 0) ([] ++ [9%nat]) ∧
  trace (@evm_cancel_session (code_demo false) (Some 0%nat) (Some 6%nat)
           evm_queued).2
    = trace evm_queued ++ destroyed [(8%nat, Some 3, 20)] ∧
  ∀ a, a = 6%nat ∨ a = 7%nat ∨ a ∈ [(8%nat, Some 3, 20)].*1.*1 →
       heap (@evm_cancel_session (code_demo false) (Some 0%nat) (Some 6%nat)
               evm_queued).2 !! a = None.
Proof.
  apply (@cancel_relinks_queue (code_demo false) evm_queued 0%nat [] 6%nat
           [9%nat] 7%nat 0 [(8%nat, Some 3, 20)]
           (mk_session (Some 0%nat) (Some 7%nat) (Some 7%nat) None 20
              (Some 9%nat)) true).
  - exact evm_queued_inv.
  - exact evm_queued_queue.
  - exact evm_queued_first.
  - vm_compute. reflexivity.
  - reflexivity.
  - by left.
  - vm_compute. reflexivity.
Defined.

Lemma cancel_last_leaves_tail_witness :
  true = true ∧
  heap (@evm_cancel_session (code_demo false) (Some 0%nat) (Some 9%nat)
          evm_queued).2 !! 9%nat = None ∧
  (∃ cx', heap (@evm_cancel_session (code_demo false) (Some 0%nat)
                  (Some 9%nat) evm_queued).2 !! 0%nat = Some (Ctx cx') ∧
          c_tail cx' = Some 9%nat) ∧
  ∀ x, evm_ctx_push_session (Some 0%nat) (Some x)
         (@evm_cancel_session (code_demo false) (Some 0%nat) (Some 9%nat)
            evm_queued).2
       = (Crash, (@evm_cancel_session (code_demo false) (Some 0%nat)
                    (Some 9%nat) evm_queued).2).
Proof.
  apply (@cancel_last_leaves_tail (code_demo false) evm_queued 0%nat
           [6%nat] 9%nat 10%nat 0 [(11%nat, Some 3, 21)]
           (mk_session (Some 0%nat) (Some 10%nat) (Some 10%nat) None 21
              None) true).
  - exact evm_queued_inv.
  - exact evm_queued_queue.
  - discriminate.
  - exact evm_queued_second.
  - vm_compute. reflexivity.
  - reflexivity.
  - vm_compute. reflexivity.
Defined.

End EvmCancelFacts.

(** ** hash.c *)

Module HashFacts.
Import Hash.

Lemma u32_add_l a b : u32 (u32 a + b) = u32 (a + b).
Proof. unfold u32. by rewrite Zplus_mod_idemp_l. Qed.

Lemma u32_add_r a b : u32 (a + u32 b) = u32 (a + b).
Proof. unfold u32. by rewrite Zplus_mod_idemp_r. Qed.

Lemma u32_sub_l a b : u32 (u32 a - b) = u32 (a - b).
Proof. unfold u32. by rewrite Zminus_mod_idemp_l. Qed.

Lemma u32_sub_r a b : u32 (a - u32 b) = u32 (a - b).
Proof. unfold u32. by rewrite Zminus_mod_idemp_r. Qed.

Lemma u32_mul_l a b : u32 (u32 a * b) = u32 (a * b).
Proof. unfold u32. by rewrite Zmult_mod_idemp_l. Qed.

Lemma djb2_loop_horner l :
  ∀ acc, djb2_loop (u32 acc) l = u32 (horner 33 acc l).
Proof.
  induction l as [|b l IH]; intros acc; [done|].
  cbn [djb2_loop horner fold_left].
  assert (u32 (u32 (u32 acc * 33) + b) = u32 (acc * 33 + b)) as ->.
  { rewrite u32_add_l, <- (u32_add_l (u32 acc * 33)), u32_mul_l.
    apply u32_add_l. }
  apply IH.
Qed.

Lemma sdbm_loop_horner l :
  ∀ acc, sdbm_loop (u32 acc) l = u32 (horner 65599 acc l).
Proof.
  induction l as [|b l IH]; intros acc; [done|].
  cbn [sdbm_loop horner fold_left].
  rewrite !Z.shiftl_mul_pow2 by lia.
  assert (u32 (u32 (u32 (b + u32 (u32 acc * 2 ^ 6)) + u32 (u32 acc * 2 ^ 16))
               - u32 acc) = u32 (acc * 65599 + b)) as ->.
  { set (r := u32 acc). rewrite u32_sub_l.
    replace (u32 (b + u32 (r * 2 ^ 6)) + u32 (r * 2 ^ 16) - r)
      with (u32 (b + u32 (r * 2 ^ 6)) + (u32 (r * 2 ^ 16) - r)) by lia.
    rewrite u32_add_l.
    replace (b + u32 (r * 2 ^ 6) + (u32 (r * 2 ^ 16) - r))
      with (u32 (r * 2 ^ 6) + (b + (u32 (r * 2 ^ 16) - r))) by lia.
    rewrite u32_add_l.
    replace (r * 2 ^ 6 + (b + (u32 (r * 2 ^ 16) - r)))
      with (u32 (r * 2 ^ 16) + (r * 2 ^ 6 + b - r)) by lia.
    rewrite u32_add_l.
    replace (r * 2 ^ 16 + (r * 2 ^ 6 + b - r)) with (r * 65599 + b) by lia.
    unfold r. rewrite <- (u32_add_l (u32 acc * 65599)), u32_mul_l.
    apply u32_add_l. }
  apply IH.
Qed.

Lemma strlen_terminated s rest :
  Forall (λ b, b ≠ 0) s → strlen (s ++ 0 :: rest) = Done (length s).
Proof.
  induction 1 as [|b s Hb _ IH]; [done|]. cbn [app strlen length].
  destruct (Z.eqb_spec b 0); [done|]. by rewrite IH.
Qed.

(** *** Properties of the hash functions *)

(** [evm_generate_eid] of NULL and of the empty string is 0.  Of a string
    that is not empty it is the value of its bytes as digits in base 33
    after the leading value 5381, modulo 2^32: the wrap-around of each step
    of [hash_djb2] amounts to one wrap-around at the end.  What follows the
    terminating NUL in the buffer plays no part. *)
Theorem generate_eid_value (s rest : list Z) :
  Forall (λ b, b ≠ 0) s →
  evm_generate_eid None = Done 0 ∧
  evm_generate_eid (Some (s ++ 0 :: rest)) =
    Done (if decide (s = []) then 0 else u32 (horner 33 5381 s)).
Proof.
  intros Hs. split; [done|]. unfold evm_generate_eid, strid.
  rewrite strlen_terminated by done. cbn. unfold hash_djb2.
  destruct s as [|b s]; [done|].
  rewrite bool_decide_eq_true_2 by (cbn; lia).
  rewrite bool_decide_eq_true_2 by (rewrite length_app; cbn; lia).
  rewrite take_app_length. rewrite decide_False by done.
  by rewrite <- djb2_loop_horner.
Qed.

Lemma generate_eid_value_witness :
  evm_generate_eid None = Done 0 ∧
  evm_generate_eid (Some ([101; 118] ++ 0 :: [7])) =
    Done (if decide ([101; 118] = []) then 0
          else u32 (horner 33 5381 [101; 118])).
Proof.
  apply (generate_eid_value [101; 118] [7]).
  repeat constructor; discriminate.
Defined.

(** [hash_sdbm] of NULL or of no bytes is 0; of the first [size] bytes of a
    buffer, [size] positive and inside the buffer, it is the value of those
    bytes as digits in base 65599, modulo 2^32: the two shifts and the
    subtraction of each step multiply by 65599.  A size beyond the buffer
    is a read out of bounds. *)
Theorem hash_sdbm_value (buf : list Z) (size : nat) :
  hash_sdbm None size = Done 0 ∧ hash_sdbm (Some buf) 0 = Done 0 ∧
  ((0 < size ≤ length buf)%nat →
   hash_sdbm (Some buf) size = Done (u32 (horner 65599 0 (take size buf)))) ∧
  ((length buf < size)%nat → hash_sdbm (Some buf) size = Crash).
Proof.
  split; [done|]. split; [done|]. split.
  - intros [H1 H2]. unfold hash_sdbm.
    rewrite !bool_decide_eq_true_2 by done.
    by rewrite <- sdbm_loop_horner.
  - intros H1. unfold hash_sdbm.
    rewrite bool_decide_eq_true_2 by lia.
    by rewrite bool_decide_eq_false_2 by lia.
Qed.

Lemma hash_sdbm_value_witness :
  hash_sdbm (Some [1; 2; 3]) 2 = Done (u32 (horner 65599 0 (take 2 [1; 2; 3])))
  ∧ hash_sdbm (Some [1; 2; 3]) 4 = Crash.
Proof.
  split.
  - apply (hash_sdbm_value [1; 2; 3] 2). cbn. lia.
  - apply (hash_sdbm_value [1; 2; 3] 4). cbn. lia.
Defined.

End HashFacts.
